(** * Static lighting build orchestrator (StaticLightingSystem.cpp)

    A shallow embedding of [FStaticLightingManager] and
    [FStaticLightingSystem]: the gather of meshes and mappings, the
    deterministic index assignment, and the build-stage state machine that
    the editor tick drives.

    Conventions of the embedding.
    - Objects that the code reaches through pointers live in stores
      ([gmap] from addresses to field records), so that two pointers to one
      object see each other's writes.  [new] takes an address that the
      store does not hold yet.
    - A call that would stop the editor ([check] failing, an array index
      out of range, a null or dangling pointer being dereferenced) makes
      the embedded function return [None].
    - [int32] and [uint32] values are [Z] with the wrap-around written out.
    - Calls into collaborators whose code is elsewhere (Swarm, Slate, the
      message log, the renderer) are recorded as [Event]s in a log; what
      such a call answers is read from an [Env] record.
    - Geometry (vertices, bounding boxes), timing statistics and texture
      encoding settings are floating point or pure bookkeeping and are left
      out.  With them go the reads that serve them: the geometry arrays of
      the model in the BSP loops, the module loads and the configuration
      reads; and the invalidation, the import and the application of the
      lighting data in [FinishLightmassProcess] are recorded as single
      events.  An embedded function can therefore return where the code
      stops at one of these; what is proved of a call that returns is not
      affected. *)

From stdpp Require Import gmap list strings.
From Stdlib Require Import ZArith Lia Sorted.

#[local] Open Scope Z_scope.

(** ** Machine integers *)

Definition int32_wrap (x : Z) : Z := (x + 2 ^ 31) `mod` 2 ^ 32 - 2 ^ 31.

Definition uint32_cast (x : Z) : Z := x `mod` 2 ^ 32.

Definition INT32_MAX : Z := 2 ^ 31 - 1.

Definition INDEX_NONE : Z := -1.

(** An address of an object in one of the stores. *)
Abbreviation ptr := nat (only parsing).

(** ** FGuid *)

Module FGuid.

Record t := mk { A : Z; B : Z; C : Z; D : Z }.

(** [FGuid(uint32 InA, uint32 InB, uint32 InC, uint32 InD)]; the callers
    of this file pass [int32] values, which the call converts. *)
Definition ctor (InA InB InC InD : Z) : t :=
  mk (uint32_cast InA) (uint32_cast InB) (uint32_cast InC) (uint32_cast InD).

End FGuid.

(** ** Meshes and mappings *)

Record FStaticLightingMesh := {
  Guid : FGuid.t;
  VisibilityIds : list Z;
  bCastShadow : bool
}.

Record FStaticLightingMapping := {
  Mesh : option ptr;          (* FStaticLightingMesh* Mesh, may be NULL *)
  bProcessMapping : bool;
  TexelCount : Z              (* what the virtual GetTexelCount() returns *)
}.

Record FStaticLightingMappingSortHelper := {
  NumTexels : Z;
  Mapping : ptr
}.

Definition set_Guid (v : FGuid.t) (m : FStaticLightingMesh) : FStaticLightingMesh :=
  {| Guid := v; VisibilityIds := VisibilityIds m; bCastShadow := bCastShadow m |}.

Definition set_VisibilityIds (v : list Z) (m : FStaticLightingMesh) : FStaticLightingMesh :=
  {| Guid := Guid m; VisibilityIds := v; bCastShadow := bCastShadow m |}.

Definition set_bProcessMapping (v : bool) (m : FStaticLightingMapping) : FStaticLightingMapping :=
  {| Mesh := Mesh m; bProcessMapping := v; TexelCount := TexelCount m |}.

(** ** Allocation *)

Section Alloc.
Context {V : Type}.

(** [new]: the object is placed at an address the store does not use. *)
Definition alloc (h : gmap nat V) (v : V) : nat * gmap nat V :=
  let p := fresh (dom h) in (p, <[p := v]> h).

Fixpoint alloc_list (h : gmap nat V) (vs : list V) : list nat * gmap nat V :=
  match vs with
  | [] => ([], h)
  | v :: vs' =>
      let '(p, h1) := alloc h v in
      let '(ps, h2) := alloc_list h1 vs' in
      (p :: ps, h2)
  end.

End Alloc.

(** ** Sorting *)

Section Sorting.
Context {T : Type}.
Variable Predicate : T -> T -> bool.

(** [insert_sorted x l] puts [x] behind the elements of [l] that the
    predicate orders strictly before it, and in front of all others. *)
Fixpoint insert_sorted (x : T) (l : list T) : list T :=
  match l with
  | [] => [x]
  | y :: l' => if Predicate y x then y :: insert_sorted x l' else x :: y :: l'
  end.

(** Modelled from the spec: [TArray::Sort(Predicate)].  [Sorting.h] and
    [Array.h] are not among the sources; the specification says of the
    texel-count sort that ties are broken by original gather order (stable
    sort).  The model is the stable insertion sort: every element is
    inserted, from the last to the first, in front of the elements that the
    predicate does not order strictly before it. *)
Definition Sort (l : list T) : list T := foldr insert_sorted [] l.

End Sorting.

(** [FCompareNumTexels::operator()]. *)
Definition FCompareNumTexels (A B : FStaticLightingMappingSortHelper) : bool :=
  NumTexels B <? NumTexels A.

(** ** The scene *)

Module EComponentMobility.
Inductive Type_ := Static | Stationary | Movable.
End EComponentMobility.

#[global] Instance EComponentMobility_eq_dec : EqDecision EComponentMobility.Type_.
Proof. solve_decision. Defined.

(** One mapping that a component's [GetStaticLightingInfo] creates:
    [MeshIndex] says which of the meshes created by the same call the
    mapping points to. *)
Record FMappingInit := {
  MeshIndex : option nat;
  bProcessMappingInit : bool;
  TexelCountInit : Z
}.

Module UPrimitiveComponent.

(** [GetStaticLightingInfo] is virtual and implemented by each component
    class outside this file.  What a call on the component creates is data
    of the component here: [InfoMeshes] are the meshes it allocates (with
    the field values their constructors leave), [InfoMappings] the
    mappings. *)
Record t := {
  VisibilityId : Z;
  IsRegistered : bool;
  Mobility : EComponentMobility.Type_;
  bStaticLightingBuildEnqueued : bool;
  InfoMeshes : list FStaticLightingMesh;
  InfoMappings : list FMappingInit
}.

Definition set_VisibilityId (v : Z) (c : t) : t :=
  {| VisibilityId := v; IsRegistered := IsRegistered c; Mobility := Mobility c;
     bStaticLightingBuildEnqueued := bStaticLightingBuildEnqueued c;
     InfoMeshes := InfoMeshes c; InfoMappings := InfoMappings c |}.

Definition set_bStaticLightingBuildEnqueued (v : bool) (c : t) : t :=
  {| VisibilityId := VisibilityId c; IsRegistered := IsRegistered c; Mobility := Mobility c;
     bStaticLightingBuildEnqueued := v;
     InfoMeshes := InfoMeshes c; InfoMappings := InfoMappings c |}.

End UPrimitiveComponent.

Module FStaticLightingPrimitiveInfo.

Record t := {
  VisibilityId : Z;
  Meshes : list ptr;
  Mappings : list ptr
}.

Definition set_VisibilityId (v : Z) (i : t) : t :=
  {| VisibilityId := v; Meshes := Meshes i; Mappings := Mappings i |}.

End FStaticLightingPrimitiveInfo.

Record ULightComponentBase := {
  bLightIsInWorld : bool;     (* has an owner that the world contains and that is not pending kill *)
  bAffectsWorld : bool;
  HasStaticShadowing : bool;
  HasStaticLighting : bool
}.

Record AActor := {
  IsSelected : bool;
  Components : list ptr       (* GetComponents(TArray<UPrimitiveComponent*>&) *)
}.

Record FBspNode := {
  iSurf : Z;
  ComponentIndex : nat
}.

Module FNodeGroup.

(** [Nodes] are indices into [Model->Nodes].  [SurfaceMesh] and
    [SurfaceMapping] are the fields of the [FBSPSurfaceStaticLighting]
    that [new] builds for the group, as its constructor (outside this
    file) leaves them; the object is a mesh and a mapping at once and is
    its own mesh. *)
Record t := {
  Nodes : list nat;
  SurfaceMesh : FStaticLightingMesh;
  SurfaceMapping : FStaticLightingMapping
}.

End FNodeGroup.

Module UModel.

(** [NodeGroups] is the map that [GroupAllNodes] (outside this file)
    fills, in iteration order. *)
Record t := {
  Nodes : list FBspNode;
  NodeGroups : list FNodeGroup.t
}.

End UModel.

(** [SelectedNodeGroups] stands for the array [NodeGroupsToBuild] that the
    selected-surface analysis of [GatherStaticLightingInfo] computes from
    the surface flags and the selected brushes; that analysis feeds nothing
    else and is embedded on its own, in [Selection]. *)
Record ULevel := {
  LevelId : nat;
  Actors : list (option AActor);
  Model : UModel.t;
  ModelComponents : list ptr;
  bGeometryDirtyForLighting : bool;
  SelectedNodeGroups : list (option FNodeGroup.t)
}.

Record UWorld := {
  Levels : list ULevel;
  bPrecomputeVisibility : bool;             (* GetWorldSettings()->bPrecomputeVisibility *)
  bForceNoPrecomputedLighting : bool;       (* GetWorldSettings()->bForceNoPrecomputedLighting *)
  HasScene : bool                           (* World->Scene != NULL *)
}.

Record FLightingBuildOptions := {
  bOnlyBuildSelected : bool;
  bOnlyBuildVisibility : bool;
  bDumpBinaryResults : bool;
  ShouldBuildLightingForLevel : ULevel -> bool
}.

Record FLightmassDebugOptions := {
  bSortMappings : bool;
  bUseImmediateImport : bool;
  bImmediateProcessMappings : bool
}.

(** ** Collaborators *)

Inductive FText :=
| FText_Empty
| LOCTEXT (Key : string)
| FText_Format (Key : string) (Arg : Z).

Definition FText_IsEmpty (Text : FText) : bool :=
  match Text with FText_Empty => true | _ => false end.

Inductive ECompletionState := CS_None | CS_Pending | CS_Success | CS_Fail.

(** A notification item of the Slate notification manager.  The manager
    keeps every item it was given; a handle to an item is its position. *)
Record SNotificationItem := {
  Text : FText;
  CompletionState : ECompletionState;
  bExpireAndFadeout : bool
}.

Definition SetCompletionState (v : ECompletionState) (n : SNotificationItem) : SNotificationItem :=
  {| Text := Text n; CompletionState := v; bExpireAndFadeout := bExpireAndFadeout n |}.

Definition SetText (v : FText) (n : SNotificationItem) : SNotificationItem :=
  {| Text := v; CompletionState := CompletionState n; bExpireAndFadeout := bExpireAndFadeout n |}.

Definition ExpireAndFadeout (n : SNotificationItem) : SNotificationItem :=
  {| Text := Text n; CompletionState := CompletionState n; bExpireAndFadeout := true |}.

(** Calls that leave this file. *)
Inductive Event :=
| MarkPackageDirty (Level : nat)
| UE_LOG_Warning (Message : string)
| MessageLog_Warning (Key : string)
| MessageLog_Error (Key : string)
| MessageLog_Open
| MessageDialog_Open (Key : string)
| Exec_MapRebuildAllDirtyForLighting
| GroupAllNodes (Level : nat)
| BeginSlowTask
| EndSlowTask
| ClearBinaryDumps
| DeterministicLightingError (Mapping : ptr)
| Swarm_Initialize
| NewLightmassProcessor
| DeleteLightmassProcessor
| SetImportCompletedMappingsImmediately (b : bool)
| ExportMeshInstance (Mesh : ptr)
| ExportMapping (Mapping : ptr)
| OpenJob
| InitiateExport
| ExecuteAmortizedMaterialExport
| BeginRun
| Update
| CompleteRun
| CloseJob
| SetCrashTrackingEnabled (b : bool)
| InvalidateStaticLighting
| CompleteDeterministicMappings
| ReassignStationaryLightChannels
| EncodeTextures (bLightingSuccessful : bool)
| ApplyNewLightingData (bLightingSuccessful : bool)
| PostInvalidateStaticLighting
| ReportStatistics
| UpdateAllCaptures
| OnLightingBuildKept
| OnLightingBuildStarted
| CloseTextureEditors.

(** What the collaborators answer during one call into this file. *)
Record Env := {
  bAllowStaticLighting : bool;              (* r.AllowStaticLighting absent or non-zero *)
  bRebuildDirtyGeometryForLighting : bool;  (* DevOptions.StaticLighting in the Lightmass ini *)
  IsSwarmConnectionIsValid : bool;
  OpenJob_Result : bool;
  CrashTracker : option bool;               (* the module if loaded, and IsCurrentlyCapturing() *)
  ExecuteAmortizedMaterialExport_Result : bool;
  AmortizedExportPercentDone : Z;
  BeginRun_Result : bool;
  Update_Result : bool;
  AsyncPercentDone : Z;
  IsProcessingCompletedSuccessfully : bool;
  CompleteRun_Result : bool;
  CloseJob_Result : bool;
  bAutoApplyLightingEnable : bool;
  GIsSlowTask : bool;
  IsModeActive_EM_InterpEdit : bool;
  PlayWorld : bool;                         (* GUnrealEd->PlayWorld != nullptr *)
  AnyMenusVisible : bool;
  GIsDemoMode : bool;
  HasGameName : bool
}.

(** ** Process-wide state outside the manager *)

Record Globals := {
  GWorld : UWorld;
  LightComponents : list ULightComponentBase;              (* TObjectIterator<ULightComponentBase> *)
  PrimitiveComponents : gmap nat UPrimitiveComponent.t;    (* TObjectIterator<UPrimitiveComponent> *)
  MeshObjects : gmap nat FStaticLightingMesh;
  MappingObjects : gmap nat FStaticLightingMapping;
  GLightmassDebugOptions : FLightmassDebugOptions;
  bMapBuildCancelled : bool;                               (* GEditor->GetMapBuildCancelled() *)
  Notifications : list SNotificationItem;
  Log : list Event
}.

Definition set_PrimitiveComponents (v : gmap nat UPrimitiveComponent.t) (g : Globals) : Globals :=
  {| GWorld := GWorld g; LightComponents := LightComponents g; PrimitiveComponents := v;
     MeshObjects := MeshObjects g; MappingObjects := MappingObjects g;
     GLightmassDebugOptions := GLightmassDebugOptions g;
     bMapBuildCancelled := bMapBuildCancelled g; Notifications := Notifications g; Log := Log g |}.

Definition set_MeshObjects (v : gmap nat FStaticLightingMesh) (g : Globals) : Globals :=
  {| GWorld := GWorld g; LightComponents := LightComponents g;
     PrimitiveComponents := PrimitiveComponents g;
     MeshObjects := v; MappingObjects := MappingObjects g;
     GLightmassDebugOptions := GLightmassDebugOptions g;
     bMapBuildCancelled := bMapBuildCancelled g; Notifications := Notifications g; Log := Log g |}.

Definition set_MappingObjects (v : gmap nat FStaticLightingMapping) (g : Globals) : Globals :=
  {| GWorld := GWorld g; LightComponents := LightComponents g;
     PrimitiveComponents := PrimitiveComponents g;
     MeshObjects := MeshObjects g; MappingObjects := v;
     GLightmassDebugOptions := GLightmassDebugOptions g;
     bMapBuildCancelled := bMapBuildCancelled g; Notifications := Notifications g; Log := Log g |}.

Definition SetMapBuildCancelled (v : bool) (g : Globals) : Globals :=
  {| GWorld := GWorld g; LightComponents := LightComponents g;
     PrimitiveComponents := PrimitiveComponents g;
     MeshObjects := MeshObjects g; MappingObjects := MappingObjects g;
     GLightmassDebugOptions := GLightmassDebugOptions g;
     bMapBuildCancelled := v; Notifications := Notifications g; Log := Log g |}.

Definition set_Notifications (v : list SNotificationItem) (g : Globals) : Globals :=
  {| GWorld := GWorld g; LightComponents := LightComponents g;
     PrimitiveComponents := PrimitiveComponents g;
     MeshObjects := MeshObjects g; MappingObjects := MappingObjects g;
     GLightmassDebugOptions := GLightmassDebugOptions g;
     bMapBuildCancelled := bMapBuildCancelled g; Notifications := v; Log := Log g |}.

Definition set_Log (v : list Event) (g : Globals) : Globals :=
  {| GWorld := GWorld g; LightComponents := LightComponents g;
     PrimitiveComponents := PrimitiveComponents g;
     MeshObjects := MeshObjects g; MappingObjects := MappingObjects g;
     GLightmassDebugOptions := GLightmassDebugOptions g;
     bMapBuildCancelled := bMapBuildCancelled g; Notifications := Notifications g; Log := v |}.

(** The call is appended to the log. *)
Definition emit (e : Event) (g : Globals) : Globals := set_Log (Log g ++ [e]) g.

Definition emits (es : list Event) (g : Globals) : Globals := set_Log (Log g ++ es) g.

(** ** The system *)

Inductive EBuildStage :=
| NotRunning
| Startup
| AmortizedExport
| SwarmKickoff
| AsynchronousBuilding
| AutoApplyingImport
| WaitingForImport
| Import.

#[global] Instance EBuildStage_eq_dec : EqDecision EBuildStage.
Proof. solve_decision. Defined.

(** The Lightmass processor is outside this file; of its state only the
    flag this file sets is kept. *)
Record FLightmassProcessor := {
  bImportCompletedMappingsImmediately : bool
}.

Module FStaticLightingSystem.

(** The member [World] is the world the system was constructed on, which
    is [GWorld]; it is read from the globals. *)
Record t := {
  Options : FLightingBuildOptions;
  bBuildCanceled : bool;
  DeterministicIndex : Z;
  NextVisibilityId : Z;
  CurrentBuildStage : EBuildStage;
  bCrashTrackerOriginallyEnabled : bool;
  LightmassProcessor : option FLightmassProcessor;
  Lights : list ULightComponentBase;
  Meshes : list ptr;
  Mappings : list ptr;
  UnSortedMappings : list FStaticLightingMappingSortHelper
}.

Definition set_bBuildCanceled (v : bool) (s : t) : t :=
  {| Options := Options s; bBuildCanceled := v;
     DeterministicIndex := DeterministicIndex s; NextVisibilityId := NextVisibilityId s;
     CurrentBuildStage := CurrentBuildStage s;
     bCrashTrackerOriginallyEnabled := bCrashTrackerOriginallyEnabled s;
     LightmassProcessor := LightmassProcessor s; Lights := Lights s; Meshes := Meshes s;
     Mappings := Mappings s; UnSortedMappings := UnSortedMappings s |}.

Definition set_DeterministicIndex (v : Z) (s : t) : t :=
  {| Options := Options s; bBuildCanceled := bBuildCanceled s; DeterministicIndex := v;
     NextVisibilityId := NextVisibilityId s; CurrentBuildStage := CurrentBuildStage s;
     bCrashTrackerOriginallyEnabled := bCrashTrackerOriginallyEnabled s;
     LightmassProcessor := LightmassProcessor s; Lights := Lights s; Meshes := Meshes s;
     Mappings := Mappings s; UnSortedMappings := UnSortedMappings s |}.

Definition set_NextVisibilityId (v : Z) (s : t) : t :=
  {| Options := Options s; bBuildCanceled := bBuildCanceled s;
     DeterministicIndex := DeterministicIndex s; NextVisibilityId := v;
     CurrentBuildStage := CurrentBuildStage s;
     bCrashTrackerOriginallyEnabled := bCrashTrackerOriginallyEnabled s;
     LightmassProcessor := LightmassProcessor s; Lights := Lights s; Meshes := Meshes s;
     Mappings := Mappings s; UnSortedMappings := UnSortedMappings s |}.

Definition set_CurrentBuildStage (v : EBuildStage) (s : t) : t :=
  {| Options := Options s; bBuildCanceled := bBuildCanceled s;
     DeterministicIndex := DeterministicIndex s; NextVisibilityId := NextVisibilityId s;
     CurrentBuildStage := v;
     bCrashTrackerOriginallyEnabled := bCrashTrackerOriginallyEnabled s;
     LightmassProcessor := LightmassProcessor s; Lights := Lights s; Meshes := Meshes s;
     Mappings := Mappings s; UnSortedMappings := UnSortedMappings s |}.

Definition set_bCrashTrackerOriginallyEnabled (v : bool) (s : t) : t :=
  {| Options := Options s; bBuildCanceled := bBuildCanceled s;
     DeterministicIndex := DeterministicIndex s; NextVisibilityId := NextVisibilityId s;
     CurrentBuildStage := CurrentBuildStage s; bCrashTrackerOriginallyEnabled := v;
     LightmassProcessor := LightmassProcessor s; Lights := Lights s; Meshes := Meshes s;
     Mappings := Mappings s; UnSortedMappings := UnSortedMappings s |}.

Definition set_LightmassProcessor (v : option FLightmassProcessor) (s : t) : t :=
  {| Options := Options s; bBuildCanceled := bBuildCanceled s;
     DeterministicIndex := DeterministicIndex s; NextVisibilityId := NextVisibilityId s;
     CurrentBuildStage := CurrentBuildStage s;
     bCrashTrackerOriginallyEnabled := bCrashTrackerOriginallyEnabled s;
     LightmassProcessor := v; Lights := Lights s; Meshes := Meshes s;
     Mappings := Mappings s; UnSortedMappings := UnSortedMappings s |}.

Definition set_Lights (v : list ULightComponentBase) (s : t) : t :=
  {| Options := Options s; bBuildCanceled := bBuildCanceled s;
     DeterministicIndex := DeterministicIndex s; NextVisibilityId := NextVisibilityId s;
     CurrentBuildStage := CurrentBuildStage s;
     bCrashTrackerOriginallyEnabled := bCrashTrackerOriginallyEnabled s;
     LightmassProcessor := LightmassProcessor s; Lights := v; Meshes := Meshes s;
     Mappings := Mappings s; UnSortedMappings := UnSortedMappings s |}.

Definition set_Meshes (v : list ptr) (s : t) : t :=
  {| Options := Options s; bBuildCanceled := bBuildCanceled s;
     DeterministicIndex := DeterministicIndex s; NextVisibilityId := NextVisibilityId s;
     CurrentBuildStage := CurrentBuildStage s;
     bCrashTrackerOriginallyEnabled := bCrashTrackerOriginallyEnabled s;
     LightmassProcessor := LightmassProcessor s; Lights := Lights s; Meshes := v;
     Mappings := Mappings s; UnSortedMappings := UnSortedMappings s |}.

Definition set_Mappings (v : list ptr) (s : t) : t :=
  {| Options := Options s; bBuildCanceled := bBuildCanceled s;
     DeterministicIndex := DeterministicIndex s; NextVisibilityId := NextVisibilityId s;
     CurrentBuildStage := CurrentBuildStage s;
     bCrashTrackerOriginallyEnabled := bCrashTrackerOriginallyEnabled s;
     LightmassProcessor := LightmassProcessor s; Lights := Lights s; Meshes := Meshes s;
     Mappings := v; UnSortedMappings := UnSortedMappings s |}.

Definition set_UnSortedMappings (v : list FStaticLightingMappingSortHelper) (s : t) : t :=
  {| Options := Options s; bBuildCanceled := bBuildCanceled s;
     DeterministicIndex := DeterministicIndex s; NextVisibilityId := NextVisibilityId s;
     CurrentBuildStage := CurrentBuildStage s;
     bCrashTrackerOriginallyEnabled := bCrashTrackerOriginallyEnabled s;
     LightmassProcessor := LightmassProcessor s; Lights := Lights s; Meshes := Meshes s;
     Mappings := Mappings s; UnSortedMappings := v |}.

(** The constructor. *)
Definition ctor (InOptions : FLightingBuildOptions) : t :=
  {| Options := InOptions; bBuildCanceled := false; DeterministicIndex := 0;
     NextVisibilityId := 0; CurrentBuildStage := NotRunning;
     bCrashTrackerOriginallyEnabled := false; LightmassProcessor := None;
     Lights := []; Meshes := []; Mappings := []; UnSortedMappings := [] |}.

End FStaticLightingSystem.

(** What a method of the system works on when it does not call back into
    the manager: the fields of [this] and the globals. *)
Abbreviation SystemState := (FStaticLightingSystem.t * Globals)%type (only parsing).

(** ** Gathering the scene *)

(** [TArray::AddUnique]. *)
Definition AddUnique `{EqDecision T} (x : T) (l : list T) : list T :=
  if decide (x ∈ l) then l else l ++ [x].

(** The call [Primitive->GetStaticLightingInfo(PrimitiveInfo, ...)] on a
    default-constructed [PrimitiveInfo]: the meshes and mappings that the
    component creates are allocated, and the info lists them. *)
Definition GetStaticLightingInfo (Primitive : UPrimitiveComponent.t) (g : Globals)
    : FStaticLightingPrimitiveInfo.t * Globals :=
  let '(MeshPtrs, mh) := alloc_list (MeshObjects g) (UPrimitiveComponent.InfoMeshes Primitive) in
  let NewMapping (i : FMappingInit) :=
    {| Mesh := MeshIndex i ≫= (MeshPtrs !!.);
       bProcessMapping := bProcessMappingInit i;
       TexelCount := TexelCountInit i |} in
  let '(MappingPtrs, ph) :=
    alloc_list (MappingObjects g) (NewMapping <$> UPrimitiveComponent.InfoMappings Primitive) in
  ({| FStaticLightingPrimitiveInfo.VisibilityId := INDEX_NONE;
      FStaticLightingPrimitiveInfo.Meshes := MeshPtrs;
      FStaticLightingPrimitiveInfo.Mappings := MappingPtrs |},
   set_MappingObjects ph (set_MeshObjects mh g)).

(** A write through a mesh pointer. *)
Definition UpdateMesh (MeshPtr : ptr) (f : FStaticLightingMesh -> FStaticLightingMesh)
    (g : Globals) : option Globals :=
  Mesh ← MeshObjects g !! MeshPtr;
  Some (set_MeshObjects (<[MeshPtr := f Mesh]> (MeshObjects g)) g).

(** A write through a mapping pointer. *)
Definition UpdateMapping (MappingPtr : ptr) (f : FStaticLightingMapping -> FStaticLightingMapping)
    (g : Globals) : option Globals :=
  CurrentMapping ← MappingObjects g !! MappingPtr;
  Some (set_MappingObjects (<[MappingPtr := f CurrentMapping]> (MappingObjects g)) g).

(** [Mesh->Guid = FGuid(0,0,0,DeterministicIndex++)]. *)
Definition AssignDeterministicGuid (MeshPtr : ptr) (st : SystemState) : option SystemState :=
  let '(this, g) := st in
  g ← UpdateMesh MeshPtr
        (set_Guid (FGuid.ctor 0 0 0 (FStaticLightingSystem.DeterministicIndex this))) g;
  Some (FStaticLightingSystem.set_DeterministicIndex
          (int32_wrap (FStaticLightingSystem.DeterministicIndex this + 1)) this, g).

(** [Mappings.Add(CurrentMapping)], or, when mappings are sorted, the
    entry of [UnSortedMappings] for it. *)
Definition AddMapping (MappingPtr : ptr) (st : SystemState) : option SystemState :=
  let '(this, g) := st in
  if bSortMappings (GLightmassDebugOptions g) then
    CurrentMapping ← MappingObjects g !! MappingPtr;
    Some (FStaticLightingSystem.set_UnSortedMappings
            (FStaticLightingSystem.UnSortedMappings this ++
               [{| NumTexels := TexelCount CurrentMapping; Mapping := MappingPtr |}]) this, g)
  else
    Some (FStaticLightingSystem.set_Mappings
            (FStaticLightingSystem.Mappings this ++ [MappingPtr]) this, g).

Definition AddMesh (MeshPtr : ptr) (st : SystemState) : SystemState :=
  (FStaticLightingSystem.set_Meshes (FStaticLightingSystem.Meshes st.1 ++ [MeshPtr]) st.1, st.2).

(** The first loop of [AddPrimitiveStaticLightingInfo]: the component's
    meshes are added to the system. *)
Fixpoint AddPrimitiveStaticLightingInfo_Meshes (VisibilityId : Z) (bBuildActorLighting : bool)
    (Meshes : list ptr) (st : SystemState) : option SystemState :=
  match Meshes with
  | [] => Some st
  | MeshPtr :: Meshes' =>
      g ← UpdateMesh MeshPtr (λ Mesh, set_VisibilityIds (VisibilityIds Mesh ++ [VisibilityId]) Mesh)
            st.2;
      st ← (if negb (bSortMappings (GLightmassDebugOptions g)) && bBuildActorLighting
            then AssignDeterministicGuid MeshPtr (st.1, g)
            else Some (st.1, g));
      AddPrimitiveStaticLightingInfo_Meshes VisibilityId bBuildActorLighting Meshes'
        (AddMesh MeshPtr st)
  end.

(** The second loop: the component's mappings are added. *)
Fixpoint AddPrimitiveStaticLightingInfo_Mappings (bBuildActorLighting : bool)
    (Mappings : list ptr) (st : SystemState) : option SystemState :=
  match Mappings with
  | [] => Some st
  | MappingPtr :: Mappings' =>
      g ← (if bBuildActorLighting then UpdateMapping MappingPtr (set_bProcessMapping true) st.2
           else Some st.2);
      st ← AddMapping MappingPtr (st.1, g);
      AddPrimitiveStaticLightingInfo_Mappings bBuildActorLighting Mappings' st
  end.

Definition AddPrimitiveStaticLightingInfo (PrimitiveInfo : FStaticLightingPrimitiveInfo.t)
    (bBuildActorLighting : bool) (st : SystemState) : option SystemState :=
  (* check(PrimitiveInfo.Meshes.Num() == PrimitiveInfo.Mappings.Num()) *)
  if bool_decide (length (FStaticLightingPrimitiveInfo.Meshes PrimitiveInfo)
                  = length (FStaticLightingPrimitiveInfo.Mappings PrimitiveInfo))
  then
    st ← AddPrimitiveStaticLightingInfo_Meshes
           (FStaticLightingPrimitiveInfo.VisibilityId PrimitiveInfo) bBuildActorLighting
           (FStaticLightingPrimitiveInfo.Meshes PrimitiveInfo) st;
    AddPrimitiveStaticLightingInfo_Mappings bBuildActorLighting
      (FStaticLightingPrimitiveInfo.Mappings PrimitiveInfo) st
  else None.

(** Whether the gather gives the primitive a visibility id: its query
    produced a mesh and it is static. *)
Definition GetsVisibilityId (PrimitiveInfo : FStaticLightingPrimitiveInfo.t)
    (Primitive : UPrimitiveComponent.t) : bool :=
  bool_decide (0 < length (FStaticLightingPrimitiveInfo.Meshes PrimitiveInfo))%nat
  && bool_decide (UPrimitiveComponent.Mobility Primitive = EComponentMobility.Static).

(** The body of the loop over an actor's components in
    [GatherStaticLightingInfo]. *)
Definition GatherStaticLightingInfo_Component (bForceNoPrecomputedLighting bBuildActorLighting : bool)
    (PrimitivePtr : ptr) (bMarkLevelDirty : bool) (st : SystemState)
    : option (bool * SystemState) :=
  let '(this, g) := st in
  Primitive ← PrimitiveComponents g !! PrimitivePtr;
  if UPrimitiveComponent.IsRegistered Primitive && negb bForceNoPrecomputedLighting then
    let '(PrimitiveInfo, g) := GetStaticLightingInfo Primitive g in
    if GetsVisibilityId PrimitiveInfo Primitive then
      let bMarkLevelDirty := bMarkLevelDirty || bPrecomputeVisibility (GWorld g) in
      let Id := FStaticLightingSystem.NextVisibilityId this in
      let g := set_PrimitiveComponents
                 (<[PrimitivePtr := UPrimitiveComponent.set_VisibilityId Id Primitive]>
                    (PrimitiveComponents g)) g in
      let PrimitiveInfo := FStaticLightingPrimitiveInfo.set_VisibilityId Id PrimitiveInfo in
      let this := FStaticLightingSystem.set_NextVisibilityId (int32_wrap (Id + 1)) this in
      st ← AddPrimitiveStaticLightingInfo PrimitiveInfo bBuildActorLighting (this, g);
      Some (bMarkLevelDirty, st)
    else
      st ← AddPrimitiveStaticLightingInfo PrimitiveInfo bBuildActorLighting (this, g);
      Some (bMarkLevelDirty, st)
  else Some (bMarkLevelDirty, st).

Fixpoint GatherStaticLightingInfo_Components (bForceNoPrecomputedLighting bBuildActorLighting : bool)
    (Components : list ptr) (bMarkLevelDirty : bool) (st : SystemState)
    : option (bool * SystemState) :=
  match Components with
  | [] => Some (bMarkLevelDirty, st)
  | PrimitivePtr :: Components' =>
      '(bMarkLevelDirty, st) ← GatherStaticLightingInfo_Component bForceNoPrecomputedLighting
                                 bBuildActorLighting PrimitivePtr bMarkLevelDirty st;
      GatherStaticLightingInfo_Components bForceNoPrecomputedLighting bBuildActorLighting
        Components' bMarkLevelDirty st
  end.

(** [Components[ComponentIndex]->bStaticLightingBuildEnqueued = true] for
    every component of the actor. *)
Fixpoint EnqueueComponents (Components : list ptr) (g : Globals) : option Globals :=
  match Components with
  | [] => Some g
  | PrimitivePtr :: Components' =>
      Primitive ← PrimitiveComponents g !! PrimitivePtr;
      EnqueueComponents Components'
        (set_PrimitiveComponents
           (<[PrimitivePtr := UPrimitiveComponent.set_bStaticLightingBuildEnqueued true Primitive]>
              (PrimitiveComponents g)) g)
  end.

Module GatherLocals.

(** The locals that the loops of [GatherStaticLightingInfo] carry. *)
Record t := {
  bMarkLevelDirty : bool;
  bObjectsToBuildLightingForFound : bool
}.

End GatherLocals.

(** The body of the loop over the actors of a level. *)
Definition GatherStaticLightingInfo_Actor (bForceNoPrecomputedLighting bBuildLightingForLevel : bool)
    (Actor : option AActor) (loc : GatherLocals.t) (st : SystemState)
    : option (GatherLocals.t * SystemState) :=
  match Actor with
  | None => Some (loc, st)
  | Some Actor =>
      let '(this, g) := st in
      let bBuildActorLighting :=
        bBuildLightingForLevel
        && (negb (bOnlyBuildSelected (FStaticLightingSystem.Options this)) || IsSelected Actor) in
      g ← (if bBuildActorLighting && negb (bOnlyBuildVisibility (FStaticLightingSystem.Options this))
           then EnqueueComponents (Components Actor) g else Some g);
      '(bMark, st) ← GatherStaticLightingInfo_Components bForceNoPrecomputedLighting
                       bBuildActorLighting (Components Actor) (GatherLocals.bMarkLevelDirty loc) (this, g);
      Some ({| GatherLocals.bMarkLevelDirty := bMark;
               GatherLocals.bObjectsToBuildLightingForFound :=
                 GatherLocals.bObjectsToBuildLightingForFound loc || bBuildActorLighting |}, st)
  end.

Fixpoint GatherStaticLightingInfo_Actors (bForceNoPrecomputedLighting bBuildLightingForLevel : bool)
    (Actors : list (option AActor)) (loc : GatherLocals.t) (st : SystemState)
    : option (GatherLocals.t * SystemState) :=
  match Actors with
  | [] => Some (loc, st)
  | Actor :: Actors' =>
      '(loc, st) ← GatherStaticLightingInfo_Actor bForceNoPrecomputedLighting
                     bBuildLightingForLevel Actor loc st;
      GatherStaticLightingInfo_Actors bForceNoPrecomputedLighting bBuildLightingForLevel
        Actors' loc st
  end.

(** [new FBSPSurfaceStaticLighting(NodeGroup, Model, SomeModelComponent)]:
    one object that is a mesh and a mapping; it has a cell in each store
    and the mapping cell points to the mesh cell. *)
Definition NewBSPSurfaceStaticLighting (NodeGroup : FNodeGroup.t) (g : Globals)
    : ptr * ptr * Globals :=
  let '(MeshPtr, mh) := alloc (MeshObjects g) (FNodeGroup.SurfaceMesh NodeGroup) in
  let '(MappingPtr, ph) :=
    alloc (MappingObjects g)
      {| Mesh := Some MeshPtr;
         bProcessMapping := bProcessMapping (FNodeGroup.SurfaceMapping NodeGroup);
         TexelCount := TexelCount (FNodeGroup.SurfaceMapping NodeGroup) |} in
  (MeshPtr, MappingPtr, set_MappingObjects ph (set_MeshObjects mh g)).

(** [Level->ModelComponents[Model->Nodes[NodeIndex].ComponentIndex]]. *)
Definition NodeComponent (Level : ULevel) (NodeIndex : nat) : option ptr :=
  Node ← UModel.Nodes (Model Level) !! NodeIndex;
  ModelComponents Level !! ComponentIndex Node.

(** The loop over the nodes of a group in the whole-level
    [AddBSPStaticLightingInfo], as far as it concerns visibility ids. *)
Fixpoint AddBSPStaticLightingInfo_Nodes (Level : ULevel) (Nodes : list nat)
    (ComponentVisibilityIds : list Z) (bMarkLevelDirty : bool) (st : SystemState)
    : option (list Z * bool * SystemState) :=
  match Nodes with
  | [] => Some (ComponentVisibilityIds, bMarkLevelDirty, st)
  | NodeIndex :: Nodes' =>
      let '(this, g) := st in
      ComponentPtr ← NodeComponent Level NodeIndex;
      Component ← PrimitiveComponents g !! ComponentPtr;
      if bool_decide (UPrimitiveComponent.VisibilityId Component = INDEX_NONE) then
        let Id := FStaticLightingSystem.NextVisibilityId this in
        AddBSPStaticLightingInfo_Nodes Level Nodes'
          (AddUnique Id ComponentVisibilityIds)
          (bMarkLevelDirty || bPrecomputeVisibility (GWorld g))
          (FStaticLightingSystem.set_NextVisibilityId (int32_wrap (Id + 1)) this,
           set_PrimitiveComponents
             (<[ComponentPtr := UPrimitiveComponent.set_VisibilityId Id Component]>
                (PrimitiveComponents g)) g)
      else
        AddBSPStaticLightingInfo_Nodes Level Nodes'
          (AddUnique (UPrimitiveComponent.VisibilityId Component) ComponentVisibilityIds)
          bMarkLevelDirty st
  end.

(** The body of the loop over the node groups of the model in
    [AddBSPStaticLightingInfo(Level, bBuildLightingForBSP)]. *)
Definition AddBSPStaticLightingInfo_NodeGroup (Level : ULevel) (bBuildLightingForBSP : bool)
    (NodeGroup : FNodeGroup.t) (bMarkLevelDirty : bool) (st : SystemState)
    : option (bool * SystemState) :=
  match FNodeGroup.Nodes NodeGroup with
  | [] => Some (bMarkLevelDirty, st)
  | Node0 :: _ =>
      SomeModelComponent ← NodeComponent Level Node0;
      '(ComponentVisibilityIds, bMarkLevelDirty, st) ←
        AddBSPStaticLightingInfo_Nodes Level (FNodeGroup.Nodes NodeGroup) [] bMarkLevelDirty st;
      let '(MeshPtr, MappingPtr, g) := NewBSPSurfaceStaticLighting NodeGroup st.2 in
      g ← UpdateMesh MeshPtr (set_VisibilityIds ComponentVisibilityIds) g;
      st ← AddMapping MappingPtr (AddMesh MeshPtr (st.1, g));
      st ← (if negb (bSortMappings (GLightmassDebugOptions st.2)) && bBuildLightingForBSP
            then CurrentMapping ← MappingObjects st.2 !! MappingPtr;
                 MeshOfMapping ← Mesh CurrentMapping;
                 AssignDeterministicGuid MeshOfMapping st
            else Some st);
      g ← (if bBuildLightingForBSP then UpdateMapping MappingPtr (set_bProcessMapping true) st.2
           else Some st.2);
      Some (bMarkLevelDirty, (st.1, g))
  end.

Fixpoint AddBSPStaticLightingInfo_NodeGroups (Level : ULevel) (bBuildLightingForBSP : bool)
    (NodeGroups : list FNodeGroup.t) (bMarkLevelDirty : bool) (st : SystemState)
    : option (bool * SystemState) :=
  match NodeGroups with
  | [] => Some (bMarkLevelDirty, st)
  | NodeGroup :: NodeGroups' =>
      '(bMarkLevelDirty, st) ← AddBSPStaticLightingInfo_NodeGroup Level bBuildLightingForBSP
                                 NodeGroup bMarkLevelDirty st;
      AddBSPStaticLightingInfo_NodeGroups Level bBuildLightingForBSP NodeGroups'
        bMarkLevelDirty st
  end.

(** [AddBSPStaticLightingInfo(ULevel* Level, bool bBuildLightingForBSP)]:
    mappings and meshes for all BSP of the level. *)
Definition AddBSPStaticLightingInfo (Level : ULevel) (bBuildLightingForBSP : bool)
    (st : SystemState) : option SystemState :=
  let st := (st.1, emit (GroupAllNodes (LevelId Level)) st.2) in
  '(bMarkLevelDirty, st) ← AddBSPStaticLightingInfo_NodeGroups Level bBuildLightingForBSP
                             (UModel.NodeGroups (Model Level)) false st;
  Some (if bMarkLevelDirty : bool
        then (st.1, emit (MarkPackageDirty (LevelId Level)) st.2) else st).

(** The body of the loop of
    [AddBSPStaticLightingInfo(ULevel* Level, TArray<FNodeGroup*>& NodeGroupsToBuild)]. *)
Definition AddBSPStaticLightingInfo_Selected_NodeGroup (Level : ULevel)
    (NodeGroup : option FNodeGroup.t) (st : SystemState) : option SystemState :=
  match NodeGroup with
  | None => Some st
  | Some NodeGroup =>
      match FNodeGroup.Nodes NodeGroup with
      | [] => Some st
      | Node0 :: _ =>
          SomeModelComponent ← NodeComponent Level Node0;
          _ ← mapM (UModel.Nodes (Model Level) !!.) (FNodeGroup.Nodes NodeGroup);
          let '(MeshPtr, MappingPtr, g) := NewBSPSurfaceStaticLighting NodeGroup st.2 in
          st ← AddMapping MappingPtr (AddMesh MeshPtr (st.1, g));
          st ← (if negb (bSortMappings (GLightmassDebugOptions st.2))
                then CurrentMapping ← MappingObjects st.2 !! MappingPtr;
                     MeshOfMapping ← Mesh CurrentMapping;
                     AssignDeterministicGuid MeshOfMapping st
                else Some st);
          g ← UpdateMapping MappingPtr (set_bProcessMapping true) st.2;
          Some (st.1, g)
      end
  end.

Fixpoint AddBSPStaticLightingInfo_Selected (Level : ULevel)
    (NodeGroupsToBuild : list (option FNodeGroup.t)) (st : SystemState) : option SystemState :=
  match NodeGroupsToBuild with
  | [] => Some st
  | NodeGroup :: NodeGroupsToBuild' =>
      st ← AddBSPStaticLightingInfo_Selected_NodeGroup Level NodeGroup st;
      AddBSPStaticLightingInfo_Selected Level NodeGroupsToBuild' st
  end.

(** The body of the loop over the levels of the world in
    [GatherStaticLightingInfo]. *)
Definition GatherStaticLightingInfo_Level
    (bRebuildDirtyGeometryForLighting bForceNoPrecomputedLighting : bool)
    (Level : ULevel) (bObjectsToBuildLightingForFound : bool) (st : SystemState)
    : option (bool * SystemState) :=
  let '(this, g) := st in
  let Options := FStaticLightingSystem.Options this in
  let g :=
    if bGeometryDirtyForLighting Level then
      let g :=
        emit (UE_LOG_Warning "WARNING: Lighting build detected that geometry needs to be rebuilt to avoid incorrect lighting (due to modifying a lighting property).") g in
      if bRebuildDirtyGeometryForLighting
      then emit Exec_MapRebuildAllDirtyForLighting
             (emit (UE_LOG_Warning "WARNING: Lighting build automatically rebuilding geometry.") g)
      else g
    else g in
  let bBuildLightingForLevel := ShouldBuildLightingForLevel Options Level in
  (* Build only selected brushes/surfaces *)
  let bSelectedBSP :=
    bBuildLightingForLevel && negb (bOnlyBuildVisibility Options) && bOnlyBuildSelected Options in
  let g := if bSelectedBSP then emit (GroupAllNodes (LevelId Level)) g else g in
  let NodeGroupsToBuild := if bSelectedBSP then SelectedNodeGroups Level else [] in
  let bBuildBSPLighting :=
    if bSelectedBSP then bool_decide (NodeGroupsToBuild ≠ []) else bBuildLightingForLevel in
  '(bObjectsToBuildLightingForFound, st) ←
    (if bBuildBSPLighting && negb bForceNoPrecomputedLighting then
       if negb (bOnlyBuildSelected Options) || bOnlyBuildVisibility Options then
         (* generate BSP mappings across the whole level *)
         st ← AddBSPStaticLightingInfo Level bBuildBSPLighting (this, g);
         Some (bObjectsToBuildLightingForFound, st)
       else if bool_decide (0 < length NodeGroupsToBuild)%nat then
         st ← AddBSPStaticLightingInfo_Selected Level NodeGroupsToBuild (this, g);
         Some (true, st)
       else Some (bObjectsToBuildLightingForFound, (this, g))
     else Some (bObjectsToBuildLightingForFound, (this, g)));
  (* Gather static lighting info from actors. *)
  '(loc, st) ← GatherStaticLightingInfo_Actors bForceNoPrecomputedLighting bBuildLightingForLevel
                 (Actors Level)
                 {| GatherLocals.bMarkLevelDirty := false;
                    GatherLocals.bObjectsToBuildLightingForFound :=
                      bObjectsToBuildLightingForFound |} st;
  Some (GatherLocals.bObjectsToBuildLightingForFound loc,
        if GatherLocals.bMarkLevelDirty loc
        then (st.1, emit (MarkPackageDirty (LevelId Level)) st.2) else st).

Fixpoint GatherStaticLightingInfo_Levels
    (bRebuildDirtyGeometryForLighting bForceNoPrecomputedLighting : bool)
    (Levels : list ULevel) (bObjectsToBuildLightingForFound : bool) (st : SystemState)
    : option (bool * SystemState) :=
  match Levels with
  | [] => Some (bObjectsToBuildLightingForFound, st)
  | Level :: Levels' =>
      '(bObjectsToBuildLightingForFound, st) ←
        GatherStaticLightingInfo_Level bRebuildDirtyGeometryForLighting
          bForceNoPrecomputedLighting Level bObjectsToBuildLightingForFound st;
      GatherStaticLightingInfo_Levels bRebuildDirtyGeometryForLighting
        bForceNoPrecomputedLighting Levels' bObjectsToBuildLightingForFound st
  end.

Definition GatherStaticLightingInfo
    (bRebuildDirtyGeometryForLighting bForceNoPrecomputedLighting : bool)
    (st : SystemState) : option SystemState :=
  '(bObjectsToBuildLightingForFound, st) ←
    GatherStaticLightingInfo_Levels bRebuildDirtyGeometryForLighting
      bForceNoPrecomputedLighting (Levels (GWorld st.2)) false st;
  Some
    (if bOnlyBuildSelected (FStaticLightingSystem.Options st.1) then
       let g := emit (MessageLog_Warning "LightmassError_BuildSelected") st.2 in
       (st.1, if bObjectsToBuildLightingForFound : bool then g
              else emit (MessageLog_Error "LightmassError_BuildSelectedNothingSelected") g)
     else st).

(** ** Starting a build *)

(** The loop of [BeginLightmassProcess] over the sorted helpers: the
    mappings are added in sorted order and the meshes of those that are
    rebuilt are tagged. *)
Fixpoint BeginLightmassProcess_SortedMappings
    (Sorted : list FStaticLightingMappingSortHelper) (st : SystemState) : option SystemState :=
  match Sorted with
  | [] => Some st
  | Helper :: Sorted' =>
      let st :=
        (FStaticLightingSystem.set_Mappings
           (FStaticLightingSystem.Mappings st.1 ++ [Mapping Helper]) st.1, st.2) in
      CurrentMapping ← MappingObjects st.2 !! Mapping Helper;
      st ← (if bProcessMapping CurrentMapping then
              match Mesh CurrentMapping with
              | Some MeshPtr => AssignDeterministicGuid MeshPtr st
              | None => Some st
              end
            else Some st);
      BeginLightmassProcess_SortedMappings Sorted' st
  end.

(** Sort the mappings - and tag meshes if doing deterministic mapping. *)
Definition BeginLightmassProcess_SortMappings (st : SystemState) : option SystemState :=
  if bSortMappings (GLightmassDebugOptions st.2) then
    st ← BeginLightmassProcess_SortedMappings
           (Sort FCompareNumTexels (FStaticLightingSystem.UnSortedMappings st.1)) st;
    Some (FStaticLightingSystem.set_UnSortedMappings [] st.1, st.2)
  else Some st.

(** The test of the loop that verifies the deterministic lighting setup. *)
Definition DeterministicGuidInError (CheckGuid : FGuid.t) (NumMappings : nat) : bool :=
  negb (FGuid.A CheckGuid =? 0) || negb (FGuid.B CheckGuid =? 0)
  || negb (FGuid.C CheckGuid =? 0) || (uint32_cast (Z.of_nat NumMappings) <=? FGuid.D CheckGuid).

Fixpoint BeginLightmassProcess_Verify (NumMappings : nat) (Mappings : list ptr) (g : Globals)
    : option Globals :=
  match Mappings with
  | [] => Some g
  | MappingPtr :: Mappings' =>
      CurrentMapping ← MappingObjects g !! MappingPtr;
      g ← (if bProcessMapping CurrentMapping then
             MeshPtr ← Mesh CurrentMapping;
             CheckMesh ← MeshObjects g !! MeshPtr;
             Some (if DeterministicGuidInError (Guid CheckMesh) NumMappings
                   then emit (DeterministicLightingError MappingPtr) g else g)
           else Some g);
      BeginLightmassProcess_Verify NumMappings Mappings' g
  end.

(** The locals that the two scoped blocks of [BeginLightmassProcess]
    share. *)
Record BeginLocals := {
  Local_bRebuildDirtyGeometryForLighting : bool;
  Local_bForceNoPrecomputedLighting : bool
}.

(** The block of [BeginLightmassProcess] under [StartupStatScope].  The
    results page, the lightmap counters, the level sizes, the dialog that
    lists the skipped levels and the texture settings read from the ini
    are bookkeeping and not embedded. *)
Definition BeginLightmassProcess_StartupStatScope (env : Env) (st : SystemState)
    : BeginLocals * SystemState :=
  let '(this, g) := st in
  let this := FStaticLightingSystem.set_CurrentBuildStage Startup this in
  (* for( TObjectIterator<UPrimitiveComponent> It ; It ; ++It ) *)
  let g :=
    set_PrimitiveComponents
      (UPrimitiveComponent.set_VisibilityId INDEX_NONE <$> PrimitiveComponents g) g in
  let bForce := bForceNoPrecomputedLighting (GWorld g) || negb (bAllowStaticLighting env) in
  let g := if negb bForce then emit BeginSlowTask g else g in
  ({| Local_bRebuildDirtyGeometryForLighting := bRebuildDirtyGeometryForLighting env;
      Local_bForceNoPrecomputedLighting := bForce |}, (this, g)).

(** Prepare lights for rebuild. *)
Definition BeginLightmassProcess_PrepareLights (st : SystemState) : SystemState :=
  let '(this, g) := st in
  if negb (bOnlyBuildVisibility (FStaticLightingSystem.Options this)) then
    (FStaticLightingSystem.set_Lights
       (FStaticLightingSystem.Lights this ++
          filter (λ Light, bLightIsInWorld Light && bAffectsWorld Light
                           && (HasStaticShadowing Light || HasStaticLighting Light) = true)
                 (LightComponents g)) this, g)
  else st.

(** The block of [BeginLightmassProcess] under [CollectStatScope]. *)
Definition BeginLightmassProcess_CollectStatScope (loc : BeginLocals) (st : SystemState)
    : option SystemState :=
  let st := BeginLightmassProcess_PrepareLights st in
  st ← GatherStaticLightingInfo (Local_bRebuildDirtyGeometryForLighting loc)
         (Local_bForceNoPrecomputedLighting loc) st;
  st ← BeginLightmassProcess_SortMappings st;
  (* Verify deterministic lighting setup, if it is enabled... *)
  g ← BeginLightmassProcess_Verify (length (FStaticLightingSystem.Mappings st.1))
        (FStaticLightingSystem.Mappings st.1) st.2;
  Some (st.1, if bDumpBinaryResults (FStaticLightingSystem.Options st.1)
              then emit ClearBinaryDumps g else g).

Definition CreateLightmassProcessor (env : Env) (st : SystemState)
    : option (bool * SystemState) :=
  let '(this, g) := st in
  if bOnlyBuildVisibility (FStaticLightingSystem.Options this)
     && negb (bPrecomputeVisibility (GWorld g))
  then Some (false, (this, emit (MessageDialog_Open "BuildFailed_VisibilityOnlyButVisibilityDisabled") g))
  else
    let g := emit Swarm_Initialize g in
    (* check(LightmassProcessor == NULL) *)
    match FStaticLightingSystem.LightmassProcessor this with
    | Some _ => None
    | None =>
        let g := emit NewLightmassProcessor g in
        if negb (IsSwarmConnectionIsValid env) then
          Some (false,
                (this,
                 emits [UE_LOG_Warning "Failed to connect to Swarm.";
                        MessageDialog_Open "FailedToConnectToSwarmDialogMessage";
                        DeleteLightmassProcessor] g))
        else
          Some (true,
                (FStaticLightingSystem.set_LightmassProcessor
                   (Some {| bImportCompletedMappingsImmediately := false |}) this, g))
    end.

(** [GatherScene]: the meshes and the mappings are handed to the exporter
    unless the build was cancelled.  The level settings, the importance
    volumes and the sky lights handed over as well are not embedded. *)
Definition GatherScene (st : SystemState) : option SystemState :=
  let '(this, g) := st in
  _ ← FStaticLightingSystem.LightmassProcessor this;
  Some (this,
        if bMapBuildCancelled g then g
        else emits ((ExportMeshInstance <$> FStaticLightingSystem.Meshes this)
                    ++ (ExportMapping <$> FStaticLightingSystem.Mappings this)) g).

Definition InitiateLightmassProcessor (env : Env) (st : SystemState)
    : option (bool * SystemState) :=
  let '(this, g) := st in
  if negb (bMapBuildCancelled g) then
    _ ← FStaticLightingSystem.LightmassProcessor this;
    let this :=
      FStaticLightingSystem.set_LightmassProcessor
        (Some {| bImportCompletedMappingsImmediately :=
                   bUseImmediateImport (GLightmassDebugOptions g) |}) this in
    let g := emits [SetImportCompletedMappingsImmediately
                      (bUseImmediateImport (GLightmassDebugOptions g)); OpenJob] g in
    if OpenJob_Result env then
      let g := emit InitiateExport g in
      let this := FStaticLightingSystem.set_CurrentBuildStage AmortizedExport this in
      match CrashTracker env with
      | Some IsCurrentlyCapturing =>
          Some (true,
                (FStaticLightingSystem.set_bCrashTrackerOriginallyEnabled IsCurrentlyCapturing this,
                 emit (SetCrashTrackingEnabled false) g))
      | None => Some (true, (this, g))
      end
    else Some (false, (this, g))
  else Some (false, (this, g)).

Definition BeginLightmassProcess (env : Env) (st : SystemState) : option (bool * SystemState) :=
  let '(loc, st) := BeginLightmassProcess_StartupStatScope env st in
  st ← BeginLightmassProcess_CollectStatScope loc st;
  if negb (Local_bForceNoPrecomputedLighting loc) then
    '(bLightingSuccessful, st) ← CreateLightmassProcessor env st;
    '(bLightingSuccessful, st) ←
      (if bLightingSuccessful : bool then
         st ← GatherScene st;
         InitiateLightmassProcessor env st
       else Some (bLightingSuccessful, st));
    (* End the static lighting progress bar. *)
    Some (bLightingSuccessful, (st.1, emit EndSlowTask st.2))
  else
    Some (false, (st.1, emits [InvalidateStaticLighting; ApplyNewLightingData true] st.2)).

Definition FinishLightmassProcess (env : Env) (st : SystemState) : option (bool * SystemState) :=
  let '(this, g) := st in
  let this := FStaticLightingSystem.set_CurrentBuildStage Import this in
  let g := emits [BeginSlowTask; InvalidateStaticLighting] g in
  _ ← FStaticLightingSystem.LightmassProcessor this;
  let g := emit CompleteRun g in
  let bSuccessful := CompleteRun_Result env in
  let g :=
    if bSuccessful then
      let g := emit CompleteDeterministicMappings g in
      if negb (bOnlyBuildVisibility (FStaticLightingSystem.Options this))
      then emit ReassignStationaryLightChannels g else g
    else g in
  let g := emits [EncodeTextures bSuccessful; CloseJob] g in
  let bSuccessful := CloseJob_Result env && bSuccessful in
  let g := emit MessageLog_Open g in
  (* Check the for build cancellation. *)
  let this :=
    FStaticLightingSystem.set_bBuildCanceled
      (FStaticLightingSystem.bBuildCanceled this || bMapBuildCancelled g) this in
  let bSuccessful := bSuccessful && negb (FStaticLightingSystem.bBuildCanceled this) in
  let g := emits [ApplyNewLightingData bSuccessful; PostInvalidateStaticLighting;
                  EndSlowTask; ReportStatistics] g in
  let g := if bSuccessful && HasScene (GWorld g) then emit UpdateAllCaptures g else g in
  Some (bSuccessful, (this, g)).

Definition CanAutoApplyLighting (env : Env) : bool :=
  let bAutoApplyEnabled := bAutoApplyLightingEnable env in
  let bSlowTask := GIsSlowTask env in
  let bInterpEditMode := IsModeActive_EM_InterpEdit env in
  let bPlayWorldValid := PlayWorld env in
  let bAnyMenusVisible := AnyMenusVisible env in
  let bIsInteratcting := false in
  let bHasGameOrProjectLoaded := HasGameName env in
  bAutoApplyEnabled && negb bSlowTask && negb bInterpEditMode && negb bPlayWorldValid
  && negb bAnyMenusVisible && negb bIsInteratcting && negb (GIsDemoMode env)
  && bHasGameOrProjectLoaded.

Definition IsAsyncBuilding (this : FStaticLightingSystem.t) : bool :=
  bool_decide (FStaticLightingSystem.CurrentBuildStage this = AsynchronousBuilding).

(** ** The manager *)

Record FStaticLightingManager := {
  StaticLightingSystem : option ptr;        (* NULL or the system of the build in progress *)
  LightBuildNotification : option nat       (* weak pointer to a notification item *)
}.

(** The editor process: the manager singleton, the storage of the system
    objects, which of them are alive (constructed and not yet deleted), and
    the globals.  [delete] ends the life of an object and leaves its
    storage as it is. *)
Record Editor := {
  Manager : FStaticLightingManager;
  SystemObjects : gmap nat FStaticLightingSystem.t;
  LiveSystems : gset nat;
  Glob : Globals
}.

Definition set_StaticLightingSystem (v : option ptr) (ed : Editor) : Editor :=
  {| Manager := {| StaticLightingSystem := v;
                   LightBuildNotification := LightBuildNotification (Manager ed) |};
     SystemObjects := SystemObjects ed; LiveSystems := LiveSystems ed; Glob := Glob ed |}.

Definition set_LightBuildNotification (v : option nat) (ed : Editor) : Editor :=
  {| Manager := {| StaticLightingSystem := StaticLightingSystem (Manager ed);
                   LightBuildNotification := v |};
     SystemObjects := SystemObjects ed; LiveSystems := LiveSystems ed; Glob := Glob ed |}.

Definition set_SystemObjects (v : gmap nat FStaticLightingSystem.t) (ed : Editor) : Editor :=
  {| Manager := Manager ed; SystemObjects := v; LiveSystems := LiveSystems ed; Glob := Glob ed |}.

Definition set_LiveSystems (v : gset nat) (ed : Editor) : Editor :=
  {| Manager := Manager ed; SystemObjects := SystemObjects ed; LiveSystems := v; Glob := Glob ed |}.

Definition set_Glob (v : Globals) (ed : Editor) : Editor :=
  {| Manager := Manager ed; SystemObjects := SystemObjects ed; LiveSystems := LiveSystems ed;
     Glob := v |}.

(** A write to a member of the system at [this]. *)
Definition WriteThis (this : ptr) (f : FStaticLightingSystem.t -> FStaticLightingSystem.t)
    (ed : Editor) : Editor :=
  set_SystemObjects (alter f this (SystemObjects ed)) ed.

(** A method of the system that works on [this] and the globals only, run
    on the object at [this]. *)
Definition CallOnThis {R : Type} (this : ptr) (Method : SystemState -> option (R * SystemState))
    (ed : Editor) : option (R * Editor) :=
  This ← SystemObjects ed !! this;
  '(Result, st) ← Method (This, Glob ed);
  Some (Result, set_Glob st.2 (set_SystemObjects (<[this := st.1]> (SystemObjects ed)) ed)).

(** [FSlateNotificationManager::Get().AddNotification(Info)]. *)
Definition AddNotification (Info : FText) (ed : Editor) : nat * Editor :=
  (length (Notifications (Glob ed)),
   set_Glob
     (set_Notifications
        (Notifications (Glob ed) ++
           [{| Text := Info; CompletionState := CS_None; bExpireAndFadeout := false |}])
        (Glob ed)) ed).

(** A call on the item behind a notification handle. *)
Definition OnNotification (Handle : nat) (f : SNotificationItem -> SNotificationItem)
    (ed : Editor) : Editor :=
  set_Glob (set_Notifications (alter f Handle (Notifications (Glob ed))) (Glob ed)) ed.

Definition SendProgressNotification (ed : Editor) : Editor :=
  let '(Handle, ed) := AddNotification (LOCTEXT "LightBuildMessage") ed in
  OnNotification Handle (SetCompletionState CS_Pending)
    (set_LightBuildNotification (Some Handle) ed).

Definition ClearCurrentNotification (ed : Editor) : Editor :=
  match LightBuildNotification (Manager ed) with
  | Some Handle =>
      set_LightBuildNotification None
        (OnNotification Handle ExpireAndFadeout
           (OnNotification Handle (SetCompletionState CS_None) ed))
  | None => ed
  end.

Definition SetNotificationText (Text : FText) (ed : Editor) : Editor :=
  match LightBuildNotification (Manager ed) with
  | Some Handle => OnNotification Handle (SetText Text) ed
  | None => ed
  end.

Definition SendBuildDoneNotification (AutoApplyFailed : bool) (ed : Editor) : Editor :=
  let '(Handle, ed) := AddNotification (LOCTEXT "LightBuildDoneMessage") ed in
  OnNotification Handle (SetCompletionState (if AutoApplyFailed then CS_Pending else CS_Success))
    (set_LightBuildNotification (Some Handle) ed).

(** [~FStaticLightingSystem()]. *)
Definition FStaticLightingSystem_dtor (env : Env) (st : SystemState) : SystemState :=
  let '(this, g) := st in
  let '(this, g) :=
    if FStaticLightingSystem.bCrashTrackerOriginallyEnabled this then
      match CrashTracker env with
      | Some _ => (FStaticLightingSystem.set_bCrashTrackerOriginallyEnabled false this,
                   emit (SetCrashTrackingEnabled true) g)
      | None => (this, g)
      end
    else (this, g) in
  match FStaticLightingSystem.LightmassProcessor this with
  | Some _ => (this, emit DeleteLightmassProcessor g)
  | None => (this, g)
  end.

Definition DestroyStaticLightingSystem (env : Env) (ed : Editor) : option Editor :=
  match StaticLightingSystem (Manager ed) with
  | Some this =>
      (* delete StaticLightingSystem; *)
      '(_, ed) ← CallOnThis this (λ st, Some (tt, FStaticLightingSystem_dtor env st)) ed;
      let ed := set_LiveSystems (LiveSystems ed ∖ {[this]}) ed in
      Some (set_StaticLightingSystem None ed)
  | None => Some ed
  end.

Definition IsLightingBuildCurrentlyRunning (ed : Editor) : bool :=
  bool_decide (StaticLightingSystem (Manager ed) ≠ None).

Definition FailLightingBuild (env : Env) (ErrorText : FText) (ed : Editor) : option Editor :=
  let ed := ClearCurrentNotification ed in
  let ErrorText :=
    if bMapBuildCancelled (Glob ed) then LOCTEXT "LightBuildCanceledMessage"
    else if FText_IsEmpty ErrorText then LOCTEXT "LightBuildFailedMessage"
    else ErrorText in
  let '(Handle, ed) := AddNotification ErrorText ed in
  let ed := OnNotification Handle (SetCompletionState CS_Fail)
              (set_LightBuildNotification (Some Handle) ed) in
  let ed := set_Glob (emit MessageLog_Open (Glob ed)) ed in
  DestroyStaticLightingSystem env ed.

Definition CreateStaticLightingSystem (env : Env) (Options : FLightingBuildOptions)
    (ed : Editor) : option Editor :=
  match StaticLightingSystem (Manager ed) with
  | None =>
      (* StaticLightingSystem = new FStaticLightingSystem(Options, GWorld); *)
      let this := fresh (dom (SystemObjects ed)) in
      let ed :=
        set_StaticLightingSystem (Some this)
          (set_LiveSystems ({[this]} ∪ LiveSystems ed)
             (set_SystemObjects
                (<[this := FStaticLightingSystem.ctor Options]> (SystemObjects ed)) ed)) in
      '(bSuccess, ed) ← CallOnThis this (BeginLightmassProcess env) ed;
      if bSuccess : bool then Some (SendProgressNotification ed)
      else DestroyStaticLightingSystem env ed
  | Some _ =>
      (* Tell the user that they must close their current build first. *)
      let '(Notification, ed) := AddNotification (LOCTEXT "LightBuildInProgressWarning") ed in
      Some (OnNotification Notification (SetCompletionState CS_Fail) ed)
  end.

Definition ProcessLightingData (env : Env) (bDiscardResults : bool) (ed : Editor)
    : option Editor :=
  (* check(StaticLightingSystem); *)
  this ← StaticLightingSystem (Manager ed);
  ed ← (if negb bDiscardResults then
          '(bSuccessful, ed) ← CallOnThis this (FinishLightmassProcess env) ed;
          let ed := set_Glob (emit OnLightingBuildKept (Glob ed)) ed in
          if bSuccessful : bool then Some ed else FailLightingBuild env FText_Empty ed
        else Some ed);
  ed ← DestroyStaticLightingSystem env ed;
  Some (ClearCurrentNotification ed).

Definition CancelLightingBuild (env : Env) (ed : Editor) : option Editor :=
  this ← StaticLightingSystem (Manager ed);
  This ← SystemObjects ed !! this;
  if IsAsyncBuilding This then
    Some (ClearCurrentNotification (set_Glob (SetMapBuildCancelled true (Glob ed)) ed))
  else FailLightingBuild env FText_Empty ed.

(** [FStaticLightingSystem::KickoffSwarm], on the system at [this]. *)
Definition KickoffSwarm (env : Env) (this : ptr) (ed : Editor) : option Editor :=
  This ← SystemObjects ed !! this;
  _ ← FStaticLightingSystem.LightmassProcessor This;
  let ed := set_Glob (emit BeginRun (Glob ed)) ed in
  if BeginRun_Result env then
    Some (WriteThis this (FStaticLightingSystem.set_CurrentBuildStage AsynchronousBuilding) ed)
  else FailLightingBuild env (LOCTEXT "SwarmKickoffFailedMessage") ed.

(** [FStaticLightingSystem::UpdateLightingBuild], on the system at
    [this].  The stage is read once at entry of each branch test; the
    methods of the manager that the branches call reach the same object
    through the manager's pointer. *)
Definition UpdateLightingBuild (env : Env) (this : ptr) (ed : Editor) : option Editor :=
  This ← SystemObjects ed !! this;
  match FStaticLightingSystem.CurrentBuildStage This with
  | AmortizedExport =>
      _ ← FStaticLightingSystem.LightmassProcessor This;
      let ed := set_Glob (emit ExecuteAmortizedMaterialExport (Glob ed)) ed in
      let bCompleted := ExecuteAmortizedMaterialExport_Result env in
      let ed :=
        SetNotificationText
          (FText_Format "LightExportProgressMessage" (AmortizedExportPercentDone env)) ed in
      if bCompleted then
        let ed :=
          if FStaticLightingSystem.bCrashTrackerOriginallyEnabled This then
            match CrashTracker env with
            | Some _ =>
                WriteThis this (FStaticLightingSystem.set_bCrashTrackerOriginallyEnabled false)
                  (set_Glob (emit (SetCrashTrackingEnabled true) (Glob ed)) ed)
            | None => ed
            end
          else ed in
        Some (WriteThis this (FStaticLightingSystem.set_CurrentBuildStage SwarmKickoff) ed)
      else Some ed
  | SwarmKickoff =>
      let ed := SetNotificationText (LOCTEXT "LightKickoffSwarmMessage") ed in
      KickoffSwarm env this ed
  | AsynchronousBuilding =>
      _ ← FStaticLightingSystem.LightmassProcessor This;
      let ed := set_Glob (emit Update (Glob ed)) ed in
      let bFinished := Update_Result env in
      let ed :=
        SetNotificationText (FText_Format "LightBuildProgressMessage" (AsyncPercentDone env)) ed in
      if bFinished then
        let ed := ClearCurrentNotification ed in
        if IsProcessingCompletedSuccessfully env then
          Some (WriteThis this (FStaticLightingSystem.set_CurrentBuildStage AutoApplyingImport) ed)
        else
          (* automatically fail lighting build (discard) *)
          ed ← FailLightingBuild env FText_Empty ed;
          Some (WriteThis this (FStaticLightingSystem.set_CurrentBuildStage NotRunning) ed)
      else Some ed
  | AutoApplyingImport =>
      if CanAutoApplyLighting env then
        let ed := SendBuildDoneNotification false ed in
        ed ← ProcessLightingData env false ed;
        Some (WriteThis this (FStaticLightingSystem.set_CurrentBuildStage NotRunning) ed)
      else
        let ed := SendBuildDoneNotification true ed in
        Some (WriteThis this (FStaticLightingSystem.set_CurrentBuildStage WaitingForImport) ed)
  | _ => Some ed
  end.

Definition UpdateBuildLighting (env : Env) (ed : Editor) : option Editor :=
  match StaticLightingSystem (Manager ed) with
  | Some this => UpdateLightingBuild env this ed
  | None => Some ed
  end.

(** [UEditorEngine::BuildLighting]. *)
Definition BuildLighting (env : Env) (Options : FLightingBuildOptions) (ed : Editor)
    : option Editor :=
  let ed := set_Glob (emits [CloseTextureEditors; OnLightingBuildStarted] (Glob ed)) ed in
  CreateStaticLightingSystem env Options ed.

(** ** The control surface *)

(** The calls by which the editor drives the manager: a build request,
    the tick, the Cancel button of the progress notification, and the
    Apply Now and Discard buttons of the completion notification. *)
Inductive Call :=
| Call_BuildLighting (Options : FLightingBuildOptions)
| Call_UpdateBuildLighting
| Call_CancelLightingBuild
| Call_ProcessLightingData (bDiscardResults : bool).

Definition Run (env : Env) (c : Call) (ed : Editor) : option Editor :=
  match c with
  | Call_BuildLighting Options => BuildLighting env Options ed
  | Call_UpdateBuildLighting => UpdateBuildLighting env ed
  | Call_CancelLightingBuild => CancelLightingBuild env ed
  | Call_ProcessLightingData bDiscardResults => ProcessLightingData env bDiscardResults ed
  end.

(** The editor states that a sequence of calls leads to. *)
Inductive Reachable (ed0 : Editor) : Editor -> Prop :=
| Reachable_refl : Reachable ed0 ed0
| Reachable_step ed ed' env c :
    Reachable ed0 ed -> Run env c ed = Some ed' -> Reachable ed0 ed'.

(** An editor in which no lighting build was ever started: no system,
    and no call has left this file yet. *)
Definition NoBuildYet (ed : Editor) : Prop :=
  StaticLightingSystem (Manager ed) = None ∧ LiveSystems ed = ∅ ∧ Log (Glob ed) = [].

(** A sequence of calls, each with what the collaborators answer during
    it. *)
Fixpoint RunAll (cs : list (Env * Call)) (ed : Editor) : option Editor :=
  match cs with
  | [] => Some ed
  | (env, c) :: cs' => ed ← Run env c ed; RunAll cs' ed
  end.

(** ** Invariants and reference inputs *)

(** A system in the course of a build: it owns a processor, and its stage
    is one of those between the start of the export and the end of the
    build. *)
Definition Building (This : FStaticLightingSystem.t) : Prop :=
  FStaticLightingSystem.LightmassProcessor This ≠ None
  ∧ FStaticLightingSystem.CurrentBuildStage This
    ∈ [AmortizedExport; SwarmKickoff; AsynchronousBuilding; AutoApplyingImport;
       WaitingForImport].

(** The manager's pointer and the live systems agree: no system is alive
    when the pointer is NULL, and otherwise the one system alive is the one
    it points to, which is building and whose Swarm job was opened. *)
Definition ManagerInv (ed : Editor) : Prop :=
  match StaticLightingSystem (Manager ed) with
  | None => LiveSystems ed = ∅
  | Some this =>
      LiveSystems ed = {[this]}
      ∧ OpenJob ∈ Log (Glob ed)
      ∧ ∃ This, SystemObjects ed !! this = Some This ∧ Building This
  end.

(** The six conditions that the specification lists for the automatic
    application of the results. *)
Definition SpecAutoApplyConditions (env : Env) : Prop :=
  bAutoApplyLightingEnable env = true
  ∧ AnyMenusVisible env = false
  ∧ GIsSlowTask env = false
  ∧ IsModeActive_EM_InterpEdit env = false
  ∧ PlayWorld env = false
  ∧ HasGameName env = true.

(** An environment in which every collaborator call succeeds, the user
    preference for automatic application is on and nothing stands in its
    way. *)
Definition QuietEnv : Env :=
  {| bAllowStaticLighting := true; bRebuildDirtyGeometryForLighting := true;
     IsSwarmConnectionIsValid := true; OpenJob_Result := true; CrashTracker := Some true;
     ExecuteAmortizedMaterialExport_Result := true; AmortizedExportPercentDone := 100;
     BeginRun_Result := true; Update_Result := true; AsyncPercentDone := 100;
     IsProcessingCompletedSuccessfully := true; CompleteRun_Result := true;
     CloseJob_Result := true; bAutoApplyLightingEnable := true; GIsSlowTask := false;
     IsModeActive_EM_InterpEdit := false; PlayWorld := false; AnyMenusVisible := false;
     GIsDemoMode := false; HasGameName := true |}.

(** The same environment with the editor in demo mode. *)
Definition DemoEnv : Env :=
  {| bAllowStaticLighting := true; bRebuildDirtyGeometryForLighting := true;
     IsSwarmConnectionIsValid := true; OpenJob_Result := true; CrashTracker := Some true;
     ExecuteAmortizedMaterialExport_Result := true; AmortizedExportPercentDone := 100;
     BeginRun_Result := true; Update_Result := true; AsyncPercentDone := 100;
     IsProcessingCompletedSuccessfully := true; CompleteRun_Result := true;
     CloseJob_Result := true; bAutoApplyLightingEnable := true; GIsSlowTask := false;
     IsModeActive_EM_InterpEdit := false; PlayWorld := false; AnyMenusVisible := false;
     GIsDemoMode := true; HasGameName := true |}.

(** *** A small scene

    Level 0 holds a selected actor with a static component (1) and a
    movable one (2), a null actor, an unselected actor with a static
    component of two meshes (3), and one BSP node group on the model
    component 4.  Level 1, which the options exclude from the build, holds
    the component 5.  The components carry visibility ids of an earlier
    build. *)

Definition ExampleMesh : FStaticLightingMesh :=
  {| Guid := FGuid.mk 3735928559 7 7 7; VisibilityIds := []; bCastShadow := true |}.

Definition ExampleMappingInit (i : nat) (NumTexels : Z) : FMappingInit :=
  {| MeshIndex := Some i; bProcessMappingInit := false; TexelCountInit := NumTexels |}.

Definition ExampleComponent (Id : Z) (Mobility : EComponentMobility.Type_)
    (Texels : list Z) : UPrimitiveComponent.t :=
  {| UPrimitiveComponent.VisibilityId := Id;
     UPrimitiveComponent.IsRegistered := true;
     UPrimitiveComponent.Mobility := Mobility;
     UPrimitiveComponent.bStaticLightingBuildEnqueued := false;
     UPrimitiveComponent.InfoMeshes := (λ _, ExampleMesh) <$> Texels;
     UPrimitiveComponent.InfoMappings := imap ExampleMappingInit Texels |}.

Definition ExampleComponents : gmap nat UPrimitiveComponent.t :=
  list_to_map
    [(1%nat, ExampleComponent 7 EComponentMobility.Static [64]);
     (2%nat, ExampleComponent 8 EComponentMobility.Movable [256]);
     (3%nat, ExampleComponent INDEX_NONE EComponentMobility.Static [64; 16]);
     (4%nat, ExampleComponent 3 EComponentMobility.Static []);
     (5%nat, ExampleComponent 9 EComponentMobility.Static [32])].

Definition ExampleNodeGroup : FNodeGroup.t :=
  {| FNodeGroup.Nodes := [0%nat; 1%nat];
     FNodeGroup.SurfaceMesh := ExampleMesh;
     FNodeGroup.SurfaceMapping := {| Mesh := None; bProcessMapping := false; TexelCount := 128 |} |}.

Definition ExampleLevel0 : ULevel :=
  {| LevelId := 0;
     Actors := [Some {| IsSelected := true; Components := [1%nat; 2%nat] |}; None;
                Some {| IsSelected := false; Components := [3%nat] |}];
     Model := {| UModel.Nodes := [{| iSurf := 0; ComponentIndex := 0 |};
                                  {| iSurf := 1; ComponentIndex := 0 |}];
                 UModel.NodeGroups := [ExampleNodeGroup] |};
     ModelComponents := [4%nat];
     bGeometryDirtyForLighting := false;
     SelectedNodeGroups := [Some ExampleNodeGroup] |}.

Definition ExampleLevel1 : ULevel :=
  {| LevelId := 1;
     Actors := [Some {| IsSelected := true; Components := [5%nat] |}];
     Model := {| UModel.Nodes := []; UModel.NodeGroups := [] |};
     ModelComponents := [];
     bGeometryDirtyForLighting := false;
     SelectedNodeGroups := [] |}.

Definition ExampleWorld : UWorld :=
  {| Levels := [ExampleLevel0; ExampleLevel1]; bPrecomputeVisibility := true;
     bForceNoPrecomputedLighting := false; HasScene := true |}.

Definition ExampleOptions (bSelected : bool) : FLightingBuildOptions :=
  {| bOnlyBuildSelected := bSelected; bOnlyBuildVisibility := false;
     bDumpBinaryResults := false;
     ShouldBuildLightingForLevel := λ Level, bool_decide (LevelId Level = 0%nat) |}.

Definition ExampleGlobals (bSort : bool) : Globals :=
  {| GWorld := ExampleWorld; LightComponents := [];
     PrimitiveComponents := ExampleComponents;
     MeshObjects := ∅; MappingObjects := ∅;
     GLightmassDebugOptions :=
       {| bSortMappings := bSort; bUseImmediateImport := true;
          bImmediateProcessMappings := true |};
     bMapBuildCancelled := false; Notifications := []; Log := [] |}.

Definition ExampleEditor (bSort : bool) : Editor :=
  {| Manager := {| StaticLightingSystem := None; LightBuildNotification := None |};
     SystemObjects := ∅; LiveSystems := ∅; Glob := ExampleGlobals bSort |}.

(** The editor after the given calls on the small scene. *)
Definition ExampleAfter (cs : list (Env * Call)) : Editor :=
  default (ExampleEditor true) (RunAll cs (ExampleEditor true)).

Definition ExampleBuild : Env * Call := (QuietEnv, Call_BuildLighting (ExampleOptions false)).

Definition ExampleTick : Env * Call := (QuietEnv, Call_UpdateBuildLighting).

(** ** Notions that the statements use *)

(** *** The manager *)

(** Two editor states that differ in the notifications at most. *)
Definition NotificationsOnly (ed ed' : Editor) : Prop :=
  StaticLightingSystem (Manager ed') = StaticLightingSystem (Manager ed)
  ∧ SystemObjects ed' = SystemObjects ed
  ∧ LiveSystems ed' = LiveSystems ed
  ∧ Log (Glob ed') = Log (Glob ed)
  ∧ bMapBuildCancelled (Glob ed') = bMapBuildCancelled (Glob ed).

(** The text that [FailLightingBuild] shows. *)
Definition FailureText (bCancelled : bool) (ErrorText : FText) : FText :=
  if bCancelled then LOCTEXT "LightBuildCanceledMessage"
  else if FText_IsEmpty ErrorText then LOCTEXT "LightBuildFailedMessage"
  else ErrorText.

(** The system object of the small scene after the given calls. *)
Definition ExampleSystem (cs : list (Env * Call)) : FStaticLightingSystem.t :=
  default (FStaticLightingSystem.ctor (ExampleOptions false))
    (SystemObjects (ExampleAfter cs) !! 0%nat).

(** What [BeginLightmassProcess] returns on the small scene. *)
Definition ExampleBegun (bSort : bool) : bool * SystemState :=
  default (false, (FStaticLightingSystem.ctor (ExampleOptions false), ExampleGlobals bSort))
    (BeginLightmassProcess QuietEnv
       (FStaticLightingSystem.ctor (ExampleOptions false), ExampleGlobals bSort)).

(** The state after the gather of the small scene, ahead of the sort. *)
Definition ExampleGathered : SystemState :=
  let st0 := (FStaticLightingSystem.ctor (ExampleOptions false), ExampleGlobals true) in
  let '(loc, st1) := BeginLightmassProcess_StartupStatScope QuietEnv st0 in
  default st0
    (GatherStaticLightingInfo (Local_bRebuildDirtyGeometryForLighting loc)
       (Local_bForceNoPrecomputedLighting loc) (BeginLightmassProcess_PrepareLights st1)).

(** *** Mappings and their meshes *)

(** [Mapping->Mesh], for a mapping of the store. *)
Definition MappingMesh (g : Globals) (MappingPtr : ptr) : option ptr :=
  MappingObjects g !! MappingPtr ≫= Mesh.

(** [Mapping->bProcessMapping]. *)
Definition IsProcessMapping (g : Globals) (MappingPtr : ptr) : bool :=
  match MappingObjects g !! MappingPtr with
  | Some CurrentMapping => bProcessMapping CurrentMapping
  | None => false
  end.

(** [Mapping->Mesh->Guid]. *)
Definition MappingGuid (g : Globals) (MappingPtr : ptr) : option FGuid.t :=
  MeshPtr ← MappingMesh g MappingPtr; Guid <$> MeshObjects g !! MeshPtr.

(** The mappings of the system that are flagged for rebuild, in the order
    of [Mappings]. *)
Definition ProcessedMappings (st : SystemState) : list ptr :=
  filter (λ MappingPtr, IsProcessMapping st.2 MappingPtr = true)
    (FStaticLightingSystem.Mappings st.1).

(** The Guid that carries the deterministic index [i]. *)
Definition DeterministicGuid (i : nat) : FGuid.t := FGuid.mk 0 0 0 (Z.of_nat i).

(** What the gather expects of the component classes, whose
    [GetStaticLightingInfo] is outside this file: the i-th mapping that a
    component creates belongs to the i-th mesh it creates, and mappings
    are created with [bProcessMapping] off. *)
Fixpoint WellPairedFrom (i : nat) (Inits : list FMappingInit) : bool :=
  match Inits with
  | [] => true
  | Init :: Inits' =>
      bool_decide (MeshIndex Init = Some i) && negb (bProcessMappingInit Init)
      && WellPairedFrom (S i) Inits'
  end.

Definition WellPaired (Primitive : UPrimitiveComponent.t) : bool :=
  WellPairedFrom 0 (UPrimitiveComponent.InfoMappings Primitive).

Definition StoreWellPaired (g : Globals) : bool :=
  bool_decide (map_Forall (λ _ Primitive, WellPaired Primitive = true) (PrimitiveComponents g)).

(** The invariant of the deterministic indices.  [Pending] are the
    mappings gathered for the sort.  Every mapping gathered so far has a
    mesh in the store, no two of them share one, and the meshes of the
    flagged mappings of the system's list carry the indices from 0 up to
    the counter, in the order of the list. *)
Record DeterministicInv (Pending : list ptr) (st : SystemState) : Prop := {
  det_meshes :
    Forall (λ p, ∃ q, MappingMesh st.2 p = Some q ∧ is_Some (MeshObjects st.2 !! q))
      (FStaticLightingSystem.Mappings st.1 ++ Pending);
  det_nodup :
    NoDup (omap (MappingMesh st.2) (FStaticLightingSystem.Mappings st.1 ++ Pending));
  det_index : 0 ≤ FStaticLightingSystem.DeterministicIndex st.1;
  det_guids :
    MappingGuid st.2 <$> ProcessedMappings st
    = (Some ∘ DeterministicGuid)
        <$> seq 0 (Z.to_nat (FStaticLightingSystem.DeterministicIndex st.1))
}.

(** The mappings that await the sort. *)
Definition Pending (this : FStaticLightingSystem.t) : list ptr :=
  Mapping <$> FStaticLightingSystem.UnSortedMappings this.

(** What the gather keeps: the components pair meshes and mappings, no
    mapping awaits a sort that is off, and the invariant of the indices
    holds as long as the mappings gathered are fewer than 2^31. *)
Definition GatherInv (st : SystemState) : Prop :=
  StoreWellPaired st.2 = true
  ∧ (bSortMappings (GLightmassDebugOptions st.2) = false →
     FStaticLightingSystem.UnSortedMappings st.1 = [])
  ∧ (Z.of_nat (length (FStaticLightingSystem.Mappings st.1)
               + length (FStaticLightingSystem.UnSortedMappings st.1)) < 2 ^ 31 →
     DeterministicInv (Pending st.1) st).

(** The mappings that the system holds, those that await the sort
    included, are the mapping objects made since the state [g0]: the
    objects of [g0] are still there, and a mapping is held exactly when
    it is an object now and was none in [g0]. *)
Definition GatheredAre (g0 : Globals) (st : SystemState) : Prop :=
  (∀ p, is_Some (MappingObjects g0 !! p) → is_Some (MappingObjects st.2 !! p))
  ∧ ∀ p, p ∈ FStaticLightingSystem.Mappings st.1 ++ Pending st.1
         ↔ MappingObjects g0 !! p = None ∧ is_Some (MappingObjects st.2 !! p).

(** Two states with the same lists, index and objects, and components
    that create the same mappings: steps between such states only assign
    visibility ids, enqueue components or log calls. *)
Record SameLighting (st st' : SystemState) : Prop := {
  same_Meshes : FStaticLightingSystem.Meshes st'.1 = FStaticLightingSystem.Meshes st.1;
  same_Mappings : FStaticLightingSystem.Mappings st'.1 = FStaticLightingSystem.Mappings st.1;
  same_UnSortedMappings :
    FStaticLightingSystem.UnSortedMappings st'.1 = FStaticLightingSystem.UnSortedMappings st.1;
  same_DeterministicIndex :
    FStaticLightingSystem.DeterministicIndex st'.1 = FStaticLightingSystem.DeterministicIndex st.1;
  same_MeshObjects : MeshObjects st'.2 = MeshObjects st.2;
  same_MappingObjects : MappingObjects st'.2 = MappingObjects st.2;
  same_GLightmassDebugOptions : GLightmassDebugOptions st'.2 = GLightmassDebugOptions st.2;
  same_InfoMappings : ∀ p,
    UPrimitiveComponent.InfoMappings <$> PrimitiveComponents st'.2 !! p
    = UPrimitiveComponent.InfoMappings <$> PrimitiveComponents st.2 !! p
}.

(** Two states between which, besides, no visibility id was assigned:
    the step enqueued components or logged calls. *)
Record Quiet (st st' : SystemState) : Prop := {
  quiet_lighting : SameLighting st st';
  quiet_NextVisibilityId :
    FStaticLightingSystem.NextVisibilityId st'.1 = FStaticLightingSystem.NextVisibilityId st.1;
  quiet_VisibilityId : ∀ p,
    UPrimitiveComponent.VisibilityId <$> PrimitiveComponents st'.2 !! p
    = UPrimitiveComponent.VisibilityId <$> PrimitiveComponents st.2 !! p
}.

(** The order that [FCompareNumTexels] asks for: no helper comes before
    one of more texels. *)
Definition DescendingNumTexels : list FStaticLightingMappingSortHelper → Prop :=
  StronglySorted (λ A B, NumTexels B ≤ NumTexels A).

(** The meshes of the system are as many as the mappings it has gathered,
    those that await the sort included; none awaits it when mappings are
    not sorted. *)
Definition Balanced (st : SystemState) : Prop :=
  length (FStaticLightingSystem.Meshes st.1)
  = (length (FStaticLightingSystem.Mappings st.1)
     + length (FStaticLightingSystem.UnSortedMappings st.1))%nat
  ∧ (bSortMappings (GLightmassDebugOptions st.2) = false →
     FStaticLightingSystem.UnSortedMappings st.1 = []).

(** What a step adds to the lists: [n] meshes and [n] mappings, none of
    them to the list that awaits the sort unless mappings are sorted. *)
Definition Adds (n : nat) (st st' : SystemState) : Prop :=
  length (FStaticLightingSystem.Meshes st'.1)
  = (length (FStaticLightingSystem.Meshes st.1) + n)%nat
  ∧ (length (FStaticLightingSystem.Mappings st'.1)
     + length (FStaticLightingSystem.UnSortedMappings st'.1)
     = length (FStaticLightingSystem.Mappings st.1)
       + length (FStaticLightingSystem.UnSortedMappings st.1) + n)%nat
  ∧ GLightmassDebugOptions st'.2 = GLightmassDebugOptions st.2
  ∧ (bSortMappings (GLightmassDebugOptions st.2) = false →
     FStaticLightingSystem.UnSortedMappings st'.1 = FStaticLightingSystem.UnSortedMappings st.1).

(** Steps that leave the components, the visibility counter and the world
    alone. *)
Definition SameVisibility (st st' : SystemState) : Prop :=
  PrimitiveComponents st'.2 = PrimitiveComponents st.2
  ∧ FStaticLightingSystem.NextVisibilityId st'.1 = FStaticLightingSystem.NextVisibilityId st.1
  ∧ GWorld st'.2 = GWorld st.2.

(** *** Visibility ids *)

(** The visibility ids of the components of the store. *)
Definition ComponentVisibilityIds (g : Globals) : gmap nat Z :=
  UPrimitiveComponent.VisibilityId <$> PrimitiveComponents g.

(** Those that are not INDEX_NONE. *)
Definition AssignedIds (g : Globals) : gmap nat Z :=
  filter (λ kv, kv.2 ≠ INDEX_NONE) (ComponentVisibilityIds g).

(** The invariant of the visibility ids: the ids that components carry
    were drawn from the counter, each by one component; the counter has
    not run ahead of the meshes gathered and the components assigned. *)
Record VisibilityInv (st : SystemState) : Prop := {
  vis_next_nonneg : 0 ≤ FStaticLightingSystem.NextVisibilityId st.1;
  vis_next_le :
    FStaticLightingSystem.NextVisibilityId st.1
    ≤ Z.of_nat (length (FStaticLightingSystem.Meshes st.1) + size (AssignedIds st.2));
  vis_range : ∀ p id,
    ComponentVisibilityIds st.2 !! p = Some id → id ≠ INDEX_NONE →
    0 ≤ id < FStaticLightingSystem.NextVisibilityId st.1;
  vis_unique : ∀ p1 p2 id,
    ComponentVisibilityIds st.2 !! p1 = Some id →
    ComponentVisibilityIds st.2 !! p2 = Some id →
    id ≠ INDEX_NONE → p1 = p2
}.

(** It holds as long as the meshes and the components are, together,
    fewer than 2^31: the counter cannot wrap then. *)
Definition VisibilityGatherInv (st : SystemState) : Prop :=
  Z.of_nat (length (FStaticLightingSystem.Meshes st.1) + size (PrimitiveComponents st.2)) < 2 ^ 31 →
  VisibilityInv st.





(** *** Texel counts *)

(** The texel counts of the mappings of the system, in the order of
    [Mappings]. *)
Definition MappingTexelCounts (st : SystemState) : list Z :=
  omap (λ MappingPtr, TexelCount <$> MappingObjects st.2 !! MappingPtr)
    (FStaticLightingSystem.Mappings st.1).

(** Every helper holds the texel count of its mapping. *)
Definition HelpersMatch (g : Globals) (Helpers : list FStaticLightingMappingSortHelper) : Prop :=
  Forall (λ Helper, TexelCount <$> MappingObjects g !! Mapping Helper = Some (NumTexels Helper))
    Helpers.

(** What the gather keeps when mappings are sorted: all mappings await
    the sort, with their texel counts. *)
Definition SortInv (st : SystemState) : Prop :=
  bSortMappings (GLightmassDebugOptions st.2) = true
  ∧ FStaticLightingSystem.Mappings st.1 = []
  ∧ HelpersMatch st.2 (FStaticLightingSystem.UnSortedMappings st.1).

(** The mappings of [g] are in [g'], with their texel counts. *)
Definition TexelsKept (g g' : Globals) : Prop :=
  ∀ p n, TexelCount <$> MappingObjects g !! p = Some n →
         TexelCount <$> MappingObjects g' !! p = Some n.

(** *** The stages of a build *)

(** The moves of a tick between stages: the build stays in a stage that
    waits for something, or it goes on to the next one. *)
Definition TickStep (Stage Stage' : EBuildStage) : bool :=
  match Stage, Stage' with
  | AmortizedExport, (AmortizedExport | SwarmKickoff)
  | SwarmKickoff, AsynchronousBuilding
  | AsynchronousBuilding, (AsynchronousBuilding | AutoApplyingImport)
  | AutoApplyingImport, WaitingForImport
  | WaitingForImport, WaitingForImport => true
  | _, _ => false
  end.

(** The stages in which a tick can end the build. *)
Definition TickMayEnd (Stage : EBuildStage) : bool :=
  match Stage with
  | SwarmKickoff | AsynchronousBuilding | AutoApplyingImport => true
  | _ => false
  end.

(** *** Calls that leave the file *)

(** The calls that the gather makes for a level. *)
Definition LevelEvent (e : Event) : bool :=
  match e with
  | MarkPackageDirty _ | UE_LOG_Warning _ | Exec_MapRebuildAllDirtyForLighting
  | GroupAllNodes _ => true
  | _ => false
  end.

(** The calls that the gather makes: those for the levels, and the
    messages on a build of the selection. *)
Definition GatherEvent (e : Event) : bool :=
  LevelEvent e
  || match e with
     | MessageLog_Warning _ | MessageLog_Error _ => true
     | _ => false
     end.

(** What the gather does not write: the members of the system besides
    its lists and counters, and the globals besides the object stores and
    the log. *)
Definition Rest (st : SystemState) :=
  (FStaticLightingSystem.Options st.1, FStaticLightingSystem.bBuildCanceled st.1,
   FStaticLightingSystem.CurrentBuildStage st.1,
   FStaticLightingSystem.bCrashTrackerOriginallyEnabled st.1,
   FStaticLightingSystem.LightmassProcessor st.1, FStaticLightingSystem.Lights st.1,
   GWorld st.2, LightComponents st.2, GLightmassDebugOptions st.2, bMapBuildCancelled st.2,
   Notifications st.2).

(** [st'] comes after [st] by steps that write none of these and make
    calls of the class [P] only. *)
Definition Calls (P : Event → bool) (st st' : SystemState) : Prop :=
  Rest st' = Rest st ∧ ∃ es, Log st'.2 = Log st.2 ++ es ∧ Forall (λ e, P e = true) es.

(** No call at all. *)
Definition NoEvent (e : Event) : bool := false.

(** The calls of the blocks of [BeginLightmassProcess] that follow the
    gather and the sort: the verification and the removal of old dumps. *)
Definition CollectEvent (e : Event) : bool :=
  GatherEvent e
  || match e with
     | DeterministicLightingError _ | ClearBinaryDumps => true
     | _ => false
     end.

(** Whether [BeginLightmassProcess] starts a build: precomputed lighting
    is not forced off, a visibility-only build has precomputed visibility
    to build, Swarm is connected, the map build was not cancelled and the
    Swarm job opens. *)
Definition BuildStarts (env : Env) (Options : FLightingBuildOptions) (g : Globals) : bool :=
  negb (bForceNoPrecomputedLighting (GWorld g) || negb (bAllowStaticLighting env))
  && negb (bOnlyBuildVisibility Options && negb (bPrecomputeVisibility (GWorld g)))
  && IsSwarmConnectionIsValid env
  && negb (bMapBuildCancelled g)
  && OpenJob_Result env.

(** Whether it leaves the system with a Lightmass processor. *)
Definition ProcessorCreated (env : Env) (Options : FLightingBuildOptions) (g : Globals) : bool :=
  negb (bForceNoPrecomputedLighting (GWorld g) || negb (bAllowStaticLighting env))
  && negb (bOnlyBuildVisibility Options && negb (bPrecomputeVisibility (GWorld g)))
  && IsSwarmConnectionIsValid env.

(** The calls of [BeginLightmassProcess] once the scene is collected, for
    a system with the given meshes and mappings. *)
Definition ProcessCalls (env : Env) (Options : FLightingBuildOptions) (g : Globals)
    (Meshes Mappings : list ptr) : list Event :=
  if bForceNoPrecomputedLighting (GWorld g) || negb (bAllowStaticLighting env) then
    [InvalidateStaticLighting; ApplyNewLightingData true]
  else
    (if bOnlyBuildVisibility Options && negb (bPrecomputeVisibility (GWorld g)) then
       [MessageDialog_Open "BuildFailed_VisibilityOnlyButVisibilityDisabled"]
     else
       [Swarm_Initialize; NewLightmassProcessor]
       ++ (if negb (IsSwarmConnectionIsValid env) then
             [UE_LOG_Warning "Failed to connect to Swarm.";
              MessageDialog_Open "FailedToConnectToSwarmDialogMessage";
              DeleteLightmassProcessor]
           else if bMapBuildCancelled g then []
           else
             (ExportMeshInstance <$> Meshes) ++ (ExportMapping <$> Mappings)
             ++ [SetImportCompletedMappingsImmediately
                   (bUseImmediateImport (GLightmassDebugOptions g)); OpenJob]
             ++ (if OpenJob_Result env then
                   InitiateExport
                   :: match CrashTracker env with
                      | Some _ => [SetCrashTrackingEnabled false]
                      | None => []
                      end
                 else [])))
    ++ [EndSlowTask].

(** A call that hands a mesh or a mapping to the exporter. *)
Definition IsExport (e : Event) : bool :=
  match e with
  | ExportMeshInstance _ | ExportMapping _ => true
  | _ => false
  end.

(** The lights that a build takes into account. *)
Definition IsBuildLight (Light : ULightComponentBase) : bool :=
  bLightIsInWorld Light && bAffectsWorld Light
  && (HasStaticShadowing Light || HasStaticLighting Light).

(** *** More reference inputs *)

(** The environment of [QuietEnv] with static lighting disallowed
    ([r.AllowStaticLighting] is 0). *)
Definition NoStaticLightingEnv : Env :=
  {| bAllowStaticLighting := false; bRebuildDirtyGeometryForLighting := true;
     IsSwarmConnectionIsValid := true; OpenJob_Result := true; CrashTracker := Some true;
     ExecuteAmortizedMaterialExport_Result := true; AmortizedExportPercentDone := 100;
     BeginRun_Result := true; Update_Result := true; AsyncPercentDone := 100;
     IsProcessingCompletedSuccessfully := true; CompleteRun_Result := true;
     CloseJob_Result := true; bAutoApplyLightingEnable := true; GIsSlowTask := false;
     IsModeActive_EM_InterpEdit := false; PlayWorld := false; AnyMenusVisible := false;
     GIsDemoMode := false; HasGameName := true |}.

(** What [BeginLightmassProcess] returns on the small scene then. *)
Definition ExampleForced : bool * SystemState :=
  default (false, (FStaticLightingSystem.ctor (ExampleOptions false), ExampleGlobals true))
    (BeginLightmassProcess NoStaticLightingEnv
       (FStaticLightingSystem.ctor (ExampleOptions false), ExampleGlobals true)).

(** *** The end of a build *)

(** The calls of the destructor of a system. *)
Definition DtorCalls (env : Env) (This : FStaticLightingSystem.t) : list Event :=
  (if FStaticLightingSystem.bCrashTrackerOriginallyEnabled This
      && bool_decide (is_Some (CrashTracker env))
   then [SetCrashTrackingEnabled true] else [])
  ++ (if bool_decide (is_Some (FStaticLightingSystem.LightmassProcessor This))
      then [DeleteLightmassProcessor] else []).

(** Whether the import of the results succeeds: the run completes, the
    Swarm job closes, and the build was not cancelled. *)
Definition ImportSucceeds (env : Env) (This : FStaticLightingSystem.t) (g : Globals) : bool :=
  CompleteRun_Result env && CloseJob_Result env
  && negb (FStaticLightingSystem.bBuildCanceled This || bMapBuildCancelled g).

(** The calls of [FinishLightmassProcess]. *)
Definition FinishCalls (env : Env) (This : FStaticLightingSystem.t) (g : Globals) : list Event :=
  [BeginSlowTask; InvalidateStaticLighting; CompleteRun]
  ++ (if CompleteRun_Result env then
        CompleteDeterministicMappings
        :: (if bOnlyBuildVisibility (FStaticLightingSystem.Options This) then []
            else [ReassignStationaryLightChannels])
      else [])
  ++ [EncodeTextures (CompleteRun_Result env); CloseJob; MessageLog_Open;
      ApplyNewLightingData (ImportSucceeds env This g); PostInvalidateStaticLighting;
      EndSlowTask; ReportStatistics]
  ++ (if ImportSucceeds env This g && HasScene (GWorld g) then [UpdateAllCaptures] else []).

(** *** Crash tracking *)

#[global] Instance Event_eq_dec : EqDecision Event.
Proof. solve_decision. Defined.

(** How often the log holds the call [SetCrashTrackingEnabled(b)]. *)
Definition CrashTrackingCalls (b : bool) (l : list Event) : nat :=
  length (filter (λ e, e = SetCrashTrackingEnabled b) l).

(** Whether the system of the running build, if any, remembers that it
    switched a capturing crash tracker off. *)
Definition OwesCrashTracking (ed : Editor) : bool :=
  match StaticLightingSystem (Manager ed) ≫= (SystemObjects ed !!.) with
  | Some This => FStaticLightingSystem.bCrashTrackerOriginallyEnabled This
  | None => false
  end.

(** A step from [ed] to [ed'] that keeps the account of crash tracking:
    it switches crash tracking on at most as often as it switches it off,
    counting what the running build owes before and after. *)
Definition CrashTrackingKept (ed ed' : Editor) : Prop :=
  ∃ es, Log (Glob ed') = Log (Glob ed) ++ es
    ∧ (CrashTrackingCalls true es + Nat.b2n (OwesCrashTracking ed')
       ≤ Nat.b2n (OwesCrashTracking ed) + CrashTrackingCalls false es)%nat.

(** *** Objects to build lighting for *)

(** [bBuildActorLighting] of the gather, for an actor of a level. *)
Definition BuildsActorLighting (Options : FLightingBuildOptions) (Level : ULevel)
    (Actor : AActor) : bool :=
  ShouldBuildLightingForLevel Options Level
  && (negb (bOnlyBuildSelected Options) || IsSelected Actor).

(** Whether the gather of a level raises [bObjectsToBuildLightingForFound]:
    a build of the selection adds the selected node groups of the level,
    or the level holds an actor whose lighting is built. *)
Definition LevelObjectsToBuildLightingFor (Options : FLightingBuildOptions)
    (bForceNoPrecomputedLighting : bool) (Level : ULevel) : bool :=
  (ShouldBuildLightingForLevel Options Level && negb (bOnlyBuildVisibility Options)
   && bOnlyBuildSelected Options && bool_decide (SelectedNodeGroups Level ≠ [])
   && negb bForceNoPrecomputedLighting)
  || existsb (λ Actor : option AActor,
                match Actor with
                | Some Actor => BuildsActorLighting Options Level Actor
                | None => false
                end) (Actors Level).

(** The messages that end the gather of a build of the selection. *)
Definition SelectedMessages (Options : FLightingBuildOptions)
    (bForceNoPrecomputedLighting : bool) (World : UWorld) : list Event :=
  if bOnlyBuildSelected Options then
    MessageLog_Warning "LightmassError_BuildSelected"
    :: (if existsb (LevelObjectsToBuildLightingFor Options bForceNoPrecomputedLighting)
             (Levels World)
        then [] else [MessageLog_Error "LightmassError_BuildSelectedNothingSelected"])
  else [].

(** The small scene, built for the selection. *)
Definition ExampleSelected : SystemState :=
  (FStaticLightingSystem.ctor (ExampleOptions true), ExampleGlobals true).

(** *** Scenes that the gather can walk *)

(** What the gather reads of a component and never writes. *)
Definition ComponentInputs (Primitive : UPrimitiveComponent.t) :=
  (UPrimitiveComponent.IsRegistered Primitive, UPrimitiveComponent.Mobility Primitive,
   UPrimitiveComponent.InfoMeshes Primitive, UPrimitiveComponent.InfoMappings Primitive).

(** Two states of the process with the same world and in which every
    component has the same value of [f]. *)
Definition SameField {F : Type} (f : UPrimitiveComponent.t → F) (g g' : Globals) : Prop :=
  GWorld g' = GWorld g
  ∧ ∀ p, f <$> PrimitiveComponents g' !! p = f <$> PrimitiveComponents g !! p.

(** Two states of the process with the same world and the same
    components, as far as the gather reads them. *)
Definition SameInputs (g g' : Globals) : Prop := SameField ComponentInputs g g'.

(** The component at [PrimitivePtr] exists, and if the gather queries it
    for its static lighting, it answers with as many meshes as mappings. *)
Definition ComponentGathers (bForceNoPrecomputedLighting : bool) (g : Globals)
    (PrimitivePtr : ptr) : bool :=
  match PrimitiveComponents g !! PrimitivePtr with
  | Some Primitive =>
      negb (UPrimitiveComponent.IsRegistered Primitive && negb bForceNoPrecomputedLighting)
      || bool_decide (length (UPrimitiveComponent.InfoMeshes Primitive)
                      = length (UPrimitiveComponent.InfoMappings Primitive))
  | None => false
  end.

(** The small scene with the component of level 1, which the options
    exclude from the build, answering with a mesh and no mapping. *)
Definition ExampleUnpaired : SystemState :=
  (FStaticLightingSystem.ctor (ExampleOptions false),
   set_PrimitiveComponents
     (<[5%nat := {| UPrimitiveComponent.VisibilityId := INDEX_NONE;
                    UPrimitiveComponent.IsRegistered := true;
                    UPrimitiveComponent.Mobility := EComponentMobility.Static;
                    UPrimitiveComponent.bStaticLightingBuildEnqueued := false;
                    UPrimitiveComponent.InfoMeshes := [ExampleMesh];
                    UPrimitiveComponent.InfoMappings := [] |}]> ExampleComponents)
     (ExampleGlobals true)).

(** *** Components marked for the rebuild *)

(** [Primitive->bStaticLightingBuildEnqueued], for a component of the
    store. *)
Definition IsEnqueued (g : Globals) (PrimitivePtr : ptr) : bool :=
  match PrimitiveComponents g !! PrimitivePtr with
  | Some Primitive => UPrimitiveComponent.bStaticLightingBuildEnqueued Primitive
  | None => false
  end.

(** Whether the gather puts the component at [PrimitivePtr] on the queue:
    the build is not of the visibility only, and the component belongs to
    an actor whose lighting is built. *)
Definition EnqueuesComponent (Options : FLightingBuildOptions) (World : UWorld)
    (PrimitivePtr : ptr) : bool :=
  negb (bOnlyBuildVisibility Options)
  && existsb (λ Level,
       existsb (λ Actor : option AActor,
                  match Actor with
                  | Some Actor =>
                      BuildsActorLighting Options Level Actor
                      && bool_decide (PrimitivePtr ∈ Components Actor)
                  | None => false
                  end) (Actors Level)) (Levels World).

(** ** The selected surfaces of a level *)

(** The analysis that [GatherStaticLightingInfo] runs on a level in a
    build of the selection.  The gather above takes its result as the
    field [SelectedNodeGroups]; here the analysis is embedded on its own,
    over the parts of the level that it reads: the brushes, the surfaces
    of the model and the nodes of the model components.  Actors, model
    components and node groups are compared by address. *)
Module Selection.

Record AActor := {
  ActorPtr : ptr;
  IsBrush : bool;             (* Cast<ABrush>(Actor) != NULL *)
  IsSelected : bool
}.

Record FBspSurf := {
  PolyFlags : Z;
  Actor : option ptr          (* ABrush*, may be null *)
}.

Module UModelComponent.

Record t := {
  ComponentPtr : ptr;
  Nodes : list nat            (* indices into Model->Nodes *)
}.

End UModelComponent.

Module FNodeGroup.

Record t := {
  GroupPtr : ptr;
  Nodes : list nat            (* indices into Model->Nodes *)
}.

End FNodeGroup.

Module UModel.

(** [NodeGroups] are the values of the map as [GroupAllNodes] leaves it,
    in iteration order; a value may be null. *)
Record t := {
  Surfs : list FBspSurf;
  Nodes : list FBspNode;
  NodeGroups : list (option FNodeGroup.t)
}.

End UModel.

Record ULevel := {
  Actors : list (option AActor);
  Model : UModel.t;
  ModelComponents : list (option UModelComponent.t)
}.

(** The two arrays that the passes over the surfaces fill. *)
Record Selected := {
  SelectedModelComponents : list ptr;
  SelectedSurfaceIndices : list Z
}.

(** [TArray::AddUnique]. *)
Definition AddUnique {A : Type} `{EqDecision A} (Item : A) (Array : list A) : list A :=
  if bool_decide (Item ∈ Array) then Array else Array ++ [Item].

(** The loop that collects the selected brushes of the level. *)
Definition SelectedBrushes (Level : ULevel) : list ptr :=
  omap (λ Actor : option AActor,
          match Actor with
          | Some Actor =>
              if IsBrush Actor && IsSelected Actor then Some (ActorPtr Actor) else None
          | None => None
          end) (Actors Level).

(** The loop over the nodes of a model component:
    [SelectedSurfaceIndices.AddUnique(InnerNode.iSurf)]. *)
Fixpoint AddInnerNodes (Level : ULevel) (Nodes : list nat) (SelectedSurfaceIndices : list Z)
    : option (list Z) :=
  match Nodes with
  | [] => Some SelectedSurfaceIndices
  | InnerNodeIndex :: Nodes' =>
      InnerNode ← UModel.Nodes (Model Level) !! InnerNodeIndex;
      AddInnerNodes Level Nodes' (AddUnique (iSurf InnerNode) SelectedSurfaceIndices)
  end.

(** The loop over the nodes of the model that finds the model components
    of the surface [SurfIdx]. *)
Fixpoint FindModelComponents (Level : ULevel) (SurfIdx : Z) (Nodes : list FBspNode)
    (s : Selected) : option Selected :=
  match Nodes with
  | [] => Some s
  | Node :: Nodes' =>
      if bool_decide (iSurf Node = SurfIdx) then
        SomeModelComponent ← ModelComponents Level !! ComponentIndex Node;
        match SomeModelComponent with
        | Some SomeModelComponent =>
            SelectedSurfaceIndices ←
              AddInnerNodes Level (UModelComponent.Nodes SomeModelComponent)
                (SelectedSurfaceIndices s);
            FindModelComponents Level SurfIdx Nodes'
              {| SelectedModelComponents :=
                   AddUnique (UModelComponent.ComponentPtr SomeModelComponent)
                     (SelectedModelComponents s);
                 SelectedSurfaceIndices := SelectedSurfaceIndices |}
        | None => FindModelComponents Level SurfIdx Nodes' s
        end
      else FindModelComponents Level SurfIdx Nodes' s
  end.

Section Passes.

Context (PF_Selected : Z).

(** Whether the first pass takes the surface: it has the flag, or its
    brush is among the selected ones. *)
Definition bSurfaceSelected (Level : ULevel) (Surf : FBspSurf) : bool :=
  bool_decide (Z.land (PolyFlags Surf) PF_Selected ≠ 0)
  || match Actor Surf with
     | Some Brush => bool_decide (Brush ∈ SelectedBrushes Level)
     | None => false
     end.

(** The first pass: the loop over the surfaces of the model, from the
    surface with index [SurfIdx] on. *)
Fixpoint FindSelectedSurfaces (Level : ULevel) (SurfIdx : nat) (Surfs : list FBspSurf)
    (s : Selected) : option Selected :=
  match Surfs with
  | [] => Some s
  | Surf :: Surfs' =>
      if bSurfaceSelected Level Surf then
        s ← FindModelComponents Level (Z.of_nat SurfIdx) (UModel.Nodes (Model Level))
               {| SelectedModelComponents := SelectedModelComponents s;
                  SelectedSurfaceIndices := SelectedSurfaceIndices s ++ [Z.of_nat SurfIdx] |};
        FindSelectedSurfaces Level (S SurfIdx) Surfs' s
      else FindSelectedSurfaces Level (S SurfIdx) Surfs' s
  end.

(** The second pass: the loop over [SelectedSurfaceIndices], which grows
    while the loop runs, from the index [SSIdx] on.  [Rounds] bounds the
    number of tests of the loop condition; the answer is [None] when they
    are used up, and [Some None] when the editor stops. *)
Fixpoint PassTwo (Rounds : nat) (Level : ULevel) (SSIdx : nat) (s : Selected)
    : option (option Selected) :=
  match Rounds with
  | O => None
  | S Rounds =>
      match SelectedSurfaceIndices s !! SSIdx with
      | Some SurfIdx =>
          match FindModelComponents Level SurfIdx (UModel.Nodes (Model Level)) s with
          | Some s => PassTwo Rounds Level (S SSIdx) s
          | None => Some None
          end
      | None => Some (Some s)
      end
  end.

(** As many rounds as the second pass can need: one for each entry that
    the array holds, one for each that a node of the model can add, and
    the last test. *)
Definition PassTwoRounds (Level : ULevel) (s : Selected) : nat :=
  S (length (SelectedSurfaceIndices s) + length (UModel.Nodes (Model Level))).

(** The loop over the nodes of a node group. *)
Fixpoint AddNodeGroup (Level : ULevel) (SelectedSurfaceIndices : list Z)
    (NodeGroup : FNodeGroup.t) (Nodes : list nat) (r : list ptr * bool)
    : option (list ptr * bool) :=
  match Nodes with
  | [] => Some r
  | GroupNode :: Nodes' =>
      Node ← UModel.Nodes (Model Level) !! GroupNode;
      AddNodeGroup Level SelectedSurfaceIndices NodeGroup Nodes'
        (if bool_decide (iSurf Node ∈ SelectedSurfaceIndices)
         then (AddUnique (FNodeGroup.GroupPtr NodeGroup) r.1, true)
         else r)
  end.

(** The loop over the node groups of the model, which fills
    [NodeGroupsToBuild] and sets [bBuildBSPLighting]. *)
Fixpoint AddNodeGroups (Level : ULevel) (SelectedSurfaceIndices : list Z)
    (NodeGroups : list (option FNodeGroup.t)) (r : list ptr * bool)
    : option (list ptr * bool) :=
  match NodeGroups with
  | [] => Some r
  | NodeGroup :: NodeGroups' =>
      r ← match NodeGroup with
          | Some NodeGroup =>
              if bool_decide (0 < length (FNodeGroup.Nodes NodeGroup))%nat
              then AddNodeGroup Level SelectedSurfaceIndices NodeGroup
                     (FNodeGroup.Nodes NodeGroup) r
              else Some r
          | None => Some r
          end;
      AddNodeGroups Level SelectedSurfaceIndices NodeGroups' r
  end.

(** The two passes over the surfaces. *)
Definition SelectSurfaces (Level : ULevel) : option Selected :=
  s ← FindSelectedSurfaces Level 0 (UModel.Surfs (Model Level))
         {| SelectedModelComponents := []; SelectedSurfaceIndices := [] |};
  if bool_decide (0 < length (SelectedSurfaceIndices s))%nat
  then mjoin (PassTwo (PassTwoRounds Level s) Level 0 s)
  else Some s.

(** The analysis of a level in a build of the selection: the surfaces
    found, [NodeGroupsToBuild] and [bBuildBSPLighting]. *)
Definition SelectNodeGroups (Level : ULevel) : option (Selected * list ptr * bool) :=
  s ← SelectSurfaces Level;
  '(NodeGroupsToBuild, bBuildBSPLighting) ←
    (if bool_decide (0 < length (SelectedSurfaceIndices s))%nat
     then AddNodeGroups Level (SelectedSurfaceIndices s) (UModel.NodeGroups (Model Level))
            ([], false)
     else Some ([], false));
  Some (s, NodeGroupsToBuild, bBuildBSPLighting).

End Passes.

(** A surface that the first pass takes. *)
Definition IsSelectedSurface (PF_Selected : Z) (Level : ULevel) (SurfIdx : Z) : Prop :=
  ∃ (i : nat) Surf,
    SurfIdx = Z.of_nat i ∧ UModel.Surfs (Model Level) !! i = Some Surf
    ∧ bSurfaceSelected PF_Selected Level Surf = true.

(** The surface [SurfIdx'] is that of a node of a model component that
    holds a node of the surface [SurfIdx]. *)
Definition SharesComponent (Level : ULevel) (SurfIdx SurfIdx' : Z) : Prop :=
  ∃ Node SomeModelComponent InnerNodeIndex InnerNode,
    Node ∈ UModel.Nodes (Model Level) ∧ iSurf Node = SurfIdx
    ∧ ModelComponents Level !! ComponentIndex Node = Some (Some SomeModelComponent)
    ∧ InnerNodeIndex ∈ UModelComponent.Nodes SomeModelComponent
    ∧ UModel.Nodes (Model Level) !! InnerNodeIndex = Some InnerNode
    ∧ iSurf InnerNode = SurfIdx'.

(** The surfaces that a chain of model components joins to a selected
    surface. *)
Inductive Joined (PF_Selected : Z) (Level : ULevel) : Z → Prop :=
  | Joined_selected SurfIdx :
      IsSelectedSurface PF_Selected Level SurfIdx → Joined PF_Selected Level SurfIdx
  | Joined_shares SurfIdx SurfIdx' :
      Joined PF_Selected Level SurfIdx → SharesComponent Level SurfIdx SurfIdx' →
      Joined PF_Selected Level SurfIdx'.

(** [Array'] is [Array] with entries added at its end that it did not
    hold, that differ from one another and that satisfy [P]. *)
Definition Extends {A : Type} (P : A → Prop) (Array Array' : list A) : Prop :=
  ∃ New, Array' = Array ++ New ∧ NoDup New ∧ Forall (λ x, P x ∧ x ∉ Array) New.

(** The surfaces of the nodes of the model, and how many of them the
    array does not hold yet. *)
Definition NodeSurfaces (Level : ULevel) : gset Z :=
  list_to_set (iSurf <$> UModel.Nodes (Model Level)).

Definition Remaining (Level : ULevel) (SelectedSurfaceIndices : list Z) : nat :=
  size (NodeSurfaces Level ∖ list_to_set SelectedSurfaceIndices).

(** Every entry of the array before the index [SSIdx] has had the
    surfaces that share a model component with it added. *)
Definition ClosedBelow (Level : ULevel) (SSIdx : nat) (SelectedSurfaceIndices : list Z)
    : Prop :=
  ∀ (k : nat) SurfIdx SurfIdx',
    (k < SSIdx)%nat → SelectedSurfaceIndices !! k = Some SurfIdx →
    SharesComponent Level SurfIdx SurfIdx' → SurfIdx' ∈ SelectedSurfaceIndices.

(** A node group that holds a node of a surface with the property [P]. *)
Definition GroupOnSurfaces (Level : ULevel) (P : Z → Prop) (NodeGroup : FNodeGroup.t) : Prop :=
  ∃ (GroupNode : nat) Node,
    GroupNode ∈ FNodeGroup.Nodes NodeGroup
    ∧ UModel.Nodes (Model Level) !! GroupNode = Some Node
    ∧ P (iSurf Node).

(** The indices that the analysis follows are in range: the component
    index of every node, the nodes of every model component and the nodes
    of every node group. *)
Definition IndicesInRange (Level : ULevel) : bool :=
  forallb (λ Node, bool_decide (is_Some (ModelComponents Level !! ComponentIndex Node)))
    (UModel.Nodes (Model Level))
  && forallb (λ SomeModelComponent : option UModelComponent.t,
                match SomeModelComponent with
                | Some SomeModelComponent =>
                    forallb (λ i, bool_decide (is_Some (UModel.Nodes (Model Level) !! i)))
                      (UModelComponent.Nodes SomeModelComponent)
                | None => true
                end) (ModelComponents Level)
  && forallb (λ NodeGroup : option FNodeGroup.t,
                match NodeGroup with
                | Some NodeGroup =>
                    forallb (λ i, bool_decide (is_Some (UModel.Nodes (Model Level) !! i)))
                      (FNodeGroup.Nodes NodeGroup)
                | None => true
                end) (UModel.NodeGroups (Model Level)).

(** A level of four surfaces.  Surface 0 has the flag; surface 1 shares
    a model component with it, and surface 2 one with surface 1; surface 3
    shares none.  The last node group is null. *)
Definition ExampleLevel : ULevel :=
  {| Actors := [Some {| ActorPtr := 20%nat; IsBrush := true; IsSelected := false |}; None];
     Model :=
       {| UModel.Surfs :=
            [ {| PolyFlags := 0x02000001; Actor := Some 20%nat |};
              {| PolyFlags := 0; Actor := None |};
              {| PolyFlags := 1; Actor := Some 20%nat |};
              {| PolyFlags := 0; Actor := None |} ];
          UModel.Nodes :=
            [ {| iSurf := 0; ComponentIndex := 0 |};
              {| iSurf := 1; ComponentIndex := 0 |};
              {| iSurf := 2; ComponentIndex := 1 |};
              {| iSurf := 1; ComponentIndex := 1 |};
              {| iSurf := 3; ComponentIndex := 2 |} ];
          UModel.NodeGroups :=
            [ Some {| FNodeGroup.GroupPtr := 30%nat; FNodeGroup.Nodes := [0; 1]%nat |};
              Some {| FNodeGroup.GroupPtr := 31%nat; FNodeGroup.Nodes := [4]%nat |};
              Some {| FNodeGroup.GroupPtr := 32%nat; FNodeGroup.Nodes := [2; 3]%nat |};
              None ] |};
     ModelComponents :=
       [ Some {| UModelComponent.ComponentPtr := 10%nat;
                 UModelComponent.Nodes := [0; 1]%nat |};
         Some {| UModelComponent.ComponentPtr := 11%nat;
                 UModelComponent.Nodes := [2; 3]%nat |};
         Some {| UModelComponent.ComponentPtr := 12%nat;
                 UModelComponent.Nodes := [4]%nat |} ] |}.

(** A value for [PF_Selected], which the engine defines elsewhere. *)
Definition ExampleFlag : Z := 0x02000000.

End Selection.

(** * The gather and the start of a build *)

Section AllocFacts.
Context {V : Type}.
Implicit Types (h : gmap nat V) (vs : list V) (ps : list nat).

Lemma alloc_fresh h v p h' :
  alloc h v = (p, h') → h !! p = None ∧ h' = <[p := v]> h.
Proof.
  unfold alloc. intros [= <- <-]. split; [|done].
  apply not_elem_of_dom, is_fresh.
Qed.

(** What [alloc_list] returns: as many distinct addresses as values, none
    of them in use before; the store holds each value at its address and is
    otherwise as before. *)
Lemma alloc_list_spec vs : ∀ h ps h',
  alloc_list h vs = (ps, h') →
  length ps = length vs
  ∧ NoDup ps
  ∧ (∀ p, p ∈ ps → h !! p = None)
  ∧ (∀ i p, ps !! i = Some p → h' !! p = vs !! i)
  ∧ (∀ p, p ∉ ps → h' !! p = h !! p).
Proof.
  induction vs as [|v vs IH]; intros h ps h'; cbn [alloc_list].
  - intros [= <- <-]. split; [done|]. split; [constructor|].
    split; [by intros p ?%elem_of_nil|]. split; [done|done].
  - destruct (alloc h v) as [p h1] eqn:E1.
    destruct (alloc_list h1 vs) as [ps' h2] eqn:E2.
    intros [= <- <-].
    apply alloc_fresh in E1 as [Hp ->].
    destruct (IH _ _ _ E2) as (Hlen & Hnd & Hfresh & Hget & Hold).
    assert (Hpps : p ∉ ps').
    { intros Hin. specialize (Hfresh p Hin). by rewrite lookup_insert_eq in Hfresh. }
    split; [simpl; by rewrite Hlen|].
    split; [by constructor|].
    split.
    { intros q [->|Hq]%elem_of_cons; [done|].
      specialize (Hfresh q Hq). rewrite lookup_insert_None in Hfresh. tauto. }
    split.
    { intros [|i] q; simpl.
      - intros [= <-]. rewrite Hold by done. by rewrite lookup_insert_eq.
      - apply Hget. }
    intros q Hq. rewrite not_elem_of_cons in Hq. destruct Hq as [Hqp Hq].
    rewrite Hold by done. by rewrite lookup_insert_ne.
Qed.

End AllocFacts.

(** ** Frame facts *)

Lemma int32_wrap_small x : - 2 ^ 31 ≤ x < 2 ^ 31 → int32_wrap x = x.
Proof.
  intros H. unfold int32_wrap. rewrite Z.mod_small by lia. lia.
Qed.

Lemma uint32_cast_small x : 0 ≤ x < 2 ^ 32 → uint32_cast x = x.
Proof. intros H. unfold uint32_cast. by rewrite Z.mod_small. Qed.

Lemma FGuid_ctor_index i :
  (Z.of_nat i < 2 ^ 32) → FGuid.ctor 0 0 0 (Z.of_nat i) = DeterministicGuid i.
Proof.
  intros H. unfold FGuid.ctor, DeterministicGuid.
  rewrite (uint32_cast_small (Z.of_nat i)) by lia. reflexivity.
Qed.

(** Projections of updated records are computed away. *)
Ltac sys_simpl :=
  cbn [
       fst snd FStaticLightingSystem.Options FStaticLightingSystem.bBuildCanceled
       FStaticLightingSystem.DeterministicIndex FStaticLightingSystem.NextVisibilityId
       FStaticLightingSystem.CurrentBuildStage
       FStaticLightingSystem.bCrashTrackerOriginallyEnabled
       FStaticLightingSystem.LightmassProcessor FStaticLightingSystem.Lights
       FStaticLightingSystem.Meshes FStaticLightingSystem.Mappings
       FStaticLightingSystem.UnSortedMappings FStaticLightingSystem.set_bBuildCanceled
       FStaticLightingSystem.set_DeterministicIndex
       FStaticLightingSystem.set_NextVisibilityId
       FStaticLightingSystem.set_CurrentBuildStage
       FStaticLightingSystem.set_bCrashTrackerOriginallyEnabled
       FStaticLightingSystem.set_LightmassProcessor FStaticLightingSystem.set_Lights
       FStaticLightingSystem.set_Meshes FStaticLightingSystem.set_Mappings
       FStaticLightingSystem.set_UnSortedMappings GWorld LightComponents
       PrimitiveComponents MeshObjects MappingObjects GLightmassDebugOptions
       bMapBuildCancelled Notifications Log set_PrimitiveComponents set_MeshObjects
       set_MappingObjects SetMapBuildCancelled set_Notifications set_Log emit emits].

Tactic Notation "sys_simpl" "in" hyp(H) :=
  cbn [
       fst snd FStaticLightingSystem.Options FStaticLightingSystem.bBuildCanceled
       FStaticLightingSystem.DeterministicIndex FStaticLightingSystem.NextVisibilityId
       FStaticLightingSystem.CurrentBuildStage
       FStaticLightingSystem.bCrashTrackerOriginallyEnabled
       FStaticLightingSystem.LightmassProcessor FStaticLightingSystem.Lights
       FStaticLightingSystem.Meshes FStaticLightingSystem.Mappings
       FStaticLightingSystem.UnSortedMappings FStaticLightingSystem.set_bBuildCanceled
       FStaticLightingSystem.set_DeterministicIndex
       FStaticLightingSystem.set_NextVisibilityId
       FStaticLightingSystem.set_CurrentBuildStage
       FStaticLightingSystem.set_bCrashTrackerOriginallyEnabled
       FStaticLightingSystem.set_LightmassProcessor FStaticLightingSystem.set_Lights
       FStaticLightingSystem.set_Meshes FStaticLightingSystem.set_Mappings
       FStaticLightingSystem.set_UnSortedMappings GWorld LightComponents
       PrimitiveComponents MeshObjects MappingObjects GLightmassDebugOptions
       bMapBuildCancelled Notifications Log set_PrimitiveComponents set_MeshObjects
       set_MappingObjects SetMapBuildCancelled set_Notifications set_Log emit emits] in H.

Tactic Notation "sys_simpl" "in" "*" :=
  cbn [
       fst snd FStaticLightingSystem.Options FStaticLightingSystem.bBuildCanceled
       FStaticLightingSystem.DeterministicIndex FStaticLightingSystem.NextVisibilityId
       FStaticLightingSystem.CurrentBuildStage
       FStaticLightingSystem.bCrashTrackerOriginallyEnabled
       FStaticLightingSystem.LightmassProcessor FStaticLightingSystem.Lights
       FStaticLightingSystem.Meshes FStaticLightingSystem.Mappings
       FStaticLightingSystem.UnSortedMappings FStaticLightingSystem.set_bBuildCanceled
       FStaticLightingSystem.set_DeterministicIndex
       FStaticLightingSystem.set_NextVisibilityId
       FStaticLightingSystem.set_CurrentBuildStage
       FStaticLightingSystem.set_bCrashTrackerOriginallyEnabled
       FStaticLightingSystem.set_LightmassProcessor FStaticLightingSystem.set_Lights
       FStaticLightingSystem.set_Meshes FStaticLightingSystem.set_Mappings
       FStaticLightingSystem.set_UnSortedMappings GWorld LightComponents
       PrimitiveComponents MeshObjects MappingObjects GLightmassDebugOptions
       bMapBuildCancelled Notifications Log set_PrimitiveComponents set_MeshObjects
       set_MappingObjects SetMapBuildCancelled set_Notifications set_Log emit emits] in *.

(** ** The loops of AddPrimitiveStaticLightingInfo *)

Lemma UpdateMesh_Some q f g g' :
  UpdateMesh q f g = Some g' →
  ∃ m, MeshObjects g !! q = Some m ∧ g' = set_MeshObjects (<[q := f m]> (MeshObjects g)) g.
Proof.
  unfold UpdateMesh. destruct (MeshObjects g !! q) as [m|]; simpl; [|done].
  intros [= <-]. eauto.
Qed.

Lemma UpdateMapping_Some p f g g' :
  UpdateMapping p f g = Some g' →
  ∃ m, MappingObjects g !! p = Some m
       ∧ g' = set_MappingObjects (<[p := f m]> (MappingObjects g)) g.
Proof.
  unfold UpdateMapping. destruct (MappingObjects g !! p) as [m|]; simpl; [|done].
  intros [= <-]. eauto.
Qed.

Lemma AssignDeterministicGuid_Some q this g st' :
  AssignDeterministicGuid q (this, g) = Some st' →
  ∃ m, MeshObjects g !! q = Some m
       ∧ st' = (FStaticLightingSystem.set_DeterministicIndex
                  (int32_wrap (FStaticLightingSystem.DeterministicIndex this + 1)) this,
                set_MeshObjects
                  (<[q := set_Guid (FGuid.ctor 0 0 0 (FStaticLightingSystem.DeterministicIndex this)) m]>
                     (MeshObjects g)) g).
Proof.
  unfold AssignDeterministicGuid.
  destruct (UpdateMesh q _ g) as [g1|] eqn:E; simpl; [|done].
  apply UpdateMesh_Some in E as (m & Hm & ->). intros [= <-]. eauto.
Qed.

(** The meshes of a primitive: each gets the visibility id appended, and,
    when the deterministic index is assigned here, the next index. *)
Lemma AddPrimitiveStaticLightingInfo_Meshes_spec vis b ms : ∀ this g st',
  NoDup ms →
  AddPrimitiveStaticLightingInfo_Meshes vis b ms (this, g) = Some st' →
  (negb (bSortMappings (GLightmassDebugOptions g)) && b = true →
   0 ≤ FStaticLightingSystem.DeterministicIndex this
   ∧ FStaticLightingSystem.DeterministicIndex this + Z.of_nat (length ms) < 2 ^ 31) →
  ∃ MH',
    st' = (FStaticLightingSystem.set_DeterministicIndex
             (if negb (bSortMappings (GLightmassDebugOptions g)) && b
              then FStaticLightingSystem.DeterministicIndex this + Z.of_nat (length ms)
              else FStaticLightingSystem.DeterministicIndex this)
             (FStaticLightingSystem.set_Meshes (FStaticLightingSystem.Meshes this ++ ms) this),
           set_MeshObjects MH' g)
    ∧ (∀ q, q ∉ ms → MH' !! q = MeshObjects g !! q)
    ∧ (∀ i q, ms !! i = Some q →
         ∃ m, MeshObjects g !! q = Some m
              ∧ MH' !! q
                = Some (if negb (bSortMappings (GLightmassDebugOptions g)) && b
                        then set_Guid
                               (DeterministicGuid
                                  (Z.to_nat (FStaticLightingSystem.DeterministicIndex this) + i))
                               (set_VisibilityIds (VisibilityIds m ++ [vis]) m)
                        else set_VisibilityIds (VisibilityIds m ++ [vis]) m)).
Proof.
  induction ms as [|q ms IH]; intros this g st' Hnd; cbn [AddPrimitiveStaticLightingInfo_Meshes].
  - intros [= <-] Hb. exists (MeshObjects g).
    split.
    { simpl. rewrite app_nil_r, Z.add_0_r.
      destruct (negb _ && b); by destruct this, g. }
    split; [done|]. by intros i q ?.
  - inversion_clear Hnd as [|?? Hq Hnd'].
    cbn [fst snd].
    destruct (UpdateMesh q _ g) as [g1|] eqn:E1; cbn [mbind option_bind]; [|done].
    apply UpdateMesh_Some in E1 as (m & Hm & ->).
    cbn [GLightmassDebugOptions set_MeshObjects].
    intros E Hb.
    set (DI := FStaticLightingSystem.DeterministicIndex this) in *.
    destruct (negb (bSortMappings (GLightmassDebugOptions g)) && b) eqn:Eas.
    + destruct (Hb eq_refl) as [HDI0 HDI1]. cbn [length] in HDI1.
      destruct (AssignDeterministicGuid q _) as [st1|] eqn:E2; cbn [mbind option_bind] in E; [|done].
      apply AssignDeterministicGuid_Some in E2 as (m1 & Hm1 & ->).
      cbn [MeshObjects set_MeshObjects] in Hm1. rewrite lookup_insert_eq in Hm1.
      injection Hm1 as <-.
      unfold AddMesh in E. cbn [fst snd] in E.
      apply IH in E; [|done|].
      2:{ cbn [FStaticLightingSystem.DeterministicIndex FStaticLightingSystem.set_Meshes
               FStaticLightingSystem.set_DeterministicIndex]. fold DI.
          rewrite (int32_wrap_small (DI + 1)) by lia. intros _. lia. }
      cbn [GLightmassDebugOptions set_MeshObjects FStaticLightingSystem.DeterministicIndex
           FStaticLightingSystem.set_Meshes FStaticLightingSystem.set_DeterministicIndex] in E.
      rewrite Eas in E. fold DI in E.
      rewrite (int32_wrap_small (DI + 1)) in E by lia.
      destruct E as (MH' & -> & Hold & Hnew).
      exists MH'. split.
      { cbn [length]. f_equal.
        unfold FStaticLightingSystem.set_DeterministicIndex, FStaticLightingSystem.set_Meshes.
        simpl. f_equal; [lia|]. by rewrite <- app_assoc. }
      split.
      { intros q' [Hq' Hq'']%not_elem_of_cons. rewrite Hold by done.
        cbn [MeshObjects set_MeshObjects]. by rewrite !lookup_insert_ne. }
      intros [|i] q'; cbn [lookup list_lookup].
      * intros [= <-]. exists m. split; [done|]. rewrite Hold by done.
        cbn [MeshObjects set_MeshObjects]. rewrite insert_insert_eq, lookup_insert_eq.
        rewrite Nat.add_0_r. f_equal. unfold set_Guid, set_VisibilityIds; simpl.
        rewrite <- (Z2Nat.id DI) at 1 by lia. rewrite FGuid_ctor_index; [done|].
        rewrite Z2Nat.id by lia. lia.
      * intros Hi. destruct (Hnew i q' Hi) as (m' & Hm' & ->).
        assert (q' ≠ q) by (intros ->; apply Hq; by eapply list_elem_of_lookup_2).
        cbn [MeshObjects set_MeshObjects] in Hm'. rewrite !lookup_insert_ne in Hm' by done.
        exists m'. split; [done|]. do 3 f_equal. lia.
    + cbn [mbind option_bind] in E. unfold AddMesh in E. cbn [fst snd] in E.
      apply IH in E; [|done|].
      2:{ cbn [GLightmassDebugOptions set_MeshObjects]. rewrite Eas. done. }
      cbn [GLightmassDebugOptions set_MeshObjects FStaticLightingSystem.DeterministicIndex
           FStaticLightingSystem.set_Meshes] in E.
      rewrite Eas in E.
      destruct E as (MH' & -> & Hold & Hnew).
      exists MH'. split.
      { f_equal.
        unfold FStaticLightingSystem.set_DeterministicIndex, FStaticLightingSystem.set_Meshes.
        simpl. f_equal. by rewrite <- app_assoc. }
      split.
      { intros q' [Hq' Hq'']%not_elem_of_cons. rewrite Hold by done.
        cbn [MeshObjects set_MeshObjects]. by rewrite lookup_insert_ne. }
      intros [|i] q'; cbn [lookup list_lookup].
      * intros [= <-]. exists m. split; [done|]. rewrite Hold by done.
        cbn [MeshObjects set_MeshObjects]. by rewrite lookup_insert_eq.
      * intros Hi. destruct (Hnew i q' Hi) as (m' & Hm' & ->).
        assert (q' ≠ q) by (intros ->; apply Hq; by eapply list_elem_of_lookup_2).
        cbn [MeshObjects set_MeshObjects] in Hm'. rewrite lookup_insert_ne in Hm' by done.
        exists m'. split; done.
Qed.

Lemma AddMapping_Some p this g st' :
  AddMapping p (this, g) = Some st' →
  ∃ hs,
    st' = (FStaticLightingSystem.set_UnSortedMappings
             (FStaticLightingSystem.UnSortedMappings this
              ++ (if bSortMappings (GLightmassDebugOptions g) then hs else []))
             (FStaticLightingSystem.set_Mappings
                (FStaticLightingSystem.Mappings this
                 ++ (if bSortMappings (GLightmassDebugOptions g) then [] else [p])) this), g)
    ∧ Mapping <$> hs = [p].
Proof.
  unfold AddMapping. destruct (bSortMappings (GLightmassDebugOptions g)).
  - destruct (MappingObjects g !! p) as [m|]; simpl; [|done].
    intros [= <-]. exists [{| NumTexels := TexelCount m; Mapping := p |}]. split; [|reflexivity].
    f_equal. unfold FStaticLightingSystem.set_UnSortedMappings, FStaticLightingSystem.set_Mappings.
    simpl. by rewrite app_nil_r.
  - intros [= <-]. exists [{| NumTexels := 0; Mapping := p |}]. split; [|reflexivity].
    f_equal. unfold FStaticLightingSystem.set_UnSortedMappings, FStaticLightingSystem.set_Mappings.
    simpl. by rewrite app_nil_r.
Qed.

(** The mappings of a primitive: each is flagged when lighting is built
    for the actor, and is added to the system's list or to the list that
    awaits sorting. *)
Lemma AddPrimitiveStaticLightingInfo_Mappings_spec b ps : ∀ this g st',
  NoDup ps →
  AddPrimitiveStaticLightingInfo_Mappings b ps (this, g) = Some st' →
  ∃ PH' hs,
    st' = (FStaticLightingSystem.set_UnSortedMappings
             (FStaticLightingSystem.UnSortedMappings this
              ++ (if bSortMappings (GLightmassDebugOptions g) then hs else []))
             (FStaticLightingSystem.set_Mappings
                (FStaticLightingSystem.Mappings this
                 ++ (if bSortMappings (GLightmassDebugOptions g) then [] else ps)) this),
           set_MappingObjects PH' g)
    ∧ Mapping <$> hs = ps
    ∧ (∀ p, p ∉ ps → PH' !! p = MappingObjects g !! p)
    ∧ (∀ p m, p ∈ ps → MappingObjects g !! p = Some m →
         PH' !! p = Some (if b then set_bProcessMapping true m else m)).
Proof.
  induction ps as [|p ps IH]; intros this g st' Hnd;
    cbn [AddPrimitiveStaticLightingInfo_Mappings].
  - intros [= <-]. exists (MappingObjects g), []. split.
    { f_equal.
      - unfold FStaticLightingSystem.set_UnSortedMappings, FStaticLightingSystem.set_Mappings.
        destruct this; simpl.
        destruct (bSortMappings _); by rewrite !app_nil_r.
      - by destruct g. }
    split; [done|]. split; [done|]. by intros p m ?%elem_of_nil.
  - inversion_clear Hnd as [|?? Hp Hnd']. cbn [fst snd].
    intros E.
    assert (Hg1 : ∃ g1 PH1, (if b then UpdateMapping p (set_bProcessMapping true) g else Some g)
                            = Some g1
                  ∧ g1 = set_MappingObjects PH1 g
                  ∧ (∀ p', p' ≠ p → PH1 !! p' = MappingObjects g !! p')
                  ∧ (∀ m, MappingObjects g !! p = Some m →
                       PH1 !! p = Some (if b then set_bProcessMapping true m else m))).
    { destruct b.
      - destruct (UpdateMapping p _ g) as [g1|] eqn:E1; [|done].
        apply UpdateMapping_Some in E1 as (m & Hm & ->).
        eexists _, _. split; [reflexivity|]. split; [reflexivity|].
        split; [intros p' ?; by rewrite lookup_insert_ne|].
        intros m' Hm'. rewrite lookup_insert_eq. congruence.
      - exists g, (MappingObjects g). split; [reflexivity|]. split; [by destruct g|]. done. }
    destruct Hg1 as (g1 & PH1 & Eg1 & -> & Hold1 & Hnew1). rewrite Eg1 in E.
    cbn [mbind option_bind] in E.
    destruct (AddMapping p _) as [st1|] eqn:E2; cbn [mbind option_bind] in E; [|done].
    apply AddMapping_Some in E2 as (hs1 & -> & Hhs1).
    cbn [GLightmassDebugOptions set_MappingObjects] in E.
    apply IH in E as (PH' & hs & -> & Hhs & Hold & Hnew); [|done].
    cbn [GLightmassDebugOptions set_MappingObjects MappingObjects] in *.
    exists PH', (hs1 ++ hs). split.
    { f_equal.
      unfold FStaticLightingSystem.set_UnSortedMappings, FStaticLightingSystem.set_Mappings.
      simpl. destruct (bSortMappings _); f_equal; by rewrite <- ?app_assoc, ?app_nil_r. }
    split; [by rewrite fmap_app, Hhs1, Hhs|].
    split.
    { intros p' [Hp' Hp'']%not_elem_of_cons. rewrite Hold by done. by apply Hold1. }
    intros p' m [->|Hin]%elem_of_cons Hm.
    + rewrite Hold by done. by apply Hnew1.
    + apply Hnew; [done|]. rewrite Hold1; [done|]. intros ->. done.
Qed.

(** ** The invariant of the deterministic indices *)

Lemma filter_ext_Forall {A} (P Q : A → Prop) `{∀ x, Decision (P x)} `{∀ x, Decision (Q x)}
    (l : list A) :
  Forall (λ x, P x ↔ Q x) l → filter P l = filter Q l.
Proof.
  induction 1 as [|x l Hx _ IH]; [done|].
  rewrite !filter_cons. destruct (decide (P x)), (decide (Q x)); try tauto; by rewrite IH.
Qed.

Lemma filter_all {A} (P : A → Prop) `{∀ x, Decision (P x)} (l : list A) :
  Forall P l → filter P l = l.
Proof.
  induction 1 as [|x l Hx _ IH]; [done|]. rewrite filter_cons. by rewrite decide_True, IH.
Qed.

Lemma filter_none {A} (P : A → Prop) `{∀ x, Decision (P x)} (l : list A) :
  Forall (λ x, ¬ P x) l → filter P l = [].
Proof.
  induction 1 as [|x l Hx _ IH]; [done|]. rewrite filter_cons. by rewrite decide_False, IH.
Qed.

Lemma omap_all_Some {A B} (f : A → option B) (l : list A) (k : list B) :
  length l = length k →
  (∀ i x y, l !! i = Some x → k !! i = Some y → f x = Some y) →
  omap f l = k.
Proof.
  revert k. induction l as [|x l IH]; intros [|y k] Hlen Hf; simplify_eq/=; [done|].
  csimpl. rewrite (Hf 0%nat x y eq_refl eq_refl). f_equal. apply IH; [done|].
  intros i x' y' ??. by apply (Hf (S i)).
Qed.

(** Mappings that the store held before a step, with meshes that it held
    before, look the same after it, if the step left the old mappings and
    the Guid of the old meshes alone. *)
Section OldObjects.
Context (g g' : Globals).
Hypothesis Hmappings :
  ∀ p, is_Some (MappingObjects g !! p) → MappingObjects g' !! p = MappingObjects g !! p.
Hypothesis Hmeshes :
  ∀ q, is_Some (MeshObjects g !! q) →
       Guid <$> MeshObjects g' !! q = Guid <$> MeshObjects g !! q.

Lemma old_MappingMesh p q : MappingMesh g p = Some q → MappingMesh g' p = Some q.
Proof.
  unfold MappingMesh. intros H. rewrite Hmappings; [done|].
  destruct (MappingObjects g !! p); [eauto|done].
Qed.

Lemma old_IsProcessMapping p q :
  MappingMesh g p = Some q → IsProcessMapping g' p = IsProcessMapping g p.
Proof.
  unfold MappingMesh, IsProcessMapping. intros H. rewrite Hmappings; [done|].
  destruct (MappingObjects g !! p); [eauto|done].
Qed.

Lemma old_MappingGuid p q :
  MappingMesh g p = Some q → is_Some (MeshObjects g !! q) →
  MappingGuid g' p = MappingGuid g p.
Proof.
  intros H Hq. unfold MappingGuid. rewrite (old_MappingMesh p q H), H. simpl.
  by apply Hmeshes.
Qed.

Lemma old_mesh_is_Some q : is_Some (MeshObjects g !! q) → is_Some (MeshObjects g' !! q).
Proof.
  intros Hq. specialize (Hmeshes q Hq). destruct Hq as [m Hm]. rewrite Hm in Hmeshes.
  destruct (MeshObjects g' !! q); [eauto|done].
Qed.

End OldObjects.

Lemma omap_ext_Forall {A B} (f f' : A → option B) (l : list A) :
  Forall (λ x, f' x = f x) l → omap f' l = omap f l.
Proof.
  induction 1 as [|x l Hx _ IH]; [done|]. csimpl. by rewrite Hx, IH.
Qed.

Lemma DeterministicInv_add Pend this g this' g' ps ms (toMappings flag assign : bool) :
  DeterministicInv Pend (this, g) →
  (∀ p, is_Some (MappingObjects g !! p) → MappingObjects g' !! p = MappingObjects g !! p) →
  (∀ q, is_Some (MeshObjects g !! q) →
        Guid <$> MeshObjects g' !! q = Guid <$> MeshObjects g !! q) →
  NoDup ms →
  (∀ q, q ∈ ms → MeshObjects g !! q = None) →
  length ps = length ms →
  (∀ i p q, ps !! i = Some p → ms !! i = Some q →
     ∃ m msh, MappingObjects g' !! p = Some m ∧ Mesh m = Some q ∧ bProcessMapping m = flag
              ∧ MeshObjects g' !! q = Some msh
              ∧ (assign = true →
                 Guid msh
                 = DeterministicGuid
                     (Z.to_nat (FStaticLightingSystem.DeterministicIndex this) + i))) →
  (toMappings = true → flag = assign) →
  (toMappings = false → assign = false) →
  FStaticLightingSystem.Mappings this'
  = FStaticLightingSystem.Mappings this ++ (if toMappings then ps else []) →
  FStaticLightingSystem.DeterministicIndex this'
  = (if assign then FStaticLightingSystem.DeterministicIndex this + Z.of_nat (length ms)
     else FStaticLightingSystem.DeterministicIndex this) →
  DeterministicInv (Pend ++ (if toMappings then [] else ps)) (this', g').
Proof.
  intros [Hm Hnd Hidx Hg] HPH HMH Hndms Hfresh Hlen Hnew HtM1 HtM2 HMap HDI.
  cbn [fst snd] in *.
  set (L := FStaticLightingSystem.Mappings this ++ Pend) in *.
  assert (Hperm : FStaticLightingSystem.Mappings this' ++ Pend ++ (if toMappings then [] else ps)
                  ≡ₚ L ++ ps).
  { rewrite HMap. subst L. destruct toMappings.
    - rewrite app_nil_r, <- !app_assoc. apply Permutation_app_head, Permutation_app_comm.
    - by rewrite app_nil_r, <- !app_assoc. }
  assert (HoldL : Forall (λ p, MappingMesh g' p = MappingMesh g p
                               ∧ IsProcessMapping g' p = IsProcessMapping g p
                               ∧ MappingGuid g' p = MappingGuid g p) L).
  { eapply Forall_impl; [exact Hm|]. intros p (q & Hq & Hq').
    split; [rewrite Hq; by eapply old_MappingMesh|].
    split; [by eapply old_IsProcessMapping|by eapply old_MappingGuid]. }
  assert (Hpsmesh : ∀ i p q, ps !! i = Some p → ms !! i = Some q → MappingMesh g' p = Some q).
  { intros i p q Hp Hq. destruct (Hnew i p q Hp Hq) as (m & msh & Hm' & Hmesh & _).
    unfold MappingMesh. by rewrite Hm'. }
  constructor; cbn [fst snd].
  - rewrite Hperm. apply Forall_app. split.
    + apply Forall_forall. intros p Hp.
      destruct (proj1 (Forall_forall _ _) Hm p Hp) as (q & Hq & Hq').
      destruct (proj1 (Forall_forall _ _) HoldL p Hp) as (E1 & _).
      exists q. rewrite E1. split; [done|]. by eapply old_mesh_is_Some.
    + apply Forall_lookup. intros i p Hp.
      destruct (lookup_lt_is_Some_2 ms i) as [q Hq].
      { rewrite <- Hlen. by eapply lookup_lt_Some. }
      exists q. split; [by eapply Hpsmesh|].
      destruct (Hnew i p q Hp Hq) as (m & msh & _ & _ & _ & Hmsh & _). by rewrite Hmsh.
  - rewrite Hperm, omap_app.
    rewrite (omap_ext_Forall (MappingMesh g) (MappingMesh g') L)
      by (eapply Forall_impl; [exact HoldL|]; by intros p (? & _)).
    rewrite (omap_all_Some (MappingMesh g') ps ms Hlen Hpsmesh).
    apply NoDup_app. split; [exact Hnd|]. split; [|exact Hndms].
    intros q (p & Hp & Hq)%list_elem_of_omap Hin.
    rewrite Forall_forall in Hm. destruct (Hm p Hp) as (q' & Hq' & [msh Hmsh]).
    assert (q' = q) as -> by congruence.
    specialize (Hfresh q Hin). congruence.
  - rewrite HDI. destruct assign; lia.
  - unfold ProcessedMappings in *. cbn [fst snd] in *.
    rewrite HMap, filter_app, fmap_app.
    assert (HoldM : Forall (λ p, MappingMesh g' p = MappingMesh g p
                                 ∧ IsProcessMapping g' p = IsProcessMapping g p
                                 ∧ MappingGuid g' p = MappingGuid g p)
                      (FStaticLightingSystem.Mappings this)).
    { subst L. by apply Forall_app in HoldL as [? _]. }
    rewrite (filter_ext_Forall (λ p, IsProcessMapping g' p = true)
               (λ p, IsProcessMapping g p = true) (FStaticLightingSystem.Mappings this))
      by (eapply Forall_impl; [exact HoldM|]; by intros p (_ & -> & _)).
    assert (E1 : MappingGuid g' <$> filter (λ p, IsProcessMapping g p = true)
                                      (FStaticLightingSystem.Mappings this)
                 = MappingGuid g <$> filter (λ p, IsProcessMapping g p = true)
                                       (FStaticLightingSystem.Mappings this)).
    { apply Forall_fmap_ext.
      apply Forall_forall. intros p [_ Hp]%list_elem_of_filter.
      rewrite Forall_forall in HoldM. by destruct (HoldM p Hp) as (_ & _ & ->). }
    rewrite E1, Hg, HDI. clear E1.
    destruct toMappings.
    + specialize (HtM1 eq_refl). subst flag. destruct assign.
      * rewrite Z2Nat.inj_add, Nat2Z.id by lia. rewrite seq_app, fmap_app. f_equal.
        rewrite (filter_all (λ p, IsProcessMapping g' p = true) ps).
        2:{ apply Forall_lookup. intros i p Hp.
            destruct (lookup_lt_is_Some_2 ms i) as [q Hq].
            { rewrite <- Hlen. by eapply lookup_lt_Some. }
            destruct (Hnew i p q Hp Hq) as (m & msh & Hm' & _ & Hf & _).
            unfold IsProcessMapping. by rewrite Hm'. }
        apply list_eq. intros i. rewrite !list_lookup_fmap.
        destruct (ps !! i) as [p|] eqn:Hp; simpl.
        -- destruct (lookup_lt_is_Some_2 ms i) as [q Hq].
           { rewrite <- Hlen. by eapply lookup_lt_Some. }
           destruct (Hnew i p q Hp Hq) as (m & msh & Hm' & Hmesh & _ & Hmsh & HG).
           rewrite lookup_seq_lt by (rewrite <- Hlen; by eapply lookup_lt_Some).
           simpl. f_equal. unfold MappingGuid, MappingMesh. rewrite Hm'. simpl.
           rewrite Hmesh. simpl. rewrite Hmsh. simpl. f_equal. by apply HG.
        -- apply lookup_ge_None in Hp. by rewrite lookup_seq_ge by lia.
      * rewrite (filter_none (λ p, IsProcessMapping g' p = true) ps).
        2:{ apply Forall_lookup. intros i p Hp.
            destruct (lookup_lt_is_Some_2 ms i) as [q Hq].
            { rewrite <- Hlen. by eapply lookup_lt_Some. }
            destruct (Hnew i p q Hp Hq) as (m & msh & Hm' & _ & Hf & _).
            unfold IsProcessMapping. rewrite Hm', Hf. done. }
        by rewrite app_nil_r.
    + rewrite (HtM2 eq_refl). rewrite filter_nil. by rewrite app_nil_r.
Qed.

(** ** The component step *)

Lemma WellPairedFrom_lookup Inits : ∀ k i Init,
  WellPairedFrom k Inits = true → Inits !! i = Some Init →
  MeshIndex Init = Some (k + i)%nat ∧ bProcessMappingInit Init = false.
Proof.
  induction Inits as [|Init0 Inits IH]; intros k i Init; [done|].
  cbn [WellPairedFrom]. rewrite !andb_true_iff, bool_decide_eq_true, negb_true_iff.
  intros [[H1 H2] H3]. destruct i as [|i]; simpl.
  - intros [= <-]. by rewrite Nat.add_0_r.
  - intros Hi. destruct (IH _ _ _ H3 Hi) as [-> ->]. split; [f_equal; lia|done].
Qed.

Lemma GetStaticLightingInfo_spec c g info g1 :
  GetStaticLightingInfo c g = (info, g1) →
  ∃ MH1 PH1,
    g1 = set_MappingObjects PH1 (set_MeshObjects MH1 g)
    ∧ FStaticLightingPrimitiveInfo.VisibilityId info = INDEX_NONE
    ∧ length (FStaticLightingPrimitiveInfo.Meshes info)
      = length (UPrimitiveComponent.InfoMeshes c)
    ∧ length (FStaticLightingPrimitiveInfo.Mappings info)
      = length (UPrimitiveComponent.InfoMappings c)
    ∧ NoDup (FStaticLightingPrimitiveInfo.Meshes info)
    ∧ NoDup (FStaticLightingPrimitiveInfo.Mappings info)
    ∧ (∀ q, q ∈ FStaticLightingPrimitiveInfo.Meshes info → MeshObjects g !! q = None)
    ∧ (∀ p, p ∈ FStaticLightingPrimitiveInfo.Mappings info → MappingObjects g !! p = None)
    ∧ (∀ q, q ∉ FStaticLightingPrimitiveInfo.Meshes info → MH1 !! q = MeshObjects g !! q)
    ∧ (∀ p, p ∉ FStaticLightingPrimitiveInfo.Mappings info → PH1 !! p = MappingObjects g !! p)
    ∧ (∀ i q, FStaticLightingPrimitiveInfo.Meshes info !! i = Some q →
         MH1 !! q = UPrimitiveComponent.InfoMeshes c !! i)
    ∧ (∀ i p, FStaticLightingPrimitiveInfo.Mappings info !! i = Some p →
         PH1 !! p
         = (λ Init, {| Mesh := MeshIndex Init ≫= (FStaticLightingPrimitiveInfo.Meshes info !!.);
                       bProcessMapping := bProcessMappingInit Init;
                       TexelCount := TexelCountInit Init |})
             <$> UPrimitiveComponent.InfoMappings c !! i).
Proof.
  unfold GetStaticLightingInfo.
  destruct (alloc_list (MeshObjects g) _) as [ms MH1] eqn:E1.
  destruct (alloc_list (MappingObjects g) _) as [ps PH1] eqn:E2.
  intros [= <- <-]. cbn [FStaticLightingPrimitiveInfo.Meshes FStaticLightingPrimitiveInfo.Mappings
                         FStaticLightingPrimitiveInfo.VisibilityId].
  apply alloc_list_spec in E1 as (Hl1 & Hnd1 & Hf1 & Hg1 & Ho1).
  apply alloc_list_spec in E2 as (Hl2 & Hnd2 & Hf2 & Hg2 & Ho2).
  rewrite length_fmap in Hl2.
  exists MH1, PH1. repeat (split; [done|]).
  intros i p Hp. rewrite (Hg2 i p Hp). by rewrite list_lookup_fmap.
Qed.

(** The first loop of [AddPrimitiveStaticLightingInfo] does not touch the
    mappings. *)
Lemma AddPrimitiveStaticLightingInfo_Meshes_frame vis b ms : ∀ st st',
  AddPrimitiveStaticLightingInfo_Meshes vis b ms st = Some st' →
  FStaticLightingSystem.Mappings st'.1 = FStaticLightingSystem.Mappings st.1
  ∧ FStaticLightingSystem.UnSortedMappings st'.1 = FStaticLightingSystem.UnSortedMappings st.1
  ∧ PrimitiveComponents st'.2 = PrimitiveComponents st.2
  ∧ GLightmassDebugOptions st'.2 = GLightmassDebugOptions st.2.
Proof.
  induction ms as [|q ms IH]; intros [this g] st'; cbn [AddPrimitiveStaticLightingInfo_Meshes].
  - by intros [= <-].
  - cbn [fst snd].
    destruct (UpdateMesh q _ g) as [g1|] eqn:E1; cbn [mbind option_bind]; [|done].
    apply UpdateMesh_Some in E1 as (m & _ & ->).
    destruct (negb _ && b).
    + destruct (AssignDeterministicGuid q _) as [st1|] eqn:E2; cbn [mbind option_bind]; [|done].
      apply AssignDeterministicGuid_Some in E2 as (m1 & Hm1 & ->).
      intros E. by apply IH in E.
    + cbn [mbind option_bind]. intros E. by apply IH in E.
Qed.

Lemma DeterministicInv_index_le Pend st :
  DeterministicInv Pend st →
  FStaticLightingSystem.DeterministicIndex st.1
  ≤ Z.of_nat (length (FStaticLightingSystem.Mappings st.1)).
Proof.
  intros [_ _ Hidx Hg].
  apply (f_equal length) in Hg. rewrite !length_fmap, length_seq in Hg.
  unfold ProcessedMappings in Hg.
  pose proof (length_filter (λ p, IsProcessMapping st.2 p = true)
                (FStaticLightingSystem.Mappings st.1)). lia.
Qed.

Lemma AddPrimitiveStaticLightingInfo_GatherInv this this1 g g0 g1 c info info1 bB st' :
  GatherInv (this, g) →
  WellPaired c = true →
  GetStaticLightingInfo c g = (info, g0) →
  FStaticLightingPrimitiveInfo.Meshes info1 = FStaticLightingPrimitiveInfo.Meshes info →
  FStaticLightingPrimitiveInfo.Mappings info1 = FStaticLightingPrimitiveInfo.Mappings info →
  FStaticLightingSystem.Mappings this1 = FStaticLightingSystem.Mappings this →
  FStaticLightingSystem.UnSortedMappings this1 = FStaticLightingSystem.UnSortedMappings this →
  FStaticLightingSystem.DeterministicIndex this1 = FStaticLightingSystem.DeterministicIndex this →
  MeshObjects g1 = MeshObjects g0 →
  MappingObjects g1 = MappingObjects g0 →
  GLightmassDebugOptions g1 = GLightmassDebugOptions g →
  StoreWellPaired g1 = true →
  AddPrimitiveStaticLightingInfo info1 bB (this1, g1) = Some st' →
  GatherInv st'.
Proof.
  intros (HWF & HUS & Hinv) HWP EQ Hms Hps HM HU HDI HMH HPH HGO HWF1.
  unfold AddPrimitiveStaticLightingInfo. rewrite Hms, Hps.
  case_bool_decide as Hlen; [|done].
  destruct (AddPrimitiveStaticLightingInfo_Meshes _ _ _ _) as [st2|] eqn:E1;
    cbn [mbind option_bind]; [|done].
  intros E2.
  apply GetStaticLightingInfo_spec in EQ
    as (MH0 & PH0 & -> & _ & Hl1 & Hl2 & Hnd1 & Hnd2 & Hf1 & Hf2 & Ho1 & Ho2 & Hg1 & Hg2).
  cbn [MeshObjects MappingObjects set_MappingObjects set_MeshObjects] in HMH, HPH.
  set (ms := FStaticLightingPrimitiveInfo.Meshes info) in *.
  set (ps := FStaticLightingPrimitiveInfo.Mappings info) in *.
  destruct st2 as [this2 g2].
  destruct (AddPrimitiveStaticLightingInfo_Meshes_frame _ _ _ _ _ E1) as (HM2 & HU2 & HC2 & HO2).
  cbn [fst snd] in HM2, HU2, HC2, HO2.
  pose proof E2 as E2'.
  apply AddPrimitiveStaticLightingInfo_Mappings_spec in E2'
    as (PH' & hs & -> & Hhs & Hold2 & Hnew2); [|done].
  assert (Hhslen : length hs = length ps) by (rewrite <- Hhs; by rewrite length_fmap).
  split.
  { cbn [fst snd]. unfold StoreWellPaired in *.
    cbn [PrimitiveComponents set_MappingObjects]. by rewrite HC2. }
  split.
  { sys_simpl in HUS. sys_simpl. rewrite HO2, HU2, HU, HGO. intros Hs.
    rewrite Hs, HUS by done. done. }
  sys_simpl. intros Hbound.
  assert (Hbound0 : Z.of_nat (length (FStaticLightingSystem.Mappings this)
                              + length (FStaticLightingSystem.UnSortedMappings this)) < 2 ^ 31).
  { rewrite !length_app in Hbound. rewrite HM2, HU2, HM, HU in Hbound. lia. }
  specialize (Hinv Hbound0).
  pose proof (DeterministicInv_index_le _ _ Hinv) as HDIle. cbn [fst] in HDIle.
  pose proof (det_index _ _ Hinv) as HDI0. cbn [fst] in HDI0.
  assert (Hsum : Z.of_nat (length (FStaticLightingSystem.Mappings this) + length ps) < 2 ^ 31).
  { rewrite !length_app in Hbound. rewrite HM2, HU2, HM, HU in Hbound.
    destruct (bSortMappings (GLightmassDebugOptions g2)); simpl in Hbound; lia. }
  apply AddPrimitiveStaticLightingInfo_Meshes_spec in E1
    as (MH' & [= -> ->] & Hold1 & Hnew1); [|done|].
  2:{ intros _. rewrite HDI. lia. }
  cbn [GLightmassDebugOptions set_MeshObjects MeshObjects MappingObjects] in *.
  rewrite HGO in *. rewrite HDI in *. rewrite HMH in *. rewrite HPH in *.
  set (sort := bSortMappings (GLightmassDebugOptions g)) in *.
  unfold Pending. sys_simpl. rewrite HU, fmap_app.
  replace (Mapping <$> (if sort then hs else [])) with (if negb sort then [] else ps)
    by (destruct sort; simpl; congruence).
  eapply (DeterministicInv_add _ this g _ _ ps ms (negb sort) bB (negb sort && bB));
    [exact Hinv| | |exact Hnd1| |by symmetry| | | | |].
  - intros p [m Hp]. cbn [MappingObjects set_MappingObjects].
    assert (p ∉ ps) by (intros Hin; specialize (Hf2 p Hin); congruence).
    rewrite Hold2, Ho2 by done. done.
  - intros q [m Hq]. cbn [MeshObjects set_MappingObjects set_MeshObjects].
    assert (q ∉ ms) by (intros Hin; specialize (Hf1 q Hin); congruence).
    rewrite Hold1, Ho1 by done. done.
  - exact Hf1.
  - intros i p q Hp Hq. cbn [MappingObjects MeshObjects set_MappingObjects set_MeshObjects].
    pose proof (Hg2 i p Hp) as Hp1.
    destruct (UPrimitiveComponent.InfoMappings c !! i) as [Init|] eqn:HInit.
    2:{ apply lookup_ge_None in HInit. apply lookup_lt_Some in Hp. lia. }
    simpl in Hp1.
    destruct (WellPairedFrom_lookup _ 0 i Init HWP HInit) as [HMI HPI].
    rewrite HMI, HPI in Hp1. simpl in Hp1. fold ms in Hp1. rewrite Hq in Hp1.
    rewrite (Hnew2 p _ (list_elem_of_lookup_2 _ _ _ Hp) Hp1).
    destruct (Hnew1 i q Hq) as (msh & Hmsh & ->).
    eexists _, _. split; [reflexivity|].
    split; [by destruct bB|]. split; [by destruct bB|]. split; [reflexivity|].
    intros ->. done.
  - destruct sort; simpl; [done|]. done.
  - destruct sort; simpl; [done|]. done.
  - sys_simpl. rewrite HM. by destruct sort.
  - sys_simpl. done.
Qed.

(** ** Steps that leave the lighting data alone *)

Lemma SameLighting_refl st : SameLighting st st.
Proof. by constructor. Qed.

Lemma SameLighting_trans st1 st2 st3 :
  SameLighting st1 st2 → SameLighting st2 st3 → SameLighting st1 st3.
Proof.
  intros [] []. constructor; congruence.
Qed.

Ltac quiet := split; [by constructor|done|done].

Lemma Quiet_refl st : Quiet st st.
Proof. quiet. Qed.

Lemma Quiet_trans st1 st2 st3 : Quiet st1 st2 → Quiet st2 st3 → Quiet st1 st3.
Proof.
  intros [H1 H2 H3] [H4 H5 H6]. split; [by eapply SameLighting_trans|congruence|].
  intros p. by rewrite H6, H3.
Qed.

Lemma Quiet_emit e st : Quiet st (st.1, emit e st.2).
Proof. quiet. Qed.

Lemma Quiet_emits es st : Quiet st (st.1, emits es st.2).
Proof. quiet. Qed.

Lemma insert_same_field {F} (f : UPrimitiveComponent.t → F)
    (PC : gmap nat UPrimitiveComponent.t) p c c' :
  PC !! p = Some c → f c' = f c → ∀ p', f <$> <[p := c']> PC !! p' = f <$> PC !! p'.
Proof.
  intros Hp Hc p'. destruct (decide (p = p')) as [<-|Hne].
  - rewrite lookup_insert_eq, Hp. simpl. by rewrite Hc.
  - by rewrite lookup_insert_ne.
Qed.

Lemma insert_same_InfoMappings (PC : gmap nat UPrimitiveComponent.t) p c c' :
  PC !! p = Some c →
  UPrimitiveComponent.InfoMappings c' = UPrimitiveComponent.InfoMappings c →
  ∀ p', UPrimitiveComponent.InfoMappings <$> <[p := c']> PC !! p'
        = UPrimitiveComponent.InfoMappings <$> PC !! p'.
Proof. apply insert_same_field. Qed.

Lemma EnqueueComponents_Quiet Components : ∀ this g g',
  EnqueueComponents Components g = Some g' → Quiet (this, g) (this, g').
Proof.
  induction Components as [|p Components IH]; intros this g g'; cbn [EnqueueComponents].
  - intros [= <-]. apply Quiet_refl.
  - destruct (PrimitiveComponents g !! p) as [c|] eqn:Hc; cbn [mbind option_bind]; [|done].
    intros E. apply (IH this) in E.
    eapply Quiet_trans; [|exact E].
    split; [constructor; try done|done|];
      cbn [fst snd PrimitiveComponents set_PrimitiveComponents];
      by apply (insert_same_field _ _ _ c).
Qed.

Lemma AddBSPStaticLightingInfo_Nodes_SameLighting Level Nodes : ∀ Ids bMark st Ids' bMark' st',
  AddBSPStaticLightingInfo_Nodes Level Nodes Ids bMark st = Some (Ids', bMark', st') →
  SameLighting st st'.
Proof.
  induction Nodes as [|n Nodes IH]; intros Ids bMark [this g] Ids' bMark' st';
    cbn [AddBSPStaticLightingInfo_Nodes].
  - intros [= <- <- <-]. apply SameLighting_refl.
  - destruct (NodeComponent Level n) as [cp|]; cbn [mbind option_bind]; [|done].
    destruct (PrimitiveComponents g !! cp) as [c|] eqn:Hc; cbn [mbind option_bind]; [|done].
    case_bool_decide.
    + intros E. apply IH in E. eapply SameLighting_trans; [|exact E].
      constructor; try done. cbn [fst snd PrimitiveComponents set_PrimitiveComponents].
      by apply (insert_same_InfoMappings _ _ c).
    + apply IH.
Qed.

(** ** The gather keeps what each of its steps keeps *)

Section GatherPreserves.
Context (I : SystemState → Prop).
Hypothesis I_frame : ∀ st st', Quiet st st' → I st → I st'.
Hypothesis I_component : ∀ bForce bBuild p bMark st bMark' st',
  I st →
  GatherStaticLightingInfo_Component bForce bBuild p bMark st = Some (bMark', st') → I st'.
Hypothesis I_bsp : ∀ Level NodeGroup bMark st bMark' st',
  I st →
  AddBSPStaticLightingInfo_NodeGroup Level true NodeGroup bMark st = Some (bMark', st') → I st'.
Hypothesis I_selected : ∀ Level NodeGroup st st',
  I st →
  AddBSPStaticLightingInfo_Selected_NodeGroup Level NodeGroup st = Some st' → I st'.

Lemma GatherStaticLightingInfo_Components_preserves bForce bBuild Components :
  ∀ bMark st bMark' st',
  I st →
  GatherStaticLightingInfo_Components bForce bBuild Components bMark st = Some (bMark', st') →
  I st'.
Proof.
  induction Components as [|p Components IH]; intros bMark st bMark' st' HI;
    cbn [GatherStaticLightingInfo_Components].
  - by intros [= <- <-].
  - destruct (GatherStaticLightingInfo_Component _ _ _ _ _) as [[bMark1 st1]|] eqn:E;
      cbn [mbind option_bind]; [|done].
    apply IH. by eapply I_component.
Qed.

Lemma GatherStaticLightingInfo_Actor_preserves bForce bLevel Actor loc st loc' st' :
  I st →
  GatherStaticLightingInfo_Actor bForce bLevel Actor loc st = Some (loc', st') → I st'.
Proof.
  intros HI. unfold GatherStaticLightingInfo_Actor.
  destruct Actor as [Actor|]; [|by intros [= <- <-]].
  destruct st as [this g].
  set (bBuild := bLevel && _).
  assert (Hg : ∀ g1,
    (if bBuild && negb (bOnlyBuildVisibility (FStaticLightingSystem.Options this))
     then EnqueueComponents (Components Actor) g else Some g) = Some g1 →
    I (this, g1)).
  { intros g1. destruct (bBuild && _).
    - intros E. eapply I_frame; [|exact HI]. by eapply EnqueueComponents_Quiet.
    - by intros [= <-]. }
  destruct (if bBuild && _ then _ else _) as [g1|]; cbn [mbind option_bind]; [|done].
  destruct (GatherStaticLightingInfo_Components _ _ _ _ _) as [[bMark1 st1]|] eqn:E;
    cbn [mbind option_bind]; [|done].
  intros [= <- <-]. eapply GatherStaticLightingInfo_Components_preserves; [|exact E]. by apply Hg.
Qed.

Lemma GatherStaticLightingInfo_Actors_preserves bForce bLevel Actors : ∀ loc st loc' st',
  I st →
  GatherStaticLightingInfo_Actors bForce bLevel Actors loc st = Some (loc', st') → I st'.
Proof.
  induction Actors as [|Actor Actors IH]; intros loc st loc' st' HI;
    cbn [GatherStaticLightingInfo_Actors].
  - by intros [= <- <-].
  - destruct (GatherStaticLightingInfo_Actor _ _ _ _ _) as [[loc1 st1]|] eqn:E;
      cbn [mbind option_bind]; [|done].
    apply IH. by eapply GatherStaticLightingInfo_Actor_preserves.
Qed.

Lemma AddBSPStaticLightingInfo_NodeGroups_preserves Level NodeGroups : ∀ bMark st bMark' st',
  I st →
  AddBSPStaticLightingInfo_NodeGroups Level true NodeGroups bMark st = Some (bMark', st') →
  I st'.
Proof.
  induction NodeGroups as [|NodeGroup NodeGroups IH]; intros bMark st bMark' st' HI;
    cbn [AddBSPStaticLightingInfo_NodeGroups].
  - by intros [= <- <-].
  - destruct (AddBSPStaticLightingInfo_NodeGroup _ _ _ _ _) as [[bMark1 st1]|] eqn:E;
      cbn [mbind option_bind]; [|done].
    apply IH. by eapply I_bsp.
Qed.

Lemma AddBSPStaticLightingInfo_preserves Level st st' :
  I st → AddBSPStaticLightingInfo Level true st = Some st' → I st'.
Proof.
  intros HI. unfold AddBSPStaticLightingInfo.
  destruct (AddBSPStaticLightingInfo_NodeGroups _ _ _ _ _) as [[bMark1 st1]|] eqn:E;
    cbn [mbind option_bind]; [|done].
  apply AddBSPStaticLightingInfo_NodeGroups_preserves in E.
  2:{ eapply I_frame; [|exact HI]. apply Quiet_emit. }
  intros [= <-]. destruct bMark1; [|done].
  eapply I_frame; [|exact E]. apply Quiet_emit.
Qed.

Lemma AddBSPStaticLightingInfo_Selected_preserves Level NodeGroups : ∀ st st',
  I st → AddBSPStaticLightingInfo_Selected Level NodeGroups st = Some st' → I st'.
Proof.
  induction NodeGroups as [|NodeGroup NodeGroups IH]; intros st st' HI;
    cbn [AddBSPStaticLightingInfo_Selected].
  - by intros [= <-].
  - destruct (AddBSPStaticLightingInfo_Selected_NodeGroup _ _ _) as [st1|] eqn:E;
      cbn [mbind option_bind]; [|done].
    apply IH. by eapply I_selected.
Qed.

Lemma GatherStaticLightingInfo_Level_preserves bRebuild bForce Level bFound st bFound' st' :
  I st →
  GatherStaticLightingInfo_Level bRebuild bForce Level bFound st = Some (bFound', st') → I st'.
Proof.
  intros HI. unfold GatherStaticLightingInfo_Level. destruct st as [this g].
  cbv zeta.
  set (Options := FStaticLightingSystem.Options this).
  set (g1 := if bGeometryDirtyForLighting Level then _ else g).
  assert (H1 : I (this, g1)).
  { subst g1. destruct (bGeometryDirtyForLighting Level); [|done].
    destruct bRebuild.
    - eapply I_frame; [|exact HI]. quiet.
    - eapply I_frame; [|exact HI]. quiet. }
  clearbody g1.
  set (bSelectedBSP := ShouldBuildLightingForLevel Options Level && _ && _).
  set (g2 := if bSelectedBSP then emit _ g1 else g1).
  assert (H2 : I (this, g2)).
  { subst g2. destruct bSelectedBSP; [|done]. eapply I_frame; [|exact H1]. quiet. }
  clearbody g2.
  set (NodeGroupsToBuild := if bSelectedBSP then SelectedNodeGroups Level else []).
  set (bBuildBSPLighting := if bSelectedBSP then _ else _).
  destruct (if bBuildBSPLighting && negb bForce then _ else _) as [[bFound1 st1]|] eqn:E;
    cbn [mbind option_bind]; [|done].
  assert (H3 : I st1).
  { destruct (bBuildBSPLighting && negb bForce) eqn:Eb.
    - apply andb_true_iff in Eb as [-> _].
      destruct (negb (bOnlyBuildSelected Options) || bOnlyBuildVisibility Options).
      + destruct (AddBSPStaticLightingInfo _ _ _) as [st2|] eqn:E2;
          cbn [mbind option_bind] in E; [|done].
        injection E as <- <-. by eapply AddBSPStaticLightingInfo_preserves.
      + case_bool_decide.
        * destruct (AddBSPStaticLightingInfo_Selected _ _ _) as [st2|] eqn:E2;
            cbn [mbind option_bind] in E; [|done].
          injection E as <- <-. by eapply AddBSPStaticLightingInfo_Selected_preserves.
        * by injection E as <- <-.
    - by injection E as <- <-. }
  clear E.
  destruct (GatherStaticLightingInfo_Actors _ _ _ _ _) as [[loc1 st2]|] eqn:E;
    cbn [mbind option_bind]; [|done].
  apply GatherStaticLightingInfo_Actors_preserves in E; [|done].
  intros [= <- <-]. destruct (GatherLocals.bMarkLevelDirty loc1); [|done].
  eapply I_frame; [|exact E]. apply Quiet_emit.
Qed.

Lemma GatherStaticLightingInfo_Levels_preserves bRebuild bForce Levels : ∀ bFound st bFound' st',
  I st →
  GatherStaticLightingInfo_Levels bRebuild bForce Levels bFound st = Some (bFound', st') →
  I st'.
Proof.
  induction Levels as [|Level Levels IH]; intros bFound st bFound' st' HI;
    cbn [GatherStaticLightingInfo_Levels].
  - by intros [= <- <-].
  - destruct (GatherStaticLightingInfo_Level _ _ _ _ _) as [[bFound1 st1]|] eqn:E;
      cbn [mbind option_bind]; [|done].
    apply IH. by eapply GatherStaticLightingInfo_Level_preserves.
Qed.

Lemma GatherStaticLightingInfo_preserves bRebuild bForce st st' :
  I st → GatherStaticLightingInfo bRebuild bForce st = Some st' → I st'.
Proof.
  intros HI. unfold GatherStaticLightingInfo.
  destruct (GatherStaticLightingInfo_Levels _ _ _ _ _) as [[bFound1 st1]|] eqn:E;
    cbn [mbind option_bind]; [|done].
  apply GatherStaticLightingInfo_Levels_preserves in E; [|done].
  intros [= <-]. destruct (bOnlyBuildSelected _); [|done].
  eapply I_frame; [|exact E]. destruct bFound1; quiet.
Qed.

End GatherPreserves.

(** ** The gather keeps the invariant of the deterministic indices *)

Lemma StoreWellPaired_lookup g p c :
  StoreWellPaired g = true → PrimitiveComponents g !! p = Some c → WellPaired c = true.
Proof.
  unfold StoreWellPaired. rewrite bool_decide_eq_true. intros H Hp. by apply (H p c).
Qed.

Lemma StoreWellPaired_same g g' :
  (∀ p, UPrimitiveComponent.InfoMappings <$> PrimitiveComponents g' !! p
        = UPrimitiveComponent.InfoMappings <$> PrimitiveComponents g !! p) →
  StoreWellPaired g = true → StoreWellPaired g' = true.
Proof.
  unfold StoreWellPaired. rewrite !bool_decide_eq_true. intros Hsame H p c' Hp.
  specialize (Hsame p). rewrite Hp in Hsame.
  destruct (PrimitiveComponents g !! p) as [c|] eqn:Hc; [|done].
  injection Hsame as Hsame. specialize (H p c Hc). cbn beta in H.
  unfold WellPaired in *. by rewrite Hsame.
Qed.

Lemma DeterministicInv_ext Pend this g this' g' :
  FStaticLightingSystem.Mappings this' = FStaticLightingSystem.Mappings this →
  FStaticLightingSystem.DeterministicIndex this' = FStaticLightingSystem.DeterministicIndex this →
  MeshObjects g' = MeshObjects g →
  MappingObjects g' = MappingObjects g →
  DeterministicInv Pend (this, g) → DeterministicInv Pend (this', g').
Proof.
  intros HMa HDI HMO HPO Hinv.
  rewrite <- (app_nil_r Pend).
  apply (DeterministicInv_add Pend this g this' g' [] [] false false false); try done.
  - intros p _. congruence.
  - intros q _. congruence.
  - constructor.
  - by intros q ?%elem_of_nil.
  - by rewrite app_nil_r.
Qed.

Lemma DeterministicInv_same Pend st st' :
  SameLighting st st' → DeterministicInv Pend st → DeterministicInv Pend st'.
Proof.
  destruct st as [this g], st' as [this' g']. intros [] Hinv. cbn [fst snd] in *.
  by eapply DeterministicInv_ext.
Qed.

Lemma GatherInv_frame st st' : SameLighting st st' → GatherInv st → GatherInv st'.
Proof.
  intros Hsame (HWF & HUS & Hinv).
  pose proof Hsame as [_ HMa HUn _ _ _ HGO HIM].
  split; [by eapply StoreWellPaired_same|]. split.
  - rewrite HGO, HUn. exact HUS.
  - rewrite HMa, HUn. intros Hbound.
    unfold Pending. rewrite HUn.
    eapply DeterministicInv_same; [exact Hsame|]. by apply Hinv.
Qed.

Lemma GatherInv_component bForce bBuild p bMark st bMark' st' :
  GatherInv st →
  GatherStaticLightingInfo_Component bForce bBuild p bMark st = Some (bMark', st') →
  GatherInv st'.
Proof.
  intros HI. unfold GatherStaticLightingInfo_Component. destruct st as [this g].
  destruct (PrimitiveComponents g !! p) as [c|] eqn:Hc; cbn [mbind option_bind]; [|done].
  destruct (UPrimitiveComponent.IsRegistered c && negb bForce); [|by intros [= <- <-]].
  destruct (GetStaticLightingInfo c g) as [info g0] eqn:EQ.
  pose proof HI as (HWF & _ & _). cbn [snd] in HWF.
  pose proof (StoreWellPaired_lookup _ _ _ HWF Hc) as HWP.
  pose proof EQ as Hg0. apply GetStaticLightingInfo_spec in Hg0 as (MH0 & PH0 & Hg0 & _).
  destruct (GetsVisibilityId info c).
  - destruct (AddPrimitiveStaticLightingInfo _ _ _) as [st1|] eqn:E;
      cbn [mbind option_bind]; [|done].
    intros [= <- <-].
    eapply (AddPrimitiveStaticLightingInfo_GatherInv this _ g g0 _ c info); [exact HI|exact HWP|
      exact EQ| | | | | | | | | |exact E]; try done.
    + by rewrite Hg0.
    + eapply StoreWellPaired_same; [|exact HWF].
      cbn [PrimitiveComponents set_PrimitiveComponents]. rewrite Hg0.
      cbn [PrimitiveComponents set_MappingObjects set_MeshObjects].
      by apply (insert_same_InfoMappings _ _ c).
  - destruct (AddPrimitiveStaticLightingInfo _ _ _) as [st1|] eqn:E;
      cbn [mbind option_bind]; [|done].
    intros [= <- <-].
    eapply (AddPrimitiveStaticLightingInfo_GatherInv this _ g g0 _ c info); [exact HI|exact HWP|
      exact EQ| | | | | | | | | |exact E]; try done.
    + by rewrite Hg0.
    + eapply StoreWellPaired_same; [|exact HWF]. by rewrite Hg0.
Qed.

Lemma BSPSurface_GatherInv NodeGroup f this g q p g2 g3 st4 st5 g6 :
  GatherInv (this, g) →
  NewBSPSurfaceStaticLighting NodeGroup g = (q, p, g2) →
  UpdateMesh q f g2 = Some g3 →
  AddMapping p (AddMesh q (this, g3)) = Some st4 →
  (if negb (bSortMappings (GLightmassDebugOptions st4.2))
   then CurrentMapping ← MappingObjects st4.2 !! p;
        MeshOfMapping ← Mesh CurrentMapping;
        AssignDeterministicGuid MeshOfMapping st4
   else Some st4) = Some st5 →
  UpdateMapping p (set_bProcessMapping true) st5.2 = Some g6 →
  GatherInv (st5.1, g6).
Proof.
  intros (HWF & HUS & Hinv). unfold NewBSPSurfaceStaticLighting.
  destruct (alloc (MeshObjects g) _) as [q0 mh] eqn:Eq.
  destruct (alloc (MappingObjects g) _) as [p0 ph] eqn:Ep.
  intros [= -> -> <-].
  apply alloc_fresh in Eq as [Hq ->]. apply alloc_fresh in Ep as [Hp ->].
  intros (m & Hm & ->)%UpdateMesh_Some.
  cbn [MeshObjects set_MappingObjects set_MeshObjects] in Hm |- *.
  rewrite lookup_insert_eq in Hm. injection Hm as <-.
  unfold AddMesh. cbn [fst snd].
  intros (hs & -> & Hhs)%AddMapping_Some.
  sys_simpl in HUS. sys_simpl in Hinv. sys_simpl.
  set (mp := {| Mesh := Some q;
                bProcessMapping := bProcessMapping (FNodeGroup.SurfaceMapping NodeGroup);
                TexelCount := TexelCount (FNodeGroup.SurfaceMapping NodeGroup) |}).
  set (DI := FStaticLightingSystem.DeterministicIndex this) in *.
  assert (Hold : ∀ g' : Globals,
    MappingObjects g' = <[p := set_bProcessMapping true mp]> (MappingObjects g) →
    (∃ msh, MeshObjects g' = <[q := msh]> (MeshObjects g)) →
    (∀ p', is_Some (MappingObjects g !! p') → MappingObjects g' !! p' = MappingObjects g !! p')
    ∧ (∀ q', is_Some (MeshObjects g !! q') →
         Guid <$> MeshObjects g' !! q' = Guid <$> MeshObjects g !! q')).
  { intros g' -> [msh ->]. split.
    - intros p' [? Hp']. rewrite lookup_insert_ne; [done|]. intros ->. congruence.
    - intros q' [? Hq']. rewrite lookup_insert_ne; [done|]. intros ->. congruence. }
  destruct (bSortMappings (GLightmassDebugOptions g)) eqn:Es; cbn [negb].
  - intros [= <-]. sys_simpl.
    intros (m0 & Hm0 & ->)%UpdateMapping_Some.
    sys_simpl in Hm0. rewrite lookup_insert_eq in Hm0. injection Hm0 as <-.
    sys_simpl. rewrite ?insert_insert_eq.
    split; [exact HWF|]. split; [sys_simpl; by rewrite Es|].
    sys_simpl. intros Hbound. unfold Pending. sys_simpl. rewrite fmap_app, Hhs.
    rewrite !length_app in Hbound.
    match goal with |- DeterministicInv _ (?this', ?g') =>
      destruct (Hold g') as [HoldP HoldM]; [done|by eexists|];
      apply (DeterministicInv_add (Pending this) this g this' g' [p] [q] false true false)
    end; try done.
    + apply Hinv. lia.
    + apply NoDup_singleton.
    + by intros q' ->%list_elem_of_singleton.
    + intros [|i] p' q'; [|done]. intros [= <-] [= <-]. sys_simpl.
      rewrite !lookup_insert_eq. eexists _, _. by repeat split.
  - rewrite lookup_insert_eq. cbn [mbind option_bind fst snd Mesh mp].
    intros (m1 & Hm1 & ->)%AssignDeterministicGuid_Some.
    sys_simpl in Hm1. rewrite lookup_insert_eq in Hm1. injection Hm1 as <-.
    sys_simpl.
    intros (m0 & Hm0 & ->)%UpdateMapping_Some.
    sys_simpl in Hm0. rewrite lookup_insert_eq in Hm0. injection Hm0 as <-.
    sys_simpl. rewrite ?insert_insert_eq.
    split; [exact HWF|]. split; [sys_simpl; by rewrite app_nil_r, HUS|].
    sys_simpl. intros Hbound. unfold Pending. sys_simpl. rewrite fmap_app, fmap_nil.
    rewrite !length_app in Hbound. cbn [length] in Hbound.
    assert (Hinv' : DeterministicInv (Pending this) (this, g)) by (apply Hinv; lia).
    pose proof (DeterministicInv_index_le _ _ Hinv') as HDIle. cbn [fst] in HDIle.
    pose proof (det_index _ _ Hinv') as HDI0. cbn [fst] in HDI0. fold DI in HDIle, HDI0.
    fold DI. rewrite (int32_wrap_small (DI + 1)) by lia.
    match goal with |- DeterministicInv _ (?this', ?g') =>
      destruct (Hold g') as [HoldP HoldM]; [done|by eexists|];
      apply (DeterministicInv_add (Pending this) this g this' g' [p] [q] true true true)
    end; try done.
    + apply NoDup_singleton.
    + by intros q' ->%list_elem_of_singleton.
    + intros [|i] p' q'; [|done]. intros [= <-] [= <-]. sys_simpl.
      rewrite !lookup_insert_eq. eexists _, _. split; [reflexivity|].
      split; [done|]. split; [done|]. split; [reflexivity|]. intros _.
      cbn [Guid set_Guid]. fold DI. rewrite Nat.add_0_r.
      rewrite <- (Z2Nat.id DI) at 1 by lia. apply FGuid_ctor_index.
      rewrite Z2Nat.id by lia. lia.
Qed.

Lemma UpdateMesh_id q m g :
  MeshObjects g !! q = Some m → UpdateMesh q (λ Mesh, Mesh) g = Some g.
Proof.
  intros Hm. unfold UpdateMesh. rewrite Hm. cbn [mbind option_bind]. f_equal.
  rewrite insert_id by done. by destruct g.
Qed.

Lemma GatherInv_bsp Level NodeGroup bMark st bMark' st' :
  GatherInv st →
  AddBSPStaticLightingInfo_NodeGroup Level true NodeGroup bMark st = Some (bMark', st') →
  GatherInv st'.
Proof.
  intros HI. unfold AddBSPStaticLightingInfo_NodeGroup.
  destruct (FNodeGroup.Nodes NodeGroup) as [|Node0 Nodes]; [by intros [= <- <-]|].
  destruct (NodeComponent Level Node0) as [cp|]; cbn [mbind option_bind]; [|done].
  destruct (AddBSPStaticLightingInfo_Nodes _ _ _ _ _) as [[[Ids bMark1] [this1 g1]]|] eqn:E1;
    cbn [mbind option_bind]; [|done].
  apply AddBSPStaticLightingInfo_Nodes_SameLighting in E1.
  apply (GatherInv_frame _ _ E1) in HI. cbn [fst snd].
  destruct (NewBSPSurfaceStaticLighting NodeGroup g1) as [[q p] g2] eqn:E2.
  destruct (UpdateMesh q _ g2) as [g3|] eqn:E3; cbn [mbind option_bind]; [|done].
  destruct (AddMapping p _) as [st4|] eqn:E4; cbn [mbind option_bind]; [|done].
  rewrite andb_true_r.
  destruct (if negb _ then _ else _) as [st5|] eqn:E5; cbn [mbind option_bind]; [|done].
  destruct (UpdateMapping p _ _) as [g6|] eqn:E6; cbn [mbind option_bind]; [|done].
  intros [= <- <-]. by eapply BSPSurface_GatherInv.
Qed.

Lemma GatherInv_selected Level NodeGroup st st' :
  GatherInv st →
  AddBSPStaticLightingInfo_Selected_NodeGroup Level NodeGroup st = Some st' →
  GatherInv st'.
Proof.
  intros HI. unfold AddBSPStaticLightingInfo_Selected_NodeGroup.
  destruct NodeGroup as [NodeGroup|]; [|by intros [= <-]].
  destruct (FNodeGroup.Nodes NodeGroup) as [|Node0 Nodes]; [by intros [= <-]|].
  destruct (NodeComponent Level Node0) as [cp|]; cbn [mbind option_bind]; [|done].
  destruct (mapM _ _) as [ns|]; cbn [mbind option_bind]; [|done].
  destruct st as [this g]. cbn [fst snd].
  destruct (NewBSPSurfaceStaticLighting NodeGroup g) as [[q p] g2] eqn:E2.
  destruct (AddMapping p _) as [st4|] eqn:E4; cbn [mbind option_bind]; [|done].
  destruct (if negb _ then _ else _) as [st5|] eqn:E5; cbn [mbind option_bind]; [|done].
  destruct (UpdateMapping p _ _) as [g6|] eqn:E6; cbn [mbind option_bind]; [|done].
  intros [= <-].
  eapply (BSPSurface_GatherInv NodeGroup (λ Mesh, Mesh)); [exact HI|exact E2| |exact E4|exact E5|
    exact E6].
  eapply UpdateMesh_id. unfold NewBSPSurfaceStaticLighting in E2.
  destruct (alloc (MeshObjects g) _) as [q0 mh] eqn:Eq.
  destruct (alloc (MappingObjects g) _) as [p0 ph] eqn:Ep.
  injection E2 as -> -> <-. apply alloc_fresh in Eq as [_ ->].
  cbn [MeshObjects set_MappingObjects set_MeshObjects]. apply lookup_insert_eq.
Qed.

Lemma GatherStaticLightingInfo_GatherInv bRebuild bForce st st' :
  GatherInv st → GatherStaticLightingInfo bRebuild bForce st = Some st' → GatherInv st'.
Proof.
  apply GatherStaticLightingInfo_preserves.
  - intros st0 st0' [H _ _]. by apply GatherInv_frame.
  - apply GatherInv_component.
  - apply GatherInv_bsp.
  - apply GatherInv_selected.
Qed.

(** ** The loop over the sorted mappings *)

(** The first pending mapping joins the system's list; when it is flagged
    its mesh gets the next index. *)
Lemma DeterministicInv_step p Pend this g this' g' q (flag : bool) :
  DeterministicInv (p :: Pend) (this, g) →
  MappingObjects g' = MappingObjects g →
  MappingMesh g p = Some q →
  IsProcessMapping g p = flag →
  (∀ q', q' ≠ q → MeshObjects g' !! q' = MeshObjects g !! q') →
  (∃ msh, MeshObjects g' !! q = Some msh
          ∧ (flag = true →
             Guid msh
             = DeterministicGuid (Z.to_nat (FStaticLightingSystem.DeterministicIndex this)))) →
  FStaticLightingSystem.Mappings this' = FStaticLightingSystem.Mappings this ++ [p] →
  FStaticLightingSystem.DeterministicIndex this'
  = (if flag then FStaticLightingSystem.DeterministicIndex this + 1
     else FStaticLightingSystem.DeterministicIndex this) →
  DeterministicInv Pend (this', g').
Proof.
  intros [Hm Hnd Hidx Hg] HPH Hpq Hflag HMH (msh & Hmsh & HGuid) HMap HDI.
  cbn [fst snd] in *.
  assert (HMM : ∀ p', MappingMesh g' p' = MappingMesh g p').
  { intros p'. unfold MappingMesh. by rewrite HPH. }
  assert (HIP : ∀ p', IsProcessMapping g' p' = IsProcessMapping g p').
  { intros p'. unfold IsProcessMapping. by rewrite HPH. }
  assert (HL : FStaticLightingSystem.Mappings this' ++ Pend
               = FStaticLightingSystem.Mappings this ++ p :: Pend).
  { by rewrite HMap, <- app_assoc. }
  assert (Hfresh : ∀ p' q', p' ∈ FStaticLightingSystem.Mappings this →
                            MappingMesh g p' = Some q' → q' ≠ q).
  { intros p' q' Hin Hq' ->. rewrite omap_app in Hnd. apply NoDup_app in Hnd as (_ & Hnd & _).
    apply (Hnd q).
    - apply list_elem_of_omap. eauto.
    - csimpl. rewrite Hpq. apply list_elem_of_here. }
  constructor; cbn [fst snd].
  - rewrite HL. eapply Forall_impl; [exact Hm|]. intros p' (q' & Hq' & Hq'').
    exists q'. rewrite HMM. split; [done|].
    destruct (decide (q' = q)) as [->|Hne]; [by rewrite Hmsh|by rewrite HMH].
  - rewrite HL. rewrite (omap_ext_Forall (MappingMesh g) (MappingMesh g')); [done|].
    apply Forall_forall. intros p' _. apply HMM.
  - rewrite HDI. destruct flag; lia.
  - unfold ProcessedMappings in *. cbn [fst snd] in *.
    rewrite HMap, filter_app, fmap_app.
    rewrite (filter_ext_Forall (λ p', IsProcessMapping g' p' = true)
               (λ p', IsProcessMapping g p' = true) (FStaticLightingSystem.Mappings this))
      by (apply Forall_forall; intros p' _; by rewrite HIP).
    assert (E1 : MappingGuid g' <$> filter (λ p', IsProcessMapping g p' = true)
                                      (FStaticLightingSystem.Mappings this)
                 = MappingGuid g <$> filter (λ p', IsProcessMapping g p' = true)
                                       (FStaticLightingSystem.Mappings this)).
    { apply Forall_fmap_ext. apply Forall_forall. intros p' [_ Hp']%list_elem_of_filter.
      rewrite Forall_forall in Hm.
      destruct (Hm p') as (q' & Hq' & _); [apply elem_of_app; by left|].
      unfold MappingGuid. rewrite HMM, Hq'. cbn [mbind option_bind].
      rewrite HMH; [done|]. by eapply Hfresh. }
    rewrite E1, Hg, HDI. clear E1.
    rewrite filter_cons, filter_nil. rewrite HIP, Hflag.
    destruct flag.
    + rewrite decide_True by done.
      rewrite Z2Nat.inj_add by lia. change (Z.to_nat 1) with 1%nat.
      rewrite Nat.add_1_r, seq_S, fmap_app. f_equal. cbn [fmap list_fmap Nat.add].
      f_equal. unfold MappingGuid. rewrite HMM, Hpq. cbn [mbind option_bind].
      rewrite Hmsh. cbn [fmap option_fmap option_map]. unfold compose. f_equal.
      by apply HGuid.
    + rewrite decide_False by done. by rewrite app_nil_r.
Qed.

Lemma BeginLightmassProcess_SortedMappings_spec Sorted : ∀ st st',
  DeterministicInv (Mapping <$> Sorted) st →
  Z.of_nat (length (FStaticLightingSystem.Mappings st.1) + length Sorted) < 2 ^ 31 →
  BeginLightmassProcess_SortedMappings Sorted st = Some st' →
  DeterministicInv [] st'.
Proof.
  induction Sorted as [|Helper Sorted IH]; intros [this g] st' Hinv Hbound;
    cbn [BeginLightmassProcess_SortedMappings].
  - by intros [= <-].
  - cbn [fst snd fmap list_fmap] in *. cbn [length] in Hbound.
    pose proof (det_meshes _ _ Hinv) as Hm. cbn [fst snd] in Hm.
    rewrite Forall_forall in Hm.
    destruct (Hm (Mapping Helper)) as (q & Hq & [msh Hmsh]).
    { apply elem_of_app. right. apply list_elem_of_here. }
    pose proof (DeterministicInv_index_le _ _ Hinv) as HDIle. cbn [fst] in HDIle.
    pose proof (det_index _ _ Hinv) as HDI0. cbn [fst] in HDI0.
    unfold MappingMesh in Hq.
    destruct (MappingObjects g !! Mapping Helper) as [cm|] eqn:Hcm; [|done].
    cbn [mbind option_bind] in Hq |- *.
    destruct (bProcessMapping cm) eqn:Hflag.
    + rewrite Hq.
      destruct (AssignDeterministicGuid q _) as [st1|] eqn:E1; cbn [mbind option_bind]; [|done].
      apply AssignDeterministicGuid_Some in E1 as (m1 & Hm1 & ->).
      apply IH.
      * eapply (DeterministicInv_step (Mapping Helper) _ this g _ _ q true); [exact Hinv|..];
          try done.
        -- unfold MappingMesh. by rewrite Hcm.
        -- unfold IsProcessMapping. by rewrite Hcm.
        -- intros q' Hne. sys_simpl. by rewrite lookup_insert_ne.
        -- sys_simpl. rewrite lookup_insert_eq. eexists. split; [done|]. intros _.
           cbn [Guid set_Guid].
           rewrite <- (Z2Nat.id (FStaticLightingSystem.DeterministicIndex this)) at 1 by lia.
           apply FGuid_ctor_index. rewrite Z2Nat.id by lia. lia.
        -- sys_simpl. apply int32_wrap_small. lia.
      * sys_simpl. rewrite length_app. cbn [length] in *. lia.
    + cbn [mbind option_bind]. apply IH.
      * eapply (DeterministicInv_step (Mapping Helper) _ this g _ _ q false); [exact Hinv|..];
          try done.
        -- unfold MappingMesh. by rewrite Hcm.
        -- unfold IsProcessMapping. by rewrite Hcm.
        -- exists msh. by split.
      * sys_simpl. rewrite length_app. cbn [length] in *. lia.
Qed.

(** The loop appends the mappings in the order of the helpers. *)
Lemma BeginLightmassProcess_SortedMappings_frame Sorted : ∀ st st',
  BeginLightmassProcess_SortedMappings Sorted st = Some st' →
  FStaticLightingSystem.Mappings st'.1
  = FStaticLightingSystem.Mappings st.1 ++ (Mapping <$> Sorted)
  ∧ FStaticLightingSystem.Meshes st'.1 = FStaticLightingSystem.Meshes st.1
  ∧ FStaticLightingSystem.UnSortedMappings st'.1 = FStaticLightingSystem.UnSortedMappings st.1
  ∧ MappingObjects st'.2 = MappingObjects st.2
  ∧ PrimitiveComponents st'.2 = PrimitiveComponents st.2
  ∧ Log st'.2 = Log st.2
  ∧ FStaticLightingSystem.NextVisibilityId st'.1 = FStaticLightingSystem.NextVisibilityId st.1
  ∧ GWorld st'.2 = GWorld st.2.
Proof.
  induction Sorted as [|Helper Sorted IH]; intros [this g] st';
    cbn [BeginLightmassProcess_SortedMappings].
  - intros [= <-]. cbn [fmap list_fmap]. by rewrite app_nil_r.
  - cbn [fst snd].
    destruct (MappingObjects g !! Mapping Helper) as [cm|] eqn:Hcm; cbn [mbind option_bind];
      [|done].
    assert (H1 : ∀ st1,
      (if bProcessMapping cm
       then match Mesh cm with
            | Some MeshPtr =>
                AssignDeterministicGuid MeshPtr
                  (FStaticLightingSystem.set_Mappings
                     (FStaticLightingSystem.Mappings this ++ [Mapping Helper]) this, g)
            | None =>
                Some (FStaticLightingSystem.set_Mappings
                        (FStaticLightingSystem.Mappings this ++ [Mapping Helper]) this, g)
            end
       else Some (FStaticLightingSystem.set_Mappings
                    (FStaticLightingSystem.Mappings this ++ [Mapping Helper]) this, g))
      = Some st1 →
      FStaticLightingSystem.Mappings st1.1
      = FStaticLightingSystem.Mappings this ++ [Mapping Helper]
      ∧ FStaticLightingSystem.Meshes st1.1 = FStaticLightingSystem.Meshes this
      ∧ FStaticLightingSystem.UnSortedMappings st1.1
        = FStaticLightingSystem.UnSortedMappings this
      ∧ MappingObjects st1.2 = MappingObjects g
      ∧ PrimitiveComponents st1.2 = PrimitiveComponents g
      ∧ Log st1.2 = Log g
      ∧ FStaticLightingSystem.NextVisibilityId st1.1 = FStaticLightingSystem.NextVisibilityId this
      ∧ GWorld st1.2 = GWorld g).
    { intros st1. destruct (bProcessMapping cm); [|by intros [= <-]].
      destruct (Mesh cm) as [q|]; [|by intros [= <-]].
      by intros (m1 & Hm1 & ->)%AssignDeterministicGuid_Some. }
    destruct (if bProcessMapping cm then _ else _) as [st1|]; cbn [mbind option_bind]; [|done].
    destruct (H1 st1 eq_refl) as (E1 & E2 & E3 & E4 & E5 & E6 & E7 & E8).
    intros E. apply IH in E as (F1 & F2 & F3 & F4 & F5 & F6 & F7 & F8).
    rewrite F1, F2, F3, F4, F5, F6, F7, F8, E1, E2, E3, E4, E5, E6, E7, E8.
    cbn [fmap list_fmap]. by rewrite <- app_assoc.
Qed.

(** ** Sorting *)

Section SortingFacts.
Context {T : Type} (Predicate : T → T → bool).

Lemma insert_sorted_Permutation x l : insert_sorted Predicate x l ≡ₚ x :: l.
Proof.
  induction l as [|y l IH]; cbn [insert_sorted]; [done|].
  destruct (Predicate y x); [|done]. rewrite IH. apply Permutation_swap.
Qed.

Lemma Sort_Permutation l : Sort Predicate l ≡ₚ l.
Proof.
  unfold Sort. induction l as [|x l IH]; cbn [foldr]; [done|].
  rewrite insert_sorted_Permutation. by rewrite IH.
Qed.

End SortingFacts.

Lemma insert_sorted_DescendingNumTexels x l :
  DescendingNumTexels l → DescendingNumTexels (insert_sorted FCompareNumTexels x l).
Proof.
  unfold DescendingNumTexels. induction 1 as [|y l Hl IH Hy]; cbn [insert_sorted].
  - repeat constructor.
  - unfold FCompareNumTexels at 1. destruct (Z.ltb_spec (NumTexels x) (NumTexels y)).
    + constructor; [done|]. rewrite insert_sorted_Permutation. constructor; [lia|done].
    + constructor; [by constructor|]. constructor; [done|].
      eapply Forall_impl; [exact Hy|]. intros z Hz. cbn beta in *. lia.
Qed.

Lemma Sort_DescendingNumTexels l : DescendingNumTexels (Sort FCompareNumTexels l).
Proof.
  unfold Sort. induction l as [|x l IH]; cbn [foldr]; [constructor|].
  by apply insert_sorted_DescendingNumTexels.
Qed.

Lemma insert_sorted_stable n x l :
  filter (λ A, NumTexels A = n) (insert_sorted FCompareNumTexels x l)
  = filter (λ A, NumTexels A = n) (x :: l).
Proof.
  induction l as [|y l IH]; cbn [insert_sorted]; [done|].
  unfold FCompareNumTexels at 1. destruct (Z.ltb_spec (NumTexels x) (NumTexels y)); [|done].
  rewrite filter_cons, IH, !filter_cons.
  destruct (decide (NumTexels y = n)), (decide (NumTexels x = n)); try done. lia.
Qed.

Lemma Sort_stable n l :
  filter (λ A, NumTexels A = n) (Sort FCompareNumTexels l) = filter (λ A, NumTexels A = n) l.
Proof.
  unfold Sort. induction l as [|x l IH]; cbn [foldr]; [done|].
  by rewrite insert_sorted_stable, !filter_cons, IH.
Qed.

Lemma DeterministicInv_Permutation Pend Pend' st :
  Pend ≡ₚ Pend' → DeterministicInv Pend st → DeterministicInv Pend' st.
Proof.
  intros HP [Hm Hnd Hidx Hg]. constructor; try done.
  - by rewrite <- HP.
  - by rewrite <- HP.
Qed.

(** ** After the sort *)

Lemma BeginLightmassProcess_SortMappings_DeterministicInv st st' :
  GatherInv st →
  BeginLightmassProcess_SortMappings st = Some st' →
  Z.of_nat (length (FStaticLightingSystem.Mappings st'.1)) < 2 ^ 31 →
  DeterministicInv [] st' ∧ StoreWellPaired st'.2 = true.
Proof.
  intros (HWF & HUS & Hinv). unfold BeginLightmassProcess_SortMappings.
  destruct (bSortMappings (GLightmassDebugOptions st.2)) eqn:Es.
  - destruct (BeginLightmassProcess_SortedMappings _ st) as [[this1 g1]|] eqn:E;
      cbn [mbind option_bind]; [|done].
    intros [= <-]. cbn [fst snd].
    pose proof (BeginLightmassProcess_SortedMappings_frame _ _ _ E)
      as (F1 & F2 & F3 & F4 & F5 & F6 & _).
    cbn [fst snd] in *. sys_simpl. rewrite F1, length_app, length_fmap.
    pose proof (Sort_Permutation FCompareNumTexels
                  (FStaticLightingSystem.UnSortedMappings st.1)) as HP.
    rewrite (Permutation_length HP). intros Hbound.
    split.
    + apply BeginLightmassProcess_SortedMappings_spec in E.
      * by eapply (DeterministicInv_ext _ this1 g1).
      * eapply DeterministicInv_Permutation; [|by apply Hinv].
        unfold Pending. by rewrite HP.
      * by rewrite (Permutation_length HP).
    + unfold StoreWellPaired in *. by rewrite F5.
  - intros [= <-] Hbound. unfold Pending in Hinv. rewrite (HUS eq_refl) in Hinv.
    split; [|done].
    apply Hinv. cbn [length]. lia.
Qed.

Lemma BeginLightmassProcess_Verify_frame n Mappings : ∀ this g g',
  BeginLightmassProcess_Verify n Mappings g = Some g' → Quiet (this, g) (this, g').
Proof.
  induction Mappings as [|p Mappings IH]; intros this g g'; cbn [BeginLightmassProcess_Verify].
  - intros [= <-]. apply Quiet_refl.
  - destruct (MappingObjects g !! p) as [cm|]; cbn [mbind option_bind]; [|done].
    destruct (bProcessMapping cm).
    + destruct (Mesh cm) as [q|]; cbn [mbind option_bind]; [|done].
      destruct (MeshObjects g !! q) as [msh|]; cbn [mbind option_bind]; [|done].
      intros E. apply (IH this) in E. eapply Quiet_trans; [|exact E].
      destruct (DeterministicGuidInError _ _); quiet.
    + cbn [mbind option_bind]. apply IH.
Qed.

(** ** The rest of BeginLightmassProcess *)

Lemma CreateLightmassProcessor_Quiet env st b st' :
  CreateLightmassProcessor env st = Some (b, st') → Quiet st st'.
Proof.
  unfold CreateLightmassProcessor. destruct st as [this g].
  destruct (_ && _); [intros [= <- <-]; quiet|].
  destruct (FStaticLightingSystem.LightmassProcessor this); [done|].
  destruct (negb _); intros [= <- <-]; quiet.
Qed.

Lemma GatherScene_Quiet st st' : GatherScene st = Some st' → Quiet st st'.
Proof.
  unfold GatherScene. destruct st as [this g].
  destruct (FStaticLightingSystem.LightmassProcessor this); cbn [mbind option_bind]; [|done].
  intros [= <-]. destruct (bMapBuildCancelled g); quiet.
Qed.

Lemma InitiateLightmassProcessor_Quiet env st b st' :
  InitiateLightmassProcessor env st = Some (b, st') → Quiet st st'.
Proof.
  unfold InitiateLightmassProcessor. destruct st as [this g].
  destruct (negb _); [|intros [= <- <-]; quiet].
  destruct (FStaticLightingSystem.LightmassProcessor this); cbn [mbind option_bind]; [|done].
  destruct (OpenJob_Result env); [|intros [= <- <-]; quiet].
  destruct (CrashTracker env); intros [= <- <-]; quiet.
Qed.

Lemma BeginLightmassProcess_StartupStatScope_SameLighting env st loc st' :
  BeginLightmassProcess_StartupStatScope env st = (loc, st') → SameLighting st st'.
Proof.
  unfold BeginLightmassProcess_StartupStatScope. destruct st as [this g].
  intros [= <- <-]. destruct (negb _); constructor; try done.
  all: intros p; cbn [snd PrimitiveComponents set_PrimitiveComponents emit set_Log];
    rewrite lookup_fmap; by destruct (PrimitiveComponents g !! p).
Qed.

Lemma BeginLightmassProcess_PrepareLights_Quiet st :
  Quiet st (BeginLightmassProcess_PrepareLights st).
Proof.
  unfold BeginLightmassProcess_PrepareLights. destruct st as [this g].
  destruct (negb _); quiet.
Qed.

(** What the scoped blocks after the gather see and leave. *)
Lemma BeginLightmassProcess_CollectStatScope_inv loc st st' :
  BeginLightmassProcess_CollectStatScope loc st = Some st' →
  ∃ st1 st2,
    GatherStaticLightingInfo (Local_bRebuildDirtyGeometryForLighting loc)
      (Local_bForceNoPrecomputedLighting loc) (BeginLightmassProcess_PrepareLights st) = Some st1
    ∧ BeginLightmassProcess_SortMappings st1 = Some st2
    ∧ Quiet st2 st'.
Proof.
  unfold BeginLightmassProcess_CollectStatScope.
  destruct (GatherStaticLightingInfo _ _ _) as [st1|] eqn:E1; cbn [mbind option_bind]; [|done].
  destruct (BeginLightmassProcess_SortMappings st1) as [[this2 g2]|] eqn:E2;
    cbn [mbind option_bind]; [|done].
  cbn [fst snd].
  destruct (BeginLightmassProcess_Verify _ _ _) as [g3|] eqn:E; cbn [mbind option_bind]; [|done].
  intros [= <-]. exists st1, (this2, g2). split; [done|]. split; [done|].
  apply (BeginLightmassProcess_Verify_frame _ _ this2) in E.
  eapply Quiet_trans; [exact E|]. destruct (bDumpBinaryResults _); quiet.
Qed.

Lemma BeginLightmassProcess_inv env st b st' :
  BeginLightmassProcess env st = Some (b, st') →
  ∃ loc st0 st1,
    BeginLightmassProcess_StartupStatScope env st = (loc, st0)
    ∧ BeginLightmassProcess_CollectStatScope loc st0 = Some st1
    ∧ Quiet st1 st'.
Proof.
  unfold BeginLightmassProcess.
  destruct (BeginLightmassProcess_StartupStatScope env st) as [loc st0] eqn:E0.
  destruct (BeginLightmassProcess_CollectStatScope loc st0) as [st1|] eqn:E0';
    cbn [mbind option_bind]; [|done].
  intros E. exists loc, st0, st1. split; [done|]. split; [done|].
  destruct (negb _); [|injection E as <- <-; apply Quiet_emits].
  destruct (CreateLightmassProcessor env st1) as [[b1 st2]|] eqn:E1;
    cbn [mbind option_bind] in E; [|done].
  apply CreateLightmassProcessor_Quiet in E1.
  eapply Quiet_trans; [exact E1|].
  destruct b1.
  - destruct (GatherScene st2) as [st3|] eqn:E2; cbn [mbind option_bind] in E; [|done].
    apply GatherScene_Quiet in E2. eapply Quiet_trans; [exact E2|].
    destruct (InitiateLightmassProcessor env st3) as [[b4 st4]|] eqn:E3;
      cbn [mbind option_bind] in E; [|done].
    apply InitiateLightmassProcessor_Quiet in E3.
    eapply Quiet_trans; [exact E3|]. injection E as <- <-. apply Quiet_emit.
  - cbn [mbind option_bind] in E. injection E as <- <-. apply Quiet_emit.
Qed.

Lemma GatherInv_ctor Options g :
  StoreWellPaired g = true → GatherInv (FStaticLightingSystem.ctor Options, g).
Proof.
  intros HWF. split; [done|]. split; [done|]. intros _.
  constructor; cbn; [constructor|constructor|done|done].
Qed.

Lemma BeginLightmassProcess_DeterministicInv env Options g bSuccess st' :
  StoreWellPaired g = true →
  BeginLightmassProcess env (FStaticLightingSystem.ctor Options, g) = Some (bSuccess, st') →
  Z.of_nat (length (FStaticLightingSystem.Mappings st'.1)) < 2 ^ 31 →
  DeterministicInv [] st'.
Proof.
  intros HWF (loc & st0 & st1 & E0 & E1 & Hsame)%BeginLightmassProcess_inv Hbound.
  apply BeginLightmassProcess_CollectStatScope_inv in E1 as (st2 & st3 & E2 & E3 & Hsame').
  pose proof (quiet_lighting _ _ (Quiet_trans _ _ _ Hsame' Hsame)) as Hs.
  eapply DeterministicInv_same; [exact Hs|].
  eapply BeginLightmassProcess_SortMappings_DeterministicInv; [|exact E3|].
  - eapply GatherStaticLightingInfo_GatherInv; [|exact E2].
    eapply GatherInv_frame; [apply quiet_lighting, BeginLightmassProcess_PrepareLights_Quiet|].
    eapply GatherInv_frame; [by eapply BeginLightmassProcess_StartupStatScope_SameLighting|].
    by apply GatherInv_ctor.
  - by rewrite <- (same_Mappings _ _ Hs).
Qed.

(** ** The sort step *)

(** The sort step appends the gathered helpers' mappings in an order
    that rearranges them, puts no helper before one of more texels, and
    keeps the gather order among helpers of equal texel count. *)
Lemma BeginLightmassProcess_SortMappings_spec st st' :
  bSortMappings (GLightmassDebugOptions st.2) = true →
  BeginLightmassProcess_SortMappings st = Some st' →
  ∃ Sorted,
    FStaticLightingSystem.Mappings st'.1
    = FStaticLightingSystem.Mappings st.1 ++ (Mapping <$> Sorted)
    ∧ Sorted ≡ₚ FStaticLightingSystem.UnSortedMappings st.1
    ∧ DescendingNumTexels Sorted
    ∧ ∀ n, filter (λ A, NumTexels A = n) Sorted
           = filter (λ A, NumTexels A = n) (FStaticLightingSystem.UnSortedMappings st.1).
Proof.
  intros Hs. unfold BeginLightmassProcess_SortMappings. rewrite Hs.
  destruct (BeginLightmassProcess_SortedMappings _ st) as [st1|] eqn:E;
    cbn [mbind option_bind]; [|done].
  intros [= <-]. apply BeginLightmassProcess_SortedMappings_frame in E as (E & _).
  exists (Sort FCompareNumTexels (FStaticLightingSystem.UnSortedMappings st.1)).
  split; [exact E|]. split; [apply Sort_Permutation|].
  split; [apply Sort_DescendingNumTexels|]. intros n. apply Sort_stable.
Qed.

(** ** Meshes and mappings come in pairs *)

Lemma Adds_Balanced n st st' : Adds n st st' → Balanced st → Balanced st'.
Proof.
  intros (H1 & H2 & H3 & H4) [B1 B2]. split; [lia|].
  rewrite H3. intros Hs. by rewrite H4, B2.
Qed.

Lemma AddPrimitiveStaticLightingInfo_Meshes_Meshes vis b ms : ∀ st st',
  AddPrimitiveStaticLightingInfo_Meshes vis b ms st = Some st' →
  FStaticLightingSystem.Meshes st'.1 = FStaticLightingSystem.Meshes st.1 ++ ms.
Proof.
  induction ms as [|q ms IH]; intros [this g] st'; cbn [AddPrimitiveStaticLightingInfo_Meshes].
  - intros [= <-]. by rewrite app_nil_r.
  - cbn [fst snd].
    destruct (UpdateMesh q _ g) as [g1|] eqn:E1; cbn [mbind option_bind]; [|done].
    apply UpdateMesh_Some in E1 as (m & _ & ->).
    destruct (negb _ && b).
    + destruct (AssignDeterministicGuid q _) as [st1|] eqn:E2; cbn [mbind option_bind]; [|done].
      apply AssignDeterministicGuid_Some in E2 as (m1 & Hm1 & ->).
      intros E. apply IH in E. rewrite E. unfold AddMesh. sys_simpl. by rewrite <- app_assoc.
    + cbn [mbind option_bind]. intros E. apply IH in E. rewrite E. unfold AddMesh. sys_simpl.
      by rewrite <- app_assoc.
Qed.

Lemma AddMapping_counts p st st' :
  AddMapping p st = Some st' →
  FStaticLightingSystem.Meshes st'.1 = FStaticLightingSystem.Meshes st.1
  ∧ (length (FStaticLightingSystem.Mappings st'.1)
     + length (FStaticLightingSystem.UnSortedMappings st'.1)
     = S (length (FStaticLightingSystem.Mappings st.1)
          + length (FStaticLightingSystem.UnSortedMappings st.1)))%nat
  ∧ st'.2 = st.2
  ∧ (bSortMappings (GLightmassDebugOptions st.2) = false →
     FStaticLightingSystem.UnSortedMappings st'.1 = FStaticLightingSystem.UnSortedMappings st.1).
Proof.
  destruct st as [this g]. intros (hs & -> & Hhs)%AddMapping_Some. sys_simpl.
  split; [done|]. apply (f_equal length) in Hhs. rewrite length_fmap in Hhs. cbn in Hhs.
  rewrite !length_app. split; [destruct (bSortMappings _); cbn [length]; lia|].
  split; [done|]. intros ->. by rewrite app_nil_r.
Qed.

Lemma AddPrimitiveStaticLightingInfo_Mappings_counts b ps : ∀ st st',
  AddPrimitiveStaticLightingInfo_Mappings b ps st = Some st' →
  FStaticLightingSystem.Meshes st'.1 = FStaticLightingSystem.Meshes st.1
  ∧ (length (FStaticLightingSystem.Mappings st'.1)
     + length (FStaticLightingSystem.UnSortedMappings st'.1)
     = length (FStaticLightingSystem.Mappings st.1)
       + length (FStaticLightingSystem.UnSortedMappings st.1) + length ps)%nat
  ∧ GLightmassDebugOptions st'.2 = GLightmassDebugOptions st.2
  ∧ (bSortMappings (GLightmassDebugOptions st.2) = false →
     FStaticLightingSystem.UnSortedMappings st'.1 = FStaticLightingSystem.UnSortedMappings st.1).
Proof.
  induction ps as [|p ps IH]; intros [this g] st'; cbn [AddPrimitiveStaticLightingInfo_Mappings].
  - intros [= <-]. split; [done|]. cbn [length]. split; [lia|done].
  - cbn [fst snd].
    assert (Hg : ∀ g1, (if b then UpdateMapping p (set_bProcessMapping true) g else Some g)
                       = Some g1 → GLightmassDebugOptions g1 = GLightmassDebugOptions g).
    { intros g1. destruct b; [|by intros [= <-]].
      by intros (m & _ & ->)%UpdateMapping_Some. }
    destruct (if b then _ else _) as [g1|]; cbn [mbind option_bind]; [|done].
    specialize (Hg g1 eq_refl).
    destruct (AddMapping p _) as [st1|] eqn:E1; cbn [mbind option_bind]; [|done].
    apply AddMapping_counts in E1 as (E1 & E2 & E3 & E4). cbn [fst snd] in E1, E2, E3, E4.
    intros E. apply IH in E as (F1 & F2 & F3 & F4). rewrite E3 in F3, F4. rewrite Hg in *.
    split; [congruence|]. cbn [length]. split; [lia|]. split; [done|].
    intros Hs. by rewrite F4, E4.
Qed.

(** A primitive's contribution is accepted only with as many meshes as
    mappings, and adds that many to either side. *)
Lemma AddPrimitiveStaticLightingInfo_counts info b st st' :
  AddPrimitiveStaticLightingInfo info b st = Some st' →
  length (FStaticLightingPrimitiveInfo.Meshes info)
  = length (FStaticLightingPrimitiveInfo.Mappings info)
  ∧ Adds (length (FStaticLightingPrimitiveInfo.Meshes info)) st st'.
Proof.
  unfold AddPrimitiveStaticLightingInfo. case_bool_decide as Hlen; [|done].
  destruct (AddPrimitiveStaticLightingInfo_Meshes _ _ _ _) as [st1|] eqn:E1;
    cbn [mbind option_bind]; [|done].
  intros E2. split; [done|].
  pose proof (AddPrimitiveStaticLightingInfo_Meshes_Meshes _ _ _ _ _ E1) as F1.
  apply AddPrimitiveStaticLightingInfo_Meshes_frame in E1 as (F2 & F3 & _ & F3').
  apply AddPrimitiveStaticLightingInfo_Mappings_counts in E2 as (F4 & F5 & F6 & F7).
  unfold Adds. rewrite F4, F1, length_app. split; [done|].
  rewrite F5, F2, F3, F6, F3', Hlen. split; [done|]. split; [done|].
  rewrite F3' in F7. intros Hs. by rewrite F7.
Qed.

Lemma Balanced_frame st st' : SameLighting st st' → Balanced st → Balanced st'.
Proof.
  unfold Balanced. intros [HMe HMa HUn _ _ _ HGO _]. by rewrite HMe, HMa, HUn, HGO.
Qed.

Lemma Balanced_component bForce bBuild p bMark st bMark' st' :
  Balanced st →
  GatherStaticLightingInfo_Component bForce bBuild p bMark st = Some (bMark', st') →
  Balanced st'.
Proof.
  intros HI. unfold GatherStaticLightingInfo_Component. destruct st as [this g].
  destruct (PrimitiveComponents g !! p) as [c|]; cbn [mbind option_bind]; [|done].
  destruct (_ && _); [|by intros [= <- <-]].
  destruct (GetStaticLightingInfo c g) as [info g0] eqn:EQ.
  apply GetStaticLightingInfo_spec in EQ as (MH0 & PH0 & -> & _).
  destruct (GetsVisibilityId info c).
  - destruct (AddPrimitiveStaticLightingInfo _ _ _) as [st1|] eqn:E;
      cbn [mbind option_bind]; [|done].
    intros [= <- <-]. apply AddPrimitiveStaticLightingInfo_counts in E as [_ E].
    eapply Adds_Balanced; [exact E|]. exact HI.
  - destruct (AddPrimitiveStaticLightingInfo _ _ _) as [st1|] eqn:E;
      cbn [mbind option_bind]; [|done].
    intros [= <- <-]. apply AddPrimitiveStaticLightingInfo_counts in E as [_ E].
    eapply Adds_Balanced; [exact E|]. exact HI.
Qed.

(** One surface object of a node group: one mesh and one mapping. *)
Lemma BSPSurface_counts this g q p st4 st5 :
  AddMapping p (AddMesh q (this, g)) = Some st4 →
  (if negb (bSortMappings (GLightmassDebugOptions st4.2))
   then CurrentMapping ← MappingObjects st4.2 !! p;
        MeshOfMapping ← Mesh CurrentMapping;
        AssignDeterministicGuid MeshOfMapping st4
   else Some st4) = Some st5 →
  Adds 1 (this, g) st5.
Proof.
  intros (E1 & E2 & E3 & E4)%AddMapping_counts. unfold AddMesh in *. sys_simpl in E1.
  sys_simpl in E2. sys_simpl in E3. sys_simpl in E4.
  intros E.
  assert (H : FStaticLightingSystem.Meshes st5.1 = FStaticLightingSystem.Meshes st4.1
              ∧ FStaticLightingSystem.Mappings st5.1 = FStaticLightingSystem.Mappings st4.1
              ∧ FStaticLightingSystem.UnSortedMappings st5.1
                = FStaticLightingSystem.UnSortedMappings st4.1
              ∧ GLightmassDebugOptions st5.2 = GLightmassDebugOptions st4.2).
  { destruct (negb _); [|by injection E as <-].
    destruct (MappingObjects st4.2 !! p) as [cm|]; cbn [mbind option_bind] in E; [|done].
    destruct (Mesh cm) as [q'|]; cbn [mbind option_bind] in E; [|done].
    destruct st4 as [this4 g4]. by apply AssignDeterministicGuid_Some in E as (m1 & _ & ->). }
  destruct H as (H1 & H2 & H3 & H4). unfold Adds. sys_simpl.
  rewrite H1, H2, H3, H4, E1, E3, length_app. cbn [length].
  split; [done|]. split; [lia|]. split; [done|]. exact E4.
Qed.

Lemma NewBSPSurfaceStaticLighting_GLightmassDebugOptions NodeGroup g q p g2 :
  NewBSPSurfaceStaticLighting NodeGroup g = (q, p, g2) →
  GLightmassDebugOptions g2 = GLightmassDebugOptions g.
Proof.
  unfold NewBSPSurfaceStaticLighting.
  destruct (alloc (MeshObjects g) _) as [q0 mh]. destruct (alloc (MappingObjects g) _) as [p0 ph].
  by intros [= <- <- <-].
Qed.

Lemma Balanced_surface this g g3 q p st4 st5 g6 :
  Balanced (this, g) →
  GLightmassDebugOptions g3 = GLightmassDebugOptions g →
  AddMapping p (AddMesh q (this, g3)) = Some st4 →
  (if negb (bSortMappings (GLightmassDebugOptions st4.2))
   then CurrentMapping ← MappingObjects st4.2 !! p;
        MeshOfMapping ← Mesh CurrentMapping;
        AssignDeterministicGuid MeshOfMapping st4
   else Some st4) = Some st5 →
  UpdateMapping p (set_bProcessMapping true) st5.2 = Some g6 →
  Balanced (st5.1, g6).
Proof.
  intros HI HGO E4 E5 (m & _ & ->)%UpdateMapping_Some.
  pose proof (BSPSurface_counts _ _ _ _ _ _ E4 E5) as HA.
  apply (Adds_Balanced 1 (this, g3)).
  - destruct HA as (H1 & H2 & H3 & H4). by repeat split.
  - destruct HI as [B1 B2]. split; [done|]. sys_simpl. by rewrite HGO.
Qed.

Lemma Balanced_bsp Level NodeGroup bMark st bMark' st' :
  Balanced st →
  AddBSPStaticLightingInfo_NodeGroup Level true NodeGroup bMark st = Some (bMark', st') →
  Balanced st'.
Proof.
  intros HI. unfold AddBSPStaticLightingInfo_NodeGroup.
  destruct (FNodeGroup.Nodes NodeGroup) as [|Node0 Nodes]; [by intros [= <- <-]|].
  destruct (NodeComponent Level Node0) as [cp|]; cbn [mbind option_bind]; [|done].
  destruct (AddBSPStaticLightingInfo_Nodes _ _ _ _ _) as [[[Ids bMark1] [this1 g1]]|] eqn:E1;
    cbn [mbind option_bind]; [|done].
  apply AddBSPStaticLightingInfo_Nodes_SameLighting in E1.
  apply (Balanced_frame _ _ E1) in HI. cbn [fst snd].
  destruct (NewBSPSurfaceStaticLighting NodeGroup g1) as [[q p] g2] eqn:E2.
  apply NewBSPSurfaceStaticLighting_GLightmassDebugOptions in E2.
  destruct (UpdateMesh q _ g2) as [g3|] eqn:E3; cbn [mbind option_bind]; [|done].
  apply UpdateMesh_Some in E3 as (m & _ & ->).
  destruct (AddMapping p _) as [st4|] eqn:E4; cbn [mbind option_bind]; [|done].
  rewrite andb_true_r.
  destruct (if negb _ then _ else _) as [st5|] eqn:E5; cbn [mbind option_bind]; [|done].
  destruct (UpdateMapping p _ _) as [g6|] eqn:E6; cbn [mbind option_bind]; [|done].
  intros [= <- <-]. eapply Balanced_surface; [exact HI| |exact E4|exact E5|exact E6]. done.
Qed.

Lemma Balanced_selected Level NodeGroup st st' :
  Balanced st →
  AddBSPStaticLightingInfo_Selected_NodeGroup Level NodeGroup st = Some st' →
  Balanced st'.
Proof.
  intros HI. unfold AddBSPStaticLightingInfo_Selected_NodeGroup.
  destruct NodeGroup as [NodeGroup|]; [|by intros [= <-]].
  destruct (FNodeGroup.Nodes NodeGroup) as [|Node0 Nodes]; [by intros [= <-]|].
  destruct (NodeComponent Level Node0) as [cp|]; cbn [mbind option_bind]; [|done].
  destruct (mapM _ _) as [ns|]; cbn [mbind option_bind]; [|done].
  destruct st as [this g]. cbn [fst snd].
  destruct (NewBSPSurfaceStaticLighting NodeGroup g) as [[q p] g2] eqn:E2.
  apply NewBSPSurfaceStaticLighting_GLightmassDebugOptions in E2.
  destruct (AddMapping p _) as [st4|] eqn:E4; cbn [mbind option_bind]; [|done].
  destruct (if negb _ then _ else _) as [st5|] eqn:E5; cbn [mbind option_bind]; [|done].
  destruct (UpdateMapping p _ _) as [g6|] eqn:E6; cbn [mbind option_bind]; [|done].
  intros [= <-]. eapply Balanced_surface; [exact HI| |exact E4|exact E5|exact E6]. done.
Qed.

Lemma GatherStaticLightingInfo_Balanced bRebuild bForce st st' :
  Balanced st → GatherStaticLightingInfo bRebuild bForce st = Some st' → Balanced st'.
Proof.
  apply GatherStaticLightingInfo_preserves.
  - intros st0 st0' [H _ _]. by apply Balanced_frame.
  - apply Balanced_component.
  - apply Balanced_bsp.
  - apply Balanced_selected.
Qed.

Lemma BeginLightmassProcess_SortMappings_Balanced st st' :
  Balanced st →
  BeginLightmassProcess_SortMappings st = Some st' →
  length (FStaticLightingSystem.Meshes st'.1) = length (FStaticLightingSystem.Mappings st'.1).
Proof.
  intros [B1 B2]. unfold BeginLightmassProcess_SortMappings.
  destruct (bSortMappings (GLightmassDebugOptions st.2)) eqn:Es.
  - destruct (BeginLightmassProcess_SortedMappings _ st) as [st1|] eqn:E;
      cbn [mbind option_bind]; [|done].
    intros [= <-]. apply BeginLightmassProcess_SortedMappings_frame in E as (F1 & F2 & _).
    sys_simpl. rewrite F1, F2, length_app, length_fmap.
    by rewrite (Permutation_length (Sort_Permutation FCompareNumTexels _)).
  - intros [= <-]. rewrite B1, B2 by done. cbn [length]. lia.
Qed.

(** C9: a primitive's contribution is accepted with as many meshes as
    mappings only, a BSP node group contributes one of each, and so in
    every build the system's list of meshes is as long as its list of
    mappings once the gathered mappings are in it. *)
Theorem BeginLightmassProcess_mesh_count env Options g bSuccess st' :
  BeginLightmassProcess env (FStaticLightingSystem.ctor Options, g) = Some (bSuccess, st') →
  length (FStaticLightingSystem.Meshes st'.1) = length (FStaticLightingSystem.Mappings st'.1).
Proof.
  intros (loc & st0 & st1 & E0 & E1 & Hsame)%BeginLightmassProcess_inv.
  apply BeginLightmassProcess_CollectStatScope_inv in E1 as (st2 & st3 & E2 & E3 & Hsame').
  pose proof (quiet_lighting _ _ (Quiet_trans _ _ _ Hsame' Hsame)) as [HMe HMa _ _ _ _ _ _].
  rewrite HMe, HMa.
  eapply BeginLightmassProcess_SortMappings_Balanced; [|exact E3].
  eapply GatherStaticLightingInfo_Balanced; [|exact E2].
  eapply Balanced_frame; [apply quiet_lighting, BeginLightmassProcess_PrepareLights_Quiet|].
  eapply Balanced_frame; [by eapply BeginLightmassProcess_StartupStatScope_SameLighting|].
  by split.
Qed.

Lemma BeginLightmassProcess_mesh_count_witness :
  length (FStaticLightingSystem.Meshes (ExampleBegun false).2.1)
  = length (FStaticLightingSystem.Mappings (ExampleBegun false).2.1).
Proof.
  apply (BeginLightmassProcess_mesh_count QuietEnv (ExampleOptions false)
           (ExampleGlobals false) true (ExampleBegun false).2).
  vm_compute. reflexivity.
Defined.

(** ** The startup block *)

(** The startup block of a build sets the VisibilityId of every primitive
    component of the process to INDEX_NONE and gathers nothing; the gather
    of the build starts from the state that the block leaves. *)
Lemma BeginLightmassProcess_StartupStatScope_spec env st :
  PrimitiveComponents (BeginLightmassProcess_StartupStatScope env st).2.2
  = UPrimitiveComponent.set_VisibilityId INDEX_NONE <$> PrimitiveComponents st.2
  ∧ (∀ p, UPrimitiveComponent.VisibilityId
            <$> PrimitiveComponents (BeginLightmassProcess_StartupStatScope env st).2.2 !! p
          = (λ _, INDEX_NONE) <$> PrimitiveComponents st.2 !! p)
  ∧ FStaticLightingSystem.NextVisibilityId (BeginLightmassProcess_StartupStatScope env st).2.1
    = FStaticLightingSystem.NextVisibilityId st.1
  ∧ SameLighting st (BeginLightmassProcess_StartupStatScope env st).2
  ∧ (∀ bSuccess st',
       BeginLightmassProcess env st = Some (bSuccess, st') →
       ∃ st1,
         BeginLightmassProcess_CollectStatScope
           (BeginLightmassProcess_StartupStatScope env st).1
           (BeginLightmassProcess_StartupStatScope env st).2 = Some st1
         ∧ Quiet st1 st').
Proof.
  assert (H1 : PrimitiveComponents (BeginLightmassProcess_StartupStatScope env st).2.2
               = UPrimitiveComponent.set_VisibilityId INDEX_NONE <$> PrimitiveComponents st.2).
  { unfold BeginLightmassProcess_StartupStatScope. destruct st as [this g].
    cbn [fst snd]. by destruct (negb _). }
  split; [exact H1|]. split.
  { intros p. rewrite H1, lookup_fmap. by destruct (PrimitiveComponents st.2 !! p). }
  split.
  { unfold BeginLightmassProcess_StartupStatScope. by destruct st as [this g]. }
  split.
  { eapply BeginLightmassProcess_StartupStatScope_SameLighting. apply surjective_pairing. }
  intros b st' (loc & st0 & st1 & E0 & E1 & Hsame)%BeginLightmassProcess_inv.
  rewrite E0. cbn [fst snd]. eauto.
Qed.

(** ** The visibility id of a component *)

Lemma SameVisibility_trans st1 st2 st3 :
  SameVisibility st1 st2 → SameVisibility st2 st3 → SameVisibility st1 st3.
Proof. intros (? & ? & ?) (? & ? & ?). repeat split; congruence. Qed.

Lemma AddPrimitiveStaticLightingInfo_Meshes_SameVisibility vis b ms : ∀ st st',
  AddPrimitiveStaticLightingInfo_Meshes vis b ms st = Some st' → SameVisibility st st'.
Proof.
  induction ms as [|q ms IH]; intros [this g] st'; cbn [AddPrimitiveStaticLightingInfo_Meshes].
  - by intros [= <-].
  - cbn [fst snd].
    destruct (UpdateMesh q _ g) as [g1|] eqn:E1; cbn [mbind option_bind]; [|done].
    apply UpdateMesh_Some in E1 as (m & _ & ->).
    destruct (negb _ && b).
    + destruct (AssignDeterministicGuid q _) as [st1|] eqn:E2; cbn [mbind option_bind]; [|done].
      apply AssignDeterministicGuid_Some in E2 as (m1 & Hm1 & ->).
      intros E. by apply IH in E.
    + cbn [mbind option_bind]. intros E. by apply IH in E.
Qed.

Lemma AddPrimitiveStaticLightingInfo_Mappings_SameVisibility b ps : ∀ st st',
  AddPrimitiveStaticLightingInfo_Mappings b ps st = Some st' → SameVisibility st st'.
Proof.
  induction ps as [|p ps IH]; intros [this g] st'; cbn [AddPrimitiveStaticLightingInfo_Mappings].
  - by intros [= <-].
  - cbn [fst snd].
    assert (Hg : ∀ g1, (if b then UpdateMapping p (set_bProcessMapping true) g else Some g)
                       = Some g1 → SameVisibility (this, g) (this, g1)).
    { intros g1. destruct b; [|by intros [= <-]].
      by intros (m & _ & ->)%UpdateMapping_Some. }
    destruct (if b then _ else _) as [g1|]; cbn [mbind option_bind]; [|done].
    specialize (Hg g1 eq_refl).
    destruct (AddMapping p _) as [st1|] eqn:E1; cbn [mbind option_bind]; [|done].
    apply AddMapping_Some in E1 as (hs & -> & _).
    intros E. apply IH in E. eapply SameVisibility_trans; [exact Hg|]. exact E.
Qed.

Lemma AddPrimitiveStaticLightingInfo_SameVisibility info b st st' :
  AddPrimitiveStaticLightingInfo info b st = Some st' → SameVisibility st st'.
Proof.
  unfold AddPrimitiveStaticLightingInfo. case_bool_decide as Hlen; [|done].
  destruct (AddPrimitiveStaticLightingInfo_Meshes _ _ _ _) as [st1|] eqn:E1;
    cbn [mbind option_bind]; [|done].
  intros E2. eapply SameVisibility_trans.
  - by eapply AddPrimitiveStaticLightingInfo_Meshes_SameVisibility.
  - by eapply AddPrimitiveStaticLightingInfo_Mappings_SameVisibility.
Qed.


(** ** Visibility ids *)

Lemma size_ComponentVisibilityIds g :
  size (ComponentVisibilityIds g) = size (PrimitiveComponents g).
Proof. apply map_size_fmap. Qed.

Lemma size_AssignedIds g : (size (AssignedIds g) ≤ size (PrimitiveComponents g))%nat.
Proof.
  rewrite <- size_ComponentVisibilityIds. apply map_subseteq_size, map_filter_subseteq.
Qed.

Lemma ComponentVisibilityIds_insert g p c :
  ComponentVisibilityIds (set_PrimitiveComponents (<[p := c]> (PrimitiveComponents g)) g)
  = <[p := UPrimitiveComponent.VisibilityId c]> (ComponentVisibilityIds g).
Proof. unfold ComponentVisibilityIds. cbn [PrimitiveComponents set_PrimitiveComponents].
  apply fmap_insert. Qed.

Lemma ComponentVisibilityIds_lookup g p c :
  PrimitiveComponents g !! p = Some c →
  ComponentVisibilityIds g !! p = Some (UPrimitiveComponent.VisibilityId c).
Proof. intros H. unfold ComponentVisibilityIds. by rewrite lookup_fmap, H. Qed.

Lemma AssignedIds_insert g g' p id :
  ComponentVisibilityIds g' = <[p := id]> (ComponentVisibilityIds g) →
  id ≠ INDEX_NONE →
  (size (AssignedIds g) ≤ size (AssignedIds g'))%nat
  ∧ (ComponentVisibilityIds g !! p = Some INDEX_NONE →
     size (AssignedIds g') = S (size (AssignedIds g))).
Proof.
  intros E Hid. unfold AssignedIds. rewrite E.
  rewrite (map_filter_insert_True (λ kv : nat * Z, kv.2 ≠ INDEX_NONE)) by done.
  rewrite map_size_insert. split.
  - destruct (filter _ _ !! p); simpl; lia.
  - intros Hp.
    rewrite (proj2 (map_lookup_filter_None (λ kv : nat * Z, kv.2 ≠ INDEX_NONE) _ p)); [done|].
    right. intros x Hx. rewrite Hp in Hx. injection Hx as <-. cbn. tauto.
Qed.

(** A step that assigns no id. *)
Lemma VisibilityInv_grow st st' :
  VisibilityInv st →
  ComponentVisibilityIds st'.2 = ComponentVisibilityIds st.2 →
  FStaticLightingSystem.NextVisibilityId st'.1 = FStaticLightingSystem.NextVisibilityId st.1 →
  (length (FStaticLightingSystem.Meshes st.1) ≤ length (FStaticLightingSystem.Meshes st'.1))%nat →
  VisibilityInv st'.
Proof.
  intros [H1 H2 H3 H4] EI EN HM. constructor.
  - by rewrite EN.
  - rewrite EN. unfold AssignedIds in *. rewrite EI. lia.
  - rewrite EN, EI. exact H3.
  - rewrite EI. exact H4.
Qed.

(** A step that gives the component [p] the value of the counter and
    advances the counter, while the meshes and the assigned components
    grow, one or the other. *)
Lemma VisibilityInv_assign this g this' g' p :
  VisibilityInv (this, g) →
  ComponentVisibilityIds g'
  = <[p := FStaticLightingSystem.NextVisibilityId this]> (ComponentVisibilityIds g) →
  FStaticLightingSystem.NextVisibilityId this'
  = int32_wrap (FStaticLightingSystem.NextVisibilityId this + 1) →
  (length (FStaticLightingSystem.Meshes this) + size (AssignedIds g)
   < length (FStaticLightingSystem.Meshes this') + size (AssignedIds g'))%nat →
  Z.of_nat (length (FStaticLightingSystem.Meshes this') + size (PrimitiveComponents g')) < 2 ^ 31 →
  VisibilityInv (this', g').
Proof.
  intros [H1 H2 H3 H4] EI EN HP Hbound. cbn [fst snd] in *.
  set (N := FStaticLightingSystem.NextVisibilityId this) in *.
  pose proof (size_AssignedIds g') as Hle.
  rewrite (int32_wrap_small (N + 1)) in EN by lia.
  constructor; cbn [fst snd]; rewrite ?EN, ?EI.
  - lia.
  - lia.
  - intros p' id. rewrite lookup_insert. case_decide as Hp.
    + intros [= <-] _. lia.
    + intros Hp' Hid. specialize (H3 p' id Hp' Hid). lia.
  - intros p1 p2 id. rewrite !lookup_insert. repeat case_decide; subst.
    + done.
    + intros [= <-] Hp2 Hid. specialize (H3 p2 N Hp2 Hid). lia.
    + intros Hp1 [= <-] Hid. specialize (H3 p1 N Hp1 Hid). lia.
    + apply H4.
Qed.

Lemma VisibilityGatherInv_grow st st' :
  VisibilityGatherInv st →
  ComponentVisibilityIds st'.2 = ComponentVisibilityIds st.2 →
  FStaticLightingSystem.NextVisibilityId st'.1 = FStaticLightingSystem.NextVisibilityId st.1 →
  (length (FStaticLightingSystem.Meshes st.1) ≤ length (FStaticLightingSystem.Meshes st'.1))%nat →
  VisibilityGatherInv st'.
Proof.
  intros HI EI EN HM Hbound. eapply VisibilityInv_grow; [apply HI|done..].
  rewrite <- size_ComponentVisibilityIds in *. rewrite EI in Hbound. lia.
Qed.

Lemma Quiet_ComponentVisibilityIds st st' :
  Quiet st st' → ComponentVisibilityIds st'.2 = ComponentVisibilityIds st.2.
Proof.
  intros [_ _ H]. apply map_eq. intros p. unfold ComponentVisibilityIds.
  rewrite !lookup_fmap. apply H.
Qed.

Lemma VisibilityGatherInv_frame st st' :
  Quiet st st' → VisibilityGatherInv st → VisibilityGatherInv st'.
Proof.
  intros HQ HI. eapply VisibilityGatherInv_grow; [exact HI| | |].
  - by apply Quiet_ComponentVisibilityIds.
  - by destruct HQ.
  - destruct HQ as [[HMe _ _ _ _ _ _ _] _ _]. by rewrite HMe.
Qed.

Lemma SameVisibility_ComponentVisibilityIds st st' :
  SameVisibility st st' → ComponentVisibilityIds st'.2 = ComponentVisibilityIds st.2.
Proof. intros (H & _). unfold ComponentVisibilityIds. by rewrite H. Qed.

Lemma VisibilityGatherInv_component bForce bBuild p bMark st bMark' st' :
  VisibilityGatherInv st →
  GatherStaticLightingInfo_Component bForce bBuild p bMark st = Some (bMark', st') →
  VisibilityGatherInv st'.
Proof.
  intros HI. unfold GatherStaticLightingInfo_Component. destruct st as [this g].
  destruct (PrimitiveComponents g !! p) as [c|] eqn:Hc; cbn [mbind option_bind]; [|done].
  destruct (_ && _); [|by intros [= <- <-]].
  destruct (GetStaticLightingInfo c g) as [info g0] eqn:EQ.
  apply GetStaticLightingInfo_spec in EQ as (MH0 & PH0 & -> & _).
  unfold GetsVisibilityId.
  destruct (bool_decide _ && bool_decide _) eqn:EG.
  - apply andb_true_iff in EG as [Hlen%bool_decide_eq_true _].
    destruct (AddPrimitiveStaticLightingInfo _ _ _) as [st1|] eqn:E;
      cbn [mbind option_bind]; [|done].
    intros [= <- <-].
    pose proof (AddPrimitiveStaticLightingInfo_SameVisibility _ _ _ _ E) as HSV.
    pose proof (SameVisibility_ComponentVisibilityIds _ _ HSV) as EI.
    destruct HSV as (EPC & EN & _).
    apply AddPrimitiveStaticLightingInfo_counts in E as [_ (EM & _)].
    cbn [fst snd] in *. sys_simpl in EM. sys_simpl in EN.
    cbn [FStaticLightingPrimitiveInfo.Meshes FStaticLightingPrimitiveInfo.set_VisibilityId] in EM.
    rewrite ComponentVisibilityIds_insert in EI.
    cbn [UPrimitiveComponent.VisibilityId UPrimitiveComponent.set_VisibilityId] in EI.
    intros Hbound.
    assert (Hsize : size (PrimitiveComponents st1.2) = size (PrimitiveComponents g)).
    { rewrite <- !size_ComponentVisibilityIds, EI. apply map_size_insert_Some.
      rewrite (ComponentVisibilityIds_lookup _ _ _ Hc). eauto. }
    assert (Hinv : VisibilityInv (this, g)).
    { apply HI. cbn [fst snd]. lia. }
    destruct st1 as [this1 g1]. cbn [fst snd] in *.
    eapply (VisibilityInv_assign this g this1 g1 p); [exact Hinv|exact EI|exact EN| |exact Hbound].
    destruct (AssignedIds_insert g g1 p _ EI) as [Hge _].
    { pose proof (vis_next_nonneg _ Hinv) as H0. cbn [fst] in H0. unfold INDEX_NONE. lia. }
    lia.
  - destruct (AddPrimitiveStaticLightingInfo _ _ _) as [st1|] eqn:E;
      cbn [mbind option_bind]; [|done].
    intros [= <- <-].
    pose proof (AddPrimitiveStaticLightingInfo_SameVisibility _ _ _ _ E) as HSV.
    pose proof (SameVisibility_ComponentVisibilityIds _ _ HSV) as EI.
    destruct HSV as (EPC & EN & _).
    apply AddPrimitiveStaticLightingInfo_counts in E as [_ (EM & _)].
    eapply (VisibilityGatherInv_grow (this, g)); [exact HI|exact EI|exact EN|].
    cbn [fst snd] in *. sys_simpl in EM. lia.
Qed.

Lemma AddBSPStaticLightingInfo_Nodes_VisibilityGatherInv Level Nodes :
  ∀ Ids bMark st Ids' bMark' st',
  VisibilityGatherInv st →
  AddBSPStaticLightingInfo_Nodes Level Nodes Ids bMark st = Some (Ids', bMark', st') →
  VisibilityGatherInv st'.
Proof.
  induction Nodes as [|n Nodes IH]; intros Ids bMark [this g] Ids' bMark' st' HI;
    cbn [AddBSPStaticLightingInfo_Nodes].
  - by intros [= <- <- <-].
  - destruct (NodeComponent Level n) as [cp|]; cbn [mbind option_bind]; [|done].
    destruct (PrimitiveComponents g !! cp) as [c|] eqn:Hc; cbn [mbind option_bind]; [|done].
    case_bool_decide as Hnone; [|by apply IH].
    apply IH.
    pose proof (ComponentVisibilityIds_insert g cp
                  (UPrimitiveComponent.set_VisibilityId
                     (FStaticLightingSystem.NextVisibilityId this) c)) as EI.
    set (g' := set_PrimitiveComponents _ g) in *.
    intros Hbound. cbn [fst snd] in Hbound. sys_simpl in Hbound.
    cbn [UPrimitiveComponent.VisibilityId UPrimitiveComponent.set_VisibilityId] in EI.
    pose proof (ComponentVisibilityIds_lookup _ _ _ Hc) as Hcp. rewrite Hnone in Hcp.
    assert (Hsize : size (PrimitiveComponents g') = size (PrimitiveComponents g)).
    { rewrite <- !size_ComponentVisibilityIds, EI. apply map_size_insert_Some. eauto. }
    assert (Hinv : VisibilityInv (this, g)).
    { apply HI. cbn [fst snd]. lia. }
    eapply (VisibilityInv_assign this g _ g' cp); [exact Hinv|exact EI|done| |].
    + destruct (AssignedIds_insert g g' cp _ EI) as [_ Hs].
      { pose proof (vis_next_nonneg _ Hinv) as H0. cbn [fst] in H0. unfold INDEX_NONE. lia. }
      sys_simpl. rewrite (Hs Hcp). lia.
    + sys_simpl. exact Hbound.
Qed.

(** The surface object of a node group leaves components and counter
    alone. *)
Lemma BSPSurface_SameVisibility NodeGroup this g q p g2 g3 st4 st5 g6 :
  NewBSPSurfaceStaticLighting NodeGroup g = (q, p, g2) →
  (PrimitiveComponents g3 = PrimitiveComponents g2 ∧ GWorld g3 = GWorld g2) →
  AddMapping p (AddMesh q (this, g3)) = Some st4 →
  (if negb (bSortMappings (GLightmassDebugOptions st4.2))
   then CurrentMapping ← MappingObjects st4.2 !! p;
        MeshOfMapping ← Mesh CurrentMapping;
        AssignDeterministicGuid MeshOfMapping st4
   else Some st4) = Some st5 →
  UpdateMapping p (set_bProcessMapping true) st5.2 = Some g6 →
  SameVisibility (this, g) (st5.1, g6).
Proof.
  unfold NewBSPSurfaceStaticLighting.
  destruct (alloc (MeshObjects g) _) as [q0 mh]. destruct (alloc (MappingObjects g) _) as [p0 ph].
  intros [= -> -> <-] [HPC HGW] (hs & -> & _)%AddMapping_Some E5 (m & _ & ->)%UpdateMapping_Some.
  assert (H5 : SameVisibility (this, g3) st5).
  { destruct (negb _); [|by injection E5 as <-].
    destruct (MappingObjects _ !! p) as [cm|]; cbn [mbind option_bind] in E5; [|done].
    destruct (Mesh cm) as [q'|]; cbn [mbind option_bind] in E5; [|done].
    by apply AssignDeterministicGuid_Some in E5 as (m1 & _ & ->). }
  destruct H5 as (H1 & H2 & H3). cbn [fst snd] in *.
  unfold SameVisibility. sys_simpl. rewrite H1, H2, H3, HPC, HGW. done.
Qed.

Lemma VisibilityGatherInv_bsp Level NodeGroup bMark st bMark' st' :
  VisibilityGatherInv st →
  AddBSPStaticLightingInfo_NodeGroup Level true NodeGroup bMark st = Some (bMark', st') →
  VisibilityGatherInv st'.
Proof.
  intros HI. unfold AddBSPStaticLightingInfo_NodeGroup.
  destruct (FNodeGroup.Nodes NodeGroup) as [|Node0 Nodes]; [by intros [= <- <-]|].
  destruct (NodeComponent Level Node0) as [cp|]; cbn [mbind option_bind]; [|done].
  destruct (AddBSPStaticLightingInfo_Nodes _ _ _ _ _) as [[[Ids bMark1] [this1 g1]]|] eqn:E1;
    cbn [mbind option_bind]; [|done].
  apply AddBSPStaticLightingInfo_Nodes_VisibilityGatherInv in E1; [|exact HI].
  cbn [fst snd].
  destruct (NewBSPSurfaceStaticLighting NodeGroup g1) as [[q p] g2] eqn:E2.
  destruct (UpdateMesh q _ g2) as [g3|] eqn:E3; cbn [mbind option_bind]; [|done].
  apply UpdateMesh_Some in E3 as (m & _ & ->).
  destruct (AddMapping p _) as [st4|] eqn:E4; cbn [mbind option_bind]; [|done].
  rewrite andb_true_r.
  destruct (if negb _ then _ else _) as [st5|] eqn:E5; cbn [mbind option_bind]; [|done].
  destruct (UpdateMapping p _ _) as [g6|] eqn:E6; cbn [mbind option_bind]; [|done].
  intros [= <- <-].
  assert (HSV : SameVisibility (this1, g1) (st5.1, g6)).
  { eapply BSPSurface_SameVisibility; [exact E2| |exact E4|exact E5|exact E6]. done. }
  pose proof (BSPSurface_counts _ _ _ _ _ _ E4 E5) as (EM & _).
  eapply (VisibilityGatherInv_grow (this1, g1)); [exact E1| | |].
  - by apply SameVisibility_ComponentVisibilityIds.
  - by destruct HSV as (_ & ? & _).
  - cbn [fst snd] in *. lia.
Qed.

Lemma VisibilityGatherInv_selected Level NodeGroup st st' :
  VisibilityGatherInv st →
  AddBSPStaticLightingInfo_Selected_NodeGroup Level NodeGroup st = Some st' →
  VisibilityGatherInv st'.
Proof.
  intros HI. unfold AddBSPStaticLightingInfo_Selected_NodeGroup.
  destruct NodeGroup as [NodeGroup|]; [|by intros [= <-]].
  destruct (FNodeGroup.Nodes NodeGroup) as [|Node0 Nodes]; [by intros [= <-]|].
  destruct (NodeComponent Level Node0) as [cp|]; cbn [mbind option_bind]; [|done].
  destruct (mapM _ _) as [ns|]; cbn [mbind option_bind]; [|done].
  destruct st as [this g]. cbn [fst snd].
  destruct (NewBSPSurfaceStaticLighting NodeGroup g) as [[q p] g2] eqn:E2.
  destruct (AddMapping p _) as [st4|] eqn:E4; cbn [mbind option_bind]; [|done].
  destruct (if negb _ then _ else _) as [st5|] eqn:E5; cbn [mbind option_bind]; [|done].
  destruct (UpdateMapping p _ _) as [g6|] eqn:E6; cbn [mbind option_bind]; [|done].
  intros [= <-].
  assert (HSV : SameVisibility (this, g) (st5.1, g6)).
  { eapply BSPSurface_SameVisibility; [exact E2| |exact E4|exact E5|exact E6]. done. }
  pose proof (BSPSurface_counts _ _ _ _ _ _ E4 E5) as (EM & _).
  eapply (VisibilityGatherInv_grow (this, g)); [exact HI| | |].
  - by apply SameVisibility_ComponentVisibilityIds.
  - by destruct HSV as (_ & ? & _).
  - cbn [fst snd] in *. lia.
Qed.

Lemma GatherStaticLightingInfo_VisibilityGatherInv bRebuild bForce st st' :
  VisibilityGatherInv st →
  GatherStaticLightingInfo bRebuild bForce st = Some st' →
  VisibilityGatherInv st'.
Proof.
  apply GatherStaticLightingInfo_preserves.
  - apply VisibilityGatherInv_frame.
  - apply VisibilityGatherInv_component.
  - apply VisibilityGatherInv_bsp.
  - apply VisibilityGatherInv_selected.
Qed.

Lemma BeginLightmassProcess_SortMappings_SameVisibility st st' :
  BeginLightmassProcess_SortMappings st = Some st' →
  SameVisibility st st'
  ∧ FStaticLightingSystem.Meshes st'.1 = FStaticLightingSystem.Meshes st.1.
Proof.
  unfold BeginLightmassProcess_SortMappings. destruct (bSortMappings _); [|by intros [= <-]].
  destruct (BeginLightmassProcess_SortedMappings _ st) as [st1|] eqn:E;
    cbn [mbind option_bind]; [|done].
  intros [= <-].
  apply BeginLightmassProcess_SortedMappings_frame in E as (_ & F2 & _ & _ & F5 & _ & F7 & F8).
  by repeat split.
Qed.

Lemma VisibilityGatherInv_startup env Options g :
  VisibilityGatherInv
    (BeginLightmassProcess_StartupStatScope env (FStaticLightingSystem.ctor Options, g)).2.
Proof.
  intros _. unfold BeginLightmassProcess_StartupStatScope. cbn [fst snd].
  assert (H : ∀ p id,
    (UPrimitiveComponent.VisibilityId
       <$> (UPrimitiveComponent.set_VisibilityId INDEX_NONE <$> PrimitiveComponents g)) !! p
    = Some id → id = INDEX_NONE).
  { intros p id. rewrite !lookup_fmap. destruct (PrimitiveComponents g !! p); [|done].
    by intros [= <-]. }
  destruct (negb _); constructor; cbn; try lia.
  all: try (intros p id Hp Hid; by apply H in Hp).
  all: intros p1 p2 id Hp _ Hid; by apply H in Hp.
Qed.

(** In every build, at the end of [BeginLightmassProcess], the visibility
    ids that components carry lie between 0 and the counter, and no two
    components carry the same. *)
Lemma BeginLightmassProcess_VisibilityInv env Options g bSuccess st' :
  BeginLightmassProcess env (FStaticLightingSystem.ctor Options, g) = Some (bSuccess, st') →
  Z.of_nat (length (FStaticLightingSystem.Meshes st'.1) + size (PrimitiveComponents st'.2)) < 2 ^ 31 →
  VisibilityInv st'.
Proof.
  intros (loc & st0 & st1 & E0 & E1 & HQ)%BeginLightmassProcess_inv.
  apply BeginLightmassProcess_CollectStatScope_inv in E1 as (st2 & st3 & E2 & E3 & HQ').
  pose proof (Quiet_trans _ _ _ HQ' HQ) as HQ3.
  apply BeginLightmassProcess_SortMappings_SameVisibility in E3 as [HSV EM].
  apply (VisibilityGatherInv_frame _ _ HQ3).
  eapply (VisibilityGatherInv_grow st2).
  - eapply GatherStaticLightingInfo_VisibilityGatherInv; [|exact E2].
    eapply VisibilityGatherInv_frame; [apply BeginLightmassProcess_PrepareLights_Quiet|].
    replace st0 with (BeginLightmassProcess_StartupStatScope env
                        (FStaticLightingSystem.ctor Options, g)).2 by (by rewrite E0).
    apply VisibilityGatherInv_startup.
  - by apply SameVisibility_ComponentVisibilityIds.
  - by destruct HSV as (_ & ? & _).
  - by rewrite EM.
Qed.

(** C10: the startup block of a build sets the VisibilityId of every
    primitive component of the process to INDEX_NONE, whatever the options
    say about its level, and gathers nothing; the gather of the build
    starts from the state that the block leaves.  So at the end of
    [BeginLightmassProcess] on a new system, a component carries either
    INDEX_NONE or an id below the counter of this build. *)
Theorem BeginLightmassProcess_StartupStatScope_resets env st :
  PrimitiveComponents (BeginLightmassProcess_StartupStatScope env st).2.2
  = UPrimitiveComponent.set_VisibilityId INDEX_NONE <$> PrimitiveComponents st.2
  ∧ (∀ p, UPrimitiveComponent.VisibilityId
            <$> PrimitiveComponents (BeginLightmassProcess_StartupStatScope env st).2.2 !! p
          = (λ _, INDEX_NONE) <$> PrimitiveComponents st.2 !! p)
  ∧ FStaticLightingSystem.NextVisibilityId (BeginLightmassProcess_StartupStatScope env st).2.1
    = FStaticLightingSystem.NextVisibilityId st.1
  ∧ SameLighting st (BeginLightmassProcess_StartupStatScope env st).2
  ∧ (∀ bSuccess st',
       BeginLightmassProcess env st = Some (bSuccess, st') →
       ∃ st1,
         BeginLightmassProcess_CollectStatScope
           (BeginLightmassProcess_StartupStatScope env st).1
           (BeginLightmassProcess_StartupStatScope env st).2 = Some st1
         ∧ Quiet st1 st')
  ∧ (∀ Options bSuccess st',
       st.1 = FStaticLightingSystem.ctor Options →
       BeginLightmassProcess env st = Some (bSuccess, st') →
       Z.of_nat (length (FStaticLightingSystem.Meshes st'.1) + size (PrimitiveComponents st'.2))
       < 2 ^ 31 →
       ∀ p c, PrimitiveComponents st'.2 !! p = Some c →
              UPrimitiveComponent.VisibilityId c = INDEX_NONE
              ∨ 0 ≤ UPrimitiveComponent.VisibilityId c
                < FStaticLightingSystem.NextVisibilityId st'.1).
Proof.
  destruct (BeginLightmassProcess_StartupStatScope_spec env st) as (H1 & H2 & H3 & H4 & H5).
  repeat (split; [assumption|]).
  intros Options bSuccess st' Hst E Hbound p c Hp.
  destruct st as [this g]. cbn [fst] in Hst. subst this.
  destruct (BeginLightmassProcess_VisibilityInv _ _ _ _ _ E Hbound) as [_ _ H _].
  destruct (decide (UPrimitiveComponent.VisibilityId c = INDEX_NONE)) as [|Hne]; [by left|].
  right. apply (H p); [|done]. by apply ComponentVisibilityIds_lookup.
Qed.

(** ** Texel counts of the sorted mappings *)

Lemma HelpersMatch_kept g g' Helpers :
  TexelsKept g g' → HelpersMatch g Helpers → HelpersMatch g' Helpers.
Proof. intros HK H. eapply Forall_impl; [exact H|]. intros h. apply HK. Qed.

Lemma TexelsKept_same g g' : MappingObjects g' = MappingObjects g → TexelsKept g g'.
Proof. intros E p n. by rewrite E. Qed.

Lemma TexelsKept_trans g1 g2 g3 : TexelsKept g1 g2 → TexelsKept g2 g3 → TexelsKept g1 g3.
Proof. intros H1 H2 p n Hp. by apply H2, H1. Qed.

Lemma UpdateMapping_TexelsKept p b g g' :
  UpdateMapping p (set_bProcessMapping b) g = Some g' → TexelsKept g g'.
Proof.
  intros (m & Hm & ->)%UpdateMapping_Some p' n. cbn [MappingObjects set_MappingObjects].
  destruct (decide (p' = p)) as [->|Hne].
  - rewrite Hm, lookup_insert_eq. done.
  - by rewrite lookup_insert_ne.
Qed.

Lemma SortInv_frame st st' : SameLighting st st' → SortInv st → SortInv st'.
Proof.
  intros [_ HMa HUn _ _ HPO HGO _] (H1 & H2 & H3). split; [by rewrite HGO|].
  split; [by rewrite HMa|]. rewrite HUn. eapply HelpersMatch_kept; [|exact H3].
  by apply TexelsKept_same.
Qed.

Lemma AddMapping_SortInv p st st' :
  SortInv st → AddMapping p st = Some st' → SortInv st' ∧ st'.2 = st.2.
Proof.
  destruct st as [this g]. intros (H1 & H2 & H3). unfold AddMapping. cbn [snd] in H1.
  rewrite H1. destruct (MappingObjects g !! p) as [cm|] eqn:Hcm; cbn [mbind option_bind]; [|done].
  intros [= <-]. split; [|done]. split; [done|]. split; [done|]. sys_simpl.
  apply Forall_app. split; [exact H3|]. constructor; [|constructor].
  cbn [Mapping NumTexels]. by rewrite Hcm.
Qed.

Lemma AddPrimitiveStaticLightingInfo_Mappings_SortInv b ps : ∀ st st',
  SortInv st → AddPrimitiveStaticLightingInfo_Mappings b ps st = Some st' → SortInv st'.
Proof.
  induction ps as [|p ps IH]; intros [this g] st' HI;
    cbn [AddPrimitiveStaticLightingInfo_Mappings].
  - by intros [= <-].
  - cbn [fst snd].
    assert (Hg : ∀ g1, (if b then UpdateMapping p (set_bProcessMapping true) g else Some g)
                       = Some g1 → SortInv (this, g1)).
    { intros g1 E. destruct HI as (H1 & H2 & H3).
      assert (HK : TexelsKept g g1 ∧ GLightmassDebugOptions g1 = GLightmassDebugOptions g).
      { destruct b; [|injection E as <-; split; [by intros ? ?|done]].
        split; [by eapply UpdateMapping_TexelsKept|].
        by apply UpdateMapping_Some in E as (m & _ & ->). }
      destruct HK as [HK HGO]. split; [cbn [snd] in *; by rewrite HGO|]. split; [done|].
      by eapply HelpersMatch_kept. }
    destruct (if b then _ else _) as [g1|]; cbn [mbind option_bind]; [|done].
    specialize (Hg g1 eq_refl).
    destruct (AddMapping p _) as [st1|] eqn:E1; cbn [mbind option_bind]; [|done].
    apply AddMapping_SortInv in E1 as [E1 _]; [|done]. by apply IH.
Qed.

Lemma AddPrimitiveStaticLightingInfo_Meshes_MappingObjects vis b ms : ∀ st st',
  AddPrimitiveStaticLightingInfo_Meshes vis b ms st = Some st' →
  MappingObjects st'.2 = MappingObjects st.2.
Proof.
  induction ms as [|q ms IH]; intros [this g] st'; cbn [AddPrimitiveStaticLightingInfo_Meshes].
  - by intros [= <-].
  - cbn [fst snd].
    destruct (UpdateMesh q _ g) as [g1|] eqn:E1; cbn [mbind option_bind]; [|done].
    apply UpdateMesh_Some in E1 as (m & _ & ->).
    destruct (negb _ && b).
    + destruct (AssignDeterministicGuid q _) as [st1|] eqn:E2; cbn [mbind option_bind]; [|done].
      apply AssignDeterministicGuid_Some in E2 as (m1 & Hm1 & ->).
      intros E. by apply IH in E.
    + cbn [mbind option_bind]. intros E. by apply IH in E.
Qed.

Lemma AddPrimitiveStaticLightingInfo_SortInv info b st st' :
  SortInv st → AddPrimitiveStaticLightingInfo info b st = Some st' → SortInv st'.
Proof.
  intros HI. unfold AddPrimitiveStaticLightingInfo. case_bool_decide; [|done].
  destruct (AddPrimitiveStaticLightingInfo_Meshes _ _ _ _) as [st1|] eqn:E1;
    cbn [mbind option_bind]; [|done].
  apply AddPrimitiveStaticLightingInfo_Mappings_SortInv.
  pose proof (AddPrimitiveStaticLightingInfo_Meshes_MappingObjects _ _ _ _ _ E1) as HPO.
  apply AddPrimitiveStaticLightingInfo_Meshes_frame in E1 as (HMa & HUn & _ & HGO).
  destruct HI as (H1 & H2 & H3). split; [by rewrite HGO|]. split; [by rewrite HMa|].
  rewrite HUn. eapply HelpersMatch_kept; [|exact H3]. by apply TexelsKept_same.
Qed.

Lemma GetStaticLightingInfo_TexelsKept c g info g0 :
  GetStaticLightingInfo c g = (info, g0) →
  TexelsKept g g0 ∧ GLightmassDebugOptions g0 = GLightmassDebugOptions g.
Proof.
  intros (MH0 & PH0 & -> & _ & _ & _ & _ & _ & _ & Hf2 & _ & Ho2 & _)%GetStaticLightingInfo_spec.
  split; [|done]. intros p n Hp. cbn [MappingObjects set_MappingObjects].
  rewrite Ho2; [done|]. intros Hin. specialize (Hf2 p Hin). by rewrite Hf2 in Hp.
Qed.

Lemma SortInv_component bForce bBuild p bMark st bMark' st' :
  SortInv st →
  GatherStaticLightingInfo_Component bForce bBuild p bMark st = Some (bMark', st') →
  SortInv st'.
Proof.
  intros HI. unfold GatherStaticLightingInfo_Component. destruct st as [this g].
  destruct (PrimitiveComponents g !! p) as [c|]; cbn [mbind option_bind]; [|done].
  destruct (_ && _); [|by intros [= <- <-]].
  destruct (GetStaticLightingInfo c g) as [info g0] eqn:EQ.
  apply GetStaticLightingInfo_TexelsKept in EQ as [HK HGO].
  assert (HI0 : ∀ this1 g1,
    FStaticLightingSystem.Mappings this1 = FStaticLightingSystem.Mappings this →
    FStaticLightingSystem.UnSortedMappings this1 = FStaticLightingSystem.UnSortedMappings this →
    MappingObjects g1 = MappingObjects g0 →
    GLightmassDebugOptions g1 = GLightmassDebugOptions g0 →
    SortInv (this1, g1)).
  { intros this1 g1 HMa HUn HPO HGO1. destruct HI as (H1 & H2 & H3). unfold SortInv.
    cbn [fst snd] in *.
    split; [by rewrite HGO1, HGO|]. split; [by rewrite HMa|]. rewrite HUn.
    eapply HelpersMatch_kept; [|exact H3].
    eapply TexelsKept_trans; [exact HK|]. by apply TexelsKept_same. }
  destruct (GetsVisibilityId info c).
  - destruct (AddPrimitiveStaticLightingInfo _ _ _) as [st1|] eqn:E;
      cbn [mbind option_bind]; [|done].
    intros [= <- <-]. eapply AddPrimitiveStaticLightingInfo_SortInv; [|exact E].
    by apply HI0.
  - destruct (AddPrimitiveStaticLightingInfo _ _ _) as [st1|] eqn:E;
      cbn [mbind option_bind]; [|done].
    intros [= <- <-]. eapply AddPrimitiveStaticLightingInfo_SortInv; [|exact E].
    by apply HI0.
Qed.

Lemma NewBSPSurfaceStaticLighting_TexelsKept NodeGroup g q p g2 :
  NewBSPSurfaceStaticLighting NodeGroup g = (q, p, g2) → TexelsKept g g2.
Proof.
  unfold NewBSPSurfaceStaticLighting.
  destruct (alloc (MeshObjects g) _) as [q0 mh]. destruct (alloc (MappingObjects g) _) as [p0 ph] eqn:Ep.
  intros [= <- <- <-]. apply alloc_fresh in Ep as [Hp ->].
  intros p' n Hp'. cbn [MappingObjects set_MappingObjects set_MeshObjects].
  rewrite lookup_insert_ne; [done|]. intros ->. by rewrite Hp in Hp'.
Qed.

Lemma SortInv_surface this g g2 g3 q p st4 st5 g6 :
  SortInv (this, g) →
  TexelsKept g g2 → GLightmassDebugOptions g2 = GLightmassDebugOptions g →
  MappingObjects g3 = MappingObjects g2 → GLightmassDebugOptions g3 = GLightmassDebugOptions g2 →
  AddMapping p (AddMesh q (this, g3)) = Some st4 →
  (if negb (bSortMappings (GLightmassDebugOptions st4.2))
   then CurrentMapping ← MappingObjects st4.2 !! p;
        MeshOfMapping ← Mesh CurrentMapping;
        AssignDeterministicGuid MeshOfMapping st4
   else Some st4) = Some st5 →
  UpdateMapping p (set_bProcessMapping true) st5.2 = Some g6 →
  SortInv (st5.1, g6).
Proof.
  intros (H1 & H2 & H3) HK HGO HPO3 HGO3 E4 E5 E6. cbn [fst snd] in *.
  apply AddMapping_SortInv in E4 as [(F1 & F2 & F3) F4].
  2:{ unfold AddMesh. cbn [fst snd]. split; [cbn [snd]; by rewrite HGO3, HGO|].
      split; [done|]. sys_simpl. eapply HelpersMatch_kept; [|exact H3].
      eapply TexelsKept_trans; [exact HK|]. by apply TexelsKept_same. }
  rewrite F1 in E5. cbn [negb] in E5. injection E5 as <-.
  pose proof (UpdateMapping_TexelsKept _ _ _ _ E6) as HK6.
  apply UpdateMapping_Some in E6 as (m & _ & ->).
  split; [done|]. split; [done|]. cbn [fst snd].
  eapply HelpersMatch_kept; [|exact F3]. exact HK6.
Qed.

Lemma SortInv_bsp Level NodeGroup bMark st bMark' st' :
  SortInv st →
  AddBSPStaticLightingInfo_NodeGroup Level true NodeGroup bMark st = Some (bMark', st') →
  SortInv st'.
Proof.
  intros HI. unfold AddBSPStaticLightingInfo_NodeGroup.
  destruct (FNodeGroup.Nodes NodeGroup) as [|Node0 Nodes]; [by intros [= <- <-]|].
  destruct (NodeComponent Level Node0) as [cp|]; cbn [mbind option_bind]; [|done].
  destruct (AddBSPStaticLightingInfo_Nodes _ _ _ _ _) as [[[Ids bMark1] [this1 g1]]|] eqn:E1;
    cbn [mbind option_bind]; [|done].
  apply AddBSPStaticLightingInfo_Nodes_SameLighting in E1.
  apply (SortInv_frame _ _ E1) in HI. cbn [fst snd].
  destruct (NewBSPSurfaceStaticLighting NodeGroup g1) as [[q p] g2] eqn:E2.
  pose proof (NewBSPSurfaceStaticLighting_TexelsKept _ _ _ _ _ E2) as HK.
  apply NewBSPSurfaceStaticLighting_GLightmassDebugOptions in E2.
  destruct (UpdateMesh q _ g2) as [g3|] eqn:E3; cbn [mbind option_bind]; [|done].
  apply UpdateMesh_Some in E3 as (m & _ & ->).
  destruct (AddMapping p _) as [st4|] eqn:E4; cbn [mbind option_bind]; [|done].
  rewrite andb_true_r.
  destruct (if negb _ then _ else _) as [st5|] eqn:E5; cbn [mbind option_bind]; [|done].
  destruct (UpdateMapping p _ _) as [g6|] eqn:E6; cbn [mbind option_bind]; [|done].
  intros [= <- <-].
  eapply (SortInv_surface this1 g1 g2); [exact HI|exact HK|exact E2| | |exact E4|exact E5|exact E6];
    done.
Qed.

Lemma SortInv_selected Level NodeGroup st st' :
  SortInv st →
  AddBSPStaticLightingInfo_Selected_NodeGroup Level NodeGroup st = Some st' →
  SortInv st'.
Proof.
  intros HI. unfold AddBSPStaticLightingInfo_Selected_NodeGroup.
  destruct NodeGroup as [NodeGroup|]; [|by intros [= <-]].
  destruct (FNodeGroup.Nodes NodeGroup) as [|Node0 Nodes]; [by intros [= <-]|].
  destruct (NodeComponent Level Node0) as [cp|]; cbn [mbind option_bind]; [|done].
  destruct (mapM _ _) as [ns|]; cbn [mbind option_bind]; [|done].
  destruct st as [this g]. cbn [fst snd].
  destruct (NewBSPSurfaceStaticLighting NodeGroup g) as [[q p] g2] eqn:E2.
  pose proof (NewBSPSurfaceStaticLighting_TexelsKept _ _ _ _ _ E2) as HK.
  apply NewBSPSurfaceStaticLighting_GLightmassDebugOptions in E2.
  destruct (AddMapping p _) as [st4|] eqn:E4; cbn [mbind option_bind]; [|done].
  destruct (if negb _ then _ else _) as [st5|] eqn:E5; cbn [mbind option_bind]; [|done].
  destruct (UpdateMapping p _ _) as [g6|] eqn:E6; cbn [mbind option_bind]; [|done].
  intros [= <-].
  eapply (SortInv_surface this g g2 g2); [exact HI|exact HK|exact E2| | |exact E4|exact E5|exact E6];
    done.
Qed.

Lemma GatherStaticLightingInfo_SortInv bRebuild bForce st st' :
  SortInv st → GatherStaticLightingInfo bRebuild bForce st = Some st' → SortInv st'.
Proof.
  apply GatherStaticLightingInfo_preserves.
  - intros st0 st0' [H _ _]. by apply SortInv_frame.
  - apply SortInv_component.
  - apply SortInv_bsp.
  - apply SortInv_selected.
Qed.

Lemma StronglySorted_NumTexels Helpers :
  DescendingNumTexels Helpers → StronglySorted (λ a b, b ≤ a) (NumTexels <$> Helpers).
Proof.
  unfold DescendingNumTexels. induction 1 as [|h l Hl IH Hh]; cbn [fmap list_fmap]; constructor.
  - exact IH.
  - apply Forall_fmap. exact Hh.
Qed.

Lemma HelpersMatch_omap g Helpers :
  HelpersMatch g Helpers →
  omap (λ p, TexelCount <$> MappingObjects g !! p) (Mapping <$> Helpers) = NumTexels <$> Helpers.
Proof.
  induction 1 as [|h l Hh _ IH]; [done|]. cbn [fmap list_fmap]. csimpl. by rewrite Hh, IH.
Qed.

(** With mapping sorting on, the texel counts of the mappings of the
    system, in the order of the list, never increase. *)
Lemma BeginLightmassProcess_MappingTexelCounts env Options g bSuccess st' :
  bSortMappings (GLightmassDebugOptions g) = true →
  BeginLightmassProcess env (FStaticLightingSystem.ctor Options, g) = Some (bSuccess, st') →
  StronglySorted (λ a b, b ≤ a) (MappingTexelCounts st')
  ∧ length (MappingTexelCounts st') = length (FStaticLightingSystem.Mappings st'.1).
Proof.
  intros Hs (loc & st0 & st1 & E0 & E1 & HQ)%BeginLightmassProcess_inv.
  apply BeginLightmassProcess_CollectStatScope_inv in E1 as (st2 & st3 & E2 & E3 & HQ').
  pose proof (quiet_lighting _ _ (Quiet_trans _ _ _ HQ' HQ)) as [_ HMa _ _ _ HPO _ _].
  unfold MappingTexelCounts. rewrite HMa, HPO.
  assert (HI : SortInv st2).
  { eapply GatherStaticLightingInfo_SortInv; [|exact E2].
    eapply SortInv_frame; [apply quiet_lighting, BeginLightmassProcess_PrepareLights_Quiet|].
    eapply SortInv_frame; [by eapply BeginLightmassProcess_StartupStatScope_SameLighting|].
    split; [done|]. split; [done|]. constructor. }
  destruct HI as (H1 & H2 & H3).
  unfold BeginLightmassProcess_SortMappings in E3. rewrite H1 in E3.
  destruct (BeginLightmassProcess_SortedMappings _ st2) as [st4|] eqn:E4;
    cbn [mbind option_bind] in E3; [|done].
  injection E3 as <-.
  apply BeginLightmassProcess_SortedMappings_frame in E4 as (F1 & _ & _ & F4 & _).
  cbn [fst snd]. sys_simpl. rewrite F1, H2, F4. cbn [app].
  assert (HS : HelpersMatch st2.2
                 (Sort FCompareNumTexels (FStaticLightingSystem.UnSortedMappings st2.1))).
  { unfold HelpersMatch. by rewrite Sort_Permutation. }
  rewrite (HelpersMatch_omap _ _ HS). split.
  - apply StronglySorted_NumTexels, Sort_DescendingNumTexels.
  - by rewrite !length_fmap.
Qed.

(** C7: when mapping sorting is enabled, the sort step appends the
    gathered mappings to the system's list in the order of a list of
    helpers that is a rearrangement of the gathered ones, in which no
    helper comes before one of more texels, and in which the helpers of
    any one texel count keep their gather order.  A helper holds the texel
    count of its mapping, so that at the end of [BeginLightmassProcess]
    the texel counts of the system's mappings, in the order of the list,
    never increase. *)
Theorem BeginLightmassProcess_SortMappings_stable :
  (∀ st st',
     bSortMappings (GLightmassDebugOptions st.2) = true →
     BeginLightmassProcess_SortMappings st = Some st' →
     ∃ Sorted,
       FStaticLightingSystem.Mappings st'.1
       = FStaticLightingSystem.Mappings st.1 ++ (Mapping <$> Sorted)
       ∧ Sorted ≡ₚ FStaticLightingSystem.UnSortedMappings st.1
       ∧ DescendingNumTexels Sorted
       ∧ ∀ n, filter (λ A, NumTexels A = n) Sorted
              = filter (λ A, NumTexels A = n) (FStaticLightingSystem.UnSortedMappings st.1))
  ∧ (∀ env Options g bSuccess st',
       bSortMappings (GLightmassDebugOptions g) = true →
       BeginLightmassProcess env (FStaticLightingSystem.ctor Options, g)
       = Some (bSuccess, st') →
       StronglySorted (λ a b, b ≤ a) (MappingTexelCounts st')
       ∧ length (MappingTexelCounts st') = length (FStaticLightingSystem.Mappings st'.1)).
Proof.
  split.
  - apply BeginLightmassProcess_SortMappings_spec.
  - apply BeginLightmassProcess_MappingTexelCounts.
Qed.

Lemma BeginLightmassProcess_SortMappings_stable_witness :
  (∃ Sorted,
     FStaticLightingSystem.Mappings
       (default ExampleGathered (BeginLightmassProcess_SortMappings ExampleGathered)).1
     = FStaticLightingSystem.Mappings ExampleGathered.1 ++ (Mapping <$> Sorted)
     ∧ Sorted ≡ₚ FStaticLightingSystem.UnSortedMappings ExampleGathered.1
     ∧ DescendingNumTexels Sorted
     ∧ ∀ n, filter (λ A, NumTexels A = n) Sorted
            = filter (λ A, NumTexels A = n)
                (FStaticLightingSystem.UnSortedMappings ExampleGathered.1))
  ∧ MappingTexelCounts (ExampleBegun true).2 = [256; 128; 64; 64; 32; 16]
  ∧ StronglySorted (λ a b, b ≤ a) (MappingTexelCounts (ExampleBegun true).2)
  ∧ length (MappingTexelCounts (ExampleBegun true).2)
    = length (FStaticLightingSystem.Mappings (ExampleBegun true).2.1).
Proof.
  split; [|split; [vm_compute; reflexivity|]].
  - apply (proj1 BeginLightmassProcess_SortMappings_stable ExampleGathered
             (default ExampleGathered (BeginLightmassProcess_SortMappings ExampleGathered)));
      vm_compute; reflexivity.
  - apply (proj2 BeginLightmassProcess_SortMappings_stable QuietEnv (ExampleOptions false)
             (ExampleGlobals true) true (ExampleBegun true).2);
      vm_compute; reflexivity.
Defined.

(** ** The level's dirty flag *)













(** * The mappings of a build and their indices *)

(** ** The system holds the mappings that the build makes *)

Lemma GatheredAre_frame g0 st st' : SameLighting st st' → GatheredAre g0 st → GatheredAre g0 st'.
Proof.
  intros [_ HMa HUn _ _ HPO _ _] [H1 H2]. unfold GatheredAre, Pending.
  rewrite HMa, HUn, HPO. done.
Qed.

Lemma GatheredAre_add g0 this g this' g' ps :
  GatheredAre g0 (this, g) →
  (∀ p, is_Some (MappingObjects g' !! p) ↔ is_Some (MappingObjects g !! p) ∨ p ∈ ps) →
  (∀ p, p ∈ ps → MappingObjects g !! p = None) →
  FStaticLightingSystem.Mappings this' ++ Pending this'
  ≡ₚ (FStaticLightingSystem.Mappings this ++ Pending this) ++ ps →
  GatheredAre g0 (this', g').
Proof.
  intros [H1 H2] Hdom Hnew Hperm. cbn [fst snd] in *. split; cbn [fst snd].
  - intros p Hp. apply Hdom. left. by apply H1.
  - intros p. rewrite Hperm, elem_of_app, H2, Hdom. split.
    + intros [[? ?]|Hp]; [by auto|]. split; [|by right].
      destruct (MappingObjects g0 !! p) eqn:E0; [|done].
      destruct (H1 p) as [m Hm]; [by eexists|]. rewrite (Hnew p Hp) in Hm. done.
    + intros [? [?|?]]; auto.
Qed.

Lemma GatheredAre_component g0 bForce bBuild p bMark st bMark' st' :
  GatheredAre g0 st →
  GatherStaticLightingInfo_Component bForce bBuild p bMark st = Some (bMark', st') →
  GatheredAre g0 st'.
Proof.
  intros HI. unfold GatherStaticLightingInfo_Component. destruct st as [this g].
  destruct (PrimitiveComponents g !! p) as [c|] eqn:Hc; cbn [mbind option_bind]; [|done].
  destruct (UPrimitiveComponent.IsRegistered c && negb bForce); [|by intros [= <- <-]].
  destruct (GetStaticLightingInfo c g) as [info g0'] eqn:EQ.
  apply GetStaticLightingInfo_spec in EQ
    as (MH0 & PH0 & -> & _ & Hl1 & Hl2 & Hnd1 & Hnd2 & Hf1 & Hf2 & Ho1 & Ho2 & Hg1 & Hg2).
  set (ms := FStaticLightingPrimitiveInfo.Meshes info) in *.
  set (ps := FStaticLightingPrimitiveInfo.Mappings info) in *.
  assert (Hstep : ∀ info1 this1 g1 st1,
    FStaticLightingPrimitiveInfo.Meshes info1 = ms →
    FStaticLightingPrimitiveInfo.Mappings info1 = ps →
    FStaticLightingSystem.Mappings this1 = FStaticLightingSystem.Mappings this →
    FStaticLightingSystem.UnSortedMappings this1 = FStaticLightingSystem.UnSortedMappings this →
    MappingObjects g1 = PH0 →
    AddPrimitiveStaticLightingInfo info1 bBuild (this1, g1) = Some st1 →
    GatheredAre g0 st1).
  { intros info1 this1 g1 st1 Hms Hps HM HU HPH.
    unfold AddPrimitiveStaticLightingInfo. rewrite Hms, Hps.
    case_bool_decide as Hlen; [|done].
    destruct (AddPrimitiveStaticLightingInfo_Meshes _ _ _ _) as [[this2 g2]|] eqn:E1;
      cbn [mbind option_bind]; [|done].
    intros E2.
    destruct (AddPrimitiveStaticLightingInfo_Meshes_frame _ _ _ _ _ E1) as (HM2 & HU2 & _ & _).
    pose proof (AddPrimitiveStaticLightingInfo_Meshes_MappingObjects _ _ _ _ _ E1) as HP2.
    cbn [fst snd] in HM2, HU2, HP2.
    apply AddPrimitiveStaticLightingInfo_Mappings_spec in E2
      as (PH' & hs & -> & Hhs & Hold2 & Hnew2); [|done].
    apply (GatheredAre_add g0 this g _ _ ps HI).
    - intros p'. cbn [MappingObjects set_MappingObjects].
      destruct (decide (p' ∈ ps)) as [Hin|Hin].
      + split; [by right|]. intros _.
        apply list_elem_of_lookup in Hin as [i Hi].
        pose proof (Hg2 i p' Hi) as Hp1.
        destruct (UPrimitiveComponent.InfoMappings c !! i) as [Init|] eqn:HInit.
        2:{ apply lookup_ge_None in HInit. apply lookup_lt_Some in Hi. fold ps in Hl2. lia. }
        cbn in Hp1. rewrite <- HPH, <- HP2 in Hp1.
        rewrite (Hnew2 p' _ (list_elem_of_lookup_2 _ _ _ Hi) Hp1). by eexists.
      + rewrite Hold2, HP2, HPH, Ho2 by done. split; [by left|]. by intros [?|?].
    - exact Hf2.
    - unfold Pending. sys_simpl. rewrite HM2, HU2, HM, HU, fmap_app.
      destruct (bSortMappings _); cbn [fmap list_fmap]; rewrite ?app_nil_r, ?Hhs.
      + by rewrite app_assoc.
      + rewrite <- !app_assoc. apply Permutation_app_head, Permutation_app_comm. }
  destruct (GetsVisibilityId info c).
  - destruct (AddPrimitiveStaticLightingInfo _ _ _) as [st1|] eqn:E;
      cbn [mbind option_bind]; [|done].
    intros [= <- <-]. eapply Hstep; [..|exact E]; done.
  - destruct (AddPrimitiveStaticLightingInfo _ _ _) as [st1|] eqn:E;
      cbn [mbind option_bind]; [|done].
    intros [= <- <-]. eapply Hstep; [..|exact E]; done.
Qed.

Ltac run_surface ES :=
  repeat first
    [ progress sys_simpl
    | rewrite lookup_insert_eq
    | rewrite ES
    | progress cbn [mbind option_bind negb andb Mesh bProcessMapping TexelCount]
    | progress unfold AssignDeterministicGuid, UpdateMapping, UpdateMesh, AddMesh, AddMapping ].

(** The state that a new BSP surface leaves holds the surface's mapping,
    which is a new object, besides the mappings held before. *)
Ltac surface_gathered HI :=
  match goal with
  | |- GatheredAre ?g0 (_, ?g') =>
      match type of HI with
      | GatheredAre _ (?this, ?g) =>
          apply (GatheredAre_add g0 this g _ g' [fresh (dom (MappingObjects g))] HI)
      end
  end;
  [ intros p'; sys_simpl; rewrite ?lookup_insert_is_Some', list_elem_of_singleton;
    intuition congruence
  | intros p' ->%list_elem_of_singleton; apply not_elem_of_dom, is_fresh
  | unfold Pending; sys_simpl; rewrite ?fmap_app; cbn [fmap list_fmap Mapping];
    rewrite <- ?app_assoc; try done;
    apply Permutation_app_head, Permutation_app_comm ].

Lemma GatheredAre_bsp g0 Level b NodeGroup bMark st bMark' st' :
  GatheredAre g0 st →
  AddBSPStaticLightingInfo_NodeGroup Level b NodeGroup bMark st = Some (bMark', st') →
  GatheredAre g0 st'.
Proof.
  intros HI. unfold AddBSPStaticLightingInfo_NodeGroup.
  destruct (FNodeGroup.Nodes NodeGroup) as [|Node0 Nodes]; [by intros [= <- <-]|].
  destruct (NodeComponent Level Node0) as [cp|]; cbn [mbind option_bind]; [|done].
  destruct (AddBSPStaticLightingInfo_Nodes _ _ _ _ _) as [[[Ids bMark1] [this1 g1]]|] eqn:E1;
    cbn [mbind option_bind]; [|done].
  apply AddBSPStaticLightingInfo_Nodes_SameLighting in E1.
  apply (GatheredAre_frame _ _ _ E1) in HI. cbn [fst snd].
  unfold NewBSPSurfaceStaticLighting, alloc.
  destruct (bSortMappings (GLightmassDebugOptions g1)) eqn:ES, b; run_surface ES;
    intros [= <- <-]; surface_gathered HI.
Qed.

Lemma GatheredAre_selected g0 Level NodeGroup st st' :
  GatheredAre g0 st →
  AddBSPStaticLightingInfo_Selected_NodeGroup Level NodeGroup st = Some st' →
  GatheredAre g0 st'.
Proof.
  intros HI. unfold AddBSPStaticLightingInfo_Selected_NodeGroup.
  destruct NodeGroup as [NodeGroup|]; [|by intros [= <-]].
  destruct (FNodeGroup.Nodes NodeGroup) as [|Node0 Nodes]; [by intros [= <-]|].
  destruct (NodeComponent Level Node0) as [cp|]; cbn [mbind option_bind]; [|done].
  destruct (mapM _ _) as [ns|]; cbn [mbind option_bind]; [|done].
  destruct st as [this g]. cbn [fst snd].
  unfold NewBSPSurfaceStaticLighting, alloc.
  destruct (bSortMappings (GLightmassDebugOptions g)) eqn:ES; run_surface ES;
    intros [= <-]; surface_gathered HI.
Qed.

Lemma GatherStaticLightingInfo_GatheredAre g0 bRebuild bForce st st' :
  GatheredAre g0 st → GatherStaticLightingInfo bRebuild bForce st = Some st' →
  GatheredAre g0 st'.
Proof.
  apply (GatherStaticLightingInfo_preserves (GatheredAre g0)).
  - intros s s' HQ. apply GatheredAre_frame, HQ.
  - intros. by eapply GatheredAre_component.
  - intros. by eapply GatheredAre_bsp.
  - intros. by eapply GatheredAre_selected.
Qed.

Lemma BeginLightmassProcess_SortMappings_GatheredAre g0 st st' :
  (bSortMappings (GLightmassDebugOptions st.2) = false →
   FStaticLightingSystem.UnSortedMappings st.1 = []) →
  GatheredAre g0 st → BeginLightmassProcess_SortMappings st = Some st' →
  GatheredAre g0 st' ∧ FStaticLightingSystem.UnSortedMappings st'.1 = [].
Proof.
  intros HU [H1 H2]. unfold BeginLightmassProcess_SortMappings.
  destruct (bSortMappings (GLightmassDebugOptions st.2)).
  - destruct (BeginLightmassProcess_SortedMappings _ _) as [st1|] eqn:E;
      cbn [mbind option_bind]; [|done].
    apply BeginLightmassProcess_SortedMappings_frame in E as (HM & _ & _ & HP & _).
    intros [= <-]. split; [|done]. unfold GatheredAre, Pending. sys_simpl.
    cbn [fmap list_fmap]. rewrite app_nil_r, HM, HP. split; [done|].
    intros p. rewrite <- H2. unfold Pending.
    by rewrite (Sort_Permutation FCompareNumTexels (FStaticLightingSystem.UnSortedMappings st.1)).
  - intros [= <-]. split; [done|]. by apply HU.
Qed.

Lemma NoDup_omap_is_Some {A B} (f : A → option B) (l : list A) :
  Forall (λ x, is_Some (f x)) l → NoDup (omap f l) → NoDup l.
Proof.
  induction l as [|x l IH]; intros HF; [constructor|].
  apply Forall_cons in HF as [[y Hy] HF]. cbn [omap list_omap]. rewrite Hy.
  intros [Hn Hnd]%NoDup_cons. apply NoDup_cons. split; [|by apply IH].
  intros Hx. apply Hn. apply list_elem_of_omap. by exists x.
Qed.

(** ** The indices of the flagged mappings *)

(** C1: in every build of a scene whose components pair their meshes and
    mappings one to one, the system's mapping list holds, once each, the
    mappings that the build has made, with and without the texel-count
    sort, and none is left waiting for the sort.  The meshes of those
    flagged for rebuild carry, in the order of the list, the Guids
    (0,0,0,0), (0,0,0,1), ..., (0,0,0,k-1), k being the number of flagged
    mappings: the indices are dense, start at 0 and do not repeat.  The
    index counter ends at k, and no two mappings share a mesh. *)
Theorem BeginLightmassProcess_DeterministicIndex env Options g bSuccess st' :
  StoreWellPaired g = true →
  BeginLightmassProcess env (FStaticLightingSystem.ctor Options, g) = Some (bSuccess, st') →
  Z.of_nat (length (FStaticLightingSystem.Mappings st'.1)) < 2 ^ 31 →
  MappingGuid st'.2 <$> ProcessedMappings st'
  = (Some ∘ DeterministicGuid) <$> seq 0 (length (ProcessedMappings st'))
  ∧ FStaticLightingSystem.DeterministicIndex st'.1 = Z.of_nat (length (ProcessedMappings st'))
  ∧ NoDup (omap (MappingMesh st'.2) (FStaticLightingSystem.Mappings st'.1))
  ∧ FStaticLightingSystem.UnSortedMappings st'.1 = []
  ∧ NoDup (FStaticLightingSystem.Mappings st'.1)
  ∧ ∀ p, p ∈ FStaticLightingSystem.Mappings st'.1
         ↔ MappingObjects g !! p = None ∧ is_Some (MappingObjects st'.2 !! p).
Proof.
  intros HWF E Hbound.
  destruct (BeginLightmassProcess_DeterministicInv _ _ _ _ _ HWF E Hbound) as [Hm Hnd Hidx Hg].
  rewrite app_nil_r in Hm, Hnd.
  assert (Hk : Z.to_nat (FStaticLightingSystem.DeterministicIndex st'.1)
               = length (ProcessedMappings st')).
  { apply (f_equal length) in Hg. rewrite !length_fmap, length_seq in Hg. done. }
  rewrite <- Hk. split; [done|]. split; [lia|]. split; [done|].
  apply BeginLightmassProcess_inv in E as (loc & st0 & st1 & E0 & E1 & Hsame).
  apply BeginLightmassProcess_CollectStatScope_inv in E1 as (st2 & st3 & E2 & E3 & Hsame').
  pose proof (quiet_lighting _ _ (Quiet_trans _ _ _ Hsame' Hsame)) as Hs.
  assert (HG2 : GatherInv st2).
  { eapply GatherStaticLightingInfo_GatherInv; [|exact E2].
    eapply GatherInv_frame; [apply quiet_lighting, BeginLightmassProcess_PrepareLights_Quiet|].
    eapply GatherInv_frame; [by eapply BeginLightmassProcess_StartupStatScope_SameLighting|].
    by apply GatherInv_ctor. }
  assert (HA2 : GatheredAre g st2).
  { eapply GatherStaticLightingInfo_GatheredAre; [|exact E2].
    eapply GatheredAre_frame; [apply quiet_lighting, BeginLightmassProcess_PrepareLights_Quiet|].
    eapply GatheredAre_frame; [by eapply BeginLightmassProcess_StartupStatScope_SameLighting|].
    split; cbn [fst snd]; [done|]. intros p. cbn. split.
    - intros H. by apply elem_of_nil in H.
    - intros [H1 [m H2]]. congruence. }
  destruct HG2 as (_ & HU2 & _).
  destruct (BeginLightmassProcess_SortMappings_GatheredAre g st2 st3 HU2 HA2 E3) as [HA3 HU3].
  apply (GatheredAre_frame _ _ _ Hs) in HA3 as [_ HA].
  assert (HU : FStaticLightingSystem.UnSortedMappings st'.1 = [])
    by (by rewrite (same_UnSortedMappings _ _ Hs)).
  split; [done|]. split.
  - apply (NoDup_omap_is_Some (MappingMesh st'.2)); [|done].
    eapply Forall_impl; [exact Hm|]. intros p (q & -> & _). by eexists.
  - intros p. rewrite <- HA. unfold Pending. rewrite HU. cbn [fmap list_fmap].
    by rewrite app_nil_r.
Qed.

Lemma BeginLightmassProcess_DeterministicIndex_witness :
  MappingGuid (ExampleBegun true).2.2 <$> ProcessedMappings (ExampleBegun true).2
  = (Some ∘ DeterministicGuid) <$> seq 0 (length (ProcessedMappings (ExampleBegun true).2))
  ∧ FStaticLightingSystem.DeterministicIndex (ExampleBegun true).2.1
    = Z.of_nat (length (ProcessedMappings (ExampleBegun true).2))
  ∧ NoDup (omap (MappingMesh (ExampleBegun true).2.2)
             (FStaticLightingSystem.Mappings (ExampleBegun true).2.1))
  ∧ FStaticLightingSystem.UnSortedMappings (ExampleBegun true).2.1 = []
  ∧ NoDup (FStaticLightingSystem.Mappings (ExampleBegun true).2.1)
  ∧ ∀ p, p ∈ FStaticLightingSystem.Mappings (ExampleBegun true).2.1
         ↔ MappingObjects (ExampleGlobals true) !! p = None
           ∧ is_Some (MappingObjects (ExampleBegun true).2.2 !! p).
Proof.
  apply (BeginLightmassProcess_DeterministicIndex QuietEnv (ExampleOptions false)
           (ExampleGlobals true) true (ExampleBegun true).2);
    vm_compute; reflexivity.
Defined.

(** * The calls of a build *)

(** ** Steps and their calls *)

Lemma Calls_refl P st : Calls P st st.
Proof. split; [done|]. exists []. by rewrite app_nil_r. Qed.

Lemma Calls_trans P st1 st2 st3 : Calls P st1 st2 → Calls P st2 st3 → Calls P st1 st3.
Proof.
  intros [H1 (es1 & L1 & F1)] [H2 (es2 & L2 & F2)]. split; [congruence|].
  exists (es1 ++ es2). split; [by rewrite L2, L1, app_assoc|]. by apply Forall_app.
Qed.

Lemma Calls_weaken (P Q : Event → bool) st st' :
  (∀ e, P e = true → Q e = true) → Calls P st st' → Calls Q st st'.
Proof.
  intros HPQ [H1 (es & L & F)]. split; [done|]. exists es. split; [done|].
  eapply Forall_impl; [exact F|]. exact HPQ.
Qed.

Lemma Calls_emit (P : Event → bool) e st : P e = true → Calls P st (st.1, emit e st.2).
Proof. intros He. split; [done|]. exists [e]. split; [done|]. by constructor. Qed.

Lemma Calls_emits (P : Event → bool) es st :
  Forall (λ e, P e = true) es → Calls P st (st.1, emits es st.2).
Proof. intros He. split; [done|]. by exists es. Qed.

Lemma Calls_silent P st st' : Calls NoEvent st st' → Calls P st st'.
Proof. apply Calls_weaken. done. Qed.

Lemma Calls_NoEvent st st' : Calls NoEvent st st' ↔ Rest st' = Rest st ∧ Log st'.2 = Log st.2.
Proof.
  split.
  - intros [H1 (es & L & F)]. split; [done|]. destruct es as [|e es].
    + by rewrite app_nil_r in L.
    + by inversion F.
  - intros [H1 H2]. split; [done|]. exists []. by rewrite app_nil_r.
Qed.

Ltac silent := apply Calls_NoEvent; split; reflexivity.

(** ** The structure of the gather *)

Section GatherRelates.
Context (bForce : bool) (R : SystemState → SystemState → Prop).
Hypothesis R_refl : ∀ st, R st st.
Hypothesis R_trans : ∀ st1 st2 st3, R st1 st2 → R st2 st3 → R st1 st3.
Hypothesis R_emit : ∀ e st, LevelEvent e = true → R st (st.1, emit e st.2).
Hypothesis R_message : ∀ e st,
  (∃ Key, e = MessageLog_Warning Key ∨ e = MessageLog_Error Key) → R st (st.1, emit e st.2).
Hypothesis R_enqueue : ∀ Components this g g',
  EnqueueComponents Components g = Some g' → R (this, g) (this, g').
Hypothesis R_component : ∀ bBuild p bMark st bMark' st',
  GatherStaticLightingInfo_Component bForce bBuild p bMark st = Some (bMark', st') → R st st'.
Hypothesis R_bsp : bForce = false → ∀ Level b NodeGroup bMark st bMark' st',
  AddBSPStaticLightingInfo_NodeGroup Level b NodeGroup bMark st = Some (bMark', st') → R st st'.
Hypothesis R_selected : bForce = false → ∀ Level NodeGroup st st',
  AddBSPStaticLightingInfo_Selected_NodeGroup Level NodeGroup st = Some st' → R st st'.

Lemma GatherRelates_emit e this g :
  LevelEvent e = true → R (this, g) (this, emit e g).
Proof. apply (R_emit e (this, g)). Qed.

Lemma GatherStaticLightingInfo_Components_relates bBuild Components :
  ∀ bMark st bMark' st',
  GatherStaticLightingInfo_Components bForce bBuild Components bMark st = Some (bMark', st') →
  R st st'.
Proof.
  induction Components as [|p Components IH]; intros bMark st bMark' st';
    cbn [GatherStaticLightingInfo_Components].
  - by intros [= <- <-].
  - destruct (GatherStaticLightingInfo_Component _ _ _ _ _) as [[bMark1 st1]|] eqn:E;
      cbn [mbind option_bind]; [|done].
    intros E'. eapply R_trans; [by eapply R_component|by eapply IH].
Qed.

Lemma GatherStaticLightingInfo_Actor_relates bLevel Actor loc st loc' st' :
  GatherStaticLightingInfo_Actor bForce bLevel Actor loc st = Some (loc', st') → R st st'.
Proof.
  unfold GatherStaticLightingInfo_Actor.
  destruct Actor as [Actor|]; [|by intros [= <- <-]].
  destruct st as [this g].
  set (bBuild := bLevel && _).
  assert (Hg : ∀ g1,
    (if bBuild && negb (bOnlyBuildVisibility (FStaticLightingSystem.Options this))
     then EnqueueComponents (Components Actor) g else Some g) = Some g1 →
    R (this, g) (this, g1)).
  { intros g1. destruct (bBuild && _).
    - apply R_enqueue.
    - by intros [= <-]. }
  destruct (if bBuild && _ then _ else _) as [g1|]; cbn [mbind option_bind]; [|done].
  destruct (GatherStaticLightingInfo_Components _ _ _ _ _) as [[bMark1 st1]|] eqn:E;
    cbn [mbind option_bind]; [|done].
  intros [= <- <-]. eapply R_trans; [by apply Hg|].
  by eapply GatherStaticLightingInfo_Components_relates.
Qed.

Lemma GatherStaticLightingInfo_Actors_relates bLevel Actors : ∀ loc st loc' st',
  GatherStaticLightingInfo_Actors bForce bLevel Actors loc st = Some (loc', st') → R st st'.
Proof.
  induction Actors as [|Actor Actors IH]; intros loc st loc' st';
    cbn [GatherStaticLightingInfo_Actors].
  - by intros [= <- <-].
  - destruct (GatherStaticLightingInfo_Actor _ _ _ _ _) as [[loc1 st1]|] eqn:E;
      cbn [mbind option_bind]; [|done].
    intros E'. eapply R_trans; [by eapply GatherStaticLightingInfo_Actor_relates|by eapply IH].
Qed.

Lemma AddBSPStaticLightingInfo_NodeGroups_relates Level b NodeGroups : ∀ bMark st bMark' st',
  bForce = false →
  AddBSPStaticLightingInfo_NodeGroups Level b NodeGroups bMark st = Some (bMark', st') →
  R st st'.
Proof.
  induction NodeGroups as [|NodeGroup NodeGroups IH]; intros bMark st bMark' st' HF;
    cbn [AddBSPStaticLightingInfo_NodeGroups].
  - by intros [= <- <-].
  - destruct (AddBSPStaticLightingInfo_NodeGroup _ _ _ _ _) as [[bMark1 st1]|] eqn:E;
      cbn [mbind option_bind]; [|done].
    intros E'. eapply R_trans; [by eapply R_bsp|by eapply IH].
Qed.

Lemma AddBSPStaticLightingInfo_relates Level b st st' :
  bForce = false → AddBSPStaticLightingInfo Level b st = Some st' → R st st'.
Proof.
  intros HF. unfold AddBSPStaticLightingInfo.
  destruct (AddBSPStaticLightingInfo_NodeGroups _ _ _ _ _) as [[bMark1 st1]|] eqn:E;
    cbn [mbind option_bind]; [|done].
  apply AddBSPStaticLightingInfo_NodeGroups_relates in E; [|done].
  intros [= <-].
  eapply R_trans; [apply (R_emit (GroupAllNodes (LevelId Level))); done|].
  eapply R_trans; [exact E|].
  destruct bMark1; [|done]. destruct st1. by apply GatherRelates_emit.
Qed.

Lemma AddBSPStaticLightingInfo_Selected_relates Level NodeGroups : ∀ st st',
  bForce = false →
  AddBSPStaticLightingInfo_Selected Level NodeGroups st = Some st' → R st st'.
Proof.
  induction NodeGroups as [|NodeGroup NodeGroups IH]; intros st st' HF;
    cbn [AddBSPStaticLightingInfo_Selected].
  - by intros [= <-].
  - destruct (AddBSPStaticLightingInfo_Selected_NodeGroup _ _ _) as [st1|] eqn:E;
      cbn [mbind option_bind]; [|done].
    intros E'. eapply R_trans; [by eapply R_selected|by eapply IH].
Qed.

Lemma GatherStaticLightingInfo_Level_relates bRebuild Level bFound st bFound' st' :
  GatherStaticLightingInfo_Level bRebuild bForce Level bFound st = Some (bFound', st') →
  R st st'.
Proof.
  unfold GatherStaticLightingInfo_Level. destruct st as [this g].
  cbv zeta.
  set (Options := FStaticLightingSystem.Options this).
  set (g1 := if bGeometryDirtyForLighting Level then _ else g).
  assert (H1 : R (this, g) (this, g1)).
  { subst g1. destruct (bGeometryDirtyForLighting Level); [|done].
    destruct bRebuild.
    - eapply R_trans; [|by apply GatherRelates_emit].
      eapply R_trans; [|by apply GatherRelates_emit].
      by apply GatherRelates_emit.
    - by apply GatherRelates_emit. }
  clearbody g1.
  set (bSelectedBSP := ShouldBuildLightingForLevel Options Level && _ && _).
  set (g2 := if bSelectedBSP then emit _ g1 else g1).
  assert (H2 : R (this, g) (this, g2)).
  { subst g2. destruct bSelectedBSP; [|done].
    eapply R_trans; [exact H1|]. by apply GatherRelates_emit. }
  clearbody g2. clear H1.
  set (NodeGroupsToBuild := if bSelectedBSP then SelectedNodeGroups Level else []).
  set (bBuildBSPLighting := if bSelectedBSP then _ else _).
  destruct (if bBuildBSPLighting && negb bForce then _ else _) as [[bFound1 st1]|] eqn:E;
    cbn [mbind option_bind]; [|done].
  assert (H3 : R (this, g) st1).
  { eapply R_trans; [exact H2|].
    destruct (bBuildBSPLighting && negb bForce) eqn:Eb.
    - apply andb_true_iff in Eb as [_ HF%negb_true_iff].
      destruct (negb (bOnlyBuildSelected Options) || bOnlyBuildVisibility Options).
      + destruct (AddBSPStaticLightingInfo _ _ _) as [st2|] eqn:E2;
          cbn [mbind option_bind] in E; [|done].
        injection E as <- <-. by eapply AddBSPStaticLightingInfo_relates.
      + case_bool_decide.
        * destruct (AddBSPStaticLightingInfo_Selected _ _ _) as [st2|] eqn:E2;
            cbn [mbind option_bind] in E; [|done].
          injection E as <- <-. by eapply AddBSPStaticLightingInfo_Selected_relates.
        * by injection E as <- <-.
    - by injection E as <- <-. }
  clear E.
  destruct (GatherStaticLightingInfo_Actors _ _ _ _ _) as [[loc1 st2]|] eqn:E;
    cbn [mbind option_bind]; [|done].
  apply GatherStaticLightingInfo_Actors_relates in E.
  intros [= <- <-]. eapply R_trans; [exact H3|]. eapply R_trans; [exact E|].
  destruct (GatherLocals.bMarkLevelDirty loc1); [|done].
  destruct st2. by apply GatherRelates_emit.
Qed.

Lemma GatherStaticLightingInfo_Levels_relates bRebuild Levels : ∀ bFound st bFound' st',
  GatherStaticLightingInfo_Levels bRebuild bForce Levels bFound st = Some (bFound', st') →
  R st st'.
Proof.
  induction Levels as [|Level Levels IH]; intros bFound st bFound' st';
    cbn [GatherStaticLightingInfo_Levels].
  - by intros [= <- <-].
  - destruct (GatherStaticLightingInfo_Level _ _ _ _ _) as [[bFound1 st1]|] eqn:E;
      cbn [mbind option_bind]; [|done].
    intros E'. eapply R_trans; [by eapply GatherStaticLightingInfo_Level_relates|by eapply IH].
Qed.

Lemma GatherStaticLightingInfo_relates bRebuild st st' :
  GatherStaticLightingInfo bRebuild bForce st = Some st' → R st st'.
Proof.
  unfold GatherStaticLightingInfo.
  destruct (GatherStaticLightingInfo_Levels _ _ _ _ _) as [[bFound1 st1]|] eqn:E;
    cbn [mbind option_bind]; [|done].
  apply GatherStaticLightingInfo_Levels_relates in E.
  intros [= <-]. eapply R_trans; [exact E|].
  destruct (bOnlyBuildSelected _); [|done].
  destruct st1 as [this1 g1]. cbn [fst snd].
  destruct bFound1.
  - apply (R_message (MessageLog_Warning "LightmassError_BuildSelected") (this1, g1)); eauto.
  - eapply R_trans.
    + apply (R_message (MessageLog_Warning "LightmassError_BuildSelected") (this1, g1)); eauto.
    + apply (R_message (MessageLog_Error "LightmassError_BuildSelectedNothingSelected")
               (this1, _)); eauto.
Qed.

End GatherRelates.

(** ** The steps of the gather make no call *)

Lemma UpdateMesh_silent q f this g g' :
  UpdateMesh q f g = Some g' → Calls NoEvent (this, g) (this, g').
Proof. intros (m & _ & ->)%UpdateMesh_Some. silent. Qed.

Lemma UpdateMapping_silent p f this g g' :
  UpdateMapping p f g = Some g' → Calls NoEvent (this, g) (this, g').
Proof. intros (m & _ & ->)%UpdateMapping_Some. silent. Qed.

Lemma AssignDeterministicGuid_silent q st st' :
  AssignDeterministicGuid q st = Some st' → Calls NoEvent st st'.
Proof. destruct st as [this g]. intros (m & _ & ->)%AssignDeterministicGuid_Some. silent. Qed.

Lemma AddMapping_silent p st st' : AddMapping p st = Some st' → Calls NoEvent st st'.
Proof. destruct st as [this g]. intros (hs & -> & _)%AddMapping_Some. silent. Qed.

Lemma AddMesh_silent q st : Calls NoEvent st (AddMesh q st).
Proof. silent. Qed.

Lemma AddPrimitiveStaticLightingInfo_Meshes_silent vis b ms : ∀ st st',
  AddPrimitiveStaticLightingInfo_Meshes vis b ms st = Some st' → Calls NoEvent st st'.
Proof.
  induction ms as [|q ms IH]; intros [this g] st'; cbn [AddPrimitiveStaticLightingInfo_Meshes].
  - intros [= <-]. apply Calls_refl.
  - cbn [fst snd].
    destruct (UpdateMesh q _ g) as [g1|] eqn:E1; cbn [mbind option_bind]; [|done].
    apply (UpdateMesh_silent _ _ this) in E1.
    destruct (if negb _ && b then _ else _) as [st2|] eqn:E2; cbn [mbind option_bind]; [|done].
    intros E3%IH.
    eapply Calls_trans; [exact E1|]. eapply Calls_trans; [|exact E3].
    eapply Calls_trans; [|apply AddMesh_silent].
    destruct (negb _ && b).
    + by eapply AssignDeterministicGuid_silent.
    + injection E2 as <-. apply Calls_refl.
Qed.

Lemma AddPrimitiveStaticLightingInfo_Mappings_silent b ps : ∀ st st',
  AddPrimitiveStaticLightingInfo_Mappings b ps st = Some st' → Calls NoEvent st st'.
Proof.
  induction ps as [|p ps IH]; intros [this g] st'; cbn [AddPrimitiveStaticLightingInfo_Mappings].
  - intros [= <-]. apply Calls_refl.
  - cbn [fst snd].
    destruct (if b then _ else _) as [g1|] eqn:E1; cbn [mbind option_bind]; [|done].
    destruct (AddMapping p (this, g1)) as [st2|] eqn:E2; cbn [mbind option_bind]; [|done].
    intros E3%IH. apply AddMapping_silent in E2.
    eapply Calls_trans; [|exact E3]. eapply Calls_trans; [|exact E2].
    destruct b.
    + by eapply UpdateMapping_silent.
    + injection E1 as <-. apply Calls_refl.
Qed.

Lemma AddPrimitiveStaticLightingInfo_silent info b st st' :
  AddPrimitiveStaticLightingInfo info b st = Some st' → Calls NoEvent st st'.
Proof.
  unfold AddPrimitiveStaticLightingInfo. case_bool_decide; [|done].
  destruct (AddPrimitiveStaticLightingInfo_Meshes _ _ _ _) as [st1|] eqn:E1;
    cbn [mbind option_bind]; [|done].
  intros E2. eapply Calls_trans.
  - by eapply AddPrimitiveStaticLightingInfo_Meshes_silent.
  - by eapply AddPrimitiveStaticLightingInfo_Mappings_silent.
Qed.

Lemma GetStaticLightingInfo_silent c this g info g' :
  GetStaticLightingInfo c g = (info, g') → Calls NoEvent (this, g) (this, g').
Proof.
  unfold GetStaticLightingInfo.
  destruct (alloc_list (MeshObjects g) _) as [ms mh].
  destruct (alloc_list (MappingObjects g) _) as [ps ph].
  intros [= <- <-]. silent.
Qed.

Lemma GatherStaticLightingInfo_Component_silent bForce bBuild p bMark st bMark' st' :
  GatherStaticLightingInfo_Component bForce bBuild p bMark st = Some (bMark', st') →
  Calls NoEvent st st'.
Proof.
  destruct st as [this g]. unfold GatherStaticLightingInfo_Component.
  destruct (PrimitiveComponents g !! p) as [c|]; cbn [mbind option_bind]; [|done].
  destruct (UPrimitiveComponent.IsRegistered c && negb bForce).
  2:{ intros [= <- <-]. apply Calls_refl. }
  destruct (GetStaticLightingInfo c g) as [info g0] eqn:E0.
  apply (GetStaticLightingInfo_silent _ this) in E0.
  destruct (GetsVisibilityId info c).
  - destruct (AddPrimitiveStaticLightingInfo _ _ _) as [st1|] eqn:E1;
      cbn [mbind option_bind]; [|done].
    intros [= <- <-]. apply AddPrimitiveStaticLightingInfo_silent in E1.
    eapply Calls_trans; [exact E0|]. eapply Calls_trans; [|exact E1]. silent.
  - destruct (AddPrimitiveStaticLightingInfo _ _ _) as [st1|] eqn:E1;
      cbn [mbind option_bind]; [|done].
    intros [= <- <-]. apply AddPrimitiveStaticLightingInfo_silent in E1.
    eapply Calls_trans; [exact E0|exact E1].
Qed.

Lemma EnqueueComponents_silent Components : ∀ this g g',
  EnqueueComponents Components g = Some g' → Calls NoEvent (this, g) (this, g').
Proof.
  induction Components as [|p Components IH]; intros this g g'; cbn [EnqueueComponents].
  - intros [= <-]. apply Calls_refl.
  - destruct (PrimitiveComponents g !! p) as [c|]; cbn [mbind option_bind]; [|done].
    intros E%(IH this). eapply Calls_trans; [|exact E]. silent.
Qed.

Lemma AddBSPStaticLightingInfo_Nodes_silent Level Nodes : ∀ Ids bMark st Ids' bMark' st',
  AddBSPStaticLightingInfo_Nodes Level Nodes Ids bMark st = Some (Ids', bMark', st') →
  Calls NoEvent st st'.
Proof.
  induction Nodes as [|n Nodes IH]; intros Ids bMark [this g] Ids' bMark' st';
    cbn [AddBSPStaticLightingInfo_Nodes].
  - intros [= <- <- <-]. apply Calls_refl.
  - destruct (NodeComponent Level n) as [cp|]; cbn [mbind option_bind]; [|done].
    destruct (PrimitiveComponents g !! cp) as [c|]; cbn [mbind option_bind]; [|done].
    case_bool_decide.
    + intros E%IH. eapply Calls_trans; [|exact E]. silent.
    + apply IH.
Qed.

Lemma NewBSPSurfaceStaticLighting_silent NodeGroup this g q p g' :
  NewBSPSurfaceStaticLighting NodeGroup g = (q, p, g') → Calls NoEvent (this, g) (this, g').
Proof.
  unfold NewBSPSurfaceStaticLighting, alloc. intros [= <- <- <-]. silent.
Qed.

Lemma AddBSPStaticLightingInfo_NodeGroup_silent Level b NodeGroup bMark st bMark' st' :
  AddBSPStaticLightingInfo_NodeGroup Level b NodeGroup bMark st = Some (bMark', st') →
  Calls NoEvent st st'.
Proof.
  unfold AddBSPStaticLightingInfo_NodeGroup.
  destruct (FNodeGroup.Nodes NodeGroup) as [|n0 ns] eqn:En.
  { intros [= <- <-]. apply Calls_refl. }
  destruct (NodeComponent Level n0) as [cp|]; cbn [mbind option_bind]; [|done].
  destruct (AddBSPStaticLightingInfo_Nodes _ _ _ _ _) as [[[Ids bMark1] [this1 g1]]|] eqn:E1;
    cbn [mbind option_bind]; [|done].
  apply AddBSPStaticLightingInfo_Nodes_silent in E1.
  cbn [fst snd].
  destruct (NewBSPSurfaceStaticLighting NodeGroup g1) as [[q p] g2] eqn:E2.
  apply (NewBSPSurfaceStaticLighting_silent _ this1) in E2.
  destruct (UpdateMesh q _ g2) as [g3|] eqn:E3; cbn [mbind option_bind]; [|done].
  apply (UpdateMesh_silent _ _ this1) in E3.
  destruct (AddMapping p _) as [st4|] eqn:E4; cbn [mbind option_bind]; [|done].
  apply AddMapping_silent in E4.
  destruct (if negb _ && b then _ else _) as [st5|] eqn:E5; cbn [mbind option_bind]; [|done].
  destruct (if b then _ else _) as [g6|] eqn:E6; cbn [mbind option_bind]; [|done].
  intros [= <- <-].
  eapply Calls_trans; [exact E1|]. eapply Calls_trans; [exact E2|].
  eapply Calls_trans; [exact E3|].
  eapply Calls_trans; [apply (AddMesh_silent q)|]. eapply Calls_trans; [exact E4|].
  assert (H5 : Calls NoEvent st4 st5).
  { destruct (negb _ && b).
    - destruct (MappingObjects st4.2 !! p) as [m|]; cbn [mbind option_bind] in E5; [|done].
      destruct (Mesh m) as [q'|]; cbn [mbind option_bind] in E5; [|done].
      by eapply AssignDeterministicGuid_silent.
    - injection E5 as <-. apply Calls_refl. }
  eapply Calls_trans; [exact H5|].
  destruct st5 as [this5 g5]. cbn [fst snd] in *. destruct b.
  - by eapply UpdateMapping_silent.
  - injection E6 as <-. apply Calls_refl.
Qed.

Lemma AddBSPStaticLightingInfo_Selected_NodeGroup_silent Level NodeGroup st st' :
  AddBSPStaticLightingInfo_Selected_NodeGroup Level NodeGroup st = Some st' →
  Calls NoEvent st st'.
Proof.
  unfold AddBSPStaticLightingInfo_Selected_NodeGroup.
  destruct NodeGroup as [NodeGroup|]; [|intros [= <-]; apply Calls_refl].
  destruct (FNodeGroup.Nodes NodeGroup) as [|n0 ns] eqn:En.
  { intros [= <-]. apply Calls_refl. }
  destruct (NodeComponent Level n0) as [cp|]; cbn [mbind option_bind]; [|done].
  destruct (mapM _ _) as [nodes|]; cbn [mbind option_bind]; [|done].
  destruct st as [this g]. cbn [fst snd].
  destruct (NewBSPSurfaceStaticLighting NodeGroup g) as [[q p] g2] eqn:E2.
  apply (NewBSPSurfaceStaticLighting_silent _ this) in E2.
  destruct (AddMapping p _) as [st4|] eqn:E4; cbn [mbind option_bind]; [|done].
  apply AddMapping_silent in E4.
  destruct (if negb _ then _ else _) as [st5|] eqn:E5; cbn [mbind option_bind]; [|done].
  destruct (UpdateMapping p _ _) as [g6|] eqn:E6; cbn [mbind option_bind]; [|done].
  intros [= <-].
  eapply Calls_trans; [exact E2|].
  eapply Calls_trans; [apply (AddMesh_silent q)|]. eapply Calls_trans; [exact E4|].
  assert (H5 : Calls NoEvent st4 st5).
  { destruct (negb _).
    - destruct (MappingObjects st4.2 !! p) as [m|]; cbn [mbind option_bind] in E5; [|done].
      destruct (Mesh m) as [q'|]; cbn [mbind option_bind] in E5; [|done].
      by eapply AssignDeterministicGuid_silent.
    - injection E5 as <-. apply Calls_refl. }
  eapply Calls_trans; [exact H5|].
  destruct st5 as [this5 g5]. by eapply UpdateMapping_silent.
Qed.

(** The gather writes the lists, the counters and the object stores, and
    calls out for the log, the geometry rebuild, the node grouping and the
    dirty flag of a level only. *)
Lemma GatherStaticLightingInfo_Calls bRebuild bForce st st' :
  GatherStaticLightingInfo bRebuild bForce st = Some st' → Calls GatherEvent st st'.
Proof.
  apply (GatherStaticLightingInfo_relates bForce (Calls GatherEvent)).
  - apply Calls_refl.
  - apply Calls_trans.
  - intros e st0 He. apply Calls_emit. unfold GatherEvent. by rewrite He.
  - intros e st0 (Key & [-> | ->]); by apply Calls_emit.
  - intros Components this g g' E. by eapply Calls_silent, EnqueueComponents_silent.
  - intros * E. by eapply Calls_silent, GatherStaticLightingInfo_Component_silent.
  - intros _ * E. by eapply Calls_silent, AddBSPStaticLightingInfo_NodeGroup_silent.
  - intros _ * E. by eapply Calls_silent, AddBSPStaticLightingInfo_Selected_NodeGroup_silent.
Qed.

(** ** The sort, the verification and the start of the processor *)

Lemma BeginLightmassProcess_SortedMappings_silent Sorted : ∀ st st',
  BeginLightmassProcess_SortedMappings Sorted st = Some st' → Calls NoEvent st st'.
Proof.
  induction Sorted as [|h Sorted IH]; intros [this g] st';
    cbn [BeginLightmassProcess_SortedMappings].
  - intros [= <-]. apply Calls_refl.
  - cbn [fst snd].
    destruct (MappingObjects g !! Mapping h) as [m|]; cbn [mbind option_bind]; [|done].
    destruct (if bProcessMapping m then _ else _) as [st1|] eqn:E1; cbn [mbind option_bind];
      [|done].
    intros E%IH. eapply Calls_trans; [|exact E].
    eapply Calls_trans; [|instantiate (1 := (_, g))].
    { instantiate (1 := FStaticLightingSystem.set_Mappings _ this). silent. }
    destruct (bProcessMapping m); [destruct (Mesh m)|].
    + by eapply AssignDeterministicGuid_silent.
    + injection E1 as <-. apply Calls_refl.
    + injection E1 as <-. apply Calls_refl.
Qed.

Lemma BeginLightmassProcess_SortMappings_silent st st' :
  BeginLightmassProcess_SortMappings st = Some st' → Calls NoEvent st st'.
Proof.
  unfold BeginLightmassProcess_SortMappings. destruct (bSortMappings _).
  - destruct (BeginLightmassProcess_SortedMappings _ _) as [st1|] eqn:E;
      cbn [mbind option_bind]; [|done].
    intros [= <-]. apply BeginLightmassProcess_SortedMappings_silent in E.
    eapply Calls_trans; [exact E|]. silent.
  - intros [= <-]. apply Calls_refl.
Qed.

Lemma BeginLightmassProcess_Verify_Calls n Mappings : ∀ this g g',
  BeginLightmassProcess_Verify n Mappings g = Some g' →
  Calls CollectEvent (this, g) (this, g').
Proof.
  induction Mappings as [|p Mappings IH]; intros this g g'; cbn [BeginLightmassProcess_Verify].
  - intros [= <-]. apply Calls_refl.
  - destruct (MappingObjects g !! p) as [cm|]; cbn [mbind option_bind]; [|done].
    destruct (bProcessMapping cm).
    + destruct (Mesh cm) as [q|]; cbn [mbind option_bind]; [|done].
      destruct (MeshObjects g !! q) as [msh|]; cbn [mbind option_bind]; [|done].
      intros E. apply (IH this) in E. eapply Calls_trans; [|exact E].
      destruct (DeterministicGuidInError _ _); [|apply Calls_refl].
      by apply (Calls_emit CollectEvent _ (this, g)).
    + cbn [mbind option_bind]. apply IH.
Qed.

Lemma BeginLightmassProcess_CollectStatScope_Calls loc st st' :
  BeginLightmassProcess_CollectStatScope loc st = Some st' →
  Calls CollectEvent (BeginLightmassProcess_PrepareLights st) st'.
Proof.
  unfold BeginLightmassProcess_CollectStatScope.
  destruct (GatherStaticLightingInfo _ _ _) as [st1|] eqn:E1; cbn [mbind option_bind]; [|done].
  destruct (BeginLightmassProcess_SortMappings st1) as [[this2 g2]|] eqn:E2;
    cbn [mbind option_bind]; [|done].
  cbn [fst snd].
  destruct (BeginLightmassProcess_Verify _ _ _) as [g3|] eqn:E; cbn [mbind option_bind]; [|done].
  intros [= <-].
  apply GatherStaticLightingInfo_Calls in E1. apply BeginLightmassProcess_SortMappings_silent in E2.
  apply (BeginLightmassProcess_Verify_Calls _ _ this2) in E.
  eapply Calls_trans; [eapply Calls_weaken; [|exact E1]|].
  { intros e He. unfold CollectEvent. by rewrite He. }
  eapply Calls_trans; [eapply Calls_silent; exact E2|].
  eapply Calls_trans; [exact E|].
  destruct (bDumpBinaryResults _); [|apply Calls_refl].
  by apply (Calls_emit CollectEvent _ (this2, g3)).
Qed.

(** What the blocks of [BeginLightmassProcess] that follow the collection
    of the scene do, told from the state that the collection leaves. *)
Lemma BeginLightmassProcess_process env st loc st0 st1 b st' :
  BeginLightmassProcess env st = Some (b, st') →
  BeginLightmassProcess_StartupStatScope env st = (loc, st0) →
  BeginLightmassProcess_CollectStatScope loc st0 = Some st1 →
  Local_bForceNoPrecomputedLighting loc
  = bForceNoPrecomputedLighting (GWorld st1.2) || negb (bAllowStaticLighting env) →
  FStaticLightingSystem.LightmassProcessor st1.1 = None →
  b = BuildStarts env (FStaticLightingSystem.Options st1.1) st1.2
  ∧ Log st'.2
    = Log st1.2 ++ ProcessCalls env (FStaticLightingSystem.Options st1.1) st1.2
                     (FStaticLightingSystem.Meshes st1.1) (FStaticLightingSystem.Mappings st1.1)
  ∧ FStaticLightingSystem.CurrentBuildStage st'.1
    = (if b then AmortizedExport else FStaticLightingSystem.CurrentBuildStage st1.1)
  ∧ FStaticLightingSystem.LightmassProcessor st'.1
    = (if ProcessorCreated env (FStaticLightingSystem.Options st1.1) st1.2
       then Some {| bImportCompletedMappingsImmediately :=
                      negb (bMapBuildCancelled st1.2)
                      && bUseImmediateImport (GLightmassDebugOptions st1.2) |}
       else None)
  ∧ FStaticLightingSystem.bCrashTrackerOriginallyEnabled st'.1
    = (if b then default (FStaticLightingSystem.bCrashTrackerOriginallyEnabled st1.1)
                   (CrashTracker env)
       else FStaticLightingSystem.bCrashTrackerOriginallyEnabled st1.1)
  ∧ FStaticLightingSystem.Options st'.1 = FStaticLightingSystem.Options st1.1
  ∧ FStaticLightingSystem.bBuildCanceled st'.1 = FStaticLightingSystem.bBuildCanceled st1.1
  ∧ FStaticLightingSystem.Lights st'.1 = FStaticLightingSystem.Lights st1.1
  ∧ GWorld st'.2 = GWorld st1.2
  ∧ bMapBuildCancelled st'.2 = bMapBuildCancelled st1.2
  ∧ Notifications st'.2 = Notifications st1.2
  ∧ PrimitiveComponents st'.2 = PrimitiveComponents st1.2.
Proof.
  intros E E0 E1 HF HP. unfold BeginLightmassProcess in E. rewrite E0 in E.
  rewrite E1 in E. cbn [mbind option_bind] in E. rewrite HF in E.
  destruct st1 as [this g]. cbn [fst snd] in *.
  unfold BuildStarts, ProcessorCreated, ProcessCalls.
  destruct (bForceNoPrecomputedLighting (GWorld g) || negb (bAllowStaticLighting env)).
  { cbn [negb andb] in *. injection E as <- <-. cbn. by rewrite HP. }
  cbn [negb andb] in *.
  unfold CreateLightmassProcessor in E.
  destruct (bOnlyBuildVisibility (FStaticLightingSystem.Options this)
            && negb (bPrecomputeVisibility (GWorld g))).
  { cbn in E. injection E as <- <-. cbn. rewrite HP, <- app_assoc. done. }
  cbn [negb andb]. rewrite HP in E. cbn [emit Log set_Log] in E.
  destruct (IsSwarmConnectionIsValid env).
  2:{ cbn in E. injection E as <- <-. cbn. rewrite HP, <- !app_assoc. done. }
  cbn [negb andb mbind option_bind] in E.
  unfold GatherScene, InitiateLightmassProcessor in E.
  destruct (bMapBuildCancelled g) eqn:Ec; cbn in E; repeat (rewrite Ec in E; cbn in E).
  { injection E as <- <-. cbn. rewrite Ec, <- ?app_assoc. done. }
  destruct (OpenJob_Result env); [destruct (CrashTracker env) as [c|]|];
    injection E as <- <-; cbn; rewrite Ec, <- ?app_assoc; cbn; rewrite <- ?app_assoc; done.
Qed.

Lemma Calls_Rest P st st' : Calls P st st' → Rest st' = Rest st.
Proof. by intros [H _]. Qed.

(** [BeginLightmassProcess] on a system without a processor: its result,
    its calls and the members it leaves. *)
Lemma BeginLightmassProcess_spec env this g b st' :
  BeginLightmassProcess env (this, g) = Some (b, st') →
  FStaticLightingSystem.LightmassProcessor this = None →
  let Options := FStaticLightingSystem.Options this in
  b = BuildStarts env Options g
  ∧ (∃ esC,
       Forall (λ e, CollectEvent e = true) esC
       ∧ Log st'.2
         = Log g
           ++ (if bForceNoPrecomputedLighting (GWorld g) || negb (bAllowStaticLighting env)
               then [] else [BeginSlowTask])
           ++ esC
           ++ ProcessCalls env Options g (FStaticLightingSystem.Meshes st'.1)
                (FStaticLightingSystem.Mappings st'.1))
  ∧ FStaticLightingSystem.CurrentBuildStage st'.1 = (if b then AmortizedExport else Startup)
  ∧ FStaticLightingSystem.LightmassProcessor st'.1
    = (if ProcessorCreated env Options g
       then Some {| bImportCompletedMappingsImmediately :=
                      negb (bMapBuildCancelled g)
                      && bUseImmediateImport (GLightmassDebugOptions g) |}
       else None)
  ∧ FStaticLightingSystem.bCrashTrackerOriginallyEnabled st'.1
    = (if b then default (FStaticLightingSystem.bCrashTrackerOriginallyEnabled this)
                   (CrashTracker env)
       else FStaticLightingSystem.bCrashTrackerOriginallyEnabled this)
  ∧ FStaticLightingSystem.Options st'.1 = Options
  ∧ FStaticLightingSystem.bBuildCanceled st'.1 = FStaticLightingSystem.bBuildCanceled this
  ∧ FStaticLightingSystem.Lights st'.1
    = FStaticLightingSystem.Lights (BeginLightmassProcess_PrepareLights (this, g)).1
  ∧ GWorld st'.2 = GWorld g
  ∧ bMapBuildCancelled st'.2 = bMapBuildCancelled g
  ∧ Notifications st'.2 = Notifications g.
Proof.
  intros E HP Options.
  destruct (BeginLightmassProcess_inv _ _ _ _ E) as (loc & st0 & st1 & E0 & E1 & HQ).
  pose proof (BeginLightmassProcess_CollectStatScope_Calls _ _ _ E1) as [HR (esC & HL & HesC)].
  assert (H0 : st0 = (FStaticLightingSystem.set_CurrentBuildStage Startup this,
                      (if negb (bForceNoPrecomputedLighting (GWorld g)
                                || negb (bAllowStaticLighting env))
                       then emit BeginSlowTask else id)
                        (set_PrimitiveComponents
                           (UPrimitiveComponent.set_VisibilityId INDEX_NONE
                              <$> PrimitiveComponents g) g))
               ∧ Local_bForceNoPrecomputedLighting loc
                 = bForceNoPrecomputedLighting (GWorld g) || negb (bAllowStaticLighting env)).
  { unfold BeginLightmassProcess_StartupStatScope in E0. cbn in E0.
    injection E0 as <- <-. split; [|done].
    by destruct (bForceNoPrecomputedLighting (GWorld g) || negb (bAllowStaticLighting env)). }
  destruct H0 as [-> HF].
  assert (HR' : Rest st1
                = Rest (FStaticLightingSystem.set_Lights
                          (FStaticLightingSystem.Lights
                             (BeginLightmassProcess_PrepareLights (this, g)).1)
                          (FStaticLightingSystem.set_CurrentBuildStage Startup this), g)).
  { rewrite HR. unfold BeginLightmassProcess_PrepareLights. cbn [fst snd].
    cbn [FStaticLightingSystem.Options FStaticLightingSystem.set_CurrentBuildStage].
    destruct (negb (bOnlyBuildVisibility _));
      by destruct (bForceNoPrecomputedLighting (GWorld g) || negb (bAllowStaticLighting env)). }
  clear HR. unfold Rest in HR'. cbn in HR'.
  injection HR' as R1 R2 R3 R4 R5 R6 R7 R8 R9 R10 R11.
  destruct (BeginLightmassProcess_process _ _ _ _ _ _ _ E E0 E1)
    as (Hb & HLog & Hstage & Hproc & Hflag & Hopt & Hcan & Hlights & Hw & Hmc & Hn & _).
  { by rewrite HF, R7. }
  { by rewrite R5. }
  unfold BuildStarts, ProcessorCreated, ProcessCalls in *.
  rewrite ?R1, ?R7, ?R10 in Hb. rewrite ?R1, ?R7, ?R9, ?R10 in HLog.
  rewrite ?R3 in Hstage. rewrite ?R1, ?R7, ?R9, ?R10 in Hproc. rewrite ?R4 in Hflag.
  rewrite R1 in Hopt. rewrite R2 in Hcan. rewrite R7 in Hw. rewrite R10 in Hmc.
  rewrite R11 in Hn.
  split; [done|].
  split.
  { exists esC. split; [done|]. rewrite HLog, HL.
    rewrite (same_Meshes _ _ (quiet_lighting _ _ HQ)),
      (same_Mappings _ _ (quiet_lighting _ _ HQ)).
    unfold BeginLightmassProcess_PrepareLights. cbn [fst snd].
    destruct (negb (bOnlyBuildVisibility _));
      destruct (bForceNoPrecomputedLighting (GWorld g) || negb (bAllowStaticLighting env));
      cbn; by rewrite <- ?app_assoc. }
  split; [done|]. split; [done|]. split; [done|]. split; [done|]. split; [done|].
  split; [|done]. rewrite Hlights, R6. done.
Qed.

(** The steps of the block that collects the scene. *)
Lemma BeginLightmassProcess_CollectStatScope_steps loc st st' :
  BeginLightmassProcess_CollectStatScope loc st = Some st' →
  ∃ st1 st2 g3,
    GatherStaticLightingInfo (Local_bRebuildDirtyGeometryForLighting loc)
      (Local_bForceNoPrecomputedLighting loc) (BeginLightmassProcess_PrepareLights st) = Some st1
    ∧ BeginLightmassProcess_SortMappings st1 = Some st2
    ∧ BeginLightmassProcess_Verify (length (FStaticLightingSystem.Mappings st2.1))
        (FStaticLightingSystem.Mappings st2.1) st2.2 = Some g3
    ∧ st' = (st2.1, if bDumpBinaryResults (FStaticLightingSystem.Options st2.1)
                    then emit ClearBinaryDumps g3 else g3).
Proof.
  unfold BeginLightmassProcess_CollectStatScope.
  destruct (GatherStaticLightingInfo _ _ _) as [st1|] eqn:E1; cbn [mbind option_bind]; [|done].
  destruct (BeginLightmassProcess_SortMappings st1) as [st2|] eqn:E2;
    cbn [mbind option_bind]; [|done].
  destruct (BeginLightmassProcess_Verify _ _ _) as [g3|] eqn:E; cbn [mbind option_bind]; [|done].
  intros [= <-]. by exists st1, st2, g3.
Qed.

(** The state in which the scene is collected, and the calls that
    follow. *)
Lemma BeginLightmassProcess_collected env this g b st' :
  BeginLightmassProcess env (this, g) = Some (b, st') →
  FStaticLightingSystem.LightmassProcessor this = None →
  ∃ loc st0 st1,
    BeginLightmassProcess_StartupStatScope env (this, g) = (loc, st0)
    ∧ BeginLightmassProcess_CollectStatScope loc st0 = Some st1
    ∧ Quiet st1 st'
    ∧ Local_bForceNoPrecomputedLighting loc
      = bForceNoPrecomputedLighting (GWorld g) || negb (bAllowStaticLighting env)
    ∧ Log st0.2
      = Log g ++ (if bForceNoPrecomputedLighting (GWorld g) || negb (bAllowStaticLighting env)
                  then [] else [BeginSlowTask])
    ∧ Log st'.2
      = Log st1.2 ++ ProcessCalls env (FStaticLightingSystem.Options this) g
                       (FStaticLightingSystem.Meshes st'.1)
                       (FStaticLightingSystem.Mappings st'.1).
Proof.
  intros E HP.
  destruct (BeginLightmassProcess_inv _ _ _ _ E) as (loc & st0 & st1 & E0 & E1 & HQ).
  exists loc, st0, st1. split; [done|]. split; [done|]. split; [done|].
  pose proof (BeginLightmassProcess_CollectStatScope_Calls _ _ _ E1) as [HR _].
  assert (H0 : Local_bForceNoPrecomputedLighting loc
               = bForceNoPrecomputedLighting (GWorld g) || negb (bAllowStaticLighting env)
               ∧ Log st0.2
                 = Log g ++ (if bForceNoPrecomputedLighting (GWorld g)
                                || negb (bAllowStaticLighting env)
                             then [] else [BeginSlowTask])
               ∧ Rest (BeginLightmassProcess_PrepareLights st0)
                 = Rest (FStaticLightingSystem.set_Lights
                           (FStaticLightingSystem.Lights
                              (BeginLightmassProcess_PrepareLights (this, g)).1)
                           (FStaticLightingSystem.set_CurrentBuildStage Startup this), g)).
  { unfold BeginLightmassProcess_StartupStatScope in E0. cbn in E0.
    injection E0 as <- <-. split; [done|].
    unfold BeginLightmassProcess_PrepareLights. cbn [fst snd].
    cbn [FStaticLightingSystem.Options FStaticLightingSystem.set_CurrentBuildStage].
    destruct (negb (bOnlyBuildVisibility _));
      destruct (bForceNoPrecomputedLighting (GWorld g) || negb (bAllowStaticLighting env));
      cbn; by rewrite ?app_nil_r. }
  destruct H0 as (HF & HL0 & HR0). rewrite HR0 in HR. clear HR0.
  unfold Rest in HR. cbn in HR.
  injection HR as R1 R2 R3 R4 R5 R6 R7 R8 R9 R10 R11.
  split; [done|]. split; [done|].
  destruct (BeginLightmassProcess_process _ _ _ _ _ _ _ E E0 E1) as (_ & HLog & _).
  { by rewrite HF, R7. }
  { by rewrite R5. }
  rewrite HLog.
  rewrite (same_Meshes _ _ (quiet_lighting _ _ HQ)),
    (same_Mappings _ _ (quiet_lighting _ _ HQ)).
  unfold ProcessCalls. by rewrite R1, R7, R9, R10.
Qed.

(** * What the start of a build leaves *)

(** [BeginLightmassProcess] starts a build exactly when precomputed
    lighting is not forced off, a visibility-only build has precomputed
    visibility to build, Swarm is connected, the map build was not
    cancelled and the Swarm job opens.  The system is then in stage
    AmortizedExport, and remembers whether the crash tracker was capturing;
    otherwise it stays in stage Startup.  It owns a processor exactly when
    the Swarm connection was made. *)
Theorem BeginLightmassProcess_starts env Options g b st' :
  BeginLightmassProcess env (FStaticLightingSystem.ctor Options, g) = Some (b, st') →
  b = BuildStarts env Options g
  ∧ FStaticLightingSystem.CurrentBuildStage st'.1 = (if b then AmortizedExport else Startup)
  ∧ FStaticLightingSystem.LightmassProcessor st'.1
    = (if ProcessorCreated env Options g
       then Some {| bImportCompletedMappingsImmediately :=
                      negb (bMapBuildCancelled g)
                      && bUseImmediateImport (GLightmassDebugOptions g) |}
       else None)
  ∧ FStaticLightingSystem.bCrashTrackerOriginallyEnabled st'.1
    = b && default false (CrashTracker env)
  ∧ FStaticLightingSystem.bBuildCanceled st'.1 = false
  ∧ bMapBuildCancelled st'.2 = bMapBuildCancelled g
  ∧ Notifications st'.2 = Notifications g.
Proof.
  intros E.
  destruct (BeginLightmassProcess_spec _ _ _ _ _ E eq_refl)
    as (Hb & _ & Hstage & Hproc & Hflag & _ & Hcan & _ & _ & Hmc & Hn).
  cbn in *. split; [done|]. split; [done|]. split; [done|].
  split; [|done]. rewrite Hflag. by destruct b.
Qed.

Lemma BeginLightmassProcess_starts_witness :
  (ExampleBegun true).1 = BuildStarts QuietEnv (ExampleOptions false) (ExampleGlobals true)
  ∧ FStaticLightingSystem.CurrentBuildStage (ExampleBegun true).2.1
    = (if (ExampleBegun true).1 then AmortizedExport else Startup)
  ∧ FStaticLightingSystem.LightmassProcessor (ExampleBegun true).2.1
    = (if ProcessorCreated QuietEnv (ExampleOptions false) (ExampleGlobals true)
       then Some {| bImportCompletedMappingsImmediately :=
                      negb (bMapBuildCancelled (ExampleGlobals true))
                      && bUseImmediateImport (GLightmassDebugOptions (ExampleGlobals true)) |}
       else None)
  ∧ FStaticLightingSystem.bCrashTrackerOriginallyEnabled (ExampleBegun true).2.1
    = (ExampleBegun true).1 && default false (CrashTracker QuietEnv)
  ∧ FStaticLightingSystem.bBuildCanceled (ExampleBegun true).2.1 = false
  ∧ bMapBuildCancelled (ExampleBegun true).2.2 = bMapBuildCancelled (ExampleGlobals true)
  ∧ Notifications (ExampleBegun true).2.2 = Notifications (ExampleGlobals true).
Proof.
  apply (BeginLightmassProcess_starts QuietEnv (ExampleOptions false) (ExampleGlobals true)).
  vm_compute. reflexivity.
Defined.

(** ** What a started build has exported *)

Lemma filter_IsExport_none (P : Event → bool) es :
  (∀ e, P e = true → IsExport e = false) →
  Forall (λ e, P e = true) es → filter (λ e, IsExport e = true) es = [].
Proof.
  intros HP. induction 1 as [|e es He _ IH]; [done|].
  rewrite filter_cons_False; [done|]. rewrite (HP e He). done.
Qed.

Lemma filter_IsExport_all es :
  Forall (λ e, IsExport e = true) es → filter (λ e, IsExport e = true) es = es.
Proof.
  induction 1 as [|e es He _ IH]; [done|]. rewrite filter_cons_True by done. by rewrite IH.
Qed.

Lemma CollectEvent_not_IsExport e : CollectEvent e = true → IsExport e = false.
Proof. by destruct e. Qed.

(** When [BeginLightmassProcess] starts a build, its calls are: the slow
    task begun, the calls of the collection of the scene, Swarm
    initialised and the processor created, every mesh of the system and
    then every mapping handed to the exporter in the order of the lists,
    the Swarm job opened and the export initiated, crash tracking switched
    off, the slow task ended.  So the exports are one call for each entry
    of the list of meshes and then one for each entry of the list of
    mappings, and no other. *)
Theorem BeginLightmassProcess_exports env Options g st' :
  BeginLightmassProcess env (FStaticLightingSystem.ctor Options, g) = Some (true, st') →
  (∃ esC,
     Forall (λ e, CollectEvent e = true) esC
     ∧ Log st'.2
       = Log g ++ [BeginSlowTask] ++ esC ++ [Swarm_Initialize; NewLightmassProcessor]
         ++ (ExportMeshInstance <$> FStaticLightingSystem.Meshes st'.1)
         ++ (ExportMapping <$> FStaticLightingSystem.Mappings st'.1)
         ++ [SetImportCompletedMappingsImmediately
               (bUseImmediateImport (GLightmassDebugOptions g)); OpenJob; InitiateExport]
         ++ match CrashTracker env with
            | Some _ => [SetCrashTrackingEnabled false]
            | None => []
            end
         ++ [EndSlowTask])
  ∧ filter (λ e, IsExport e = true) (drop (length (Log g)) (Log st'.2))
    = (ExportMeshInstance <$> FStaticLightingSystem.Meshes st'.1)
      ++ (ExportMapping <$> FStaticLightingSystem.Mappings st'.1).
Proof.
  intros E.
  destruct (BeginLightmassProcess_spec _ _ _ _ _ E eq_refl) as (Hb & (esC & HesC & HL) & _).
  cbn in Hb, HL. unfold BuildStarts in Hb. unfold ProcessCalls in HL.
  symmetry in Hb.
  apply andb_true_iff in Hb as [Hb H5]. apply andb_true_iff in Hb as [Hb H4%negb_true_iff].
  apply andb_true_iff in Hb as [Hb H3]. apply andb_true_iff in Hb as [H1%negb_true_iff H2%negb_true_iff].
  rewrite H1, H2, H3, H4, H5 in HL. cbn [negb] in HL.
  assert (HL' : Log st'.2
       = Log g ++ [BeginSlowTask] ++ esC ++ [Swarm_Initialize; NewLightmassProcessor]
         ++ (ExportMeshInstance <$> FStaticLightingSystem.Meshes st'.1)
         ++ (ExportMapping <$> FStaticLightingSystem.Mappings st'.1)
         ++ [SetImportCompletedMappingsImmediately
               (bUseImmediateImport (GLightmassDebugOptions g)); OpenJob; InitiateExport]
         ++ match CrashTracker env with
            | Some _ => [SetCrashTrackingEnabled false]
            | None => []
            end
         ++ [EndSlowTask]).
  { rewrite HL. cbn. by rewrite <- !app_assoc. }
  split; [by exists esC|].
  rewrite HL', drop_app_length, !filter_app.
  rewrite (filter_IsExport_none CollectEvent esC) by (done || apply CollectEvent_not_IsExport).
  rewrite (filter_IsExport_all (ExportMeshInstance <$> _)),
    (filter_IsExport_all (ExportMapping <$> _)) by (apply Forall_fmap, Forall_true; done).
  destruct (CrashTracker env); cbn; by rewrite ?app_nil_r.
Qed.

Lemma BeginLightmassProcess_exports_witness :
  let st' := (ExampleBegun true).2 in
  let g := ExampleGlobals true in
  (∃ esC,
     Forall (λ e, CollectEvent e = true) esC
     ∧ Log st'.2
       = Log g ++ [BeginSlowTask] ++ esC ++ [Swarm_Initialize; NewLightmassProcessor]
         ++ (ExportMeshInstance <$> FStaticLightingSystem.Meshes st'.1)
         ++ (ExportMapping <$> FStaticLightingSystem.Mappings st'.1)
         ++ [SetImportCompletedMappingsImmediately
               (bUseImmediateImport (GLightmassDebugOptions g)); OpenJob; InitiateExport]
         ++ match CrashTracker QuietEnv with
            | Some _ => [SetCrashTrackingEnabled false]
            | None => []
            end
         ++ [EndSlowTask])
  ∧ filter (λ e, IsExport e = true) (drop (length (Log g)) (Log st'.2))
    = (ExportMeshInstance <$> FStaticLightingSystem.Meshes st'.1)
      ++ (ExportMapping <$> FStaticLightingSystem.Mappings st'.1).
Proof.
  apply (BeginLightmassProcess_exports QuietEnv (ExampleOptions false) (ExampleGlobals true)).
  vm_compute. reflexivity.
Defined.

(** ** Builds without precomputed lighting *)

Lemma GatherStaticLightingInfo_forced bRebuild st st' :
  GatherStaticLightingInfo bRebuild true st = Some st' → Quiet st st'.
Proof.
  apply (GatherStaticLightingInfo_relates true Quiet).
  - apply Quiet_refl.
  - apply Quiet_trans.
  - intros e st0 _. apply Quiet_emit.
  - intros e st0 _. apply Quiet_emit.
  - intros Components this g g'. apply EnqueueComponents_Quiet.
  - intros bBuild p bMark [this g] bMark' st0. unfold GatherStaticLightingInfo_Component.
    destruct (PrimitiveComponents g !! p) as [c|]; cbn [mbind option_bind]; [|done].
    rewrite andb_false_r. intros [= <- <-]. apply Quiet_refl.
  - done.
  - done.
Qed.

Lemma BeginLightmassProcess_Verify_nil n g : BeginLightmassProcess_Verify n [] g = Some g.
Proof. done. Qed.

(** When the world forces precomputed lighting off, or static lighting is
    not allowed, [BeginLightmassProcess] gathers nothing: the system has
    no mesh and no mapping, no mesh or mapping object is created, no
    component gets a visibility id, and Swarm is not touched.  It
    invalidates the static lighting, applies the empty result and
    reports that no build was started. *)
Theorem BeginLightmassProcess_forced env Options g b st' :
  bForceNoPrecomputedLighting (GWorld g) || negb (bAllowStaticLighting env) = true →
  BeginLightmassProcess env (FStaticLightingSystem.ctor Options, g) = Some (b, st') →
  b = false
  ∧ FStaticLightingSystem.Meshes st'.1 = []
  ∧ FStaticLightingSystem.Mappings st'.1 = []
  ∧ FStaticLightingSystem.UnSortedMappings st'.1 = []
  ∧ MeshObjects st'.2 = MeshObjects g
  ∧ MappingObjects st'.2 = MappingObjects g
  ∧ FStaticLightingSystem.LightmassProcessor st'.1 = None
  ∧ FStaticLightingSystem.NextVisibilityId st'.1 = 0
  ∧ (∀ p c, PrimitiveComponents st'.2 !! p = Some c →
            UPrimitiveComponent.VisibilityId c = INDEX_NONE)
  ∧ ∃ es,
      Forall (λ e, GatherEvent e = true) es
      ∧ Log st'.2
        = Log g ++ es
          ++ (if bDumpBinaryResults Options then [ClearBinaryDumps] else [])
          ++ [InvalidateStaticLighting; ApplyNewLightingData true].
Proof.
  intros HF E.
  destruct (BeginLightmassProcess_spec _ _ _ _ _ E eq_refl)
    as (Hb & _ & _ & Hproc & _ & Hopt & _).
  destruct (BeginLightmassProcess_collected _ _ _ _ _ E eq_refl)
    as (loc & st0 & st1' & E0 & E1 & HQ & HF' & HL0 & HL).
  cbn in Hb, Hproc, Hopt, HL. unfold BuildStarts in Hb. unfold ProcessorCreated in Hproc.
  unfold ProcessCalls in HL. rewrite HF in *. cbn in Hb, Hproc.
  split; [done|].
  apply BeginLightmassProcess_CollectStatScope_steps in E1
    as (st1 & st2 & g3 & E1 & E2 & E3 & ->).
  rewrite HF' in E1.
  pose proof (GatherStaticLightingInfo_Calls _ _ _ _ E1) as [HR1 (esG & HLG & HesG)].
  apply GatherStaticLightingInfo_forced in E1.
  assert (H0 : SameLighting (FStaticLightingSystem.ctor Options, g)
                 (BeginLightmassProcess_PrepareLights st0)
               ∧ FStaticLightingSystem.NextVisibilityId
                   (BeginLightmassProcess_PrepareLights st0).1 = 0
               ∧ (∀ p c, PrimitiveComponents (BeginLightmassProcess_PrepareLights st0).2 !! p
                         = Some c → UPrimitiveComponent.VisibilityId c = INDEX_NONE)
               ∧ Log (BeginLightmassProcess_PrepareLights st0).2 = Log st0.2
               ∧ FStaticLightingSystem.Options (BeginLightmassProcess_PrepareLights st0).1
                 = Options).
  { split.
    - eapply SameLighting_trans;
        [by eapply BeginLightmassProcess_StartupStatScope_SameLighting|].
      apply quiet_lighting, BeginLightmassProcess_PrepareLights_Quiet.
    - unfold BeginLightmassProcess_StartupStatScope in E0. cbn in E0.
      injection E0 as <- <-. rewrite HF. cbn.
      unfold BeginLightmassProcess_PrepareLights.
      destruct (negb (bOnlyBuildVisibility _)); cbn; (split; [done|]); (split; [|done]);
        intros p c; rewrite lookup_fmap; destruct (PrimitiveComponents g !! p);
        cbn; by intros [= <-]. }
  destruct H0 as (HS0 & HN0 & HV0 & HLP & HO0).
  set (stP := BeginLightmassProcess_PrepareLights st0) in *.
  pose proof (quiet_lighting _ _ E1) as HS1.
  pose proof (SameLighting_trans _ _ _ HS0 HS1) as HS.
  assert (H2 : st2 = st1 ∨ st2 = (FStaticLightingSystem.set_UnSortedMappings [] st1.1, st1.2)).
  { unfold BeginLightmassProcess_SortMappings in E2.
    rewrite (same_UnSortedMappings _ _ HS) in E2. cbn in E2.
    destruct (bSortMappings _); injection E2 as <-; auto. }
  assert (HS2 : SameLighting st1 st2 ∧ Quiet st1 st2
                ∧ Log st2.2 = Log st1.2
                ∧ FStaticLightingSystem.Options st2.1 = FStaticLightingSystem.Options st1.1).
  { destruct H2 as [->| ->]; [split; [apply SameLighting_refl|]; split; [apply Quiet_refl|done]|].
    assert (Quiet st1 (FStaticLightingSystem.set_UnSortedMappings [] st1.1, st1.2)).
    { split; [|done|done]. constructor; try done. cbn.
      by rewrite (same_UnSortedMappings _ _ HS). }
    split; [by apply quiet_lighting|]. done. }
  destruct HS2 as (HS2 & HQ2 & HL2 & HO2).
  pose proof (SameLighting_trans _ _ _ HS HS2) as HS'.
  rewrite (same_Mappings _ _ HS') in E3. cbn in E3. injection E3 as <-.
  pose proof (quiet_lighting _ _ HQ) as HS3. cbn [fst snd] in *.
  assert (HS4 : SameLighting (FStaticLightingSystem.ctor Options, g) st').
  { eapply SameLighting_trans; [exact HS'|]. eapply SameLighting_trans; [|exact HS3].
    destruct (bDumpBinaryResults _); by constructor. }
  split; [by rewrite (same_Meshes _ _ HS4)|].
  split; [by rewrite (same_Mappings _ _ HS4)|].
  split; [by rewrite (same_UnSortedMappings _ _ HS4)|].
  split; [by rewrite (same_MeshObjects _ _ HS4)|].
  split; [by rewrite (same_MappingObjects _ _ HS4)|].
  split; [done|].
  assert (HQ' : Quiet stP st').
  { eapply Quiet_trans; [exact E1|]. eapply Quiet_trans; [exact HQ2|].
    eapply Quiet_trans; [|exact HQ]. destruct (bDumpBinaryResults _); quiet. }
  split; [by rewrite (quiet_NextVisibilityId _ _ HQ')|].
  split.
  { intros p c Hc. pose proof (quiet_VisibilityId _ _ HQ' p) as Hp. rewrite Hc in Hp.
    destruct (PrimitiveComponents stP.2 !! p) as [c0|] eqn:Hc0; [|done].
    cbn in Hp. injection Hp as ->. by eapply HV0. }
  exists esG. split; [done|].
  assert (HOP : FStaticLightingSystem.Options st2.1 = Options).
  { rewrite HO2. injection HR1 as R1 _. by rewrite R1. }
  rewrite HL, HOP.
  destruct (bDumpBinaryResults Options); cbn; rewrite ?HL2, HLG, HLP, HL0, ?app_nil_r;
    by rewrite <- ?app_assoc.
Qed.

Lemma BeginLightmassProcess_forced_witness :
  let g := ExampleGlobals true in
  let st' := ExampleForced.2 in
  ExampleForced.1 = false
  ∧ FStaticLightingSystem.Meshes st'.1 = []
  ∧ FStaticLightingSystem.Mappings st'.1 = []
  ∧ FStaticLightingSystem.UnSortedMappings st'.1 = []
  ∧ MeshObjects st'.2 = MeshObjects g
  ∧ MappingObjects st'.2 = MappingObjects g
  ∧ FStaticLightingSystem.LightmassProcessor st'.1 = None
  ∧ FStaticLightingSystem.NextVisibilityId st'.1 = 0
  ∧ (∀ p c, PrimitiveComponents st'.2 !! p = Some c →
            UPrimitiveComponent.VisibilityId c = INDEX_NONE)
  ∧ ∃ es,
      Forall (λ e, GatherEvent e = true) es
      ∧ Log st'.2
        = Log g ++ es
          ++ (if bDumpBinaryResults (ExampleOptions false) then [ClearBinaryDumps] else [])
          ++ [InvalidateStaticLighting; ApplyNewLightingData true].
Proof.
  apply (BeginLightmassProcess_forced NoStaticLightingEnv (ExampleOptions false)
           (ExampleGlobals true)); vm_compute; reflexivity.
Defined.

(** ** The lights of a build *)

(** The lights of the system once [BeginLightmassProcess] returns are the
    light components that are in the world, affect it and have static
    shadowing or static lighting, in the order of the object iterator; a
    visibility-only build takes no light.  Nothing after the preparation
    of the lights changes the list. *)
Theorem BeginLightmassProcess_Lights env Options g b st' :
  BeginLightmassProcess env (FStaticLightingSystem.ctor Options, g) = Some (b, st') →
  FStaticLightingSystem.Lights st'.1
  = if bOnlyBuildVisibility Options then []
    else filter (λ Light, IsBuildLight Light = true) (LightComponents g).
Proof.
  intros E.
  destruct (BeginLightmassProcess_spec _ _ _ _ _ E eq_refl)
    as (_ & _ & _ & _ & _ & _ & _ & HL & _).
  rewrite HL. unfold BeginLightmassProcess_PrepareLights. cbn.
  by destruct (bOnlyBuildVisibility Options).
Qed.

Lemma BeginLightmassProcess_Lights_witness :
  FStaticLightingSystem.Lights (ExampleBegun true).2.1
  = if bOnlyBuildVisibility (ExampleOptions false) then []
    else filter (λ Light, IsBuildLight Light = true) (LightComponents (ExampleGlobals true)).
Proof.
  apply (BeginLightmassProcess_Lights QuietEnv (ExampleOptions false) (ExampleGlobals true)
           (ExampleBegun true).1).
  vm_compute. reflexivity.
Defined.

(** ** The verification of the deterministic indices *)

Lemma DeterministicGuidInError_index i n :
  (i < n)%nat → Z.of_nat n < 2 ^ 32 → DeterministicGuidInError (DeterministicGuid i) n = false.
Proof.
  intros Hi Hn. unfold DeterministicGuidInError, DeterministicGuid. cbn.
  rewrite uint32_cast_small by lia. apply Z.leb_gt. lia.
Qed.

(** The verification logs nothing when every flagged mapping has a mesh
    whose Guid is an index below the number of mappings. *)
Lemma BeginLightmassProcess_Verify_passes n Mappings g :
  Z.of_nat n < 2 ^ 32 →
  Forall (λ p, ∃ q, MappingMesh g p = Some q ∧ is_Some (MeshObjects g !! q)) Mappings →
  (∀ p, p ∈ Mappings → IsProcessMapping g p = true →
        ∃ i, MappingGuid g p = Some (DeterministicGuid i) ∧ (i < n)%nat) →
  BeginLightmassProcess_Verify n Mappings g = Some g.
Proof.
  intros Hn. induction 1 as [|p ps (q & Hq & [msh Hmsh]) _ IH]; intros HG; [done|].
  cbn [BeginLightmassProcess_Verify]. unfold MappingMesh in Hq.
  destruct (MappingObjects g !! p) as [cm|] eqn:Hcm; [|done]. cbn in Hq.
  cbn [mbind option_bind].
  destruct (bProcessMapping cm) eqn:Hpm.
  - rewrite Hq. cbn [mbind option_bind]. rewrite Hmsh. cbn [mbind option_bind].
    destruct (HG p) as (i & Hi & Hlt); [left| |].
    { unfold IsProcessMapping. by rewrite Hcm. }
    unfold MappingGuid, MappingMesh in Hi. rewrite Hcm in Hi. cbn in Hi. rewrite Hq in Hi.
    cbn in Hi. rewrite Hmsh in Hi. cbn in Hi. injection Hi as ->.
    rewrite DeterministicGuidInError_index by done.
    apply IH. intros p' Hp'. apply HG. by right.
  - cbn [mbind option_bind]. apply IH. intros p' Hp'. apply HG. by right.
Qed.

Lemma DeterministicInv_Verify st :
  DeterministicInv [] st →
  Z.of_nat (length (FStaticLightingSystem.Mappings st.1)) < 2 ^ 31 →
  BeginLightmassProcess_Verify (length (FStaticLightingSystem.Mappings st.1))
    (FStaticLightingSystem.Mappings st.1) st.2 = Some st.2.
Proof.
  intros [Hm _ Hidx Hg] Hbound. rewrite app_nil_r in Hm.
  apply BeginLightmassProcess_Verify_passes; [lia|done|].
  intros p Hp Hpm.
  assert (Hin : p ∈ ProcessedMappings st) by (by apply list_elem_of_filter).
  apply (list_elem_of_fmap_2 (MappingGuid st.2)) in Hin. rewrite Hg in Hin.
  apply list_elem_of_fmap in Hin as (i & Hi & Hin). apply elem_of_seq in Hin.
  exists i. split; [done|].
  apply (f_equal length) in Hg. rewrite !length_fmap, length_seq in Hg.
  pose proof (length_filter (λ MappingPtr, IsProcessMapping st.2 MappingPtr = true)
                (FStaticLightingSystem.Mappings st.1)) as Hle.
  unfold ProcessedMappings in Hg. lia.
Qed.

Lemma ProcessCalls_no_error env Options g Meshes Mappings p :
  DeterministicLightingError p ∉ ProcessCalls env Options g Meshes Mappings.
Proof.
  unfold ProcessCalls.
  repeat match goal with |- context [if ?b then _ else _] => destruct b end;
    try destruct (CrashTracker env);
    rewrite ?elem_of_app, ?elem_of_cons, ?elem_of_nil, ?list_elem_of_fmap;
    intros H; repeat destruct H as [H|H]; try done;
    try (by destruct H as (? & ? & ?)).
Qed.

(** In a build of a scene whose components pair their meshes and mappings
    one to one, with fewer than 2^31 mappings, the verification of the
    deterministic lighting setup finds nothing to report: no call of
    [BeginLightmassProcess] is the warning of an error in deterministic
    lighting. *)
Theorem BeginLightmassProcess_Verify_finds_nothing env Options g b st' :
  StoreWellPaired g = true →
  BeginLightmassProcess env (FStaticLightingSystem.ctor Options, g) = Some (b, st') →
  Z.of_nat (length (FStaticLightingSystem.Mappings st'.1)) < 2 ^ 31 →
  ∃ es, Log st'.2 = Log g ++ es ∧ ∀ p, DeterministicLightingError p ∉ es.
Proof.
  intros HWF E Hbound.
  destruct (BeginLightmassProcess_collected _ _ _ _ _ E eq_refl)
    as (loc & st0 & st1' & E0 & E1 & HQ & HF' & HL0 & HL).
  apply BeginLightmassProcess_CollectStatScope_steps in E1
    as (st1 & st2 & g3 & E1 & E2 & E3 & ->).
  pose proof (GatherStaticLightingInfo_Calls _ _ _ _ E1) as [_ (esG & HLG & HesG)].
  pose proof (BeginLightmassProcess_SortMappings_silent _ _ E2) as [_ HL2]%Calls_NoEvent.
  assert (HM : FStaticLightingSystem.Mappings st'.1 = FStaticLightingSystem.Mappings st2.1).
  { by rewrite (same_Mappings _ _ (quiet_lighting _ _ HQ)). }
  assert (Hinv : DeterministicInv [] st2).
  { eapply BeginLightmassProcess_SortMappings_DeterministicInv; [|exact E2|by rewrite <- HM].
    eapply GatherStaticLightingInfo_GatherInv; [|exact E1].
    eapply GatherInv_frame; [apply quiet_lighting, BeginLightmassProcess_PrepareLights_Quiet|].
    eapply GatherInv_frame; [by eapply BeginLightmassProcess_StartupStatScope_SameLighting|].
    by apply GatherInv_ctor. }
  rewrite DeterministicInv_Verify in E3 by (done || by rewrite <- HM).
  injection E3 as <-.
  assert (HLP : Log (BeginLightmassProcess_PrepareLights st0).2 = Log st0.2).
  { unfold BeginLightmassProcess_PrepareLights. destruct st0 as [this0 g0].
    destruct (negb (bOnlyBuildVisibility _)); reflexivity. }
  eexists. split.
  - rewrite HL. cbn [fst snd].
    assert (HLd : Log (if bDumpBinaryResults (FStaticLightingSystem.Options st2.1)
                       then emit ClearBinaryDumps st2.2 else st2.2)
                  = Log st2.2 ++ (if bDumpBinaryResults (FStaticLightingSystem.Options st2.1)
                                  then [ClearBinaryDumps] else [])).
    { destruct (bDumpBinaryResults _); cbn; by rewrite ?app_nil_r. }
    rewrite HLd, HL2, HLG, HLP, HL0, <- !app_assoc. reflexivity.
  - intros p. rewrite !elem_of_app. intros [H|[H|[H|H]]].
    + destruct (_ || _); [by apply elem_of_nil in H|].
      by apply list_elem_of_singleton in H.
    + rewrite Forall_forall in HesG. by apply HesG in H.
    + destruct (bDumpBinaryResults _); [|by apply elem_of_nil in H].
      by apply list_elem_of_singleton in H.
    + by apply ProcessCalls_no_error in H.
Qed.

Lemma BeginLightmassProcess_Verify_finds_nothing_witness :
  ∃ es, Log (ExampleBegun false).2.2 = Log (ExampleGlobals false) ++ es
        ∧ ∀ p, DeterministicLightingError p ∉ es.
Proof.
  apply (BeginLightmassProcess_Verify_finds_nothing QuietEnv (ExampleOptions false)
           (ExampleGlobals false) (ExampleBegun false).1); vm_compute; reflexivity.
Defined.

(** * What the gather reports *)

(** ** The calls of the level loop *)

Ltac level_calls :=
  first
    [ apply Calls_refl
    | apply Calls_trans
    | by (intros; apply Calls_emit)
    | by (intros; eapply Calls_silent, EnqueueComponents_silent)
    | by (intros; eapply Calls_silent, GatherStaticLightingInfo_Component_silent)
    | by (intros; eapply Calls_silent, AddBSPStaticLightingInfo_NodeGroup_silent)
    | by (intros; eapply Calls_silent, AddBSPStaticLightingInfo_Selected_NodeGroup_silent) ].

Lemma GatherStaticLightingInfo_Actor_Calls bForce bLevel Actor loc st loc' st' :
  GatherStaticLightingInfo_Actor bForce bLevel Actor loc st = Some (loc', st') →
  Calls LevelEvent st st'.
Proof. apply (GatherStaticLightingInfo_Actor_relates bForce (Calls LevelEvent)); level_calls. Qed.

Lemma GatherStaticLightingInfo_Level_Calls bRebuild bForce Level bFound st bFound' st' :
  GatherStaticLightingInfo_Level bRebuild bForce Level bFound st = Some (bFound', st') →
  Calls LevelEvent st st'.
Proof. apply (GatherStaticLightingInfo_Level_relates bForce (Calls LevelEvent)); level_calls. Qed.

Lemma Calls_Options P st st' :
  Calls P st st' → FStaticLightingSystem.Options st'.1 = FStaticLightingSystem.Options st.1.
Proof. intros [H _]. unfold Rest in H. by injection H. Qed.

(** ** Whether objects to build lighting for were found *)

Lemma GatherStaticLightingInfo_Actors_found bForce Level Actors : ∀ loc st loc' st',
  GatherStaticLightingInfo_Actors bForce
    (ShouldBuildLightingForLevel (FStaticLightingSystem.Options st.1) Level) Actors loc st
  = Some (loc', st') →
  GatherLocals.bObjectsToBuildLightingForFound loc'
  = GatherLocals.bObjectsToBuildLightingForFound loc
    || existsb (λ Actor : option AActor,
                  match Actor with
                  | Some Actor =>
                      BuildsActorLighting (FStaticLightingSystem.Options st.1) Level Actor
                  | None => false
                  end) Actors.
Proof.
  induction Actors as [|Actor Actors IH]; intros loc st loc' st';
    cbn [GatherStaticLightingInfo_Actors existsb].
  - intros [= <- <-]. by rewrite orb_false_r.
  - destruct (GatherStaticLightingInfo_Actor _ _ _ _ _) as [[loc1 st1]|] eqn:E;
      cbn [mbind option_bind]; [|done].
    pose proof (Calls_Options _ _ _ (GatherStaticLightingInfo_Actor_Calls _ _ _ _ _ _ _ E)) as HO.
    cbn [fst] in HO. rewrite <- HO. intros ->%IH. rewrite HO, orb_assoc. f_equal.
    unfold GatherStaticLightingInfo_Actor in E. destruct Actor as [Actor|].
    + destruct st as [this g].
      destruct (if _ && negb _ then _ else _) as [g1|]; cbn [mbind option_bind] in E; [|done].
      destruct (GatherStaticLightingInfo_Components _ _ _ _ _) as [[bMark1 st2]|];
        cbn [mbind option_bind] in E; [|done].
      by injection E as <- <-.
    + injection E as <- <-. by rewrite orb_false_r.
Qed.

Lemma GatherStaticLightingInfo_Level_found bRebuild bForce Level bFound st bFound' st' :
  GatherStaticLightingInfo_Level bRebuild bForce Level bFound st = Some (bFound', st') →
  bFound'
  = bFound || LevelObjectsToBuildLightingFor (FStaticLightingSystem.Options st.1) bForce Level.
Proof.
  unfold GatherStaticLightingInfo_Level, LevelObjectsToBuildLightingFor. destruct st as [this g].
  cbv zeta. cbn [fst].
  set (Options := FStaticLightingSystem.Options this).
  set (g1 := if bGeometryDirtyForLighting Level then _ else g). clearbody g1.
  set (bSelectedBSP := ShouldBuildLightingForLevel Options Level && _ && _).
  set (g2 := if bSelectedBSP then emit _ g1 else g1). clearbody g2.
  set (NodeGroupsToBuild := if bSelectedBSP then SelectedNodeGroups Level else []).
  set (bBuildBSPLighting := if bSelectedBSP then _ else _).
  destruct (if bBuildBSPLighting && negb bForce then _ else _) as [[bFound1 st1]|] eqn:E;
    cbn [mbind option_bind]; [|done].
  assert (H1 : bFound1 = bFound || (bSelectedBSP && bool_decide (SelectedNodeGroups Level ≠ [])
                                    && negb bForce)
               ∧ FStaticLightingSystem.Options st1.1 = Options).
  { subst bBuildBSPLighting NodeGroupsToBuild.
    destruct bSelectedBSP eqn:ES.
    - subst bSelectedBSP. apply andb_true_iff in ES as [[_ HV%negb_true_iff]%andb_true_iff HS].
      rewrite HS, HV in E. cbn [negb orb andb] in E |- *.
      destruct (SelectedNodeGroups Level) as [|NodeGroup NodeGroups] eqn:EN.
      + rewrite bool_decide_eq_false_2 in E by (intros H; by apply H).
        rewrite bool_decide_eq_false_2 by (intros H; by apply H).
        cbn [andb] in E. injection E as <- <-. by rewrite orb_false_r.
      + rewrite bool_decide_eq_true_2 in E by done.
        rewrite bool_decide_eq_true_2 by done. cbn [andb] in E |- *.
        destruct bForce; cbn [negb] in E |- *.
        * injection E as <- <-. by rewrite orb_false_r.
        * rewrite bool_decide_eq_true_2 in E by (cbn; lia).
          destruct (AddBSPStaticLightingInfo_Selected _ _ _) as [st2|] eqn:E2;
            cbn [mbind option_bind] in E; [|done].
          injection E as <- <-. split; [by rewrite orb_true_r|].
          eapply (Calls_Options LevelEvent (this, g2)).
          apply (AddBSPStaticLightingInfo_Selected_relates false (Calls LevelEvent)) in E2;
            [done|level_calls..|done].
    - cbn [andb]. rewrite orb_false_r.
      destruct (ShouldBuildLightingForLevel Options Level && negb bForce) eqn:EB;
        [|injection E as <- <-; done].
      destruct (negb (bOnlyBuildSelected Options) || bOnlyBuildVisibility Options).
      + destruct (AddBSPStaticLightingInfo _ _ _) as [st2|] eqn:E2;
          cbn [mbind option_bind] in E; [|done].
        injection E as <- <-. split; [done|].
        apply andb_true_iff in EB as [_ HF%negb_true_iff]. subst bForce.
        eapply (Calls_Options LevelEvent (this, g2)).
        apply (AddBSPStaticLightingInfo_relates false (Calls LevelEvent)) in E2;
          [done|level_calls..|done].
      + rewrite bool_decide_eq_false_2 in E by (cbn; lia). by injection E as <- <-. }
  destruct H1 as [-> HO]. clear E.
  destruct (GatherStaticLightingInfo_Actors _ _ _ _ _) as [[loc1 st2]|] eqn:E;
    cbn [mbind option_bind]; [|done].
  rewrite <- HO in E. apply GatherStaticLightingInfo_Actors_found in E.
  intros [= <- <-]. rewrite E. cbn [GatherLocals.bObjectsToBuildLightingForFound].
  rewrite HO. subst bSelectedBSP. by rewrite orb_assoc.
Qed.

Lemma GatherStaticLightingInfo_Levels_found bRebuild bForce Levels : ∀ bFound st bFound' st',
  GatherStaticLightingInfo_Levels bRebuild bForce Levels bFound st = Some (bFound', st') →
  Calls LevelEvent st st'
  ∧ bFound'
    = bFound || existsb (LevelObjectsToBuildLightingFor (FStaticLightingSystem.Options st.1)
                           bForce) Levels.
Proof.
  induction Levels as [|Level Levels IH]; intros bFound st bFound' st';
    cbn [GatherStaticLightingInfo_Levels existsb].
  - intros [= <- <-]. split; [apply Calls_refl|by rewrite orb_false_r].
  - destruct (GatherStaticLightingInfo_Level _ _ _ _ _) as [[bFound1 st1]|] eqn:E;
      cbn [mbind option_bind]; [|done].
    pose proof (GatherStaticLightingInfo_Level_Calls _ _ _ _ _ _ _ E) as HC.
    apply GatherStaticLightingInfo_Level_found in E as ->.
    intros [HC' ->]%IH. split; [by eapply Calls_trans|].
    by rewrite (Calls_Options _ _ _ HC), orb_assoc.
Qed.

(** The calls of the gather are those of the level loop, and after them,
    in a build of the selection only, the warning that the build is of the
    selection, followed by the error that nothing is selected exactly when
    no level had a selected node group to add or an actor whose lighting
    is built. *)
Theorem GatherStaticLightingInfo_messages bRebuild bForce st st' :
  GatherStaticLightingInfo bRebuild bForce st = Some st' →
  ∃ es,
    Forall (λ e, LevelEvent e = true) es
    ∧ Log st'.2
      = Log st.2 ++ es
        ++ SelectedMessages (FStaticLightingSystem.Options st.1) bForce (GWorld st.2).
Proof.
  unfold GatherStaticLightingInfo, SelectedMessages.
  destruct (GatherStaticLightingInfo_Levels _ _ _ _ _) as [[bFound1 st1]|] eqn:E;
    cbn [mbind option_bind]; [|done].
  apply GatherStaticLightingInfo_Levels_found in E as [HC ->].
  pose proof (Calls_Options _ _ _ HC) as HO. destruct HC as [_ (es & HL & Hes)].
  intros [= <-]. exists es. split; [done|]. rewrite HO. cbn [orb].
  destruct (bOnlyBuildSelected _); [|by rewrite app_nil_r].
  destruct (existsb _ _); cbn; rewrite HL, <- ?app_assoc; done.
Qed.

Lemma GatherStaticLightingInfo_messages_witness :
  let st' := default ExampleSelected (GatherStaticLightingInfo true false ExampleSelected) in
  ∃ es,
    Forall (λ e, LevelEvent e = true) es
    ∧ Log st'.2
      = Log ExampleSelected.2 ++ es
        ++ SelectedMessages (FStaticLightingSystem.Options ExampleSelected.1) false
             (GWorld ExampleSelected.2).
Proof.
  apply (GatherStaticLightingInfo_messages true false ExampleSelected).
  vm_compute. reflexivity.
Defined.

(** * Scenes that stop the gather *)

(** ** The gather leaves its inputs alone *)

Section ComponentFields.
Context {F : Type} (f : UPrimitiveComponent.t → F).
Hypothesis f_VisibilityId : ∀ Id c, f (UPrimitiveComponent.set_VisibilityId Id c) = f c.

Lemma SameField_refl g : SameField f g g.
Proof. by split. Qed.

Lemma SameField_trans g1 g2 g3 : SameField f g1 g2 → SameField f g2 g3 → SameField f g1 g3.
Proof. intros [H1 H2] [H3 H4]. split; [congruence|]. intros p. by rewrite H4, H2. Qed.

Lemma SameField_components g g' :
  GWorld g' = GWorld g → PrimitiveComponents g' = PrimitiveComponents g → SameField f g g'.
Proof. intros H1 H2. split; [done|]. by rewrite H2. Qed.

Lemma SameField_insert g p c c' :
  PrimitiveComponents g !! p = Some c → f c' = f c →
  SameField f g (set_PrimitiveComponents (<[p := c']> (PrimitiveComponents g)) g).
Proof.
  intros Hp Hc. split; [done|]. cbn [PrimitiveComponents set_PrimitiveComponents].
  by apply (insert_same_field _ _ _ c).
Qed.

Lemma GatherStaticLightingInfo_Component_SameField bForce bBuild p bMark st bMark' st' :
  GatherStaticLightingInfo_Component bForce bBuild p bMark st = Some (bMark', st') →
  SameField f st.2 st'.2.
Proof.
  unfold GatherStaticLightingInfo_Component. destruct st as [this g]. cbn [fst snd].
  destruct (PrimitiveComponents g !! p) as [c|] eqn:Hc; cbn [mbind option_bind]; [|done].
  destruct (UPrimitiveComponent.IsRegistered c && negb bForce).
  2:{ intros [= <- <-]. apply SameField_refl. }
  destruct (GetStaticLightingInfo c g) as [info g0] eqn:EQ.
  apply GetStaticLightingInfo_spec in EQ as (MH0 & PH0 & -> & _).
  destruct (GetsVisibilityId info c).
  - destruct (AddPrimitiveStaticLightingInfo _ _ _) as [st1|] eqn:E;
      cbn [mbind option_bind]; [|done].
    intros [= <- <-]. apply AddPrimitiveStaticLightingInfo_SameVisibility in E as (E1 & _ & E3).
    cbn [fst snd] in *. sys_simpl in E1. sys_simpl in E3.
    split; [done|]. rewrite E1. by apply (insert_same_field _ _ _ c).
  - destruct (AddPrimitiveStaticLightingInfo _ _ _) as [st1|] eqn:E;
      cbn [mbind option_bind]; [|done].
    intros [= <- <-]. apply AddPrimitiveStaticLightingInfo_SameVisibility in E as (E1 & _ & E3).
    cbn [fst snd] in *. sys_simpl in E1. sys_simpl in E3.
    split; [done|]. by rewrite E1.
Qed.

Lemma AddBSPStaticLightingInfo_Nodes_SameField Level Nodes : ∀ Ids bMark st Ids' bMark' st',
  AddBSPStaticLightingInfo_Nodes Level Nodes Ids bMark st = Some (Ids', bMark', st') →
  SameField f st.2 st'.2.
Proof.
  induction Nodes as [|n Nodes IH]; intros Ids bMark [this g] Ids' bMark' st';
    cbn [AddBSPStaticLightingInfo_Nodes].
  - intros [= <- <- <-]. apply SameField_refl.
  - destruct (NodeComponent Level n) as [cp|]; cbn [mbind option_bind]; [|done].
    destruct (PrimitiveComponents g !! cp) as [c|] eqn:Hc; cbn [mbind option_bind]; [|done].
    case_bool_decide.
    + intros E%IH. eapply SameField_trans; [|exact E]. by apply (SameField_insert _ _ c).
    + apply IH.
Qed.

(** Steps that write neither the components nor the world. *)
Lemma UpdateMesh_components q h g g' :
  UpdateMesh q h g = Some g' →
  GWorld g' = GWorld g ∧ PrimitiveComponents g' = PrimitiveComponents g.
Proof. by intros (m & _ & ->)%UpdateMesh_Some. Qed.

Lemma UpdateMapping_components p h g g' :
  UpdateMapping p h g = Some g' →
  GWorld g' = GWorld g ∧ PrimitiveComponents g' = PrimitiveComponents g.
Proof. by intros (m & _ & ->)%UpdateMapping_Some. Qed.

Lemma AssignDeterministicGuid_components q st st' :
  AssignDeterministicGuid q st = Some st' →
  GWorld st'.2 = GWorld st.2 ∧ PrimitiveComponents st'.2 = PrimitiveComponents st.2.
Proof. destruct st as [this g]. by intros (m & _ & ->)%AssignDeterministicGuid_Some. Qed.

Lemma AddMapping_components p st st' :
  AddMapping p st = Some st' →
  GWorld st'.2 = GWorld st.2 ∧ PrimitiveComponents st'.2 = PrimitiveComponents st.2.
Proof. destruct st as [this g]. by intros (hs & -> & _)%AddMapping_Some. Qed.

Lemma NewBSPSurfaceStaticLighting_components NodeGroup g q p g' :
  NewBSPSurfaceStaticLighting NodeGroup g = (q, p, g') →
  GWorld g' = GWorld g ∧ PrimitiveComponents g' = PrimitiveComponents g.
Proof. unfold NewBSPSurfaceStaticLighting, alloc. by intros [= <- <- <-]. Qed.

Lemma AddBSPStaticLightingInfo_NodeGroup_SameField Level b NodeGroup bMark st bMark' st' :
  AddBSPStaticLightingInfo_NodeGroup Level b NodeGroup bMark st = Some (bMark', st') →
  SameField f st.2 st'.2.
Proof.
  unfold AddBSPStaticLightingInfo_NodeGroup.
  destruct (FNodeGroup.Nodes NodeGroup) as [|n0 ns] eqn:En.
  { intros [= <- <-]. apply SameField_refl. }
  destruct (NodeComponent Level n0) as [cp|]; cbn [mbind option_bind]; [|done].
  destruct (AddBSPStaticLightingInfo_Nodes _ _ _ _ _) as [[[Ids bMark1] [this1 g1]]|] eqn:E1;
    cbn [mbind option_bind]; [|done].
  apply AddBSPStaticLightingInfo_Nodes_SameField in E1.
  cbn [fst snd] in *.
  destruct (NewBSPSurfaceStaticLighting NodeGroup g1) as [[q p] g2] eqn:E2.
  apply NewBSPSurfaceStaticLighting_components in E2 as [W2 C2].
  destruct (UpdateMesh q _ g2) as [g3|] eqn:E3; cbn [mbind option_bind]; [|done].
  apply UpdateMesh_components in E3 as [W3 C3].
  destruct (AddMapping p _) as [st4|] eqn:E4; cbn [mbind option_bind]; [|done].
  apply AddMapping_components in E4 as [W4 C4]. cbn [fst snd AddMesh] in W4, C4.
  destruct (if negb _ && b then _ else _) as [st5|] eqn:E5; cbn [mbind option_bind]; [|done].
  destruct (if b then _ else _) as [g6|] eqn:E6; cbn [mbind option_bind]; [|done].
  intros [= <- <-]. cbn [snd].
  assert (H5 : GWorld st5.2 = GWorld st4.2
               ∧ PrimitiveComponents st5.2 = PrimitiveComponents st4.2).
  { destruct (negb _ && b).
    - destruct (MappingObjects st4.2 !! p) as [m|]; cbn [mbind option_bind] in E5; [|done].
      destruct (Mesh m) as [q'|]; cbn [mbind option_bind] in E5; [|done].
      by eapply AssignDeterministicGuid_components.
    - by injection E5 as <-. }
  destruct H5 as [W5 C5].
  assert (H6 : GWorld g6 = GWorld st5.2 ∧ PrimitiveComponents g6 = PrimitiveComponents st5.2).
  { destruct b.
    - by eapply UpdateMapping_components.
    - by injection E6 as <-. }
  destruct H6 as [W6 C6].
  eapply SameField_trans; [exact E1|]. apply SameField_components; congruence.
Qed.

Lemma AddBSPStaticLightingInfo_Selected_NodeGroup_SameField Level NodeGroup st st' :
  AddBSPStaticLightingInfo_Selected_NodeGroup Level NodeGroup st = Some st' →
  SameField f st.2 st'.2.
Proof.
  unfold AddBSPStaticLightingInfo_Selected_NodeGroup.
  destruct NodeGroup as [NodeGroup|]; [|intros [= <-]; apply SameField_refl].
  destruct (FNodeGroup.Nodes NodeGroup) as [|n0 ns] eqn:En.
  { intros [= <-]. apply SameField_refl. }
  destruct (NodeComponent Level n0) as [cp|]; cbn [mbind option_bind]; [|done].
  destruct (mapM _ _) as [nodes|]; cbn [mbind option_bind]; [|done].
  destruct st as [this g]. cbn [fst snd].
  destruct (NewBSPSurfaceStaticLighting NodeGroup g) as [[q p] g2] eqn:E2.
  apply NewBSPSurfaceStaticLighting_components in E2 as [W2 C2].
  destruct (AddMapping p _) as [st4|] eqn:E4; cbn [mbind option_bind]; [|done].
  apply AddMapping_components in E4 as [W4 C4]. cbn [fst snd AddMesh] in W4, C4.
  destruct (if negb _ then _ else _) as [st5|] eqn:E5; cbn [mbind option_bind]; [|done].
  destruct (UpdateMapping p _ _) as [g6|] eqn:E6; cbn [mbind option_bind]; [|done].
  apply UpdateMapping_components in E6 as [W6 C6].
  intros [= <-]. cbn [snd].
  assert (H5 : GWorld st5.2 = GWorld st4.2
               ∧ PrimitiveComponents st5.2 = PrimitiveComponents st4.2).
  { destruct (negb _).
    - destruct (MappingObjects st4.2 !! p) as [m|]; cbn [mbind option_bind] in E5; [|done].
      destruct (Mesh m) as [q'|]; cbn [mbind option_bind] in E5; [|done].
      by eapply AssignDeterministicGuid_components.
    - by injection E5 as <-. }
  destruct H5 as [W5 C5]. apply SameField_components; congruence.
Qed.

End ComponentFields.

Lemma SameInputs_refl g : SameInputs g g.
Proof. apply SameField_refl. Qed.

Lemma SameInputs_trans g1 g2 g3 : SameInputs g1 g2 → SameInputs g2 g3 → SameInputs g1 g3.
Proof. apply SameField_trans. Qed.

Lemma SameInputs_components g g' :
  GWorld g' = GWorld g → PrimitiveComponents g' = PrimitiveComponents g → SameInputs g g'.
Proof. apply SameField_components. Qed.

Lemma SameInputs_insert g p c c' :
  PrimitiveComponents g !! p = Some c → ComponentInputs c' = ComponentInputs c →
  SameInputs g (set_PrimitiveComponents (<[p := c']> (PrimitiveComponents g)) g).
Proof. apply SameField_insert. Qed.

Lemma EnqueueComponents_SameInputs Components : ∀ g g',
  EnqueueComponents Components g = Some g' → SameInputs g g'.
Proof.
  induction Components as [|p Components IH]; intros g g'; cbn [EnqueueComponents].
  - intros [= <-]. apply SameInputs_refl.
  - destruct (PrimitiveComponents g !! p) as [c|] eqn:Hc; cbn [mbind option_bind]; [|done].
    intros E%IH. eapply SameInputs_trans; [|exact E]. by apply (SameInputs_insert _ _ c).
Qed.

Ltac gather_inputs :=
  first
    [ by (intros; apply SameInputs_refl)
    | by (intros; apply SameInputs_components)
    | by (intros ???; apply SameInputs_trans)
    | by (intros; eapply EnqueueComponents_SameInputs)
    | by (intros; eapply (GatherStaticLightingInfo_Component_SameField ComponentInputs))
    | by (intros; eapply (AddBSPStaticLightingInfo_NodeGroup_SameField ComponentInputs))
    | by (intros; eapply (AddBSPStaticLightingInfo_Selected_NodeGroup_SameField
                            ComponentInputs)) ].

Lemma GatherStaticLightingInfo_Component_SameInputs bForce bBuild p bMark st bMark' st' :
  GatherStaticLightingInfo_Component bForce bBuild p bMark st = Some (bMark', st') →
  SameInputs st.2 st'.2.
Proof. by apply GatherStaticLightingInfo_Component_SameField. Qed.

Lemma AddBSPStaticLightingInfo_NodeGroup_SameInputs Level b NodeGroup bMark st bMark' st' :
  AddBSPStaticLightingInfo_NodeGroup Level b NodeGroup bMark st = Some (bMark', st') →
  SameInputs st.2 st'.2.
Proof. by apply AddBSPStaticLightingInfo_NodeGroup_SameField. Qed.

Lemma AddBSPStaticLightingInfo_Selected_NodeGroup_SameInputs Level NodeGroup st st' :
  AddBSPStaticLightingInfo_Selected_NodeGroup Level NodeGroup st = Some st' →
  SameInputs st.2 st'.2.
Proof. by apply AddBSPStaticLightingInfo_Selected_NodeGroup_SameField. Qed.

Lemma GatherStaticLightingInfo_Actor_SameInputs bForce bLevel Actor loc st loc' st' :
  GatherStaticLightingInfo_Actor bForce bLevel Actor loc st = Some (loc', st') →
  SameInputs st.2 st'.2.
Proof.
  apply (GatherStaticLightingInfo_Actor_relates bForce (λ st st', SameInputs st.2 st'.2));
    gather_inputs.
Qed.

Lemma GatherStaticLightingInfo_Level_SameInputs bRebuild bForce Level bFound st bFound' st' :
  GatherStaticLightingInfo_Level bRebuild bForce Level bFound st = Some (bFound', st') →
  SameInputs st.2 st'.2.
Proof.
  apply (GatherStaticLightingInfo_Level_relates bForce (λ st st', SameInputs st.2 st'.2));
    gather_inputs.
Qed.

Lemma GatherStaticLightingInfo_SameInputs bRebuild bForce st st' :
  GatherStaticLightingInfo bRebuild bForce st = Some st' → SameInputs st.2 st'.2.
Proof.
  apply (GatherStaticLightingInfo_relates bForce (λ st st', SameInputs st.2 st'.2));
    gather_inputs.
Qed.

(** ** What the test of a component depends on *)

Lemma SameInputs_is_Some g g' p :
  SameInputs g g' →
  is_Some (PrimitiveComponents g' !! p) ↔ is_Some (PrimitiveComponents g !! p).
Proof. intros [_ H]. rewrite <- !(fmap_is_Some ComponentInputs). by rewrite H. Qed.

Lemma ComponentGathers_SameInputs bForce g g' p :
  SameInputs g g' → ComponentGathers bForce g' p = ComponentGathers bForce g p.
Proof.
  intros [_ H]. specialize (H p). unfold ComponentGathers.
  destruct (PrimitiveComponents g' !! p) as [c'|], (PrimitiveComponents g !! p) as [c|];
    try done.
  by injection H as -> _ -> ->.
Qed.

Lemma forallb_ext_in {A} (f f' : A → bool) (l : list A) :
  (∀ x, f' x = f x) → forallb f' l = forallb f l.
Proof. intros H. induction l as [|x l IH]; [done|]. cbn [forallb]. by rewrite H, IH. Qed.

Lemma AddBSPStaticLightingInfo_SameInputs Level b st st' :
  AddBSPStaticLightingInfo Level b st = Some st' → SameInputs st.2 st'.2.
Proof.
  intros E.
  by apply (AddBSPStaticLightingInfo_relates false (λ st st', SameInputs st.2 st'.2)) in E;
    [|gather_inputs..|].
Qed.

Lemma AddBSPStaticLightingInfo_Selected_SameInputs Level NodeGroups st st' :
  AddBSPStaticLightingInfo_Selected Level NodeGroups st = Some st' → SameInputs st.2 st'.2.
Proof.
  intros E.
  by apply (AddBSPStaticLightingInfo_Selected_relates false (λ st st', SameInputs st.2 st'.2))
    in E; [|gather_inputs..|].
Qed.

(** ** Components that stop it *)

Lemma GatherStaticLightingInfo_Component_needs bForce bBuild p bMark st r :
  GatherStaticLightingInfo_Component bForce bBuild p bMark st = Some r →
  ComponentGathers bForce st.2 p = true.
Proof.
  destruct st as [this g]. unfold ComponentGathers, GatherStaticLightingInfo_Component.
  cbn [fst snd].
  destruct (PrimitiveComponents g !! p) as [c|] eqn:Hc; cbn [mbind option_bind]; [|done].
  destruct (UPrimitiveComponent.IsRegistered c && negb bForce); cbn [negb orb]; [|done].
  destruct (GetStaticLightingInfo c g) as [info g0] eqn:EQ.
  apply GetStaticLightingInfo_spec in EQ as (MH0 & PH0 & -> & _ & Hl1 & Hl2 & _).
  intros E. apply bool_decide_eq_true. rewrite <- Hl1, <- Hl2.
  destruct (GetsVisibilityId info c);
    destruct (AddPrimitiveStaticLightingInfo _ _ _) as [st1|] eqn:E1;
    cbn [mbind option_bind] in E; try done;
    unfold AddPrimitiveStaticLightingInfo in E1; case_bool_decide; done.
Qed.

Lemma GatherStaticLightingInfo_Components_needs bForce bBuild Components : ∀ bMark st r,
  GatherStaticLightingInfo_Components bForce bBuild Components bMark st = Some r →
  forallb (ComponentGathers bForce st.2) Components = true.
Proof.
  induction Components as [|p Components IH]; intros bMark st r;
    cbn [GatherStaticLightingInfo_Components forallb]; [done|].
  destruct (GatherStaticLightingInfo_Component _ _ _ _ _) as [[bMark1 st1]|] eqn:E;
    cbn [mbind option_bind]; [|done].
  intros E'%IH. apply andb_true_iff. split.
  - by eapply GatherStaticLightingInfo_Component_needs.
  - apply GatherStaticLightingInfo_Component_SameInputs in E.
    rewrite <- E'. apply forallb_ext_in. intros p'. symmetry.
    by apply ComponentGathers_SameInputs.
Qed.

Lemma GatherStaticLightingInfo_Actor_needs bForce bLevel Actor loc st r :
  GatherStaticLightingInfo_Actor bForce bLevel Actor loc st = Some r →
  match Actor with
  | Some Actor => forallb (ComponentGathers bForce st.2) (Components Actor)
  | None => true
  end = true.
Proof.
  unfold GatherStaticLightingInfo_Actor. destruct Actor as [Actor|]; [|done].
  destruct st as [this g]. cbn [fst snd].
  set (bBuild := bLevel && _).
  assert (Hg : ∀ g1,
    (if bBuild && negb (bOnlyBuildVisibility (FStaticLightingSystem.Options this))
     then EnqueueComponents (Components Actor) g else Some g) = Some g1 → SameInputs g g1).
  { intros g1. destruct (bBuild && _).
    - apply EnqueueComponents_SameInputs.
    - intros [= <-]. apply SameInputs_refl. }
  destruct (if bBuild && _ then _ else _) as [g1|]; cbn [mbind option_bind]; [|done].
  specialize (Hg g1 eq_refl).
  destruct (GatherStaticLightingInfo_Components _ _ _ _ _) as [[bMark1 st2]|] eqn:E2;
    cbn [mbind option_bind]; [|done].
  intros _. apply GatherStaticLightingInfo_Components_needs in E2. cbn [snd] in E2.
  rewrite <- E2. apply forallb_ext_in. intros p'. symmetry.
  by apply ComponentGathers_SameInputs.
Qed.

Lemma GatherStaticLightingInfo_Actors_needs bForce bLevel Actors : ∀ loc st r,
  GatherStaticLightingInfo_Actors bForce bLevel Actors loc st = Some r →
  forallb (λ Actor : option AActor,
             match Actor with
             | Some Actor => forallb (ComponentGathers bForce st.2) (Components Actor)
             | None => true
             end) Actors = true.
Proof.
  induction Actors as [|Actor Actors IH]; intros loc st r;
    cbn [GatherStaticLightingInfo_Actors forallb]; [done|].
  destruct (GatherStaticLightingInfo_Actor _ _ _ _ _) as [[loc1 st1]|] eqn:E;
    cbn [mbind option_bind]; [|done].
  intros E'%IH. apply andb_true_iff. split.
  - by eapply GatherStaticLightingInfo_Actor_needs.
  - apply GatherStaticLightingInfo_Actor_SameInputs in E.
    rewrite <- E'. apply forallb_ext_in. intros [A|]; [|done].
    apply forallb_ext_in. intros p'. symmetry. by apply ComponentGathers_SameInputs.
Qed.

Lemma GatherStaticLightingInfo_Level_needs bRebuild bForce Level bFound st r :
  GatherStaticLightingInfo_Level bRebuild bForce Level bFound st = Some r →
  forallb (λ Actor : option AActor,
             match Actor with
             | Some Actor => forallb (ComponentGathers bForce st.2) (Components Actor)
             | None => true
             end) (Actors Level) = true.
Proof.
  unfold GatherStaticLightingInfo_Level. destruct st as [this g]. cbv zeta. cbn [fst snd].
  set (Options := FStaticLightingSystem.Options this).
  set (g1 := if bGeometryDirtyForLighting Level then _ else g).
  assert (H1 : SameInputs g g1).
  { subst g1. destruct (bGeometryDirtyForLighting Level); [destruct bRebuild|];
      by apply SameInputs_components. }
  clearbody g1.
  set (bSelectedBSP := ShouldBuildLightingForLevel Options Level && _ && _).
  set (g2 := if bSelectedBSP then emit _ g1 else g1).
  assert (H2 : SameInputs g g2).
  { eapply SameInputs_trans; [exact H1|]. subst g2.
    destruct bSelectedBSP; by apply SameInputs_components. }
  clearbody g2. clear H1.
  set (NodeGroupsToBuild := if bSelectedBSP then SelectedNodeGroups Level else []).
  set (bBuildBSPLighting := if bSelectedBSP then _ else _).
  destruct (if bBuildBSPLighting && negb bForce then _ else _) as [[bFound1 st1]|] eqn:E;
    cbn [mbind option_bind]; [|done].
  assert (H3 : SameInputs g st1.2).
  { eapply SameInputs_trans; [exact H2|].
    destruct (bBuildBSPLighting && negb bForce).
    - destruct (negb (bOnlyBuildSelected Options) || bOnlyBuildVisibility Options).
      + destruct (AddBSPStaticLightingInfo _ _ _) as [st2|] eqn:E2;
          cbn [mbind option_bind] in E; [|done].
        injection E as <- <-. by apply AddBSPStaticLightingInfo_SameInputs in E2.
      + case_bool_decide.
        * destruct (AddBSPStaticLightingInfo_Selected _ _ _) as [st2|] eqn:E2;
            cbn [mbind option_bind] in E; [|done].
          injection E as <- <-. by apply AddBSPStaticLightingInfo_Selected_SameInputs in E2.
        * injection E as <- <-. apply SameInputs_refl.
    - injection E as <- <-. apply SameInputs_refl. }
  clear E.
  destruct (GatherStaticLightingInfo_Actors _ _ _ _ _) as [[loc1 st2]|] eqn:E;
    cbn [mbind option_bind]; [|done].
  intros _. apply GatherStaticLightingInfo_Actors_needs in E.
  rewrite <- E. apply forallb_ext_in. intros [A|]; [|done].
  apply forallb_ext_in. intros p'. symmetry. by apply ComponentGathers_SameInputs.
Qed.

Lemma GatherStaticLightingInfo_Levels_needs bRebuild bForce Levels : ∀ bFound st r,
  GatherStaticLightingInfo_Levels bRebuild bForce Levels bFound st = Some r →
  forallb (λ Level,
             forallb (λ Actor : option AActor,
                        match Actor with
                        | Some Actor =>
                            forallb (ComponentGathers bForce st.2) (Components Actor)
                        | None => true
                        end) (Actors Level)) Levels = true.
Proof.
  induction Levels as [|Level Levels IH]; intros bFound st r;
    cbn [GatherStaticLightingInfo_Levels forallb]; [done|].
  destruct (GatherStaticLightingInfo_Level _ _ _ _ _) as [[bFound1 st1]|] eqn:E;
    cbn [mbind option_bind]; [|done].
  intros E'%IH. apply andb_true_iff. split.
  - by eapply GatherStaticLightingInfo_Level_needs.
  - apply GatherStaticLightingInfo_Level_SameInputs in E.
    rewrite <- E'. apply forallb_ext_in. intros L.
    apply forallb_ext_in. intros [A|]; [|done].
    apply forallb_ext_in. intros p'. symmetry. by apply ComponentGathers_SameInputs.
Qed.

(** The gather stops at a component it cannot use: if an actor of a level
    of the world holds a pointer to no component, or, in a build with
    precomputed lighting, a registered component that answers the query
    for its static lighting with a number of meshes other than that of its
    mappings, the gather does not return; the bad pointer is dereferenced
    or the check of [AddPrimitiveStaticLightingInfo] fails.  Whether the
    level is one to build lighting for makes no difference. *)
Theorem GatherStaticLightingInfo_needs_components
    bRebuild bForce st (i j k : nat) Level Actor PrimitivePtr :
  Levels (GWorld st.2) !! i = Some Level →
  Actors Level !! j = Some (Some Actor) →
  Components Actor !! k = Some PrimitivePtr →
  ComponentGathers bForce st.2 PrimitivePtr = false →
  GatherStaticLightingInfo bRebuild bForce st = None.
Proof.
  intros HL%list_elem_of_lookup_2 HA%list_elem_of_lookup_2 Hp%list_elem_of_lookup_2 HC.
  destruct (GatherStaticLightingInfo bRebuild bForce st) as [st'|] eqn:E; [|done].
  exfalso. unfold GatherStaticLightingInfo in E.
  destruct (GatherStaticLightingInfo_Levels _ _ _ _ _) as [[bFound1 st1]|] eqn:E1;
    cbn [mbind option_bind] in E; [|done].
  apply GatherStaticLightingInfo_Levels_needs in E1.
  rewrite forallb_forall in E1. specialize (E1 Level). rewrite <- list_elem_of_In in E1.
  specialize (E1 HL). rewrite forallb_forall in E1. specialize (E1 (Some Actor)).
  rewrite <- list_elem_of_In in E1. specialize (E1 HA). cbn beta iota in E1.
  rewrite forallb_forall in E1. specialize (E1 PrimitivePtr).
  rewrite <- list_elem_of_In in E1. specialize (E1 Hp). congruence.
Qed.

Lemma GatherStaticLightingInfo_needs_components_witness :
  GatherStaticLightingInfo true false ExampleUnpaired = None.
Proof.
  apply (GatherStaticLightingInfo_needs_components true false ExampleUnpaired 1 0 0
           ExampleLevel1 {| IsSelected := true; Components := [5%nat] |} 5%nat);
    vm_compute; reflexivity.
Defined.

(** * Components marked for the rebuild *)

Lemma IsEnqueued_insert g p c p' :
  IsEnqueued (set_PrimitiveComponents
                (<[p := UPrimitiveComponent.set_bStaticLightingBuildEnqueued true c]>
                   (PrimitiveComponents g)) g) p'
  = if decide (p = p') then true else IsEnqueued g p'.
Proof.
  unfold IsEnqueued. sys_simpl. case_decide as Hp.
  - subst. by rewrite lookup_insert_eq.
  - by rewrite lookup_insert_ne.
Qed.

Lemma EnqueueComponents_IsEnqueued Components : ∀ g g',
  EnqueueComponents Components g = Some g' →
  ∀ p, IsEnqueued g' p = bool_decide (p ∈ Components) || IsEnqueued g p.
Proof.
  induction Components as [|p0 Components IH]; intros g g'; cbn [EnqueueComponents].
  - intros [= <-] p. by rewrite bool_decide_eq_false_2 by apply not_elem_of_nil.
  - destruct (PrimitiveComponents g !! p0) as [c|] eqn:Hc; cbn [mbind option_bind]; [|done].
    intros E p. rewrite (IH _ _ E p), IsEnqueued_insert.
    case_decide as Hp.
    + subst. rewrite orb_true_r. symmetry. rewrite bool_decide_eq_true_2; [done|].
      apply list_elem_of_here.
    + destruct (decide (p ∈ Components)) as [Hin|Hin].
      * rewrite !bool_decide_eq_true_2; [done|by apply list_elem_of_further|done].
      * rewrite !bool_decide_eq_false_2; [done| |done].
        rewrite elem_of_cons. intros [->|?]; done.
Qed.

Lemma SameField_IsEnqueued g g' p :
  SameField UPrimitiveComponent.bStaticLightingBuildEnqueued g g' →
  IsEnqueued g' p = IsEnqueued g p.
Proof.
  intros [_ H]. specialize (H p). unfold IsEnqueued.
  destruct (PrimitiveComponents g' !! p), (PrimitiveComponents g !! p); try done.
  cbn in H. congruence.
Qed.

Ltac gather_flag :=
  first
    [ by (intros; apply SameField_refl)
    | by (intros ???; apply SameField_trans)
    | by (intros; apply SameField_components)
    | by (intros; eapply (GatherStaticLightingInfo_Component_SameField
                            UPrimitiveComponent.bStaticLightingBuildEnqueued))
    | by (intros; eapply (AddBSPStaticLightingInfo_NodeGroup_SameField
                            UPrimitiveComponent.bStaticLightingBuildEnqueued))
    | by (intros; eapply (AddBSPStaticLightingInfo_Selected_NodeGroup_SameField
                            UPrimitiveComponent.bStaticLightingBuildEnqueued)) ].

Lemma GatherStaticLightingInfo_Components_flag bForce bBuild Components bMark st bMark' st' :
  GatherStaticLightingInfo_Components bForce bBuild Components bMark st = Some (bMark', st') →
  SameField UPrimitiveComponent.bStaticLightingBuildEnqueued st.2 st'.2.
Proof.
  apply (GatherStaticLightingInfo_Components_relates bForce
           (λ st st', SameField UPrimitiveComponent.bStaticLightingBuildEnqueued st.2 st'.2));
    gather_flag.
Qed.

Lemma AddBSPStaticLightingInfo_flag Level b st st' :
  AddBSPStaticLightingInfo Level b st = Some st' →
  SameField UPrimitiveComponent.bStaticLightingBuildEnqueued st.2 st'.2.
Proof.
  intros E.
  by apply (AddBSPStaticLightingInfo_relates false
              (λ st st', SameField UPrimitiveComponent.bStaticLightingBuildEnqueued st.2 st'.2))
    in E; [|gather_flag..|].
Qed.

Lemma AddBSPStaticLightingInfo_Selected_flag Level NodeGroups st st' :
  AddBSPStaticLightingInfo_Selected Level NodeGroups st = Some st' →
  SameField UPrimitiveComponent.bStaticLightingBuildEnqueued st.2 st'.2.
Proof.
  intros E.
  by apply (AddBSPStaticLightingInfo_Selected_relates false
              (λ st st', SameField UPrimitiveComponent.bStaticLightingBuildEnqueued st.2 st'.2))
    in E; [|gather_flag..|].
Qed.

(** ** The queue after the gather *)

Lemma GatherStaticLightingInfo_Actor_enqueues bForce Level Actor loc st loc' st' p :
  GatherStaticLightingInfo_Actor bForce
    (ShouldBuildLightingForLevel (FStaticLightingSystem.Options st.1) Level) Actor loc st
  = Some (loc', st') →
  IsEnqueued st'.2 p
  = negb (bOnlyBuildVisibility (FStaticLightingSystem.Options st.1))
    && match Actor with
       | Some Actor =>
           BuildsActorLighting (FStaticLightingSystem.Options st.1) Level Actor
           && bool_decide (p ∈ Components Actor)
       | None => false
       end
    || IsEnqueued st.2 p.
Proof.
  unfold GatherStaticLightingInfo_Actor, BuildsActorLighting.
  destruct Actor as [Actor|]; [|intros [= <- <-]; by rewrite andb_false_r].
  destruct st as [this g]. cbn [fst snd].
  set (bBuild := ShouldBuildLightingForLevel _ _ && _).
  destruct (if bBuild && negb _ then _ else _) as [g1|] eqn:E1; cbn [mbind option_bind]; [|done].
  destruct (GatherStaticLightingInfo_Components _ _ _ _ _) as [[bMark1 st2]|] eqn:E2;
    cbn [mbind option_bind]; [|done].
  intros [= <- <-]. apply GatherStaticLightingInfo_Components_flag in E2.
  rewrite (SameField_IsEnqueued _ _ p E2). cbn [snd].
  destruct bBuild, (bOnlyBuildVisibility _); cbn [negb andb orb] in E1 |- *;
    try by injection E1 as <-.
  by apply EnqueueComponents_IsEnqueued.
Qed.

Lemma GatherStaticLightingInfo_Actors_enqueues bForce Level Actors p : ∀ loc st loc' st',
  GatherStaticLightingInfo_Actors bForce
    (ShouldBuildLightingForLevel (FStaticLightingSystem.Options st.1) Level) Actors loc st
  = Some (loc', st') →
  IsEnqueued st'.2 p
  = negb (bOnlyBuildVisibility (FStaticLightingSystem.Options st.1))
    && existsb (λ Actor : option AActor,
                  match Actor with
                  | Some Actor =>
                      BuildsActorLighting (FStaticLightingSystem.Options st.1) Level Actor
                      && bool_decide (p ∈ Components Actor)
                  | None => false
                  end) Actors
    || IsEnqueued st.2 p.
Proof.
  induction Actors as [|Actor Actors IH]; intros loc st loc' st';
    cbn [GatherStaticLightingInfo_Actors existsb].
  - intros [= <- <-]. by rewrite andb_false_r.
  - destruct (GatherStaticLightingInfo_Actor _ _ _ _ _) as [[loc1 st1]|] eqn:E;
      cbn [mbind option_bind]; [|done].
    pose proof (Calls_Options _ _ _ (GatherStaticLightingInfo_Actor_Calls _ _ _ _ _ _ _ E)) as HO.
    cbn [fst] in HO. rewrite <- HO. intros ->%IH. rewrite HO.
    rewrite (GatherStaticLightingInfo_Actor_enqueues _ _ _ _ _ _ _ p E).
    destruct (negb _), (match Actor with Some _ => _ | None => _ end), (existsb _ _),
      (IsEnqueued st.2 p); done.
Qed.

Lemma GatherStaticLightingInfo_Level_enqueues bRebuild bForce Level bFound st bFound' st' p :
  GatherStaticLightingInfo_Level bRebuild bForce Level bFound st = Some (bFound', st') →
  IsEnqueued st'.2 p
  = negb (bOnlyBuildVisibility (FStaticLightingSystem.Options st.1))
    && existsb (λ Actor : option AActor,
                  match Actor with
                  | Some Actor =>
                      BuildsActorLighting (FStaticLightingSystem.Options st.1) Level Actor
                      && bool_decide (p ∈ Components Actor)
                  | None => false
                  end) (Actors Level)
    || IsEnqueued st.2 p.
Proof.
  unfold GatherStaticLightingInfo_Level. destruct st as [this g]. cbv zeta. cbn [fst snd].
  set (Options := FStaticLightingSystem.Options this).
  set (g1 := if bGeometryDirtyForLighting Level then _ else g).
  assert (H1 : SameField UPrimitiveComponent.bStaticLightingBuildEnqueued g g1).
  { subst g1. destruct (bGeometryDirtyForLighting Level); [destruct bRebuild|];
      by apply SameField_components. }
  clearbody g1.
  set (bSelectedBSP := ShouldBuildLightingForLevel Options Level && _ && _).
  set (g2 := if bSelectedBSP then emit _ g1 else g1).
  assert (H2 : SameField UPrimitiveComponent.bStaticLightingBuildEnqueued g g2).
  { eapply SameField_trans; [exact H1|]. subst g2.
    destruct bSelectedBSP; by apply SameField_components. }
  clearbody g2. clear H1.
  set (NodeGroupsToBuild := if bSelectedBSP then SelectedNodeGroups Level else []).
  set (bBuildBSPLighting := if bSelectedBSP then _ else _).
  destruct (if bBuildBSPLighting && negb bForce then _ else _) as [[bFound1 st1]|] eqn:E;
    cbn [mbind option_bind]; [|done].
  assert (H3 : SameField UPrimitiveComponent.bStaticLightingBuildEnqueued g st1.2
               ∧ FStaticLightingSystem.Options st1.1 = Options).
  { destruct (bBuildBSPLighting && negb bForce).
    - destruct (negb (bOnlyBuildSelected Options) || bOnlyBuildVisibility Options).
      + destruct (AddBSPStaticLightingInfo _ _ _) as [st2|] eqn:E2;
          cbn [mbind option_bind] in E; [|done].
        injection E as <- <-. split.
        * eapply SameField_trans; [exact H2|]. by apply AddBSPStaticLightingInfo_flag in E2.
        * eapply (Calls_Options LevelEvent (this, g2)).
          apply (AddBSPStaticLightingInfo_relates false (Calls LevelEvent)) in E2;
            [done|level_calls..|done].
      + case_bool_decide.
        * destruct (AddBSPStaticLightingInfo_Selected _ _ _) as [st2|] eqn:E2;
            cbn [mbind option_bind] in E; [|done].
          injection E as <- <-. split.
          -- eapply SameField_trans; [exact H2|].
             by apply AddBSPStaticLightingInfo_Selected_flag in E2.
          -- eapply (Calls_Options LevelEvent (this, g2)).
             apply (AddBSPStaticLightingInfo_Selected_relates false (Calls LevelEvent)) in E2;
               [done|level_calls..|done].
        * by injection E as <- <-.
    - by injection E as <- <-. }
  destruct H3 as [H3 HO]. clear E.
  destruct (GatherStaticLightingInfo_Actors _ _ _ _ _) as [[loc1 st2]|] eqn:E;
    cbn [mbind option_bind]; [|done].
  rewrite <- HO in E.
  apply (GatherStaticLightingInfo_Actors_enqueues _ _ _ p) in E. rewrite HO in E.
  intros [= <- <-].
  assert (IsEnqueued (if GatherLocals.bMarkLevelDirty loc1
                      then (st2.1, emit (MarkPackageDirty (LevelId Level)) st2.2)
                      else st2).2 p = IsEnqueued st2.2 p) as -> by (by destruct (_ loc1)).
  by rewrite E, (SameField_IsEnqueued _ _ p H3).
Qed.

Lemma GatherStaticLightingInfo_Levels_enqueues bRebuild bForce Levels p :
  ∀ bFound st bFound' st',
  GatherStaticLightingInfo_Levels bRebuild bForce Levels bFound st = Some (bFound', st') →
  IsEnqueued st'.2 p
  = negb (bOnlyBuildVisibility (FStaticLightingSystem.Options st.1))
    && existsb (λ Level,
         existsb (λ Actor : option AActor,
                    match Actor with
                    | Some Actor =>
                        BuildsActorLighting (FStaticLightingSystem.Options st.1) Level Actor
                        && bool_decide (p ∈ Components Actor)
                    | None => false
                    end) (Actors Level)) Levels
    || IsEnqueued st.2 p.
Proof.
  induction Levels as [|Level Levels IH]; intros bFound st bFound' st';
    cbn [GatherStaticLightingInfo_Levels existsb].
  - intros [= <- <-]. by rewrite andb_false_r.
  - destruct (GatherStaticLightingInfo_Level _ _ _ _ _) as [[bFound1 st1]|] eqn:E;
      cbn [mbind option_bind]; [|done].
    pose proof (Calls_Options _ _ _ (GatherStaticLightingInfo_Level_Calls _ _ _ _ _ _ _ E)) as HO.
    cbn [fst] in HO. intros ->%IH. rewrite HO.
    rewrite (GatherStaticLightingInfo_Level_enqueues _ _ _ _ _ _ _ p E).
    destruct (negb _), (existsb _ (Actors Level)), (existsb _ Levels), (IsEnqueued st.2 p);
      done.
Qed.

(** The gather puts on the queue for the rebuild exactly the components
    of the actors whose lighting is built, unless the build is of the
    visibility only, and it takes none off: after it a component is
    marked exactly when it was marked before or belongs to such an actor.
    Whether precomputed lighting is forced off makes no difference. *)
Theorem GatherStaticLightingInfo_enqueues bRebuild bForce st st' PrimitivePtr :
  GatherStaticLightingInfo bRebuild bForce st = Some st' →
  IsEnqueued st'.2 PrimitivePtr
  = EnqueuesComponent (FStaticLightingSystem.Options st.1) (GWorld st.2) PrimitivePtr
    || IsEnqueued st.2 PrimitivePtr.
Proof.
  unfold GatherStaticLightingInfo, EnqueuesComponent.
  destruct (GatherStaticLightingInfo_Levels _ _ _ _ _) as [[bFound1 st1]|] eqn:E;
    cbn [mbind option_bind]; [|done].
  apply (GatherStaticLightingInfo_Levels_enqueues _ _ _ PrimitivePtr) in E.
  intros [= <-]. rewrite <- E.
  destruct (bOnlyBuildSelected _); [destruct bFound1|]; done.
Qed.

Lemma GatherStaticLightingInfo_enqueues_witness :
  let st' := default ExampleSelected (GatherStaticLightingInfo true false ExampleSelected) in
  IsEnqueued st'.2 1%nat
  = EnqueuesComponent (FStaticLightingSystem.Options ExampleSelected.1)
      (GWorld ExampleSelected.2) 1%nat
    || IsEnqueued ExampleSelected.2 1%nat.
Proof.
  apply (GatherStaticLightingInfo_enqueues true false ExampleSelected).
  vm_compute. reflexivity.
Defined.

(** * The selected surfaces of a level *)

Section SelectionFacts.

Import Selection.

(** ** Arrays that grow at their end *)

Lemma elem_of_AddUnique {A : Type} `{EqDecision A} (x Item : A) Array :
  x ∈ AddUnique Item Array ↔ x = Item ∨ x ∈ Array.
Proof.
  unfold AddUnique. case_bool_decide as H.
  - split; [by right|]. by intros [->|?].
  - rewrite elem_of_app, list_elem_of_singleton. tauto.
Qed.

Lemma NoDup_AddUnique {A : Type} `{EqDecision A} (Item : A) Array :
  NoDup Array → NoDup (AddUnique Item Array).
Proof.
  unfold AddUnique. case_bool_decide as H; [done|]. intros HN.
  apply NoDup_app. split_and!; [done| |apply NoDup_singleton].
  intros x Hx ->%list_elem_of_singleton. done.
Qed.

Lemma Extends_refl {A : Type} (P : A → Prop) Array : Extends P Array Array.
Proof. exists []. rewrite app_nil_r. split_and!; [done|constructor|constructor]. Qed.

Lemma Extends_trans {A : Type} (P : A → Prop) Array1 Array2 Array3 :
  Extends P Array1 Array2 → Extends P Array2 Array3 → Extends P Array1 Array3.
Proof.
  intros (New1 & -> & HN1 & HF1) (New2 & -> & HN2 & HF2).
  exists (New1 ++ New2). rewrite app_assoc. split_and!; [done| |].
  - apply NoDup_app. split_and!; [done| |done].
    intros x Hx Hx2. rewrite Forall_forall in HF2.
    destruct (HF2 x Hx2) as [_ Hn]. apply Hn, elem_of_app. by right.
  - apply Forall_app. split; [done|].
    eapply Forall_impl; [exact HF2|]. intros x [HP Hn]. split; [done|].
    intros Hx. apply Hn, elem_of_app. by left.
Qed.

Lemma Extends_AddUnique {A : Type} `{EqDecision A} (P : A → Prop) Item Array :
  P Item → Extends P Array (AddUnique Item Array).
Proof.
  intros HP. unfold AddUnique. case_bool_decide as H; [apply Extends_refl|].
  exists [Item]. split_and!; [done|apply NoDup_singleton|]. by repeat constructor.
Qed.

Lemma Extends_weaken {A : Type} (P Q : A → Prop) Array Array' :
  (∀ x, P x → Q x) → Extends P Array Array' → Extends Q Array Array'.
Proof.
  intros HPQ (New & -> & HN & HF). exists New. split_and!; [done..|].
  eapply Forall_impl; [exact HF|]. intros x [??]. split; auto.
Qed.

Lemma Extends_elem_of {A : Type} (P : A → Prop) Array Array' x :
  Extends P Array Array' → x ∈ Array → x ∈ Array'.
Proof. intros (New & -> & _) ?. apply elem_of_app. by left. Qed.

Lemma Extends_lookup {A : Type} (P : A → Prop) Array Array' (k : nat) x :
  Extends P Array Array' → Array !! k = Some x → Array' !! k = Some x.
Proof. intros (New & -> & _) ?. by apply lookup_app_l_Some. Qed.

Lemma Extends_Forall {A : Type} (P : A → Prop) Array Array' :
  Extends P Array Array' → Forall P Array → Forall P Array'.
Proof.
  intros (New & -> & _ & HF) H. apply Forall_app. split; [done|].
  eapply Forall_impl; [exact HF|]. by intros x [? _].
Qed.

(** ** The loops that add surfaces *)

Lemma AddInnerNodes_spec Level Ns : ∀ l l',
  AddInnerNodes Level Ns l = Some l' →
  Extends (λ v, ∃ (i : nat) n,
             i ∈ Ns ∧ UModel.Nodes (Model Level) !! i = Some n ∧ iSurf n = v) l l'
  ∧ ∀ (i : nat) n, i ∈ Ns → UModel.Nodes (Model Level) !! i = Some n → iSurf n ∈ l'.
Proof.
  induction Ns as [|i0 Ns IH]; intros l l'; cbn [AddInnerNodes].
  - intros [= <-]. split; [apply Extends_refl|]. intros ?? H. by apply elem_of_nil in H.
  - destruct (UModel.Nodes (Model Level) !! i0) as [n0|] eqn:E0; cbn [mbind option_bind];
      [|done].
    intros [HE HI]%IH. split.
    + eapply Extends_trans.
      * apply (Extends_AddUnique _ (iSurf n0)). exists i0, n0.
        split_and!; [apply list_elem_of_here|done|done].
      * eapply Extends_weaken; [|exact HE]. intros v (i & n & Hi & ? & ?).
        exists i, n. split_and!; [by apply list_elem_of_further|done|done].
    + intros i n [->|Hi]%elem_of_cons Hn.
      * eapply Extends_elem_of; [exact HE|]. apply elem_of_AddUnique. left. congruence.
      * by eapply HI.
Qed.

Lemma FindModelComponents_spec Level SurfIdx Ns : ∀ s s',
  (∀ Node, Node ∈ Ns → Node ∈ UModel.Nodes (Model Level)) →
  FindModelComponents Level SurfIdx Ns s = Some s' →
  Extends (SharesComponent Level SurfIdx) (SelectedSurfaceIndices s)
    (SelectedSurfaceIndices s')
  ∧ ∀ Node SomeModelComponent (i : nat) n,
      Node ∈ Ns → iSurf Node = SurfIdx →
      ModelComponents Level !! ComponentIndex Node = Some (Some SomeModelComponent) →
      i ∈ UModelComponent.Nodes SomeModelComponent →
      UModel.Nodes (Model Level) !! i = Some n →
      iSurf n ∈ SelectedSurfaceIndices s'.
Proof.
  induction Ns as [|Node0 Ns IH]; intros s s' Hsub; cbn [FindModelComponents].
  - intros [= <-]. split; [apply Extends_refl|]. intros ???? H. by apply elem_of_nil in H.
  - assert (Hsub' : ∀ Node, Node ∈ Ns → Node ∈ UModel.Nodes (Model Level))
      by (intros; by apply Hsub, list_elem_of_further).
    assert (Hskip : ∀ s1,
      FindModelComponents Level SurfIdx Ns s1 = Some s' →
      SelectedSurfaceIndices s1 = SelectedSurfaceIndices s →
      (iSurf Node0 = SurfIdx →
       ∀ SomeModelComponent,
         ModelComponents Level !! ComponentIndex Node0 ≠ Some (Some SomeModelComponent)) →
      Extends (SharesComponent Level SurfIdx) (SelectedSurfaceIndices s)
        (SelectedSurfaceIndices s')
      ∧ ∀ Node SomeModelComponent (i : nat) n,
          Node ∈ Node0 :: Ns → iSurf Node = SurfIdx →
          ModelComponents Level !! ComponentIndex Node = Some (Some SomeModelComponent) →
          i ∈ UModelComponent.Nodes SomeModelComponent →
          UModel.Nodes (Model Level) !! i = Some n →
          iSurf n ∈ SelectedSurfaceIndices s').
    { intros s1 [HE HI]%IH Hs1 Hno; [|done]. rewrite Hs1 in HE. split; [done|].
      intros Node C i n [->|HN]%elem_of_cons HS HC; [by destruct (Hno HS C)|].
      by eapply HI. }
    case_bool_decide as HS; [|intros E; by apply (Hskip s)].
    destruct (ModelComponents Level !! ComponentIndex Node0) as [[C0|]|] eqn:EC;
      cbn [mbind option_bind]; [| |done].
    + destruct (AddInnerNodes Level (UModelComponent.Nodes C0) (SelectedSurfaceIndices s))
        as [l1|] eqn:EA; cbn [mbind option_bind]; [|done].
      apply AddInnerNodes_spec in EA as [HE1 HI1].
      intros [HE HI]%IH; [|done]. cbn [SelectedSurfaceIndices] in HE. split.
      * eapply Extends_trans; [|exact HE]. eapply Extends_weaken; [|exact HE1].
        intros v (i & n & Hi & Hn & Hv). exists Node0, C0, i, n.
        split_and!; [apply Hsub, list_elem_of_here|done..].
      * intros Node C i n [->|HN]%elem_of_cons HS' HC Hi Hn; [|by eapply HI].
        eapply Extends_elem_of; [exact HE|]. apply (HI1 i n); [|done]. congruence.
    + intros E. apply (Hskip s); [done|done|]. intros _ C. congruence.
Qed.

Lemma SharesComponent_NodeSurfaces Level SurfIdx SurfIdx' :
  SharesComponent Level SurfIdx SurfIdx' → SurfIdx' ∈ NodeSurfaces Level.
Proof.
  intros (Node & C & i & n & _ & _ & _ & _ & Hn & <-).
  apply elem_of_list_to_set, list_elem_of_fmap. exists n. split; [done|].
  by eapply list_elem_of_lookup_2.
Qed.

Lemma FindModelComponents_Extends Level SurfIdx s s' :
  FindModelComponents Level SurfIdx (UModel.Nodes (Model Level)) s = Some s' →
  Extends (SharesComponent Level SurfIdx) (SelectedSurfaceIndices s)
    (SelectedSurfaceIndices s').
Proof. intros E. by apply FindModelComponents_spec in E as [? _]. Qed.

Lemma FindModelComponents_shares Level SurfIdx s s' SurfIdx' :
  FindModelComponents Level SurfIdx (UModel.Nodes (Model Level)) s = Some s' →
  SharesComponent Level SurfIdx SurfIdx' → SurfIdx' ∈ SelectedSurfaceIndices s'.
Proof.
  intros E (Node & C & i & n & HN & HS & HC & Hi & Hn & <-).
  apply FindModelComponents_spec in E as [_ HI]; [|done]. by eapply HI.
Qed.

Lemma FindModelComponents_Joined PF_Selected Level SurfIdx s s' :
  FindModelComponents Level SurfIdx (UModel.Nodes (Model Level)) s = Some s' →
  Joined PF_Selected Level SurfIdx →
  Forall (Joined PF_Selected Level) (SelectedSurfaceIndices s) →
  Forall (Joined PF_Selected Level) (SelectedSurfaceIndices s').
Proof.
  intros E HJ. apply Extends_Forall with (P := Joined PF_Selected Level).
  eapply Extends_weaken; [|by apply FindModelComponents_Extends].
  intros v Hv. by eapply Joined_shares.
Qed.

(** ** The two passes *)

Lemma FindSelectedSurfaces_spec PF_Selected Level Surfs : ∀ (k : nat) s s',
  (∀ (j : nat) Surf, Surfs !! j = Some Surf →
     UModel.Surfs (Model Level) !! (k + j)%nat = Some Surf) →
  FindSelectedSurfaces PF_Selected Level k Surfs s = Some s' →
  Forall (Joined PF_Selected Level) (SelectedSurfaceIndices s) →
  Forall (Joined PF_Selected Level) (SelectedSurfaceIndices s')
  ∧ (∀ v, v ∈ SelectedSurfaceIndices s → v ∈ SelectedSurfaceIndices s')
  ∧ ∀ (j : nat) Surf, Surfs !! j = Some Surf →
      bSurfaceSelected PF_Selected Level Surf = true →
      Z.of_nat (k + j) ∈ SelectedSurfaceIndices s'.
Proof.
  induction Surfs as [|Surf0 Surfs IH]; intros k s s' Hk; cbn [FindSelectedSurfaces].
  - intros [= <-] HJ. split_and!; [done|done|]. intros j Surf H. by rewrite lookup_nil in H.
  - assert (Hk' : ∀ (j : nat) Surf, Surfs !! j = Some Surf →
              UModel.Surfs (Model Level) !! (S k + j)%nat = Some Surf).
    { intros j Surf Hj. replace (S k + j)%nat with (k + S j)%nat by lia. by apply Hk. }
    destruct (bSurfaceSelected PF_Selected Level Surf0) eqn:ES.
    + destruct (FindModelComponents _ _ _ _) as [s1|] eqn:E1; cbn [mbind option_bind]; [|done].
      intros E HJ.
      assert (HJ0 : Joined PF_Selected Level (Z.of_nat k)).
      { apply Joined_selected. exists k, Surf0. split_and!; [done| |done].
        specialize (Hk 0%nat Surf0 eq_refl). by rewrite Nat.add_0_r in Hk. }
      pose proof (FindModelComponents_Extends _ _ _ _ E1) as HE.
      cbn [SelectedSurfaceIndices] in HE.
      apply (FindModelComponents_Joined PF_Selected) in E1; [|done|].
      2:{ cbn [SelectedSurfaceIndices]. apply Forall_app. split; [done|]. by constructor. }
      destruct (IH _ _ _ Hk' E E1) as (H1 & H2 & H3). split_and!; [done| |].
      * intros v Hv. apply H2. eapply Extends_elem_of; [exact HE|].
        apply elem_of_app. by left.
      * intros [|j] Surf Hj HS.
        -- apply H2. eapply Extends_elem_of; [exact HE|]. rewrite Nat.add_0_r.
           apply elem_of_app. right. apply list_elem_of_here.
        -- replace (k + S j)%nat with (S k + j)%nat by lia. by eapply H3.
    + intros E HJ. destruct (IH _ _ _ Hk' E HJ) as (H1 & H2 & H3). split_and!; [done..|].
      intros [|j] Surf Hj HS.
      * injection Hj as <-. congruence.
      * replace (k + S j)%nat with (S k + j)%nat by lia. by eapply H3.
Qed.

Lemma PassTwo_spec PF_Selected Level Rounds : ∀ (i : nat) s s',
  PassTwo Rounds Level i s = Some (Some s') →
  Forall (Joined PF_Selected Level) (SelectedSurfaceIndices s) →
  ClosedBelow Level i (SelectedSurfaceIndices s) →
  Forall (Joined PF_Selected Level) (SelectedSurfaceIndices s')
  ∧ (∀ v, v ∈ SelectedSurfaceIndices s → v ∈ SelectedSurfaceIndices s')
  ∧ ClosedBelow Level (length (SelectedSurfaceIndices s')) (SelectedSurfaceIndices s').
Proof.
  induction Rounds as [|Rounds IH]; intros i s s'; cbn [PassTwo]; [done|].
  destruct (SelectedSurfaceIndices s !! i) as [SurfIdx|] eqn:Ei.
  - destruct (FindModelComponents _ _ _ _) as [s1|] eqn:E1; [|done].
    intros E HJ HC.
    pose proof (FindModelComponents_Extends _ _ _ _ E1) as HE.
    assert (HJi : Joined PF_Selected Level SurfIdx).
    { rewrite Forall_forall in HJ. apply HJ. by eapply list_elem_of_lookup_2. }
    destruct (IH _ _ _ E) as (H1 & H2 & H3).
    + by eapply FindModelComponents_Joined.
    + intros k v v' Hk Hv Hvv'.
      destruct (decide (k = i)) as [->|Hne].
      * rewrite (Extends_lookup _ _ _ _ _ HE Ei) in Hv. injection Hv as <-.
        by eapply FindModelComponents_shares.
      * eapply Extends_elem_of; [exact HE|]. apply (HC k v v'); [lia| |done].
        destruct HE as (New & HN & _). rewrite HN in Hv.
        rewrite lookup_app_l in Hv; [done|]. apply lookup_lt_Some in Ei. lia.
    + split_and!; [done| |done]. intros v Hv. apply H2. by eapply Extends_elem_of.
  - intros [= <-] HJ HC. split_and!; [done|done|].
    intros k v v' Hk. apply HC. apply lookup_ge_None in Ei. lia.
Qed.

Lemma ClosedBelow_Joined PF_Selected Level l :
  (∀ v, IsSelectedSurface PF_Selected Level v → v ∈ l) →
  ClosedBelow Level (length l) l →
  ∀ v, Joined PF_Selected Level v → v ∈ l.
Proof.
  intros HS HC v HJ. induction HJ as [v Hv|v v' _ IH Hvv']; [by apply HS|].
  apply list_elem_of_lookup in IH as [k Hk].
  apply (HC k v v'); [by eapply lookup_lt_Some|done|done].
Qed.

(** ** The end of the second pass *)

Lemma size_list_to_set_le (l : list Z) : (size (list_to_set l : gset Z) ≤ length l)%nat.
Proof.
  induction l as [|x l IH]; cbn [list_to_set length]; [by rewrite size_empty|].
  rewrite size_union_alt, size_singleton.
  assert (size ((list_to_set l : gset Z) ∖ {[x]}) ≤ size (list_to_set l : gset Z))%nat
    by (apply subseteq_size; intros v [? _]%elem_of_difference; done).
  lia.
Qed.

Lemma Remaining_le Level l : (Remaining Level l ≤ length (UModel.Nodes (Model Level)))%nat.
Proof.
  unfold Remaining, NodeSurfaces.
  assert (size (list_to_set (iSurf <$> UModel.Nodes (Model Level)) ∖ list_to_set l : gset Z)
          ≤ size (list_to_set (iSurf <$> UModel.Nodes (Model Level)) : gset Z))%nat
    by (apply subseteq_size; intros v [? _]%elem_of_difference; done).
  pose proof (size_list_to_set_le (iSurf <$> UModel.Nodes (Model Level))) as H'.
  rewrite length_fmap in H'. lia.
Qed.

Lemma Extends_Remaining Level SurfIdx l l' :
  Extends (SharesComponent Level SurfIdx) l l' →
  (Remaining Level l' + length l' = Remaining Level l + length l)%nat.
Proof.
  intros (New & -> & HN & HF). unfold Remaining. rewrite length_app.
  assert (HB : (list_to_set New : gset Z) ⊆ NodeSurfaces Level ∖ list_to_set l).
  { intros v Hv%elem_of_list_to_set. rewrite Forall_forall in HF.
    destruct (HF v Hv) as [HS Hn]. apply elem_of_difference.
    split; [by eapply SharesComponent_NodeSurfaces|]. by rewrite elem_of_list_to_set. }
  assert (NodeSurfaces Level ∖ list_to_set (l ++ New)
          = (NodeSurfaces Level ∖ list_to_set l) ∖ (list_to_set New : gset Z)) as ->.
  { rewrite list_to_set_app_L. apply set_eq. intros v.
    rewrite !elem_of_difference, elem_of_union. tauto. }
  rewrite size_difference by done. apply subseteq_size in HB.
  rewrite (size_list_to_set New) in * by done. lia.
Qed.

Lemma PassTwo_is_Some Level Rounds : ∀ (i : nat) s,
  (i ≤ length (SelectedSurfaceIndices s))%nat →
  (Remaining Level (SelectedSurfaceIndices s) + length (SelectedSurfaceIndices s) - i
   < Rounds)%nat →
  is_Some (PassTwo Rounds Level i s).
Proof.
  induction Rounds as [|Rounds IH]; intros i s Hi HR; cbn [PassTwo]; [lia|].
  destruct (SelectedSurfaceIndices s !! i) as [SurfIdx|] eqn:Ei; [|done].
  destruct (FindModelComponents _ _ _ _) as [s1|] eqn:E1; [|done].
  apply lookup_lt_Some in Ei.
  pose proof (FindModelComponents_Extends _ _ _ _ E1) as HE.
  pose proof (Extends_Remaining _ _ _ _ HE) as HM.
  destruct HE as (New & HN & _). apply (f_equal length) in HN. rewrite length_app in HN.
  apply IH; lia.
Qed.

(** ** Levels whose indices are in range *)

Lemma IndicesInRange_spec Level :
  IndicesInRange Level = true →
  (∀ Node, Node ∈ UModel.Nodes (Model Level) →
     is_Some (ModelComponents Level !! ComponentIndex Node))
  ∧ (∀ SomeModelComponent (i : nat),
       Some SomeModelComponent ∈ ModelComponents Level →
       i ∈ UModelComponent.Nodes SomeModelComponent →
       is_Some (UModel.Nodes (Model Level) !! i))
  ∧ (∀ NodeGroup (i : nat),
       Some NodeGroup ∈ UModel.NodeGroups (Model Level) →
       i ∈ FNodeGroup.Nodes NodeGroup →
       is_Some (UModel.Nodes (Model Level) !! i)).
Proof.
  unfold IndicesInRange. rewrite !andb_true_iff, !forallb_forall.
  intros [[H1 H2] H3]. split_and!.
  - intros Node HN%list_elem_of_In. by apply H1, bool_decide_eq_true in HN.
  - intros C i HC%list_elem_of_In Hi%list_elem_of_In. apply H2 in HC.
    rewrite forallb_forall in HC. by apply HC, bool_decide_eq_true in Hi.
  - intros G i HG%list_elem_of_In Hi%list_elem_of_In. apply H3 in HG.
    rewrite forallb_forall in HG. by apply HG, bool_decide_eq_true in Hi.
Qed.

Lemma AddInnerNodes_returns Level Ns : ∀ l,
  (∀ i : nat, i ∈ Ns → is_Some (UModel.Nodes (Model Level) !! i)) →
  is_Some (AddInnerNodes Level Ns l).
Proof.
  induction Ns as [|i0 Ns IH]; intros l H; cbn [AddInnerNodes]; [done|].
  destruct (H i0) as [n0 ->]; [apply list_elem_of_here|]. cbn [mbind option_bind].
  apply IH. intros i Hi. by apply H, list_elem_of_further.
Qed.

Lemma FindModelComponents_returns Level SurfIdx Ns : ∀ s,
  IndicesInRange Level = true →
  (∀ Node, Node ∈ Ns → Node ∈ UModel.Nodes (Model Level)) →
  is_Some (FindModelComponents Level SurfIdx Ns s).
Proof.
  induction Ns as [|Node0 Ns IH]; intros s HR Hsub; cbn [FindModelComponents]; [done|].
  assert (Hsub' : ∀ Node, Node ∈ Ns → Node ∈ UModel.Nodes (Model Level))
    by (intros; by apply Hsub, list_elem_of_further).
  destruct (IndicesInRange_spec _ HR) as (H1 & H2 & _).
  case_bool_decide; [|by apply IH].
  destruct (H1 Node0) as [C EC]; [apply Hsub, list_elem_of_here|].
  rewrite EC. cbn [mbind option_bind]. destruct C as [C|]; [|by apply IH].
  destruct (AddInnerNodes_returns Level (UModelComponent.Nodes C) (SelectedSurfaceIndices s))
    as [l1 ->]; [|cbn [mbind option_bind]; by apply IH].
  intros i Hi. apply (H2 C); [|done]. by eapply list_elem_of_lookup_2.
Qed.

Lemma FindSelectedSurfaces_returns PF_Selected Level Surfs : ∀ (k : nat) s,
  IndicesInRange Level = true →
  is_Some (FindSelectedSurfaces PF_Selected Level k Surfs s).
Proof.
  induction Surfs as [|Surf0 Surfs IH]; intros k s HR; cbn [FindSelectedSurfaces]; [done|].
  destruct (bSurfaceSelected PF_Selected Level Surf0); [|by apply IH].
  destruct (FindModelComponents_returns Level (Z.of_nat k) (UModel.Nodes (Model Level))
              {| SelectedModelComponents := SelectedModelComponents s;
                 SelectedSurfaceIndices := SelectedSurfaceIndices s ++ [Z.of_nat k] |})
    as [s1 ->]; [done|done|]. cbn [mbind option_bind]. by apply IH.
Qed.

Lemma PassTwo_returns Level Rounds : ∀ (i : nat) s,
  IndicesInRange Level = true → PassTwo Rounds Level i s ≠ Some None.
Proof.
  induction Rounds as [|Rounds IH]; intros i s HR; cbn [PassTwo]; [done|].
  destruct (SelectedSurfaceIndices s !! i) as [SurfIdx|]; [|done].
  destruct (FindModelComponents_returns Level SurfIdx (UModel.Nodes (Model Level)) s)
    as [s1 ->]; [done|done|]. by apply IH.
Qed.

(** ** The node groups *)

Lemma AddUnique_ne_nil {A : Type} `{EqDecision A} (Item : A) Array :
  AddUnique Item Array ≠ [].
Proof.
  intros H. assert (Item ∈ AddUnique Item Array) as Hin by (apply elem_of_AddUnique; by left).
  rewrite H in Hin. by apply elem_of_nil in Hin.
Qed.

Lemma AddNodeGroup_spec Level Surfaces NodeGroup Ns : ∀ r r',
  AddNodeGroup Level Surfaces NodeGroup Ns r = Some r' →
  (∀ p, p ∈ r'.1 ↔
     p ∈ r.1
     ∨ (p = FNodeGroup.GroupPtr NodeGroup
        ∧ ∃ (GroupNode : nat) Node,
            GroupNode ∈ Ns ∧ UModel.Nodes (Model Level) !! GroupNode = Some Node
            ∧ iSurf Node ∈ Surfaces))
  ∧ (NoDup r.1 → NoDup r'.1)
  ∧ (r.2 = bool_decide (r.1 ≠ []) → r'.2 = bool_decide (r'.1 ≠ [])).
Proof.
  induction Ns as [|gn0 Ns IH]; intros r r'; cbn [AddNodeGroup].
  - intros [= <-]. split_and!; [|done|done]. intros p. split; [by left|].
    intros [?|[_ (gn & n & H & _)]]; [done|]. by apply elem_of_nil in H.
  - destruct (UModel.Nodes (Model Level) !! gn0) as [n0|] eqn:E0; cbn [mbind option_bind];
      [|done].
    intros (H1 & H2 & H3)%IH. case_bool_decide as Hhit; cbn [fst snd] in *.
    + split_and!.
      * intros p. rewrite H1, elem_of_AddUnique. split.
        -- intros [[->|?]|[-> (gn & n & Hg & Hn & Hs)]]; [right|by left|right].
           ++ split; [done|]. exists gn0, n0. split_and!; [apply list_elem_of_here|done..].
           ++ split; [done|]. exists gn, n. split_and!; [by apply list_elem_of_further|done..].
        -- intros [?|[-> _]]; left; [by right|by left].
      * intros HN. by apply H2, NoDup_AddUnique.
      * intros _. apply H3. symmetry. apply bool_decide_eq_true_2, AddUnique_ne_nil.
    + split_and!; [|done|done]. intros p. rewrite H1. split.
      * intros [?|[-> (gn & n & Hg & Hn & Hs)]]; [by left|right]. split; [done|].
        exists gn, n. split_and!; [by apply list_elem_of_further|done..].
      * intros [?|[-> (gn & n & [->|Hg]%elem_of_cons & Hn & Hs)]]; [by left| |right].
        -- rewrite E0 in Hn. injection Hn as <-. done.
        -- split; [done|]. by exists gn, n.
Qed.

Lemma AddNodeGroups_spec Level Surfaces NodeGroups : ∀ r r',
  AddNodeGroups Level Surfaces NodeGroups r = Some r' →
  (∀ p, p ∈ r'.1 ↔
     p ∈ r.1
     ∨ ∃ NodeGroup,
         Some NodeGroup ∈ NodeGroups ∧ FNodeGroup.GroupPtr NodeGroup = p
         ∧ GroupOnSurfaces Level (λ v, v ∈ Surfaces) NodeGroup)
  ∧ (NoDup r.1 → NoDup r'.1)
  ∧ (r.2 = bool_decide (r.1 ≠ []) → r'.2 = bool_decide (r'.1 ≠ [])).
Proof.
  induction NodeGroups as [|G0 NodeGroups IH]; intros r r'; cbn [AddNodeGroups].
  - intros [= <-]. split_and!; [|done|done]. intros p. split; [by left|].
    intros [?|(G & H & _)]; [done|]. by apply elem_of_nil in H.
  - destruct (match G0 with Some _ => _ | None => _ end) as [r1|] eqn:E1;
      cbn [mbind option_bind]; [|done].
    intros (H1 & H2 & H3)%IH.
    assert (Hr1 : (∀ p, p ∈ r1.1 ↔
                     p ∈ r.1
                     ∨ ∃ NodeGroup, G0 = Some NodeGroup ∧ FNodeGroup.GroupPtr NodeGroup = p
                         ∧ GroupOnSurfaces Level (λ v, v ∈ Surfaces) NodeGroup)
                  ∧ (NoDup r.1 → NoDup r1.1)
                  ∧ (r.2 = bool_decide (r.1 ≠ []) → r1.2 = bool_decide (r1.1 ≠ []))).
    { destruct G0 as [G|].
      - destruct (decide (0 < length (FNodeGroup.Nodes G))%nat) as [Hlen|Hlen];
          [rewrite bool_decide_eq_true_2 in E1 by done
          |rewrite bool_decide_eq_false_2 in E1 by done].
        + apply AddNodeGroup_spec in E1 as (A1 & A2 & A3). split_and!; [|done|done].
          intros p. rewrite A1. split.
          * intros [?|[-> Hhit]]; [by left|right]. by exists G.
          * intros [?|(G' & [= <-] & <- & Hhit)]; [by left|right]. done.
        + injection E1 as <-. split_and!; [|done|done]. intros p. split; [by left|].
          intros [?|(G' & [= <-] & _ & gn & n & Hg & _)]; [done|].
          destruct (FNodeGroup.Nodes G); [by apply elem_of_nil in Hg|cbn in *; lia].
      - injection E1 as <-. split_and!; [|done|done]. intros p. split; [by left|].
        by intros [?|(G' & [=] & _)]. }
    destruct Hr1 as (A1 & A2 & A3). split_and!; [|by auto|by auto].
    intros p. rewrite H1, A1. split.
    + intros [[?|(G & -> & ? & ?)]|(G & HG & ? & ?)]; [by left|right; exists G..].
      * split_and!; [apply list_elem_of_here|done..].
      * split_and!; [by apply list_elem_of_further|done..].
    + intros [?|(G & [<-|HG]%elem_of_cons & ? & ?)]; [by left; left|left; right|right];
        by exists G.
Qed.

Lemma AddNodeGroup_returns Level Surfaces NodeGroup Ns : ∀ r,
  (∀ i : nat, i ∈ Ns → is_Some (UModel.Nodes (Model Level) !! i)) →
  is_Some (AddNodeGroup Level Surfaces NodeGroup Ns r).
Proof.
  induction Ns as [|i0 Ns IH]; intros r H; cbn [AddNodeGroup]; [done|].
  destruct (H i0) as [n0 ->]; [apply list_elem_of_here|]. cbn [mbind option_bind].
  apply IH. intros i Hi. by apply H, list_elem_of_further.
Qed.

Lemma AddNodeGroups_returns Level Surfaces NodeGroups : ∀ r,
  (∀ NodeGroup (i : nat), Some NodeGroup ∈ NodeGroups → i ∈ FNodeGroup.Nodes NodeGroup →
     is_Some (UModel.Nodes (Model Level) !! i)) →
  is_Some (AddNodeGroups Level Surfaces NodeGroups r).
Proof.
  induction NodeGroups as [|G0 NodeGroups IH]; intros r H; cbn [AddNodeGroups]; [done|].
  assert (H' : ∀ NodeGroup (i : nat), Some NodeGroup ∈ NodeGroups →
            i ∈ FNodeGroup.Nodes NodeGroup → is_Some (UModel.Nodes (Model Level) !! i))
    by (intros G i HG; apply H; by apply list_elem_of_further).
  destruct G0 as [G|]; [|cbn [mbind option_bind]; by apply IH].
  case_bool_decide; [|cbn [mbind option_bind]; by apply IH].
  destruct (AddNodeGroup_returns Level Surfaces G (FNodeGroup.Nodes G) r) as [r1 ->].
  - intros i Hi. apply (H G); [apply list_elem_of_here|done].
  - cbn [mbind option_bind]. by apply IH.
Qed.

Lemma GroupOnSurfaces_iff Level (P Q : Z → Prop) NodeGroup :
  (∀ v, P v ↔ Q v) →
  GroupOnSurfaces Level P NodeGroup ↔ GroupOnSurfaces Level Q NodeGroup.
Proof.
  intros H. split; intros (gn & n & ? & ? & ?); exists gn, n; split_and!; try done;
    by apply H.
Qed.

(** ** What the analysis selects *)

(** The second pass over the selected surfaces, whose array grows while
    the loop runs, ends: with as many entries in the array at its start as
    [s] holds, the loop tests its condition at most that many times, plus
    once for every node of the model, plus once. *)
Theorem PassTwo_ends Level s : is_Some (PassTwo (PassTwoRounds Level s) Level 0 s).
Proof.
  apply PassTwo_is_Some; [lia|]. unfold PassTwoRounds.
  pose proof (Remaining_le Level (SelectedSurfaceIndices s)). lia.
Qed.

Lemma SelectSurfaces_spec PF_Selected Level s :
  SelectSurfaces PF_Selected Level = Some s →
  Forall (Joined PF_Selected Level) (SelectedSurfaceIndices s)
  ∧ (∀ v, IsSelectedSurface PF_Selected Level v → v ∈ SelectedSurfaceIndices s)
  ∧ ClosedBelow Level (length (SelectedSurfaceIndices s)) (SelectedSurfaceIndices s).
Proof.
  unfold SelectSurfaces.
  destruct (FindSelectedSurfaces _ _ _ _ _) as [s0|] eqn:E0; cbn [mbind option_bind]; [|done].
  apply (FindSelectedSurfaces_spec PF_Selected) in E0 as (J0 & _ & S0);
    [|done|by constructor].
  assert (HS : ∀ v, IsSelectedSurface PF_Selected Level v → v ∈ SelectedSurfaceIndices s0).
  { intros v (i & Surf & -> & Hi & HS). apply (S0 i Surf Hi HS). }
  case_bool_decide as Hlen.
  - destruct (PassTwo _ _ _ _) as [[s1|]|] eqn:E1; cbn; try done. intros [= <-].
    apply (PassTwo_spec PF_Selected) in E1 as (J1 & M1 & C1); [|done|].
    + split_and!; [done| |done]. intros v Hv. by apply M1, HS.
    + intros k ?? Hk. lia.
  - intros [= <-]. split_and!; [done|done|]. intros k ?? Hk. lia.
Qed.

(** The surfaces that the two passes find are exactly those that a chain
    of model components joins to a selected surface: the surfaces with the
    flag or on a selected brush, and with a surface every surface of a node
    of a model component that holds one of its nodes. *)
Theorem SelectSurfaces_Joined PF_Selected Level s SurfIdx :
  SelectSurfaces PF_Selected Level = Some s →
  SurfIdx ∈ SelectedSurfaceIndices s ↔ Joined PF_Selected Level SurfIdx.
Proof.
  intros (HJ & HS & HC)%SelectSurfaces_spec. split.
  - rewrite Forall_forall in HJ. apply HJ.
  - by apply ClosedBelow_Joined.
Qed.

Lemma SelectSurfaces_Joined_witness :
  2 ∈ [0; 1; 2] ↔ Joined ExampleFlag ExampleLevel 2.
Proof.
  apply (SelectSurfaces_Joined ExampleFlag ExampleLevel
           {| SelectedModelComponents := [10; 11]%nat;
              SelectedSurfaceIndices := [0; 1; 2] |} 2).
  vm_compute. reflexivity.
Defined.

(** The node groups that the analysis hands to the gather are those
    groups of the model that hold a node of a surface joined to a selected
    one.  No group is handed over twice, and [bBuildBSPLighting] is set
    exactly when a group is: this is how the gather reads the field
    [SelectedNodeGroups]. *)
Theorem SelectNodeGroups_groups PF_Selected Level s NodeGroupsToBuild bBuildBSPLighting :
  SelectNodeGroups PF_Selected Level = Some (s, NodeGroupsToBuild, bBuildBSPLighting) →
  NoDup NodeGroupsToBuild
  ∧ bBuildBSPLighting = bool_decide (NodeGroupsToBuild ≠ [])
  ∧ ∀ p, p ∈ NodeGroupsToBuild ↔
      ∃ NodeGroup,
        Some NodeGroup ∈ UModel.NodeGroups (Model Level)
        ∧ FNodeGroup.GroupPtr NodeGroup = p
        ∧ GroupOnSurfaces Level (Joined PF_Selected Level) NodeGroup.
Proof.
  unfold SelectNodeGroups.
  destruct (SelectSurfaces PF_Selected Level) as [s1|] eqn:E1; cbn [mbind option_bind];
    [|done].
  assert (HJ : ∀ v, v ∈ SelectedSurfaceIndices s1 ↔ Joined PF_Selected Level v).
  { apply SelectSurfaces_spec in E1 as (HJ & HS & HC). intros v. split.
    - rewrite Forall_forall in HJ. apply HJ.
    - by apply ClosedBelow_Joined. }
  destruct (if bool_decide (0 < length (SelectedSurfaceIndices s1))%nat then _ else _)
    as [[NG b]|] eqn:E2; cbn [mbind option_bind]; [|done].
  intros [= <- <- <-].
  destruct (decide (0 < length (SelectedSurfaceIndices s1))%nat) as [Hlen|Hlen];
    [rewrite bool_decide_eq_true_2 in E2 by done
    |rewrite bool_decide_eq_false_2 in E2 by done].
  - apply AddNodeGroups_spec in E2 as (H1 & H2 & H3). cbn [fst snd] in *.
    split_and!; [apply H2; constructor|by apply H3|].
    intros p. rewrite H1. split.
    + intros [H|(G & ? & ? & HG)]; [by apply elem_of_nil in H|].
      exists G. split_and!; [done..|]. by apply (GroupOnSurfaces_iff _ _ _ _ HJ).
    + intros (G & ? & ? & HG). right. exists G. split_and!; [done..|].
      by apply (GroupOnSurfaces_iff _ _ _ _ HJ).
  - injection E2 as <- <-. split_and!; [constructor|done|].
    intros p. split; [intros H; by apply elem_of_nil in H|].
    intros (G & _ & _ & gn & n & _ & _ & Hn%HJ).
    destruct (SelectedSurfaceIndices s1); [by apply elem_of_nil in Hn|cbn in Hlen; lia].
Qed.

Lemma SelectNodeGroups_groups_witness :
  NoDup [30; 32]%nat
  ∧ true = bool_decide ([30; 32]%nat ≠ [])
  ∧ ∀ p, p ∈ [30; 32]%nat ↔
      ∃ NodeGroup,
        Some NodeGroup ∈ UModel.NodeGroups (Model ExampleLevel)
        ∧ FNodeGroup.GroupPtr NodeGroup = p
        ∧ GroupOnSurfaces ExampleLevel (Joined ExampleFlag ExampleLevel) NodeGroup.
Proof.
  apply (SelectNodeGroups_groups ExampleFlag ExampleLevel
           {| SelectedModelComponents := [10; 11]%nat;
              SelectedSurfaceIndices := [0; 1; 2] |}).
  vm_compute. reflexivity.
Defined.

(** The analysis runs to its end, with no index out of range, on every
    level in which the component index of each node of the model, the
    nodes of each model component and the nodes of each node group are in
    range. *)
Theorem SelectNodeGroups_returns PF_Selected Level :
  IndicesInRange Level = true → is_Some (SelectNodeGroups PF_Selected Level).
Proof.
  intros HR. unfold SelectNodeGroups, SelectSurfaces.
  destruct (FindSelectedSurfaces_returns PF_Selected Level (UModel.Surfs (Model Level)) 0
              {| SelectedModelComponents := []; SelectedSurfaceIndices := [] |} HR)
    as [s0 ->]. cbn [mbind option_bind].
  assert (∃ s1, (if bool_decide (0 < length (SelectedSurfaceIndices s0))%nat
                 then mjoin (PassTwo (PassTwoRounds Level s0) Level 0 s0)
                 else Some s0) = Some s1) as [s1 ->].
  { case_bool_decide; [|by eexists].
    destruct (PassTwo_is_Some Level (PassTwoRounds Level s0) 0 s0) as [[s1|] E].
    + lia.
    + unfold PassTwoRounds. pose proof (Remaining_le Level (SelectedSurfaceIndices s0)). lia.
    + rewrite E. by eexists.
    + by apply PassTwo_returns in E. }
  cbn [mbind option_bind].
  destruct (IndicesInRange_spec _ HR) as (_ & _ & H3).
  assert (∃ r, (if bool_decide (0 < length (SelectedSurfaceIndices s1))%nat
                then AddNodeGroups Level (SelectedSurfaceIndices s1)
                       (UModel.NodeGroups (Model Level)) ([], false)
                else Some ([], false)) = Some r) as [[NG b] ->].
  { case_bool_decide; [|by eexists].
    by apply AddNodeGroups_returns. }
  done.
Qed.

Lemma SelectNodeGroups_returns_witness :
  is_Some (SelectNodeGroups ExampleFlag ExampleLevel).
Proof.
  apply (SelectNodeGroups_returns ExampleFlag ExampleLevel). vm_compute. reflexivity.
Defined.

End SelectionFacts.

(** * The manager and the build stages *)

#[local] Arguments FinishLightmassProcess : simpl never.
#[local] Arguments BeginLightmassProcess : simpl never.
#[local] Arguments FailLightingBuild : simpl never.
#[local] Arguments DestroyStaticLightingSystem : simpl never.
#[local] Arguments ClearCurrentNotification : simpl never.
#[local] Arguments SetNotificationText : simpl never.
#[local] Arguments SendBuildDoneNotification : simpl never.
#[local] Arguments SendProgressNotification : simpl never.
#[local] Arguments ProcessLightingData : simpl never.
#[local] Arguments FStaticLightingSystem_dtor : simpl never.

Lemma ClearCurrentNotification_only ed : NotificationsOnly ed (ClearCurrentNotification ed).
Proof.
  unfold NotificationsOnly, ClearCurrentNotification.
  destruct (LightBuildNotification (Manager ed)); simpl; auto.
Qed.

Lemma ClearCurrentNotification_handle ed :
  LightBuildNotification (Manager (ClearCurrentNotification ed)) = None.
Proof.
  unfold ClearCurrentNotification.
  destruct (LightBuildNotification (Manager ed)) eqn:E; simpl; auto.
Qed.

Lemma SetNotificationText_only Text ed : NotificationsOnly ed (SetNotificationText Text ed).
Proof.
  unfold NotificationsOnly, SetNotificationText.
  destruct (LightBuildNotification (Manager ed)); simpl; auto.
Qed.

Lemma SendBuildDoneNotification_only b ed : NotificationsOnly ed (SendBuildDoneNotification b ed).
Proof. unfold NotificationsOnly, SendBuildDoneNotification. simpl; auto. Qed.

Lemma SendProgressNotification_only ed : NotificationsOnly ed (SendProgressNotification ed).
Proof. unfold NotificationsOnly, SendProgressNotification. simpl; auto. Qed.

Lemma dtor_spec env This g :
  ∃ es, Log (FStaticLightingSystem_dtor env (This, g)).2 = Log g ++ es
        ∧ (CloseJob ∉ es)
        ∧ bMapBuildCancelled (FStaticLightingSystem_dtor env (This, g)).2 = bMapBuildCancelled g
        ∧ Notifications (FStaticLightingSystem_dtor env (This, g)).2 = Notifications g
        ∧ FStaticLightingSystem.CurrentBuildStage (FStaticLightingSystem_dtor env (This, g)).1
          = FStaticLightingSystem.CurrentBuildStage This.
Proof.
  unfold FStaticLightingSystem_dtor.
  destruct (FStaticLightingSystem.bCrashTrackerOriginallyEnabled This);
    destruct (CrashTracker env); simpl;
    destruct (FStaticLightingSystem.LightmassProcessor This); simpl;
    rewrite <- ?app_assoc; simpl;
    (eexists; split; [ try reflexivity; symmetry; apply app_nil_r |]);
    (split; [|auto]);
    rewrite ?elem_of_cons, ?elem_of_nil; intuition congruence.
Qed.

Lemma DestroyStaticLightingSystem_live env ed this This :
  StaticLightingSystem (Manager ed) = Some this →
  SystemObjects ed !! this = Some This →
  ∃ ed', DestroyStaticLightingSystem env ed = Some ed'
    ∧ StaticLightingSystem (Manager ed') = None
    ∧ LightBuildNotification (Manager ed') = LightBuildNotification (Manager ed)
    ∧ LiveSystems ed' = LiveSystems ed ∖ {[this]}
    ∧ SystemObjects ed'
      = <[this := (FStaticLightingSystem_dtor env (This, Glob ed)).1]> (SystemObjects ed)
    ∧ Glob ed' = (FStaticLightingSystem_dtor env (This, Glob ed)).2.
Proof.
  intros Hs Ho. unfold DestroyStaticLightingSystem, CallOnThis. rewrite Hs. simpl.
  rewrite Ho. simpl. eexists. split; [reflexivity|]. simpl. auto 10.
Qed.

Lemma DestroyStaticLightingSystem_null env ed :
  StaticLightingSystem (Manager ed) = None → DestroyStaticLightingSystem env ed = Some ed.
Proof. intros Hs. unfold DestroyStaticLightingSystem. by rewrite Hs. Qed.

Lemma FailLightingBuild_live env ErrorText ed this This :
  StaticLightingSystem (Manager ed) = Some this →
  SystemObjects ed !! this = Some This →
  ∃ ed' es Handle,
    FailLightingBuild env ErrorText ed = Some ed'
    ∧ StaticLightingSystem (Manager ed') = None
    ∧ LiveSystems ed' = LiveSystems ed ∖ {[this]}
    ∧ (FStaticLightingSystem.CurrentBuildStage <$> SystemObjects ed' !! this)
      = Some (FStaticLightingSystem.CurrentBuildStage This)
    ∧ (∀ p, p ≠ this → SystemObjects ed' !! p = SystemObjects ed !! p)
    ∧ Log (Glob ed') = Log (Glob ed) ++ MessageLog_Open :: es
    ∧ (CloseJob ∉ es)
    ∧ bMapBuildCancelled (Glob ed') = bMapBuildCancelled (Glob ed)
    ∧ LightBuildNotification (Manager ed') = Some Handle
    ∧ Notifications (Glob ed') !! Handle
      = Some {| Text := FailureText (bMapBuildCancelled (Glob ed)) ErrorText;
                CompletionState := CS_Fail; bExpireAndFadeout := false |}.
Proof.
  intros Hs Ho. unfold FailLightingBuild.
  destruct (ClearCurrentNotification_only ed) as (Hs1 & Ho1 & Hl1 & Hg1 & Hc1).
  set (ed1 := ClearCurrentNotification ed) in *.
  rewrite Hc1. fold (FailureText (bMapBuildCancelled (Glob ed)) ErrorText).
  set (T := FailureText _ _).
  unfold AddNotification.
  match goal with |- context [DestroyStaticLightingSystem env ?e] => set (ed2 := e) end.
  destruct (DestroyStaticLightingSystem_live env ed2 this This) as (ed' & -> & Hs' & Hn' & Hl' & Ho' & Hg').
  { subst ed2. simpl. congruence. }
  { subst ed2. simpl. congruence. }
  destruct (dtor_spec env This (Glob ed2)) as (es & Hlog & Hes & Hcan & Hnot & Hst).
  subst ed2. simpl in *.
  exists ed', es, (length (Notifications (Glob ed1))).
  split; [reflexivity|]. split; [exact Hs'|].
  split; [congruence|].
  split; [rewrite Ho', lookup_insert_eq; simpl; congruence|].
  split; [intros p Hp; rewrite Ho', lookup_insert_ne by congruence; congruence|].
  split; [rewrite Hg', Hlog, Hg1, <- app_assoc; reflexivity|].
  split; [exact Hes|].
  split; [congruence|].
  split; [exact Hn'|].
  rewrite Hg', Hnot.
  rewrite list_lookup_alter_eq, lookup_app_r, Nat.sub_diag by lia. reflexivity.
Qed.

Lemma ManagerInv_NotificationsOnly ed ed' :
  NotificationsOnly ed ed' → ManagerInv ed → ManagerInv ed'.
Proof.
  intros (Hs & Ho & Hl & Hg & _). unfold ManagerInv. rewrite Hs, Ho, Hl, Hg. auto.
Qed.

Lemma NotificationsOnly_trans ed1 ed2 ed3 :
  NotificationsOnly ed1 ed2 → NotificationsOnly ed2 ed3 → NotificationsOnly ed1 ed3.
Proof. unfold NotificationsOnly. intuition congruence. Qed.

Lemma Building_stage This Stage :
  Building This →
  Stage ∈ [AmortizedExport; SwarmKickoff; AsynchronousBuilding; AutoApplyingImport;
           WaitingForImport] →
  Building (FStaticLightingSystem.set_CurrentBuildStage Stage This).
Proof. intros [Hp _] HS. split; [exact Hp | exact HS]. Qed.

Lemma FinishLightmassProcess_Some env This g :
  FStaticLightingSystem.LightmassProcessor This ≠ None →
  ∃ b st, FinishLightmassProcess env (This, g) = Some (b, st)
          ∧ ∃ es, Log st.2 = Log g ++ es.
Proof.
  intros Hp. unfold FinishLightmassProcess. simpl.
  destruct (FStaticLightingSystem.LightmassProcessor This); [|congruence]. simpl.
  eexists _, _. split; [reflexivity|]. simpl.
  repeat match goal with |- context [if ?b then _ else _] => destruct b end;
    simpl; rewrite <- ?app_assoc; eexists; reflexivity.
Qed.

(** [ProcessLightingData] ends the build whatever happens in it. *)
Lemma ProcessLightingData_live env bDiscardResults ed this This :
  StaticLightingSystem (Manager ed) = Some this →
  SystemObjects ed !! this = Some This →
  FStaticLightingSystem.LightmassProcessor This ≠ None →
  ∃ ed', ProcessLightingData env bDiscardResults ed = Some ed'
    ∧ StaticLightingSystem (Manager ed') = None
    ∧ LiveSystems ed' = LiveSystems ed ∖ {[this]}.
Proof.
  intros Hs Ho Hp. unfold ProcessLightingData. rewrite Hs. simpl.
  destruct bDiscardResults; simpl.
  - destruct (DestroyStaticLightingSystem_live env ed this This Hs Ho)
      as (ed' & -> & Hs' & _ & Hl' & _). simpl.
    destruct (ClearCurrentNotification_only ed') as (? & ? & ? & _).
    eexists. split; [reflexivity|]. split; congruence.
  - unfold CallOnThis. rewrite Ho. simpl.
    destruct (FinishLightmassProcess_Some env This (Glob ed) Hp) as (b & st & -> & _). simpl.
    match goal with |- context [if b then Some ?e else _] => set (ed1 := e) end.
    assert (Hs1 : StaticLightingSystem (Manager ed1) = Some this) by (subst ed1; simpl; done).
    assert (Ho1 : SystemObjects ed1 !! this = Some st.1)
      by (subst ed1; simpl; by rewrite lookup_insert_eq).
    assert (Hl1 : LiveSystems ed1 = LiveSystems ed) by (subst ed1; simpl; done).
    destruct b.
    + simpl.
      destruct (DestroyStaticLightingSystem_live env ed1 this _ Hs1 Ho1)
        as (ed' & -> & Hs' & _ & Hl' & _). simpl.
      destruct (ClearCurrentNotification_only ed') as (? & ? & ? & _).
      eexists. split; [reflexivity|]. split; congruence.
    + destruct (FailLightingBuild_live env FText_Empty ed1 this _ Hs1 Ho1)
        as (ed' & es & h & -> & Hs' & Hl' & _). simpl.
      rewrite (DestroyStaticLightingSystem_null env ed' Hs'). simpl.
      destruct (ClearCurrentNotification_only ed') as (? & ? & ? & _).
      eexists. split; [reflexivity|]. split; congruence.
Qed.

#[local] Arguments KickoffSwarm : simpl never.
#[local] Arguments WriteThis : simpl never.

Lemma WriteThis_spec this f ed :
  Manager (WriteThis this f ed) = Manager ed
  ∧ LiveSystems (WriteThis this f ed) = LiveSystems ed
  ∧ Glob (WriteThis this f ed) = Glob ed
  ∧ ∀ This, SystemObjects ed !! this = Some This →
            SystemObjects (WriteThis this f ed) !! this = Some (f This).
Proof.
  unfold WriteThis. simpl. split; [done|]. split; [done|]. split; [done|].
  intros This Ho. by rewrite lookup_alter_eq, Ho.
Qed.

Lemma ManagerInv_intro_live ed this This :
  StaticLightingSystem (Manager ed) = Some this →
  LiveSystems ed = {[this]} →
  OpenJob ∈ Log (Glob ed) →
  SystemObjects ed !! this = Some This →
  Building This →
  ManagerInv ed.
Proof. intros Hs Hl Hg Ho HB. unfold ManagerInv. rewrite Hs. eauto. Qed.

Lemma ManagerInv_intro_null ed :
  StaticLightingSystem (Manager ed) = None → LiveSystems ed = ∅ → ManagerInv ed.
Proof. intros Hs Hl. unfold ManagerInv. by rewrite Hs. Qed.

Lemma ManagerInv_live ed this :
  ManagerInv ed → StaticLightingSystem (Manager ed) = Some this →
  LiveSystems ed = {[this]} ∧ OpenJob ∈ Log (Glob ed)
  ∧ ∃ This, SystemObjects ed !! this = Some This ∧ Building This.
Proof. unfold ManagerInv. intros H Hs. by rewrite Hs in H. Qed.

(** A tick in the stage AsynchronousBuilding. *)
Lemma UpdateLightingBuild_AsynchronousBuilding env ed this This :
  ManagerInv ed →
  StaticLightingSystem (Manager ed) = Some this →
  SystemObjects ed !! this = Some This →
  FStaticLightingSystem.CurrentBuildStage This = AsynchronousBuilding →
  ∃ ed', UpdateLightingBuild env this ed = Some ed' ∧ ManagerInv ed' ∧
    if Update_Result env then
      if IsProcessingCompletedSuccessfully env then
        StaticLightingSystem (Manager ed') = Some this
        ∧ LiveSystems ed' = {[this]}
        ∧ SystemObjects ed' !! this
          = Some (FStaticLightingSystem.set_CurrentBuildStage AutoApplyingImport This)
      else
        StaticLightingSystem (Manager ed') = None
        ∧ LiveSystems ed' = ∅
        ∧ (FStaticLightingSystem.CurrentBuildStage <$> SystemObjects ed' !! this)
          = Some NotRunning
        ∧ ∃ Handle,
            LightBuildNotification (Manager ed') = Some Handle
            ∧ Notifications (Glob ed') !! Handle
              = Some {| Text := FailureText (bMapBuildCancelled (Glob ed)) FText_Empty;
                        CompletionState := CS_Fail; bExpireAndFadeout := false |}
    else
      StaticLightingSystem (Manager ed') = Some this
      ∧ LiveSystems ed' = LiveSystems ed
      ∧ SystemObjects ed' = SystemObjects ed.
Proof.
  intros Hinv Hs Ho Hstage.
  destruct (ManagerInv_live ed this Hinv Hs) as (Hl & Hg & This' & Ho' & HB).
  assert (This' = This) as -> by congruence.
  destruct HB as [Hp HS].
  unfold UpdateLightingBuild. rewrite Ho. simpl. rewrite Hstage.
  destruct (FStaticLightingSystem.LightmassProcessor This) as [proc|] eqn:Eproc; [|congruence].
  simpl.
  match goal with |- context [SetNotificationText ?T ?e] =>
    set (ed1 := SetNotificationText T e);
    assert (H1 : NotificationsOnly (set_Glob (emit Update (Glob ed)) ed) ed1)
      by apply SetNotificationText_only
  end.
  destruct H1 as (Hs1 & Ho1 & Hl1 & Hg1 & Hc1). simpl in *.
  destruct (Update_Result env).
  - destruct (ClearCurrentNotification_only ed1) as (Hs2 & Ho2 & Hl2 & Hg2 & Hc2).
    set (ed2 := ClearCurrentNotification ed1) in *.
    destruct (IsProcessingCompletedSuccessfully env).
    + eexists. split; [reflexivity|].
      destruct (WriteThis_spec this
                  (FStaticLightingSystem.set_CurrentBuildStage AutoApplyingImport) ed2)
        as (Hm & Hl3 & Hg3 & Ho3).
      assert (Ho4 : SystemObjects
                      (WriteThis this
                         (FStaticLightingSystem.set_CurrentBuildStage AutoApplyingImport) ed2)
                    !! this
                    = Some (FStaticLightingSystem.set_CurrentBuildStage AutoApplyingImport This)).
      { apply Ho3. by rewrite Ho2, Ho1. }
      split.
      * eapply (ManagerInv_intro_live _ this); [| | |exact Ho4|].
        -- rewrite Hm. congruence.
        -- congruence.
        -- rewrite Hg3, Hg2, Hg1. rewrite elem_of_app. auto.
        -- split; [simpl; by rewrite Eproc|]. simpl. rewrite !elem_of_cons. auto 10.
      * split; [rewrite Hm; congruence|]. split; [congruence|]. exact Ho4.
    + destruct (FailLightingBuild_live env FText_Empty ed2 this This)
        as (ed3 & es & Handle & -> & Hs3 & Hl3 & Ho3 & _ & Hg3 & _ & Hc3 & Hn3 & Hi3);
        [congruence | congruence |].
      simpl. eexists. split; [reflexivity|].
      destruct (WriteThis_spec this
                  (FStaticLightingSystem.set_CurrentBuildStage NotRunning) ed3)
        as (Hm & Hl4 & Hg4 & Ho4).
      assert (Hl5 : LiveSystems ed3 = ∅).
      { rewrite Hl3, Hl2, Hl1, Hl. apply difference_diag_L. }
      split; [apply ManagerInv_intro_null; [rewrite Hm; exact Hs3 | congruence]|].
      split; [rewrite Hm; exact Hs3|]. split; [congruence|].
      split.
      * destruct (SystemObjects ed3 !! this) as [This3|] eqn:E3; [|discriminate].
        by rewrite (Ho4 This3 eq_refl).
      * exists Handle. rewrite Hm, Hg4. split; [exact Hn3|].
        rewrite Hi3, Hc2, Hc1. reflexivity.
  - eexists. split; [reflexivity|].
    split; [|split; [congruence|split; congruence]].
    apply (ManagerInv_intro_live ed1 this This); [congruence|congruence| |rewrite Ho1; exact Ho|].
    + rewrite Hg1, elem_of_app. auto.
    + split; [by rewrite Eproc|exact HS].
Qed.

(** A tick in the stage AutoApplyingImport. *)
Lemma UpdateLightingBuild_AutoApplyingImport env ed this This :
  ManagerInv ed →
  StaticLightingSystem (Manager ed) = Some this →
  SystemObjects ed !! this = Some This →
  FStaticLightingSystem.CurrentBuildStage This = AutoApplyingImport →
  ∃ ed', UpdateLightingBuild env this ed = Some ed' ∧ ManagerInv ed' ∧
    if CanAutoApplyLighting env then
      (ProcessLightingData env false (SendBuildDoneNotification false ed)
         ≫= λ ed, Some (WriteThis this (FStaticLightingSystem.set_CurrentBuildStage NotRunning) ed))
      = Some ed'
      ∧ StaticLightingSystem (Manager ed') = None
      ∧ LiveSystems ed' = ∅
    else
      StaticLightingSystem (Manager ed') = Some this
      ∧ LiveSystems ed' = LiveSystems ed
      ∧ SystemObjects ed' !! this
        = Some (FStaticLightingSystem.set_CurrentBuildStage WaitingForImport This)
      ∧ Log (Glob ed') = Log (Glob ed)
      ∧ ∃ Handle,
          LightBuildNotification (Manager ed') = Some Handle
          ∧ Notifications (Glob ed') !! Handle
            = Some {| Text := LOCTEXT "LightBuildDoneMessage";
                      CompletionState := CS_Pending; bExpireAndFadeout := false |}.
Proof.
  intros Hinv Hs Ho Hstage.
  destruct (ManagerInv_live ed this Hinv Hs) as (Hl & Hg & This' & Ho' & HB).
  assert (This' = This) as -> by congruence.
  destruct HB as [Hp HS].
  unfold UpdateLightingBuild. rewrite Ho. simpl. rewrite Hstage.
  destruct (CanAutoApplyLighting env).
  - destruct (SendBuildDoneNotification_only false ed) as (Hs1 & Ho1 & Hl1 & Hg1 & Hc1).
    set (ed1 := SendBuildDoneNotification false ed) in *.
    destruct (ProcessLightingData_live env false ed1 this This) as (ed2 & E & Hs2 & Hl2);
      [congruence | congruence | exact Hp |].
    rewrite E. simpl. eexists. split; [reflexivity|].
    destruct (WriteThis_spec this (FStaticLightingSystem.set_CurrentBuildStage NotRunning) ed2)
      as (Hm & Hl3 & _).
    assert (Hl4 : LiveSystems ed2 = ∅) by (rewrite Hl2, Hl1, Hl; apply difference_diag_L).
    split; [apply ManagerInv_intro_null; [rewrite Hm; exact Hs2 | congruence]|].
    split; [reflexivity|]. split; [rewrite Hm; exact Hs2 | congruence].
  - eexists. split; [reflexivity|].
    destruct (SendBuildDoneNotification_only true ed) as (Hs1 & Ho1 & Hl1 & Hg1 & Hc1).
    set (ed1 := SendBuildDoneNotification true ed) in *.
    destruct (WriteThis_spec this (FStaticLightingSystem.set_CurrentBuildStage WaitingForImport) ed1)
      as (Hm & Hl3 & Hg3 & Ho3).
    specialize (Ho3 This). rewrite Ho1 in Ho3. specialize (Ho3 Ho).
    split.
    + eapply (ManagerInv_intro_live _ this); [rewrite Hm; congruence | congruence | | exact Ho3 |].
      * rewrite Hg3, Hg1. exact Hg.
      * split; [exact Hp|]. simpl. rewrite !elem_of_cons. auto 10.
    + split; [rewrite Hm; congruence|]. split; [congruence|]. split; [exact Ho3|].
      split; [congruence|].
      rewrite Hm, Hg3. subst ed1. unfold SendBuildDoneNotification. simpl.
      eexists. split; [reflexivity|].
      rewrite list_lookup_alter_eq, lookup_app_r, Nat.sub_diag by lia. reflexivity.
Qed.

Lemma UpdateLightingBuild_ManagerInv env ed this :
  ManagerInv ed →
  StaticLightingSystem (Manager ed) = Some this →
  ∃ ed', UpdateLightingBuild env this ed = Some ed' ∧ ManagerInv ed'.
Proof.
  intros Hinv Hs.
  destruct (ManagerInv_live ed this Hinv Hs) as (Hl & Hg & This & Ho & HB).
  pose proof HB as [Hp HS].
  destruct (FStaticLightingSystem.LightmassProcessor This) as [proc|] eqn:Eproc; [clear Hp|done].
  rewrite !elem_of_cons, elem_of_nil in HS.
  destruct HS as [HS|[HS|[HS|[HS|[HS|[]]]]]].
  - (* AmortizedExport *)
    unfold UpdateLightingBuild. rewrite Ho. simpl. rewrite HS, Eproc. simpl.
    match goal with |- context [SetNotificationText ?T ?e] =>
      set (ed1 := SetNotificationText T e);
      assert (H1 : NotificationsOnly e ed1) by apply SetNotificationText_only
    end.
    destruct H1 as (Hs1 & Ho1 & Hl1 & Hg1 & Hc1). simpl in *.
    assert (Hin : OpenJob ∈ Log (Glob ed1)) by (rewrite Hg1, elem_of_app; auto).
    destruct (ExecuteAmortizedMaterialExport_Result env).
    + eexists. split; [reflexivity|].
      match goal with |- ManagerInv (WriteThis this ?f ?e) =>
        set (ed2 := e);
        destruct (WriteThis_spec this f ed2) as (Hm & Hl3 & Hg3 & Ho3)
      end.
      assert (H2 : StaticLightingSystem (Manager ed2) = Some this
                   ∧ LiveSystems ed2 = {[this]} ∧ OpenJob ∈ Log (Glob ed2)
                   ∧ ∃ This2, SystemObjects ed2 !! this = Some This2
                              ∧ FStaticLightingSystem.LightmassProcessor This2 = Some proc).
      { subst ed2.
        destruct (FStaticLightingSystem.bCrashTrackerOriginallyEnabled This);
          [destruct (CrashTracker env)|].
        - match goal with |- context [WriteThis this ?f ?e] =>
            destruct (WriteThis_spec this f e) as (Hm' & Hl' & Hg' & Ho')
          end.
          rewrite Hm', Hl', Hg'. simpl.
          split; [congruence|]. split; [congruence|].
          split; [rewrite elem_of_app; auto|].
          eexists. split; [apply Ho'; simpl; rewrite Ho1; exact Ho|]. simpl. exact Eproc.
        - split; [congruence|]. split; [congruence|]. split; [done|].
          rewrite Ho1. eauto.
        - split; [congruence|]. split; [congruence|]. split; [done|].
          rewrite Ho1. eauto. }
      destruct H2 as (Hs2 & Hl2 & Hg2 & This2 & Ho2 & Hp2).
      specialize (Ho3 _ Ho2).
      eapply (ManagerInv_intro_live _ this); [rewrite Hm; congruence | congruence | | exact Ho3 |].
      * by rewrite Hg3.
      * split; [simpl; by rewrite Hp2|]. simpl. rewrite !elem_of_cons. auto 10.
    + eexists. split; [reflexivity|].
      apply (ManagerInv_intro_live _ this This); [congruence|congruence|done| |done].
      by rewrite Ho1.
  - (* SwarmKickoff *)
    unfold UpdateLightingBuild. rewrite Ho. simpl. rewrite HS.
    match goal with |- context [SetNotificationText ?T ?e] =>
      set (ed1 := SetNotificationText T e);
      assert (H1 : NotificationsOnly e ed1) by apply SetNotificationText_only
    end.
    destruct H1 as (Hs1 & Ho1 & Hl1 & Hg1 & Hc1).
    unfold KickoffSwarm. rewrite Ho1, Ho. simpl. rewrite Eproc. simpl.
    destruct (BeginRun_Result env).
    + eexists. split; [reflexivity|].
      match goal with |- ManagerInv (WriteThis this ?f ?e) =>
        set (ed2 := e);
        destruct (WriteThis_spec this f ed2) as (Hm & Hl3 & Hg3 & Ho3)
      end.
      assert (Ho2 : SystemObjects ed2 !! this = Some This)
        by (subst ed2; simpl; by rewrite Ho1).
      specialize (Ho3 This Ho2). subst ed2.
      eapply (ManagerInv_intro_live _ this); [rewrite Hm; simpl; congruence
                                             | rewrite Hl3; simpl; congruence | | exact Ho3 |].
      * rewrite Hg3. simpl. rewrite Hg1, elem_of_app. auto.
      * split; [simpl; by rewrite Eproc|]. simpl. rewrite !elem_of_cons. auto 10.
    + match goal with |- context [FailLightingBuild env ?T ?e] =>
        destruct (FailLightingBuild_live env T e this This) as (ed3 & es & h & -> & Hs3 & Hl3 & _)
      end; [simpl; congruence | simpl; congruence |].
      eexists. split; [reflexivity|].
      apply ManagerInv_intro_null; [done|]. rewrite Hl3. simpl. rewrite Hl1, Hl.
      apply difference_diag_L.
  - destruct (UpdateLightingBuild_AsynchronousBuilding env ed this This Hinv Hs Ho HS)
      as (ed' & E & Hinv' & _). eauto.
  - destruct (UpdateLightingBuild_AutoApplyingImport env ed this This Hinv Hs Ho HS)
      as (ed' & E & Hinv' & _). eauto.
  - unfold UpdateLightingBuild. rewrite Ho. simpl. rewrite HS. eauto.
Qed.

Lemma InitiateLightmassProcessor_true env st st' :
  InitiateLightmassProcessor env st = Some (true, st') →
  Building st'.1 ∧ OpenJob ∈ Log st'.2 ∧ OpenJob_Result env = true.
Proof.
  destruct st as [this g]. unfold InitiateLightmassProcessor, Building.
  destruct (bMapBuildCancelled g); simpl; [congruence|].
  destruct (FStaticLightingSystem.LightmassProcessor this); simpl; [|congruence].
  destruct (OpenJob_Result env); [|congruence].
  destruct (CrashTracker env); intros [= <-]; simpl;
    (split; [split; [congruence | apply list_elem_of_here] | split; [|reflexivity]]);
    rewrite !elem_of_app, !elem_of_cons; auto 10.
Qed.

Lemma BeginLightmassProcess_true env st st' :
  BeginLightmassProcess env st = Some (true, st') →
  Building st'.1 ∧ OpenJob ∈ Log st'.2.
Proof.
  unfold BeginLightmassProcess.
  destruct (BeginLightmassProcess_StartupStatScope env st) as [loc st1].
  destruct (BeginLightmassProcess_CollectStatScope loc st1) as [st2|]; simpl; [|congruence].
  destruct (Local_bForceNoPrecomputedLighting loc); simpl; [congruence|].
  destruct (CreateLightmassProcessor env st2) as [[b st3]|]; simpl; [|congruence].
  destruct b.
  - destruct (GatherScene st3) as [st4|]; simpl; [|congruence].
    destruct (InitiateLightmassProcessor env st4) as [[b st5]|] eqn:E; simpl; [|congruence].
    intros [= -> <-]. apply InitiateLightmassProcessor_true in E as (HB & HO & _).
    simpl. split; [exact HB|]. rewrite elem_of_app. auto.
  - simpl. congruence.
Qed.

#[local] Arguments CreateStaticLightingSystem : simpl never.
#[local] Arguments CancelLightingBuild : simpl never.
#[local] Arguments UpdateLightingBuild : simpl never.

Lemma CancelLightingBuild_spec env ed this This :
  StaticLightingSystem (Manager ed) = Some this →
  SystemObjects ed !! this = Some This →
  CancelLightingBuild env ed
  = if IsAsyncBuilding This
    then Some (ClearCurrentNotification (set_Glob (SetMapBuildCancelled true (Glob ed)) ed))
    else FailLightingBuild env FText_Empty ed.
Proof. intros Hs Ho. unfold CancelLightingBuild. rewrite Hs. simpl. by rewrite Ho. Qed.

Lemma CancelLightingBuild_ManagerInv env ed ed' :
  ManagerInv ed → CancelLightingBuild env ed = Some ed' → ManagerInv ed'.
Proof.
  intros Hinv E.
  destruct (StaticLightingSystem (Manager ed)) as [this|] eqn:Hs;
    [|unfold CancelLightingBuild in E; rewrite Hs in E; discriminate].
  destruct (ManagerInv_live ed this Hinv Hs) as (Hl & Hg & This & Ho & HB).
  rewrite (CancelLightingBuild_spec env ed this This Hs Ho) in E.
  destruct (IsAsyncBuilding This).
  - injection E as <-.
    eapply ManagerInv_NotificationsOnly; [apply ClearCurrentNotification_only|].
    by eapply (ManagerInv_intro_live _ this This).
  - destruct (FailLightingBuild_live env FText_Empty ed this This Hs Ho)
      as (ed3 & es & h & E3 & Hs3 & Hl3 & _).
    assert (ed3 = ed') as -> by congruence.
    apply ManagerInv_intro_null; [done|]. rewrite Hl3, Hl. apply difference_diag_L.
Qed.

Lemma ProcessLightingData_ManagerInv env b ed ed' :
  ManagerInv ed → ProcessLightingData env b ed = Some ed' → ManagerInv ed'.
Proof.
  intros Hinv E.
  destruct (StaticLightingSystem (Manager ed)) as [this|] eqn:Hs;
    [|unfold ProcessLightingData in E; rewrite Hs in E; discriminate].
  destruct (ManagerInv_live ed this Hinv Hs) as (Hl & Hg & This & Ho & [Hp HS]).
  destruct (ProcessLightingData_live env b ed this This Hs Ho Hp) as (ed2 & E2 & Hs2 & Hl2).
  assert (ed2 = ed') as -> by congruence.
  apply ManagerInv_intro_null; [done|]. rewrite Hl2, Hl. apply difference_diag_L.
Qed.

Lemma alter_snoc {A} (f : A → A) (l : list A) (x : A) :
  alter f (length l) (l ++ [x]) = l ++ [f x].
Proof. rewrite <- (Nat.add_0_r (length l)) at 1. by rewrite alter_app_r. Qed.

(** A build request while a system is alive: a warning is shown and
    nothing else changes. *)
Lemma CreateStaticLightingSystem_busy env Options ed this :
  StaticLightingSystem (Manager ed) = Some this →
  ∃ ed', CreateStaticLightingSystem env Options ed = Some ed'
    ∧ Manager ed' = Manager ed
    ∧ SystemObjects ed' = SystemObjects ed
    ∧ LiveSystems ed' = LiveSystems ed
    ∧ Glob ed'
      = set_Notifications
          (Notifications (Glob ed) ++
             [{| Text := LOCTEXT "LightBuildInProgressWarning";
                 CompletionState := CS_Fail; bExpireAndFadeout := false |}]) (Glob ed).
Proof.
  intros Hs. unfold CreateStaticLightingSystem. rewrite Hs.
  eexists. split; [reflexivity|]. simpl.
  split; [by destruct ed as [[] ? ? ?]|]. split; [done|]. split; [done|].
  unfold set_Notifications. simpl. by rewrite alter_snoc.
Qed.

Lemma CreateStaticLightingSystem_ManagerInv env Options ed ed' :
  ManagerInv ed → CreateStaticLightingSystem env Options ed = Some ed' → ManagerInv ed'.
Proof.
  intros Hinv E.
  destruct (StaticLightingSystem (Manager ed)) as [this|] eqn:Hs.
  - destruct (CreateStaticLightingSystem_busy env Options ed this Hs)
      as (ed2 & E2 & Hm & Ho & Hl & Hg).
    assert (ed2 = ed') as -> by congruence.
    revert Hinv. unfold ManagerInv. rewrite Hm, Ho, Hl, Hg. done.
  - revert E. unfold CreateStaticLightingSystem, CallOnThis. rewrite Hs. simpl.
    rewrite lookup_insert_eq. simpl.
    set (this := fresh (dom (SystemObjects ed))).
    destruct (BeginLightmassProcess env _) as [[b st]|] eqn:EB; simpl; [|discriminate].
    assert (Hl : LiveSystems ed = ∅) by (revert Hinv; unfold ManagerInv; by rewrite Hs).
    destruct b.
    + intros [= <-].
      apply BeginLightmassProcess_true in EB as [HB HO].
      eapply ManagerInv_NotificationsOnly; [apply SendProgressNotification_only|].
      eapply (ManagerInv_intro_live _ this); simpl; [done| |exact HO|by rewrite lookup_insert_eq|done].
      rewrite Hl. apply (right_id_L ∅ (∪)).
    + match goal with |- DestroyStaticLightingSystem env ?e = _ → _ =>
        destruct (DestroyStaticLightingSystem_live env e this st.1) as (ed3 & -> & Hs3 & _ & Hl3 & _)
      end; [done | simpl; by rewrite lookup_insert_eq |].
      intros [= <-]. apply ManagerInv_intro_null; [done|].
      rewrite Hl3. simpl. rewrite Hl, (right_id_L ∅ (∪)). apply difference_diag_L.
Qed.

Lemma Run_ManagerInv env c ed ed' :
  ManagerInv ed → Run env c ed = Some ed' → ManagerInv ed'.
Proof.
  intros Hinv. destruct c; simpl.
  - unfold BuildLighting. apply CreateStaticLightingSystem_ManagerInv.
    revert Hinv. unfold ManagerInv. simpl.
    destruct (StaticLightingSystem (Manager ed)); [|done].
    intros (? & ? & ?). split; [done|]. split; [|done]. rewrite elem_of_app. auto.
  - unfold UpdateBuildLighting.
    destruct (StaticLightingSystem (Manager ed)) as [this|] eqn:Hs; [|congruence].
    destruct (UpdateLightingBuild_ManagerInv env ed this Hinv Hs) as (ed2 & -> & H2).
    congruence.
  - by apply CancelLightingBuild_ManagerInv.
  - by apply ProcessLightingData_ManagerInv.
Qed.

Lemma Reachable_ManagerInv ed0 ed :
  NoBuildYet ed0 → Reachable ed0 ed → ManagerInv ed.
Proof.
  intros (Hs & Hl & _). induction 1 as [|ed ed' env c _ IH E].
  - by apply ManagerInv_intro_null.
  - by eapply Run_ManagerInv.
Qed.

Lemma RunAll_Reachable cs ed0 ed :
  RunAll cs ed0 = Some ed → Reachable ed0 ed.
Proof.
  revert ed. induction cs as [|[env c] cs IH] using rev_ind; intros ed; simpl.
  - intros [= <-]. constructor.
  - intros E.
    assert (H : ∃ ed1, RunAll cs ed0 = Some ed1 ∧ Run env c ed1 = Some ed).
    { clear IH. revert ed0 E. induction cs as [|[env' c'] cs IH]; intros ed0; simpl.
      - destruct (Run env c ed0) eqn:E0; simpl; [|discriminate]. intros [= <-]. eauto.
      - destruct (Run env' c' ed0); simpl; [|discriminate]. apply IH. }
    destruct H as (ed1 & E1 & E2). eapply Reachable_step; [apply IH; exact E1 | exact E2].
Qed.

Lemma ExampleAfter_Reachable cs :
  is_Some (RunAll cs (ExampleEditor true)) → Reachable (ExampleEditor true) (ExampleAfter cs).
Proof.
  intros [ed E]. apply (RunAll_Reachable cs). unfold ExampleAfter. by rewrite E.
Qed.

(** C2: a tick in stage AsynchronousBuilding, in any state that calls on
    the manager reach, polls the build.  If the processor's update says
    that it finished and the processing completed successfully, the stage
    becomes AutoApplyingImport and the system stays alive.  If it finished
    and the processing failed, the build is failed: the system is
    destroyed, the manager's pointer is NULL, the stage written last is
    NotRunning and the failure notification is up.  If it did not finish,
    the system stays as it was, in stage AsynchronousBuilding. *)
Theorem UpdateBuildLighting_AsynchronousBuilding ed0 ed env this This :
  NoBuildYet ed0 → Reachable ed0 ed →
  StaticLightingSystem (Manager ed) = Some this →
  SystemObjects ed !! this = Some This →
  FStaticLightingSystem.CurrentBuildStage This = AsynchronousBuilding →
  ∃ ed', UpdateBuildLighting env ed = Some ed' ∧
    if Update_Result env then
      if IsProcessingCompletedSuccessfully env then
        StaticLightingSystem (Manager ed') = Some this
        ∧ LiveSystems ed' = {[this]}
        ∧ SystemObjects ed' !! this
          = Some (FStaticLightingSystem.set_CurrentBuildStage AutoApplyingImport This)
      else
        StaticLightingSystem (Manager ed') = None
        ∧ LiveSystems ed' = ∅
        ∧ (FStaticLightingSystem.CurrentBuildStage <$> SystemObjects ed' !! this)
          = Some NotRunning
        ∧ ∃ Handle,
            LightBuildNotification (Manager ed') = Some Handle
            ∧ Notifications (Glob ed') !! Handle
              = Some {| Text := FailureText (bMapBuildCancelled (Glob ed)) FText_Empty;
                        CompletionState := CS_Fail; bExpireAndFadeout := false |}
    else
      StaticLightingSystem (Manager ed') = Some this
      ∧ LiveSystems ed' = LiveSystems ed
      ∧ SystemObjects ed' = SystemObjects ed.
Proof.
  intros H0 HR Hs Ho Hstage.
  pose proof (Reachable_ManagerInv ed0 ed H0 HR) as Hinv.
  destruct (UpdateLightingBuild_AsynchronousBuilding env ed this This Hinv Hs Ho Hstage)
    as (ed' & E & _ & H).
  exists ed'. split; [|exact H]. unfold UpdateBuildLighting. by rewrite Hs.
Qed.

Lemma UpdateBuildLighting_AsynchronousBuilding_witness :
  let ed := ExampleAfter [ExampleBuild; ExampleTick; ExampleTick] in
  FStaticLightingSystem.CurrentBuildStage
    (ExampleSystem [ExampleBuild; ExampleTick; ExampleTick]) = AsynchronousBuilding
  ∧ ∃ ed', UpdateBuildLighting QuietEnv ed = Some ed'
      ∧ StaticLightingSystem (Manager ed') = Some 0%nat
      ∧ LiveSystems ed' = {[0%nat]}
      ∧ SystemObjects ed' !! 0%nat
        = Some (FStaticLightingSystem.set_CurrentBuildStage AutoApplyingImport
                  (ExampleSystem [ExampleBuild; ExampleTick; ExampleTick])).
Proof.
  split; [vm_compute; reflexivity|].
  apply (UpdateBuildLighting_AsynchronousBuilding (ExampleEditor true)
           (ExampleAfter [ExampleBuild; ExampleTick; ExampleTick]) QuietEnv 0%nat
           (ExampleSystem [ExampleBuild; ExampleTick; ExampleTick])).
  - vm_compute. auto.
  - apply ExampleAfter_Reachable. vm_compute. eauto.
  - vm_compute. reflexivity.
  - vm_compute. reflexivity.
  - vm_compute. reflexivity.
Defined.

(** C3: in any state that calls on the manager reach, at most one system
    is alive; and while the manager points to a system, a request to
    create another is answered with the notification
    LightBuildInProgressWarning in state failed: no system is created, and
    the manager, the system objects with their stages and data, the live
    systems and all globals but the notifications stay as they were. *)
Theorem CreateStaticLightingSystem_while_alive ed0 ed :
  NoBuildYet ed0 → Reachable ed0 ed →
  (size (LiveSystems ed) ≤ 1)%nat
  ∧ ∀ this, StaticLightingSystem (Manager ed) = Some this →
      LiveSystems ed = {[this]}
      ∧ ∀ env Options,
          ∃ ed', CreateStaticLightingSystem env Options ed = Some ed'
            ∧ Manager ed' = Manager ed
            ∧ SystemObjects ed' = SystemObjects ed
            ∧ LiveSystems ed' = LiveSystems ed
            ∧ Glob ed'
              = set_Notifications
                  (Notifications (Glob ed) ++
                     [{| Text := LOCTEXT "LightBuildInProgressWarning";
                         CompletionState := CS_Fail; bExpireAndFadeout := false |}])
                  (Glob ed).
Proof.
  intros H0 HR. pose proof (Reachable_ManagerInv ed0 ed H0 HR) as Hinv.
  split.
  - revert Hinv. unfold ManagerInv.
    destruct (StaticLightingSystem (Manager ed)) as [this|].
    + intros [-> _]. by rewrite size_singleton.
    + intros ->. rewrite size_empty. lia.
  - intros this Hs.
    destruct (ManagerInv_live ed this Hinv Hs) as (Hl & _).
    split; [exact Hl|]. intros env Options.
    by apply (CreateStaticLightingSystem_busy env Options ed this).
Qed.

Lemma CreateStaticLightingSystem_while_alive_witness :
  let ed := ExampleAfter [ExampleBuild; ExampleTick] in
  (size (LiveSystems ed) ≤ 1)%nat
  ∧ ∀ this, StaticLightingSystem (Manager ed) = Some this →
      LiveSystems ed = {[this]}
      ∧ ∀ env Options,
          ∃ ed', CreateStaticLightingSystem env Options ed = Some ed'
            ∧ Manager ed' = Manager ed
            ∧ SystemObjects ed' = SystemObjects ed
            ∧ LiveSystems ed' = LiveSystems ed
            ∧ Glob ed'
              = set_Notifications
                  (Notifications (Glob ed) ++
                     [{| Text := LOCTEXT "LightBuildInProgressWarning";
                         CompletionState := CS_Fail; bExpireAndFadeout := false |}])
                  (Glob ed).
Proof.
  apply (CreateStaticLightingSystem_while_alive (ExampleEditor true)
           (ExampleAfter [ExampleBuild; ExampleTick])).
  - vm_compute. auto.
  - apply ExampleAfter_Reachable. vm_compute. eauto.
Defined.

Lemma CanAutoApplyLighting_iff env :
  CanAutoApplyLighting env = true ↔ SpecAutoApplyConditions env ∧ GIsDemoMode env = false.
Proof.
  unfold CanAutoApplyLighting, SpecAutoApplyConditions.
  rewrite !andb_true_iff, !negb_true_iff. tauto.
Qed.

(** C4, as stated, fails in demo mode: the six conditions hold there, and
    the results are not applied automatically. *)
Lemma CanAutoApplyLighting_demo_mode :
  SpecAutoApplyConditions DemoEnv ∧ CanAutoApplyLighting DemoEnv = false.
Proof. split; [unfold SpecAutoApplyConditions; cbn; auto 10|reflexivity]. Qed.

(** C4, amended: the results are applied automatically if and only if the
    six conditions hold and the editor is not in demo mode.  A tick in
    stage AutoApplyingImport then imports the results and ends the build;
    otherwise it moves the build to WaitingForImport, under the
    notification that asks for confirmation, and calls nothing else. *)
Theorem AutoApplyingImport_gate ed0 ed env this This :
  NoBuildYet ed0 → Reachable ed0 ed →
  StaticLightingSystem (Manager ed) = Some this →
  SystemObjects ed !! this = Some This →
  FStaticLightingSystem.CurrentBuildStage This = AutoApplyingImport →
  (CanAutoApplyLighting env = true ↔ SpecAutoApplyConditions env ∧ GIsDemoMode env = false)
  ∧ ∃ ed', UpdateBuildLighting env ed = Some ed' ∧
      if CanAutoApplyLighting env then
        (ProcessLightingData env false (SendBuildDoneNotification false ed)
           ≫= λ ed, Some (WriteThis this (FStaticLightingSystem.set_CurrentBuildStage NotRunning) ed))
        = Some ed'
        ∧ StaticLightingSystem (Manager ed') = None
        ∧ LiveSystems ed' = ∅
      else
        StaticLightingSystem (Manager ed') = Some this
        ∧ LiveSystems ed' = LiveSystems ed
        ∧ SystemObjects ed' !! this
          = Some (FStaticLightingSystem.set_CurrentBuildStage WaitingForImport This)
        ∧ Log (Glob ed') = Log (Glob ed)
        ∧ ∃ Handle,
            LightBuildNotification (Manager ed') = Some Handle
            ∧ Notifications (Glob ed') !! Handle
              = Some {| Text := LOCTEXT "LightBuildDoneMessage";
                        CompletionState := CS_Pending; bExpireAndFadeout := false |}.
Proof.
  intros H0 HR Hs Ho Hstage.
  split; [apply CanAutoApplyLighting_iff|].
  pose proof (Reachable_ManagerInv ed0 ed H0 HR) as Hinv.
  destruct (UpdateLightingBuild_AutoApplyingImport env ed this This Hinv Hs Ho Hstage)
    as (ed' & E & _ & H).
  exists ed'. split; [|exact H]. unfold UpdateBuildLighting. by rewrite Hs.
Qed.

Lemma AutoApplyingImport_gate_witness :
  let cs := [ExampleBuild; ExampleTick; ExampleTick; ExampleTick] in
  FStaticLightingSystem.CurrentBuildStage (ExampleSystem cs) = AutoApplyingImport
  ∧ CanAutoApplyLighting DemoEnv = false
  ∧ ∃ ed', UpdateBuildLighting DemoEnv (ExampleAfter cs) = Some ed'
      ∧ StaticLightingSystem (Manager ed') = Some 0%nat
      ∧ LiveSystems ed' = LiveSystems (ExampleAfter cs)
      ∧ SystemObjects ed' !! 0%nat
        = Some (FStaticLightingSystem.set_CurrentBuildStage WaitingForImport (ExampleSystem cs))
      ∧ Log (Glob ed') = Log (Glob (ExampleAfter cs))
      ∧ ∃ Handle,
          LightBuildNotification (Manager ed') = Some Handle
          ∧ Notifications (Glob ed') !! Handle
            = Some {| Text := LOCTEXT "LightBuildDoneMessage";
                      CompletionState := CS_Pending; bExpireAndFadeout := false |}.
Proof.
  intros cs. split; [vm_compute; reflexivity|]. split; [reflexivity|].
  apply (AutoApplyingImport_gate (ExampleEditor true) (ExampleAfter cs) DemoEnv 0%nat
           (ExampleSystem cs)).
  - vm_compute. auto.
  - apply ExampleAfter_Reachable. vm_compute. eauto.
  - vm_compute. reflexivity.
  - vm_compute. reflexivity.
  - vm_compute. reflexivity.
Defined.



(** C6: a cancellation in stage AmortizedExport destroys the system at
    once (the manager's pointer is NULL, no build is running) and the
    calls it makes do not include CloseJob; in that stage the Swarm job
    has been opened already, OpenJob being in the log. *)
Theorem CancelLightingBuild_AmortizedExport ed0 ed env this This :
  NoBuildYet ed0 → Reachable ed0 ed →
  StaticLightingSystem (Manager ed) = Some this →
  SystemObjects ed !! this = Some This →
  FStaticLightingSystem.CurrentBuildStage This = AmortizedExport →
  OpenJob ∈ Log (Glob ed)
  ∧ ∃ ed' es,
      CancelLightingBuild env ed = Some ed'
      ∧ StaticLightingSystem (Manager ed') = None
      ∧ LiveSystems ed' = ∅
      ∧ IsLightingBuildCurrentlyRunning ed' = false
      ∧ Log (Glob ed') = Log (Glob ed) ++ es
      ∧ CloseJob ∉ es.
Proof.
  intros H0 HR Hs Ho Hstage.
  pose proof (Reachable_ManagerInv ed0 ed H0 HR) as Hinv.
  destruct (ManagerInv_live ed this Hinv Hs) as (Hl & Hg & _).
  split; [exact Hg|].
  rewrite (CancelLightingBuild_spec env ed this This Hs Ho). unfold IsAsyncBuilding.
  rewrite bool_decide_eq_false_2 by (rewrite Hstage; discriminate).
  destruct (FailLightingBuild_live env FText_Empty ed this This Hs Ho)
    as (ed3 & es & h & E3 & Hs3 & Hl3 & _ & _ & Hg3 & Hes & _).
  exists ed3, (MessageLog_Open :: es). split; [exact E3|]. split; [exact Hs3|].
  split; [rewrite Hl3, Hl; apply difference_diag_L|].
  split; [unfold IsLightingBuildCurrentlyRunning; rewrite Hs3; reflexivity|].
  split; [exact Hg3|]. rewrite not_elem_of_cons. split; [discriminate|exact Hes].
Qed.

Lemma CancelLightingBuild_AmortizedExport_witness :
  let cs := [ExampleBuild] in
  FStaticLightingSystem.CurrentBuildStage (ExampleSystem cs) = AmortizedExport
  ∧ OpenJob ∈ Log (Glob (ExampleAfter cs))
  ∧ ∃ ed' es,
      CancelLightingBuild QuietEnv (ExampleAfter cs) = Some ed'
      ∧ StaticLightingSystem (Manager ed') = None
      ∧ LiveSystems ed' = ∅
      ∧ IsLightingBuildCurrentlyRunning ed' = false
      ∧ Log (Glob ed') = Log (Glob (ExampleAfter cs)) ++ es
      ∧ CloseJob ∉ es.
Proof.
  intros cs. split; [vm_compute; reflexivity|].
  apply (CancelLightingBuild_AmortizedExport (ExampleEditor true) (ExampleAfter cs) QuietEnv
           0%nat (ExampleSystem cs)).
  - vm_compute. auto.
  - apply ExampleAfter_Reachable. vm_compute. eauto.
  - vm_compute. reflexivity.
  - vm_compute. reflexivity.
  - vm_compute. reflexivity.
Defined.

(** * The stages of a build, call by call *)

(** ** The export and the kickoff *)

Lemma SetNotificationText_Notifications Text ed :
  Notifications (Glob (SetNotificationText Text ed))
  = match LightBuildNotification (Manager ed) with
    | Some Handle => alter (SetText Text) Handle (Notifications (Glob ed))
    | None => Notifications (Glob ed)
    end
  ∧ Manager (SetNotificationText Text ed) = Manager ed.
Proof.
  unfold SetNotificationText. destruct (LightBuildNotification (Manager ed)); [|done].
  by destruct ed as [[] ? ? ?].
Qed.

Lemma UpdateLightingBuild_AmortizedExport env ed this This :
  SystemObjects ed !! this = Some This →
  FStaticLightingSystem.CurrentBuildStage This = AmortizedExport →
  FStaticLightingSystem.LightmassProcessor This ≠ None →
  ∃ ed',
    UpdateLightingBuild env this ed = Some ed'
    ∧ Manager ed' = Manager ed
    ∧ LiveSystems ed' = LiveSystems ed
    ∧ Notifications (Glob ed')
      = match LightBuildNotification (Manager ed) with
        | Some Handle =>
            alter (SetText (FText_Format "LightExportProgressMessage"
                              (AmortizedExportPercentDone env)))
              Handle (Notifications (Glob ed))
        | None => Notifications (Glob ed)
        end
    ∧ if ExecuteAmortizedMaterialExport_Result env then
        let bReenable :=
          FStaticLightingSystem.bCrashTrackerOriginallyEnabled This
          && bool_decide (is_Some (CrashTracker env)) in
        SystemObjects ed' !! this
        = Some (FStaticLightingSystem.set_CurrentBuildStage SwarmKickoff
                  (if bReenable
                   then FStaticLightingSystem.set_bCrashTrackerOriginallyEnabled false This
                   else This))
        ∧ Log (Glob ed')
          = Log (Glob ed) ++ ExecuteAmortizedMaterialExport
              :: (if bReenable then [SetCrashTrackingEnabled true] else [])
      else
        SystemObjects ed' !! this = Some This
        ∧ Log (Glob ed') = Log (Glob ed) ++ [ExecuteAmortizedMaterialExport].
Proof.
  intros Ho Hstage Hp.
  unfold UpdateLightingBuild. rewrite Ho. simpl. rewrite Hstage.
  destruct (FStaticLightingSystem.LightmassProcessor This) as [proc|] eqn:Eproc; [|done].
  simpl.
  match goal with |- context [SetNotificationText ?T ?e] =>
    set (ed1 := SetNotificationText T e);
    assert (H1 : NotificationsOnly e ed1) by apply SetNotificationText_only;
    destruct (SetNotificationText_Notifications T e) as [Hn1 Hm1]
  end.
  fold ed1 in Hn1, Hm1.
  destruct H1 as (Hs1 & Ho1 & Hl1 & Hg1 & Hc1). simpl in *.
  destruct (ExecuteAmortizedMaterialExport_Result env).
  - eexists. split; [reflexivity|].
    match goal with |- context [WriteThis this ?f ?e] =>
      set (ed2 := e);
      destruct (WriteThis_spec this f ed2) as (Hm & Hl3 & Hg3 & Ho3)
    end.
    rewrite Hm, Hl3, Hg3.
    destruct (FStaticLightingSystem.bCrashTrackerOriginallyEnabled This);
      [destruct (CrashTracker env) as [b|]|]; subst ed2; cbn [andb].
    + match goal with |- context [WriteThis this ?f ?e] =>
        destruct (WriteThis_spec this f e) as (Hm' & Hl' & Hg' & Ho')
      end.
      rewrite Hm', Hl', Hg'. simpl.
      rewrite ?bool_decide_eq_true_2 by eauto.
      split; [done|]. split; [done|]. split; [done|].
      split; [|by rewrite Hg1, <- app_assoc].
      apply Ho3, Ho'. simpl. by rewrite Ho1.
    + rewrite ?bool_decide_eq_false_2 by (by intros [? ?]).
      split; [done|]. split; [done|]. split; [done|]. split; [|done].
      apply Ho3. by rewrite Ho1.
    + split; [done|]. split; [done|]. split; [done|]. split; [|done].
      apply Ho3. by rewrite Ho1.
  - eexists. split; [reflexivity|]. rewrite Ho1. done.
Qed.

(** A tick in stage AmortizedExport runs a slice of the material export
    and shows its progress in the notification.  When the export is
    complete the stage becomes SwarmKickoff, and crash tracking is switched
    back on if the build had found it capturing and the crash tracker
    module is loaded; otherwise the system stays as it was. *)
Theorem UpdateBuildLighting_AmortizedExport ed0 ed env this This :
  NoBuildYet ed0 → Reachable ed0 ed →
  StaticLightingSystem (Manager ed) = Some this →
  SystemObjects ed !! this = Some This →
  FStaticLightingSystem.CurrentBuildStage This = AmortizedExport →
  ∃ ed',
    UpdateBuildLighting env ed = Some ed'
    ∧ Manager ed' = Manager ed
    ∧ LiveSystems ed' = LiveSystems ed
    ∧ Notifications (Glob ed')
      = match LightBuildNotification (Manager ed) with
        | Some Handle =>
            alter (SetText (FText_Format "LightExportProgressMessage"
                              (AmortizedExportPercentDone env)))
              Handle (Notifications (Glob ed))
        | None => Notifications (Glob ed)
        end
    ∧ if ExecuteAmortizedMaterialExport_Result env then
        let bReenable :=
          FStaticLightingSystem.bCrashTrackerOriginallyEnabled This
          && bool_decide (is_Some (CrashTracker env)) in
        SystemObjects ed' !! this
        = Some (FStaticLightingSystem.set_CurrentBuildStage SwarmKickoff
                  (if bReenable
                   then FStaticLightingSystem.set_bCrashTrackerOriginallyEnabled false This
                   else This))
        ∧ Log (Glob ed')
          = Log (Glob ed) ++ ExecuteAmortizedMaterialExport
              :: (if bReenable then [SetCrashTrackingEnabled true] else [])
      else
        SystemObjects ed' !! this = Some This
        ∧ Log (Glob ed') = Log (Glob ed) ++ [ExecuteAmortizedMaterialExport].
Proof.
  intros H0 HR Hs Ho Hstage.
  pose proof (Reachable_ManagerInv ed0 ed H0 HR) as Hinv.
  destruct (ManagerInv_live ed this Hinv Hs) as (_ & _ & This' & Ho' & [Hp _]).
  assert (This' = This) as -> by congruence.
  unfold UpdateBuildLighting. rewrite Hs.
  by apply UpdateLightingBuild_AmortizedExport.
Qed.

Lemma UpdateBuildLighting_AmortizedExport_witness :
  let ed := ExampleAfter [ExampleBuild] in
  let This := ExampleSystem [ExampleBuild] in
  ∃ ed',
    UpdateBuildLighting QuietEnv ed = Some ed'
    ∧ Manager ed' = Manager ed
    ∧ LiveSystems ed' = LiveSystems ed
    ∧ Notifications (Glob ed')
      = match LightBuildNotification (Manager ed) with
        | Some Handle =>
            alter (SetText (FText_Format "LightExportProgressMessage"
                              (AmortizedExportPercentDone QuietEnv)))
              Handle (Notifications (Glob ed))
        | None => Notifications (Glob ed)
        end
    ∧ if ExecuteAmortizedMaterialExport_Result QuietEnv then
        let bReenable :=
          FStaticLightingSystem.bCrashTrackerOriginallyEnabled This
          && bool_decide (is_Some (CrashTracker QuietEnv)) in
        SystemObjects ed' !! 0%nat
        = Some (FStaticLightingSystem.set_CurrentBuildStage SwarmKickoff
                  (if bReenable
                   then FStaticLightingSystem.set_bCrashTrackerOriginallyEnabled false This
                   else This))
        ∧ Log (Glob ed')
          = Log (Glob ed) ++ ExecuteAmortizedMaterialExport
              :: (if bReenable then [SetCrashTrackingEnabled true] else [])
      else
        SystemObjects ed' !! 0%nat = Some This
        ∧ Log (Glob ed') = Log (Glob ed) ++ [ExecuteAmortizedMaterialExport].
Proof.
  apply (UpdateBuildLighting_AmortizedExport (ExampleEditor true)
           (ExampleAfter [ExampleBuild]) QuietEnv 0%nat (ExampleSystem [ExampleBuild])).
  - repeat split.
  - apply ExampleAfter_Reachable. vm_compute. eauto.
  - vm_compute. reflexivity.
  - vm_compute. reflexivity.
  - vm_compute. reflexivity.
Defined.

(** ** The end of a build *)

Lemma dtor_calls env This g :
  Log (FStaticLightingSystem_dtor env (This, g)).2 = Log g ++ DtorCalls env This
  ∧ Notifications (FStaticLightingSystem_dtor env (This, g)).2 = Notifications g
  ∧ bMapBuildCancelled (FStaticLightingSystem_dtor env (This, g)).2 = bMapBuildCancelled g.
Proof.
  unfold FStaticLightingSystem_dtor, DtorCalls.
  destruct (FStaticLightingSystem.bCrashTrackerOriginallyEnabled This);
    destruct (CrashTracker env); cbn;
    destruct (FStaticLightingSystem.LightmassProcessor This); cbn;
    rewrite <- ?app_assoc, ?app_nil_r; done.
Qed.

Lemma FinishLightmassProcess_spec env This g :
  FStaticLightingSystem.LightmassProcessor This ≠ None →
  ∃ This' g',
    FinishLightmassProcess env (This, g) = Some (ImportSucceeds env This g, (This', g'))
    ∧ FStaticLightingSystem.bCrashTrackerOriginallyEnabled This'
      = FStaticLightingSystem.bCrashTrackerOriginallyEnabled This
    ∧ FStaticLightingSystem.LightmassProcessor This'
      = FStaticLightingSystem.LightmassProcessor This
    ∧ FStaticLightingSystem.CurrentBuildStage This' = Import
    ∧ FStaticLightingSystem.bBuildCanceled This'
      = FStaticLightingSystem.bBuildCanceled This || bMapBuildCancelled g
    ∧ Log g' = Log g ++ FinishCalls env This g
    ∧ Notifications g' = Notifications g
    ∧ bMapBuildCancelled g' = bMapBuildCancelled g.
Proof.
  intros Hp. unfold FinishLightmassProcess, FinishCalls, ImportSucceeds. cbn.
  destruct (FStaticLightingSystem.LightmassProcessor This) as [proc|] eqn:Ep; [|done].
  cbn.
  destruct (CompleteRun_Result env), (CloseJob_Result env),
    (bOnlyBuildVisibility (FStaticLightingSystem.Options This)),
    (FStaticLightingSystem.bBuildCanceled This) eqn:Ec, (bMapBuildCancelled g) eqn:Em,
    (HasScene (GWorld g)) eqn:Eh;
    cbn; rewrite ?Ep, ?Em, ?Eh, ?Ec; cbn; rewrite ?Ep, ?Em, ?Eh, ?Ec; cbn;
    (eexists _, _; split; [reflexivity|]); cbn; rewrite ?Ep, ?Em, ?Ec, <- ?app_assoc; cbn; done.
Qed.

Lemma DestroyStaticLightingSystem_calls env ed this This :
  StaticLightingSystem (Manager ed) = Some this →
  SystemObjects ed !! this = Some This →
  ∃ ed', DestroyStaticLightingSystem env ed = Some ed'
    ∧ StaticLightingSystem (Manager ed') = None
    ∧ LightBuildNotification (Manager ed') = LightBuildNotification (Manager ed)
    ∧ LiveSystems ed' = LiveSystems ed ∖ {[this]}
    ∧ Log (Glob ed') = Log (Glob ed) ++ DtorCalls env This
    ∧ Notifications (Glob ed') = Notifications (Glob ed)
    ∧ bMapBuildCancelled (Glob ed') = bMapBuildCancelled (Glob ed).
Proof.
  intros Hs Ho.
  destruct (DestroyStaticLightingSystem_live env ed this This Hs Ho)
    as (ed' & E & Hs' & Hn' & Hl' & _ & Hg').
  destruct (dtor_calls env This (Glob ed)) as (HL & HN & HC).
  exists ed'. rewrite Hg'. done.
Qed.

Lemma ClearCurrentNotification_length ed :
  length (Notifications (Glob (ClearCurrentNotification ed))) = length (Notifications (Glob ed)).
Proof.
  unfold ClearCurrentNotification. destruct (LightBuildNotification (Manager ed)); [|done].
  cbn. by rewrite !length_alter.
Qed.

Lemma FailLightingBuild_calls env ErrorText ed this This :
  StaticLightingSystem (Manager ed) = Some this →
  SystemObjects ed !! this = Some This →
  ∃ ed', FailLightingBuild env ErrorText ed = Some ed'
    ∧ StaticLightingSystem (Manager ed') = None
    ∧ LightBuildNotification (Manager ed') = Some (length (Notifications (Glob ed)))
    ∧ LiveSystems ed' = LiveSystems ed ∖ {[this]}
    ∧ Log (Glob ed') = Log (Glob ed) ++ MessageLog_Open :: DtorCalls env This
    ∧ Notifications (Glob ed')
      = Notifications (Glob (ClearCurrentNotification ed))
        ++ [{| Text := FailureText (bMapBuildCancelled (Glob ed)) ErrorText;
               CompletionState := CS_Fail; bExpireAndFadeout := false |}]
    ∧ bMapBuildCancelled (Glob ed') = bMapBuildCancelled (Glob ed).
Proof.
  intros Hs Ho. unfold FailLightingBuild.
  destruct (ClearCurrentNotification_only ed) as (Hs1 & Ho1 & Hl1 & Hg1 & Hc1).
  pose proof (ClearCurrentNotification_length ed) as Hlen.
  set (ed1 := ClearCurrentNotification ed) in *.
  rewrite Hc1. fold (FailureText (bMapBuildCancelled (Glob ed)) ErrorText).
  set (T := FailureText _ _).
  unfold AddNotification.
  match goal with |- context [DestroyStaticLightingSystem env ?e] => set (ed2 := e) end.
  destruct (DestroyStaticLightingSystem_calls env ed2 this This)
    as (ed' & -> & Hs' & Hn' & Hl' & Hg' & HN' & HC').
  { subst ed2. cbn. congruence. }
  { subst ed2. cbn. congruence. }
  subst ed2. cbn in *.
  exists ed'. split; [done|]. split; [done|]. split; [by rewrite Hn', Hlen|].
  split; [by rewrite Hl', Hl1|].
  split; [by rewrite Hg', Hg1, <- app_assoc|].
  split; [|by rewrite HC', Hc1].
  rewrite HN'. by rewrite alter_snoc.
Qed.

Lemma UpdateLightingBuild_SwarmKickoff env ed this This :
  StaticLightingSystem (Manager ed) = Some this →
  SystemObjects ed !! this = Some This →
  FStaticLightingSystem.CurrentBuildStage This = SwarmKickoff →
  FStaticLightingSystem.LightmassProcessor This ≠ None →
  ∃ ed',
    UpdateLightingBuild env this ed = Some ed'
    ∧ if BeginRun_Result env then
        Manager ed' = Manager ed
        ∧ LiveSystems ed' = LiveSystems ed
        ∧ SystemObjects ed' !! this
          = Some (FStaticLightingSystem.set_CurrentBuildStage AsynchronousBuilding This)
        ∧ Log (Glob ed') = Log (Glob ed) ++ [BeginRun]
      else
        StaticLightingSystem (Manager ed') = None
        ∧ LiveSystems ed' = LiveSystems ed ∖ {[this]}
        ∧ Log (Glob ed')
          = Log (Glob ed) ++ [BeginRun; MessageLog_Open]
            ++ (if FStaticLightingSystem.bCrashTrackerOriginallyEnabled This
                   && bool_decide (is_Some (CrashTracker env))
                then [SetCrashTrackingEnabled true] else [])
            ++ [DeleteLightmassProcessor]
        ∧ ∃ Handle,
            LightBuildNotification (Manager ed') = Some Handle
            ∧ Notifications (Glob ed') !! Handle
              = Some {| Text := FailureText (bMapBuildCancelled (Glob ed))
                                  (LOCTEXT "SwarmKickoffFailedMessage");
                        CompletionState := CS_Fail; bExpireAndFadeout := false |}.
Proof.
  intros Hs Ho Hstage Hp.
  unfold UpdateLightingBuild. rewrite Ho. simpl. rewrite Hstage.
  destruct (FStaticLightingSystem.LightmassProcessor This) as [proc|] eqn:Eproc; [|done].
  match goal with |- context [SetNotificationText ?T ?e] =>
    set (ed1 := SetNotificationText T e);
    assert (H1 : NotificationsOnly e ed1) by apply SetNotificationText_only;
    destruct (SetNotificationText_Notifications T e) as [Hn1 Hm1]
  end.
  fold ed1 in Hn1, Hm1.
  destruct H1 as (Hs1 & Ho1 & Hl1 & Hg1 & Hc1).
  unfold KickoffSwarm. rewrite Ho1, Ho. simpl. rewrite Eproc. simpl.
  destruct (BeginRun_Result env).
  - eexists. split; [reflexivity|].
    match goal with |- context [WriteThis this ?f ?e] =>
      destruct (WriteThis_spec this f e) as (Hm & Hl3 & Hg3 & Ho3)
    end.
    rewrite Hm, Hl3, Hg3. simpl.
    split; [done|]. split; [done|]. split; [|by rewrite Hg1].
    apply Ho3. simpl. by rewrite Ho1.
  - match goal with |- context [FailLightingBuild env ?T ?e] =>
      destruct (FailLightingBuild_live env T e this This)
        as (ed3 & es & h & E3 & Hs3 & Hl3 & _ & _ & _ & _ & _ & Hh3 & Hn3);
      [simpl; congruence | simpl; congruence |];
      destruct (FailLightingBuild_calls env T e this This)
        as (ed3' & E3' & _ & _ & _ & Hg3 & _)
    end; [simpl; congruence | simpl; congruence |].
    assert (ed3' = ed3) as -> by congruence. rewrite E3.
    simpl in *. eexists. split; [reflexivity|].
    split; [done|]. split; [by rewrite Hl3, Hl1|].
    split.
    { rewrite Hg3, Hg1, <- app_assoc. unfold DtorCalls. rewrite Eproc.
      by rewrite (bool_decide_eq_true_2 (is_Some (Some proc))) by eauto. }
    exists h. split; [done|]. by rewrite Hn3, Hc1.
Qed.

(** A tick in stage SwarmKickoff starts the Swarm run.  If that succeeds
    the stage becomes AsynchronousBuilding.  If it fails the build is
    failed: the system is destroyed, and the notification shown says that
    Swarm failed to kick off, or that the build was cancelled when it
    was. *)
Theorem UpdateBuildLighting_SwarmKickoff ed0 ed env this This :
  NoBuildYet ed0 → Reachable ed0 ed →
  StaticLightingSystem (Manager ed) = Some this →
  SystemObjects ed !! this = Some This →
  FStaticLightingSystem.CurrentBuildStage This = SwarmKickoff →
  ∃ ed',
    UpdateBuildLighting env ed = Some ed'
    ∧ if BeginRun_Result env then
        Manager ed' = Manager ed
        ∧ LiveSystems ed' = LiveSystems ed
        ∧ SystemObjects ed' !! this
          = Some (FStaticLightingSystem.set_CurrentBuildStage AsynchronousBuilding This)
        ∧ Log (Glob ed') = Log (Glob ed) ++ [BeginRun]
      else
        StaticLightingSystem (Manager ed') = None
        ∧ LiveSystems ed' = ∅
        ∧ Log (Glob ed')
          = Log (Glob ed) ++ [BeginRun; MessageLog_Open]
            ++ (if FStaticLightingSystem.bCrashTrackerOriginallyEnabled This
                   && bool_decide (is_Some (CrashTracker env))
                then [SetCrashTrackingEnabled true] else [])
            ++ [DeleteLightmassProcessor]
        ∧ ∃ Handle,
            LightBuildNotification (Manager ed') = Some Handle
            ∧ Notifications (Glob ed') !! Handle
              = Some {| Text := FailureText (bMapBuildCancelled (Glob ed))
                                  (LOCTEXT "SwarmKickoffFailedMessage");
                        CompletionState := CS_Fail; bExpireAndFadeout := false |}.
Proof.
  intros H0 HR Hs Ho Hstage.
  pose proof (Reachable_ManagerInv ed0 ed H0 HR) as Hinv.
  destruct (ManagerInv_live ed this Hinv Hs) as (Hl & _ & This' & Ho' & [Hp _]).
  assert (This' = This) as -> by congruence.
  unfold UpdateBuildLighting. rewrite Hs.
  destruct (UpdateLightingBuild_SwarmKickoff env ed this This Hs Ho Hstage Hp) as (ed' & E & H).
  exists ed'. split; [done|]. destruct (BeginRun_Result env); [done|].
  destruct H as (H1 & H2 & H3). split; [done|]. split; [|done].
  rewrite H2, Hl. apply difference_diag_L.
Qed.

Lemma UpdateBuildLighting_SwarmKickoff_witness :
  let ed := ExampleAfter [ExampleBuild; ExampleTick] in
  let This := ExampleSystem [ExampleBuild; ExampleTick] in
  ∃ ed',
    UpdateBuildLighting QuietEnv ed = Some ed'
    ∧ if BeginRun_Result QuietEnv then
        Manager ed' = Manager ed
        ∧ LiveSystems ed' = LiveSystems ed
        ∧ SystemObjects ed' !! 0%nat
          = Some (FStaticLightingSystem.set_CurrentBuildStage AsynchronousBuilding This)
        ∧ Log (Glob ed') = Log (Glob ed) ++ [BeginRun]
      else
        StaticLightingSystem (Manager ed') = None
        ∧ LiveSystems ed' = ∅
        ∧ Log (Glob ed')
          = Log (Glob ed) ++ [BeginRun; MessageLog_Open]
            ++ (if FStaticLightingSystem.bCrashTrackerOriginallyEnabled This
                   && bool_decide (is_Some (CrashTracker QuietEnv))
                then [SetCrashTrackingEnabled true] else [])
            ++ [DeleteLightmassProcessor]
        ∧ ∃ Handle,
            LightBuildNotification (Manager ed') = Some Handle
            ∧ Notifications (Glob ed') !! Handle
              = Some {| Text := FailureText (bMapBuildCancelled (Glob ed))
                                  (LOCTEXT "SwarmKickoffFailedMessage");
                        CompletionState := CS_Fail; bExpireAndFadeout := false |}.
Proof.
  apply (UpdateBuildLighting_SwarmKickoff (ExampleEditor true)
           (ExampleAfter [ExampleBuild; ExampleTick]) QuietEnv 0%nat
           (ExampleSystem [ExampleBuild; ExampleTick])).
  - repeat split.
  - apply ExampleAfter_Reachable. vm_compute. eauto.
  - vm_compute. reflexivity.
  - vm_compute. reflexivity.
  - vm_compute. reflexivity.
Defined.

(** ** The moves of a tick *)

(** A tick moves a build forward only.  In any state that calls on the
    manager reach, a tick that returns has done nothing if no build was
    running; if one was, it has either ended the build, which a tick does
    in the stages SwarmKickoff, AsynchronousBuilding and AutoApplyingImport
    only, or left the same system alive, in the stage it was in or in the
    next one. *)
Theorem UpdateBuildLighting_stages ed0 ed env ed' :
  NoBuildYet ed0 → Reachable ed0 ed →
  UpdateBuildLighting env ed = Some ed' →
  match StaticLightingSystem (Manager ed) with
  | None => ed' = ed
  | Some this =>
      ∃ This,
        SystemObjects ed !! this = Some This
        ∧ (StaticLightingSystem (Manager ed') = None
           ∧ LiveSystems ed' = ∅
           ∧ TickMayEnd (FStaticLightingSystem.CurrentBuildStage This) = true
           ∨ StaticLightingSystem (Manager ed') = Some this
             ∧ LiveSystems ed' = {[this]}
             ∧ ∃ This',
                 SystemObjects ed' !! this = Some This'
                 ∧ TickStep (FStaticLightingSystem.CurrentBuildStage This)
                     (FStaticLightingSystem.CurrentBuildStage This') = true)
  end.
Proof.
  intros H0 HR Etick.
  pose proof (Reachable_ManagerInv ed0 ed H0 HR) as Hinv.
  unfold UpdateBuildLighting in Etick.
  destruct (StaticLightingSystem (Manager ed)) as [this|] eqn:Hs; [|by injection Etick as <-].
  revert ed' Etick.
  assert (Hgoal : ∃ ed',
    UpdateLightingBuild env this ed = Some ed'
    ∧ ∃ This,
        SystemObjects ed !! this = Some This
        ∧ (StaticLightingSystem (Manager ed') = None
           ∧ LiveSystems ed' = ∅
           ∧ TickMayEnd (FStaticLightingSystem.CurrentBuildStage This) = true
           ∨ StaticLightingSystem (Manager ed') = Some this
             ∧ LiveSystems ed' = {[this]}
             ∧ ∃ This',
                 SystemObjects ed' !! this = Some This'
                 ∧ TickStep (FStaticLightingSystem.CurrentBuildStage This)
                     (FStaticLightingSystem.CurrentBuildStage This') = true));
    [|destruct Hgoal as (ed1 & E1 & H1); intros ed' Etick; rewrite E1 in Etick;
      by injection Etick as <-].
  destruct (ManagerInv_live ed this Hinv Hs) as (Hl & _ & This & Ho & [Hp HS]).
  rewrite !elem_of_cons, elem_of_nil in HS.
  destruct HS as [HS|[HS|[HS|[HS|[HS|[]]]]]].
  - destruct (UpdateLightingBuild_AmortizedExport env ed this This Ho HS Hp)
      as (ed' & E & Hm & Hl' & _ & H).
    exists ed'. split; [done|]. exists This. split; [done|]. right.
    rewrite Hm, Hl'. split; [done|]. split; [done|].
    destruct (ExecuteAmortizedMaterialExport_Result env).
    + destruct H as [H _]. eexists. split; [exact H|]. by rewrite HS.
    + destruct H as [H _]. eexists. split; [exact H|]. by rewrite HS.
  - destruct (UpdateLightingBuild_SwarmKickoff env ed this This Hs Ho HS Hp) as (ed' & E & H).
    exists ed'. split; [done|]. exists This. split; [done|].
    destruct (BeginRun_Result env).
    + destruct H as (Hm & Hl' & H & _). right. rewrite Hm, Hl'. split; [done|]. split; [done|].
      eexists. split; [exact H|]. by rewrite HS.
    + destruct H as (Hm & Hl' & _). left. split; [done|]. rewrite HS. split; [|done].
      rewrite Hl', Hl. apply difference_diag_L.
  - destruct (UpdateLightingBuild_AsynchronousBuilding env ed this This Hinv Hs Ho HS)
      as (ed' & E & _ & H).
    exists ed'. split; [done|]. exists This. split; [done|].
    destruct (Update_Result env); [destruct (IsProcessingCompletedSuccessfully env)|].
    + destruct H as (Hm & Hl' & H). right. split; [done|]. split; [done|].
      eexists. split; [exact H|]. by rewrite HS.
    + destruct H as (Hm & Hl' & _). left. rewrite HS. done.
    + destruct H as (Hm & Hl' & H). right. split; [done|]. split; [congruence|].
      exists This. rewrite H. split; [done|]. by rewrite HS.
  - destruct (UpdateLightingBuild_AutoApplyingImport env ed this This Hinv Hs Ho HS)
      as (ed' & E & _ & H).
    exists ed'. split; [done|]. exists This. split; [done|].
    destruct (CanAutoApplyLighting env).
    + destruct H as (_ & Hm & Hl'). left. rewrite HS. done.
    + destruct H as (Hm & Hl' & H & _). right. split; [done|]. split; [congruence|].
      eexists. split; [exact H|]. by rewrite HS.
  - exists ed. unfold UpdateLightingBuild. rewrite Ho. cbn. rewrite HS.
    split; [done|]. exists This. split; [done|]. right. split; [done|]. split; [done|].
    exists This. split; [done|]. by rewrite HS.
Qed.

Lemma UpdateBuildLighting_stages_witness :
  let ed := ExampleAfter [ExampleBuild; ExampleTick] in
  let ed' := ExampleAfter [ExampleBuild; ExampleTick; ExampleTick] in
  match StaticLightingSystem (Manager ed) with
  | None => ed' = ed
  | Some this =>
      ∃ This,
        SystemObjects ed !! this = Some This
        ∧ (StaticLightingSystem (Manager ed') = None
           ∧ LiveSystems ed' = ∅
           ∧ TickMayEnd (FStaticLightingSystem.CurrentBuildStage This) = true
           ∨ StaticLightingSystem (Manager ed') = Some this
             ∧ LiveSystems ed' = {[this]}
             ∧ ∃ This',
                 SystemObjects ed' !! this = Some This'
                 ∧ TickStep (FStaticLightingSystem.CurrentBuildStage This)
                     (FStaticLightingSystem.CurrentBuildStage This') = true)
  end.
Proof.
  apply (UpdateBuildLighting_stages (ExampleEditor true)
           (ExampleAfter [ExampleBuild; ExampleTick]) QuietEnv
           (ExampleAfter [ExampleBuild; ExampleTick; ExampleTick])).
  - repeat split.
  - apply ExampleAfter_Reachable. vm_compute. eauto.
  - vm_compute. reflexivity.
Defined.

(** [ProcessLightingData] on a running build: what it calls and what it
    leaves of the notifications. *)
Lemma ProcessLightingData_calls env bDiscardResults ed this This :
  StaticLightingSystem (Manager ed) = Some this →
  SystemObjects ed !! this = Some This →
  FStaticLightingSystem.LightmassProcessor This ≠ None →
  ∃ ed', ProcessLightingData env bDiscardResults ed = Some ed'
    ∧ StaticLightingSystem (Manager ed') = None
    ∧ LightBuildNotification (Manager ed') = None
    ∧ LiveSystems ed' = LiveSystems ed ∖ {[this]}
    ∧ bMapBuildCancelled (Glob ed') = bMapBuildCancelled (Glob ed)
    ∧ if bDiscardResults then
        Log (Glob ed') = Log (Glob ed) ++ DtorCalls env This
        ∧ Notifications (Glob ed') = Notifications (Glob (ClearCurrentNotification ed))
      else
        Log (Glob ed')
        = Log (Glob ed) ++ FinishCalls env This (Glob ed) ++ [OnLightingBuildKept]
          ++ (if ImportSucceeds env This (Glob ed) then [] else [MessageLog_Open])
          ++ DtorCalls env This
        ∧ Notifications (Glob ed')
          = Notifications (Glob (ClearCurrentNotification ed))
            ++ (if ImportSucceeds env This (Glob ed) then []
                else [{| Text := FailureText (bMapBuildCancelled (Glob ed)) FText_Empty;
                         CompletionState := CS_None; bExpireAndFadeout := true |}]).
Proof.
  intros Hs Ho Hp. unfold ProcessLightingData. rewrite Hs. cbn [mbind option_bind].
  destruct bDiscardResults; cbn [negb mbind option_bind].
  - destruct (DestroyStaticLightingSystem_calls env ed this This Hs Ho)
      as (ed' & -> & Hs' & Hn' & Hl' & Hg' & HN' & HC'). cbn [mbind option_bind].
    destruct (ClearCurrentNotification_only ed') as (Hs2 & _ & Hl2 & Hg2 & Hc2).
    pose proof (ClearCurrentNotification_handle ed') as Hh2.
    eexists. split; [reflexivity|]. split; [congruence|]. split; [done|].
    split; [congruence|]. split; [congruence|]. split; [congruence|].
    unfold ClearCurrentNotification. rewrite Hn'.
    destruct (LightBuildNotification (Manager ed)); cbn; by rewrite HN'.
  - unfold CallOnThis. rewrite Ho. cbn [mbind option_bind].
    destruct (FinishLightmassProcess_spec env This (Glob ed) Hp)
      as (This' & g' & -> & Hf' & Hp' & _ & _ & HL' & HN' & HC').
    cbn [mbind option_bind fst snd].
    match goal with |- context [if _ then Some ?e else _] => set (ed1 := e) end.
    assert (Hs1 : StaticLightingSystem (Manager ed1) = Some this) by (subst ed1; cbn; done).
    assert (Ho1 : SystemObjects ed1 !! this = Some This')
      by (subst ed1; cbn; by rewrite lookup_insert_eq).
    assert (Hl1 : LiveSystems ed1 = LiveSystems ed) by (subst ed1; cbn; done).
    assert (Hn1 : LightBuildNotification (Manager ed1) = LightBuildNotification (Manager ed))
      by (subst ed1; cbn; done).
    assert (Hg1 : Log (Glob ed1)
                  = Log (Glob ed) ++ FinishCalls env This (Glob ed) ++ [OnLightingBuildKept])
      by (subst ed1; cbn; by rewrite HL', <- app_assoc).
    assert (HN1 : Notifications (Glob ed1) = Notifications (Glob ed))
      by (subst ed1; cbn; done).
    assert (HC1 : bMapBuildCancelled (Glob ed1) = bMapBuildCancelled (Glob ed))
      by (subst ed1; cbn; done).
    assert (HD : DtorCalls env This' = DtorCalls env This)
      by (unfold DtorCalls; by rewrite Hf', Hp').
    clearbody ed1.
    assert (HClear : Notifications (Glob (ClearCurrentNotification ed1))
                     = Notifications (Glob (ClearCurrentNotification ed))).
    { unfold ClearCurrentNotification. rewrite Hn1.
      destruct (LightBuildNotification (Manager ed)); cbn; by rewrite HN1. }
    destruct (ImportSucceeds env This (Glob ed)).
    + cbn [mbind option_bind].
      destruct (DestroyStaticLightingSystem_calls env ed1 this This' Hs1 Ho1)
        as (ed' & -> & Hs' & Hn' & Hl' & Hg' & HN'' & HC''). cbn [mbind option_bind].
      destruct (ClearCurrentNotification_only ed') as (Hs2 & _ & Hl2 & Hg2 & Hc2).
      pose proof (ClearCurrentNotification_handle ed') as Hh2.
      eexists. split; [reflexivity|]. split; [congruence|]. split; [done|].
      split; [congruence|]. split; [congruence|].
      split; [rewrite Hg2, Hg', Hg1, HD, <- !app_assoc; done|].
      rewrite app_nil_r, <- HClear.
      unfold ClearCurrentNotification. rewrite Hn'.
      destruct (LightBuildNotification (Manager ed1)); cbn; by rewrite HN''.
    + destruct (FailLightingBuild_calls env FText_Empty ed1 this This' Hs1 Ho1)
        as (ed' & -> & Hs' & Hn' & Hl' & Hg' & HN'' & HC''). cbn [mbind option_bind].
      rewrite (DestroyStaticLightingSystem_null env ed' Hs'). cbn [mbind option_bind].
      destruct (ClearCurrentNotification_only ed') as (Hs2 & _ & Hl2 & Hg2 & Hc2).
      pose proof (ClearCurrentNotification_handle ed') as Hh2.
      eexists. split; [reflexivity|]. split; [congruence|]. split; [done|].
      split; [congruence|]. split; [congruence|].
      split; [rewrite Hg2, Hg', Hg1, HD, <- !app_assoc; done|].
      unfold ClearCurrentNotification at 1. rewrite Hn'. cbn.
      rewrite HN'', HN1, HC1, HClear.
      rewrite <- (ClearCurrentNotification_length ed).
      by rewrite !alter_snoc.
Qed.

(** Discarding the results of a build ends it without importing
    anything: the system is destroyed and the notification of the build is
    cleared, and the only calls made are those of the destructor, which
    switches crash tracking back on if the build had switched it off and
    deletes the processor.  The Swarm job is not closed. *)
Theorem ProcessLightingData_discards ed0 ed env this This :
  NoBuildYet ed0 → Reachable ed0 ed →
  StaticLightingSystem (Manager ed) = Some this →
  SystemObjects ed !! this = Some This →
  ∃ ed',
    ProcessLightingData env true ed = Some ed'
    ∧ IsLightingBuildCurrentlyRunning ed' = false
    ∧ LiveSystems ed' = ∅
    ∧ LightBuildNotification (Manager ed') = None
    ∧ Notifications (Glob ed') = Notifications (Glob (ClearCurrentNotification ed))
    ∧ Log (Glob ed')
      = Log (Glob ed)
        ++ (if FStaticLightingSystem.bCrashTrackerOriginallyEnabled This
               && bool_decide (is_Some (CrashTracker env))
            then [SetCrashTrackingEnabled true] else [])
        ++ [DeleteLightmassProcessor].
Proof.
  intros H0 HR Hs Ho.
  pose proof (Reachable_ManagerInv ed0 ed H0 HR) as Hinv.
  destruct (ManagerInv_live ed this Hinv Hs) as (Hl & _ & This' & Ho' & [Hp _]).
  assert (This' = This) as -> by congruence.
  destruct (ProcessLightingData_calls env true ed this This Hs Ho Hp)
    as (ed' & E & Hs' & Hn' & Hl' & _ & HL & HN).
  exists ed'. split; [done|].
  split; [unfold IsLightingBuildCurrentlyRunning; by rewrite Hs'|].
  split; [rewrite Hl', Hl; apply difference_diag_L|]. split; [done|]. split; [done|].
  rewrite HL. unfold DtorCalls.
  destruct (FStaticLightingSystem.LightmassProcessor This) as [proc|]; [|done].
  rewrite (bool_decide_eq_true_2 (is_Some (Some proc))) by eauto. done.
Qed.

Lemma ProcessLightingData_discards_witness :
  let ed := ExampleAfter [ExampleBuild] in
  let This := ExampleSystem [ExampleBuild] in
  ∃ ed',
    ProcessLightingData QuietEnv true ed = Some ed'
    ∧ IsLightingBuildCurrentlyRunning ed' = false
    ∧ LiveSystems ed' = ∅
    ∧ LightBuildNotification (Manager ed') = None
    ∧ Notifications (Glob ed') = Notifications (Glob (ClearCurrentNotification ed))
    ∧ Log (Glob ed')
      = Log (Glob ed)
        ++ (if FStaticLightingSystem.bCrashTrackerOriginallyEnabled This
               && bool_decide (is_Some (CrashTracker QuietEnv))
            then [SetCrashTrackingEnabled true] else [])
        ++ [DeleteLightmassProcessor].
Proof.
  apply (ProcessLightingData_discards (ExampleEditor true) (ExampleAfter [ExampleBuild])
           QuietEnv 0%nat (ExampleSystem [ExampleBuild])).
  - repeat split.
  - apply ExampleAfter_Reachable. vm_compute. eauto.
  - vm_compute. reflexivity.
  - vm_compute. reflexivity.
Defined.

(** Applying the results of a build imports them and ends the build.  The
    import succeeds when the run completes, the Swarm job closes and the
    build was not cancelled; the job is closed whether the run completed
    or not.  On failure the failure notification is added, and it is
    cleared at once like the notification of the build: it ends in no
    completion state, fading out. *)
Theorem ProcessLightingData_applies ed0 ed env this This :
  NoBuildYet ed0 → Reachable ed0 ed →
  StaticLightingSystem (Manager ed) = Some this →
  SystemObjects ed !! this = Some This →
  ∃ ed',
    ProcessLightingData env false ed = Some ed'
    ∧ IsLightingBuildCurrentlyRunning ed' = false
    ∧ LiveSystems ed' = ∅
    ∧ LightBuildNotification (Manager ed') = None
    ∧ Log (Glob ed')
      = Log (Glob ed) ++ FinishCalls env This (Glob ed) ++ [OnLightingBuildKept]
        ++ (if ImportSucceeds env This (Glob ed) then [] else [MessageLog_Open])
        ++ DtorCalls env This
    ∧ Notifications (Glob ed')
      = Notifications (Glob (ClearCurrentNotification ed))
        ++ (if ImportSucceeds env This (Glob ed) then []
            else [{| Text := FailureText (bMapBuildCancelled (Glob ed)) FText_Empty;
                     CompletionState := CS_None; bExpireAndFadeout := true |}]).
Proof.
  intros H0 HR Hs Ho.
  pose proof (Reachable_ManagerInv ed0 ed H0 HR) as Hinv.
  destruct (ManagerInv_live ed this Hinv Hs) as (Hl & _ & This' & Ho' & [Hp _]).
  assert (This' = This) as -> by congruence.
  destruct (ProcessLightingData_calls env false ed this This Hs Ho Hp)
    as (ed' & E & Hs' & Hn' & Hl' & _ & HL & HN).
  exists ed'. split; [done|].
  split; [unfold IsLightingBuildCurrentlyRunning; by rewrite Hs'|].
  split; [rewrite Hl', Hl; apply difference_diag_L|]. done.
Qed.

Lemma ProcessLightingData_applies_witness :
  let ed := ExampleAfter [ExampleBuild] in
  let This := ExampleSystem [ExampleBuild] in
  ∃ ed',
    ProcessLightingData DemoEnv false ed = Some ed'
    ∧ IsLightingBuildCurrentlyRunning ed' = false
    ∧ LiveSystems ed' = ∅
    ∧ LightBuildNotification (Manager ed') = None
    ∧ Log (Glob ed')
      = Log (Glob ed) ++ FinishCalls DemoEnv This (Glob ed) ++ [OnLightingBuildKept]
        ++ (if ImportSucceeds DemoEnv This (Glob ed) then [] else [MessageLog_Open])
        ++ DtorCalls DemoEnv This
    ∧ Notifications (Glob ed')
      = Notifications (Glob (ClearCurrentNotification ed))
        ++ (if ImportSucceeds DemoEnv This (Glob ed) then []
            else [{| Text := FailureText (bMapBuildCancelled (Glob ed)) FText_Empty;
                     CompletionState := CS_None; bExpireAndFadeout := true |}]).
Proof.
  apply (ProcessLightingData_applies (ExampleEditor true) (ExampleAfter [ExampleBuild])
           DemoEnv 0%nat (ExampleSystem [ExampleBuild])).
  - repeat split.
  - apply ExampleAfter_Reachable. vm_compute. eauto.
  - vm_compute. reflexivity.
  - vm_compute. reflexivity.
Defined.

(** ** Calls without a build *)

(** The Cancel button and the import need a build.  In any state that
    calls on the manager reach, neither [CancelLightingBuild] nor
    [ProcessLightingData] returns when no build is running: the first
    dereferences the null system and the second stops at its check.  When
    a build is running, [CancelLightingBuild], the discarding
    [ProcessLightingData] and a further build request all return. *)
Theorem CancelLightingBuild_needs_build ed0 ed env :
  NoBuildYet ed0 → Reachable ed0 ed →
  (is_Some (CancelLightingBuild env ed) ↔ IsLightingBuildCurrentlyRunning ed = true)
  ∧ (IsLightingBuildCurrentlyRunning ed = false →
     ∀ bDiscardResults, ProcessLightingData env bDiscardResults ed = None)
  ∧ (IsLightingBuildCurrentlyRunning ed = true →
     is_Some (ProcessLightingData env true ed))
  ∧ (IsLightingBuildCurrentlyRunning ed = true →
     ∀ Options, is_Some (BuildLighting env Options ed)).
Proof.
  intros H0 HR.
  pose proof (Reachable_ManagerInv ed0 ed H0 HR) as Hinv.
  unfold IsLightingBuildCurrentlyRunning.
  destruct (StaticLightingSystem (Manager ed)) as [this|] eqn:Hs.
  - destruct (ManagerInv_live ed this Hinv Hs) as (Hl & _ & This & Ho & [Hp _]).
    rewrite bool_decide_eq_true_2 by done.
    split; [|split; [|split]].
    + split; [done|]. intros _.
      rewrite (CancelLightingBuild_spec env ed this This Hs Ho).
      destruct (IsAsyncBuilding This); [done|].
      destruct (FailLightingBuild_live env FText_Empty ed this This Hs Ho) as (ed' & ? & ? & -> & _).
      done.
    + done.
    + intros _.
      destruct (ProcessLightingData_live env true ed this This Hs Ho Hp) as (ed' & -> & _). done.
    + intros _ Options. unfold BuildLighting.
      match goal with |- context [CreateStaticLightingSystem env Options ?e] =>
        destruct (CreateStaticLightingSystem_busy env Options e this) as (ed' & -> & _)
      end; done.
  - rewrite bool_decide_eq_false_2 by (by intros []).
    split; [|split; [|split]].
    + unfold CancelLightingBuild. rewrite Hs. cbn. split; [by intros []|done].
    + intros _ b. unfold ProcessLightingData. by rewrite Hs.
    + done.
    + done.
Qed.

Lemma CancelLightingBuild_needs_build_witness :
  let ed := ExampleAfter [ExampleBuild] in
  (is_Some (CancelLightingBuild QuietEnv ed) ↔ IsLightingBuildCurrentlyRunning ed = true)
  ∧ (IsLightingBuildCurrentlyRunning ed = false →
     ∀ bDiscardResults, ProcessLightingData QuietEnv bDiscardResults ed = None)
  ∧ (IsLightingBuildCurrentlyRunning ed = true →
     is_Some (ProcessLightingData QuietEnv true ed))
  ∧ (IsLightingBuildCurrentlyRunning ed = true →
     ∀ Options, is_Some (BuildLighting QuietEnv Options ed)).
Proof.
  apply (CancelLightingBuild_needs_build (ExampleEditor true) (ExampleAfter [ExampleBuild])
           QuietEnv).
  - repeat split.
  - apply ExampleAfter_Reachable. vm_compute. eauto.
Defined.

(** ** Build requests *)

(** A build request when no build is running constructs a system and
    begins the Lightmass process on it.  A build is running afterwards
    exactly when the process started: the new system is then the only one
    alive, in the stage AmortizedExport, under the pending progress
    notification.  Otherwise the new system is destroyed at once and no
    notification is shown. *)
Theorem BuildLighting_idle ed0 ed env Options ed' :
  NoBuildYet ed0 → Reachable ed0 ed →
  IsLightingBuildCurrentlyRunning ed = false →
  BuildLighting env Options ed = Some ed' →
  IsLightingBuildCurrentlyRunning ed' = BuildStarts env Options (Glob ed)
  ∧ if BuildStarts env Options (Glob ed) then
      ∃ this This,
        StaticLightingSystem (Manager ed') = Some this
        ∧ LiveSystems ed' = {[this]}
        ∧ SystemObjects ed' !! this = Some This
        ∧ FStaticLightingSystem.CurrentBuildStage This = AmortizedExport
        ∧ LightBuildNotification (Manager ed') = Some (length (Notifications (Glob ed)))
        ∧ Notifications (Glob ed')
          = Notifications (Glob ed)
            ++ [{| Text := LOCTEXT "LightBuildMessage"; CompletionState := CS_Pending;
                   bExpireAndFadeout := false |}]
    else
      LiveSystems ed' = ∅
      ∧ LightBuildNotification (Manager ed') = LightBuildNotification (Manager ed)
      ∧ Notifications (Glob ed') = Notifications (Glob ed).
Proof.
  intros H0 HR Hrun.
  pose proof (Reachable_ManagerInv ed0 ed H0 HR) as Hinv.
  unfold IsLightingBuildCurrentlyRunning in Hrun.
  destruct (StaticLightingSystem (Manager ed)) as [this0|] eqn:Hs.
  { by rewrite bool_decide_eq_true_2 in Hrun. }
  clear Hrun.
  assert (Hl : LiveSystems ed = ∅) by (revert Hinv; unfold ManagerInv; by rewrite Hs).
  unfold BuildLighting, CreateStaticLightingSystem, CallOnThis. cbn. rewrite Hs.
  cbn. rewrite lookup_insert_eq. cbn.
  set (this := fresh (dom (SystemObjects ed))).
  destruct (BeginLightmassProcess env _) as [[b st]|] eqn:EB; cbn; [|done].
  destruct (BeginLightmassProcess_spec _ _ _ _ _ EB eq_refl)
    as (Hb & _ & Hstage & _ & _ & _ & _ & _ & _ & _ & HN).
  cbn in Hb.
  assert (HBS : BuildStarts env Options (emits [CloseTextureEditors; OnLightingBuildStarted]
                                           (Glob ed))
                = BuildStarts env Options (Glob ed)) by done.
  rewrite HBS in Hb. rewrite <- Hb. cbn in HN.
  destruct b.
  - intros [= <-]. unfold IsLightingBuildCurrentlyRunning, SendProgressNotification. cbn.
    split; [done|]. exists this, st.1.
    split; [done|]. split; [rewrite Hl; apply (right_id_L ∅ (∪))|].
    split; [by rewrite lookup_insert_eq|]. split; [done|].
    rewrite HN. split; [done|]. by rewrite alter_snoc.
  - match goal with |- DestroyStaticLightingSystem env ?e = _ → _ =>
      destruct (DestroyStaticLightingSystem_calls env e this st.1)
        as (ed3 & -> & Hs3 & Hn3 & Hl3 & _ & HN3 & _)
    end; [done | cbn; by rewrite lookup_insert_eq |].
    intros [= <-]. unfold IsLightingBuildCurrentlyRunning. rewrite Hs3.
    split; [done|]. cbn in *.
    split; [rewrite Hl3, Hl, (right_id_L ∅ (∪)); apply difference_diag_L|].
    split; [done|]. by rewrite HN3.
Qed.

Lemma BuildLighting_idle_witness :
  let ed := ExampleEditor true in
  let ed' := ExampleAfter [ExampleBuild] in
  IsLightingBuildCurrentlyRunning ed' = BuildStarts QuietEnv (ExampleOptions false) (Glob ed)
  ∧ if BuildStarts QuietEnv (ExampleOptions false) (Glob ed) then
      ∃ this This,
        StaticLightingSystem (Manager ed') = Some this
        ∧ LiveSystems ed' = {[this]}
        ∧ SystemObjects ed' !! this = Some This
        ∧ FStaticLightingSystem.CurrentBuildStage This = AmortizedExport
        ∧ LightBuildNotification (Manager ed') = Some (length (Notifications (Glob ed)))
        ∧ Notifications (Glob ed')
          = Notifications (Glob ed)
            ++ [{| Text := LOCTEXT "LightBuildMessage"; CompletionState := CS_Pending;
                   bExpireAndFadeout := false |}]
    else
      LiveSystems ed' = ∅
      ∧ LightBuildNotification (Manager ed') = LightBuildNotification (Manager ed)
      ∧ Notifications (Glob ed') = Notifications (Glob ed).
Proof.
  apply (BuildLighting_idle (ExampleEditor true) (ExampleEditor true) QuietEnv
           (ExampleOptions false) (ExampleAfter [ExampleBuild])).
  - repeat split.
  - constructor.
  - vm_compute. reflexivity.
  - vm_compute. reflexivity.
Defined.

(** ** What holds while a build runs *)

(** In any state that calls on the manager reach, a running build has a
    live system that owns a Lightmass processor, whose Swarm job was
    opened, and which is in one of the stages from AmortizedExport to
    WaitingForImport: between two calls no system is left in the stages
    NotRunning, Startup or Import.  When no build runs, no system is
    alive. *)
Theorem IsLightingBuildCurrentlyRunning_stages ed0 ed :
  NoBuildYet ed0 → Reachable ed0 ed →
  if IsLightingBuildCurrentlyRunning ed then
    ∃ this This,
      StaticLightingSystem (Manager ed) = Some this
      ∧ LiveSystems ed = {[this]}
      ∧ SystemObjects ed !! this = Some This
      ∧ is_Some (FStaticLightingSystem.LightmassProcessor This)
      ∧ FStaticLightingSystem.CurrentBuildStage This
        ∈ [AmortizedExport; SwarmKickoff; AsynchronousBuilding; AutoApplyingImport;
           WaitingForImport]
      ∧ OpenJob ∈ Log (Glob ed)
  else LiveSystems ed = ∅.
Proof.
  intros H0 HR.
  pose proof (Reachable_ManagerInv ed0 ed H0 HR) as Hinv.
  unfold IsLightingBuildCurrentlyRunning.
  destruct (StaticLightingSystem (Manager ed)) as [this|] eqn:Hs.
  - rewrite bool_decide_eq_true_2 by done.
    destruct (ManagerInv_live ed this Hinv Hs) as (Hl & HO & This & Ho & [Hp HS]).
    exists this, This. split; [done|]. split; [done|]. split; [done|].
    split; [|done]. by destruct (FStaticLightingSystem.LightmassProcessor This); [eexists|].
  - rewrite bool_decide_eq_false_2 by (by intros []).
    revert Hinv. unfold ManagerInv. by rewrite Hs.
Qed.

Lemma IsLightingBuildCurrentlyRunning_stages_witness :
  let ed := ExampleAfter [ExampleBuild; ExampleTick; ExampleTick] in
  if IsLightingBuildCurrentlyRunning ed then
    ∃ this This,
      StaticLightingSystem (Manager ed) = Some this
      ∧ LiveSystems ed = {[this]}
      ∧ SystemObjects ed !! this = Some This
      ∧ is_Some (FStaticLightingSystem.LightmassProcessor This)
      ∧ FStaticLightingSystem.CurrentBuildStage This
        ∈ [AmortizedExport; SwarmKickoff; AsynchronousBuilding; AutoApplyingImport;
           WaitingForImport]
      ∧ OpenJob ∈ Log (Glob ed)
  else LiveSystems ed = ∅.
Proof.
  apply (IsLightingBuildCurrentlyRunning_stages (ExampleEditor true)
           (ExampleAfter [ExampleBuild; ExampleTick; ExampleTick])).
  - repeat split.
  - apply ExampleAfter_Reachable. vm_compute. eauto.
Defined.

(** ** Crash tracking *)

#[local] Arguments CrashTrackingKept : simpl never.
#[local] Arguments OwesCrashTracking : simpl never.
#[local] Arguments CrashTrackingCalls : simpl never.

Lemma CrashTrackingCalls_app b l1 l2 :
  CrashTrackingCalls b (l1 ++ l2)
  = (CrashTrackingCalls b l1 + CrashTrackingCalls b l2)%nat.
Proof. unfold CrashTrackingCalls. by rewrite filter_app, length_app. Qed.

Lemma CrashTrackingCalls_cons b e l :
  CrashTrackingCalls b (e :: l)
  = ((if decide (e = SetCrashTrackingEnabled b) then 1 else 0) + CrashTrackingCalls b l)%nat.
Proof. unfold CrashTrackingCalls. rewrite filter_cons. by case_decide. Qed.

Lemma CrashTrackingCalls_nil b : CrashTrackingCalls b [] = 0%nat.
Proof. done. Qed.

Lemma CrashTrackingCalls_class P b es :
  P (SetCrashTrackingEnabled b) = false →
  Forall (λ e, P e = true) es → CrashTrackingCalls b es = 0%nat.
Proof.
  intros HP. induction 1 as [|e es He _ IH]; [done|].
  rewrite CrashTrackingCalls_cons, IH. case_decide; [congruence|done].
Qed.

Lemma CrashTrackingCalls_fmap {A} (f : A → Event) b l :
  (∀ x, f x ≠ SetCrashTrackingEnabled b) → CrashTrackingCalls b (f <$> l) = 0%nat.
Proof.
  intros Hf. induction l as [|x l IH]; [done|].
  rewrite fmap_cons, CrashTrackingCalls_cons, IH. case_decide; [by edestruct Hf|done].
Qed.

Ltac count_calls :=
  repeat first
    [ rewrite CrashTrackingCalls_app
    | rewrite CrashTrackingCalls_cons
    | rewrite CrashTrackingCalls_nil
    | rewrite CrashTrackingCalls_fmap by done
    | case_decide; [try discriminate|] ];
  try done; try (cbn; lia).

Lemma CrashTrackingCalls_dtor env This :
  CrashTrackingCalls false (DtorCalls env This) = 0%nat
  ∧ (CrashTrackingCalls true (DtorCalls env This)
     ≤ Nat.b2n (FStaticLightingSystem.bCrashTrackerOriginallyEnabled This))%nat.
Proof.
  unfold DtorCalls.
  destruct (FStaticLightingSystem.bCrashTrackerOriginallyEnabled This);
    repeat case_bool_decide; cbn [andb Nat.b2n]; split; count_calls.
Qed.

Lemma CrashTrackingCalls_finish env This g b :
  CrashTrackingCalls b (FinishCalls env This g) = 0%nat.
Proof.
  unfold FinishCalls.
  destruct (CompleteRun_Result env),
    (bOnlyBuildVisibility (FStaticLightingSystem.Options This)), (ImportSucceeds env This g),
    (HasScene (GWorld g)); cbn [andb]; count_calls.
Qed.

Lemma CrashTrackingCalls_process env Options g Meshes Mappings :
  CrashTrackingCalls true (ProcessCalls env Options g Meshes Mappings) = 0%nat
  ∧ (BuildStarts env Options g = true → is_Some (CrashTracker env) →
     CrashTrackingCalls false (ProcessCalls env Options g Meshes Mappings) = 1%nat).
Proof.
  unfold ProcessCalls, BuildStarts.
  destruct (bForceNoPrecomputedLighting (GWorld g) || negb (bAllowStaticLighting env)),
    (bOnlyBuildVisibility Options && negb (bPrecomputeVisibility (GWorld g))),
    (IsSwarmConnectionIsValid env), (bMapBuildCancelled g), (OpenJob_Result env),
    (CrashTracker env); cbn [andb negb];
    (split; [count_calls|]); intros ? [? ?]; try discriminate; count_calls.
Qed.

(** A tick in stage AsynchronousBuilding: the system it leaves and the
    calls it makes. *)
Lemma UpdateLightingBuild_AsynchronousBuilding_calls env ed this This :
  StaticLightingSystem (Manager ed) = Some this →
  SystemObjects ed !! this = Some This →
  FStaticLightingSystem.CurrentBuildStage This = AsynchronousBuilding →
  FStaticLightingSystem.LightmassProcessor This ≠ None →
  ∃ ed', UpdateLightingBuild env this ed = Some ed'
    ∧ if Update_Result env && negb (IsProcessingCompletedSuccessfully env) then
        StaticLightingSystem (Manager ed') = None
        ∧ Log (Glob ed') = Log (Glob ed) ++ Update :: MessageLog_Open :: DtorCalls env This
      else
        StaticLightingSystem (Manager ed') = Some this
        ∧ (FStaticLightingSystem.bCrashTrackerOriginallyEnabled <$> SystemObjects ed' !! this)
          = Some (FStaticLightingSystem.bCrashTrackerOriginallyEnabled This)
        ∧ Log (Glob ed') = Log (Glob ed) ++ [Update].
Proof.
  intros Hs Ho Hstage Hp.
  unfold UpdateLightingBuild. rewrite Ho. simpl. rewrite Hstage.
  destruct (FStaticLightingSystem.LightmassProcessor This) as [proc|] eqn:Eproc; [|congruence].
  simpl.
  match goal with |- context [SetNotificationText ?T ?e] =>
    set (ed1 := SetNotificationText T e);
    assert (H1 : NotificationsOnly (set_Glob (emit Update (Glob ed)) ed) ed1)
      by apply SetNotificationText_only
  end.
  destruct H1 as (Hs1 & Ho1 & Hl1 & Hg1 & Hc1). simpl in *.
  destruct (Update_Result env); cbn [andb].
  - destruct (ClearCurrentNotification_only ed1) as (Hs2 & Ho2 & Hl2 & Hg2 & Hc2).
    set (ed2 := ClearCurrentNotification ed1) in *.
    destruct (IsProcessingCompletedSuccessfully env); cbn [negb].
    + eexists. split; [reflexivity|].
      destruct (WriteThis_spec this
                  (FStaticLightingSystem.set_CurrentBuildStage AutoApplyingImport) ed2)
        as (Hm & Hl3 & Hg3 & Ho3).
      rewrite Hm, Hg3, Hg2, Hg1, Hs2, Hs1.
      split; [done|]. split; [|done].
      rewrite (Ho3 This); [done|]. by rewrite Ho2, Ho1.
    + destruct (FailLightingBuild_calls env FText_Empty ed2 this This)
        as (ed3 & -> & Hs3 & _ & _ & Hg3 & _); [congruence | congruence |].
      simpl. eexists. split; [reflexivity|].
      destruct (WriteThis_spec this
                  (FStaticLightingSystem.set_CurrentBuildStage NotRunning) ed3)
        as (Hm & Hl4 & Hg4 & Ho4).
      rewrite Hm, Hg4, Hg3, Hg2, Hg1, <- app_assoc. done.
  - eexists. split; [reflexivity|]. rewrite Hs1, Ho1, Ho, Hg1. done.
Qed.

Lemma OwesCrashTracking_null ed :
  StaticLightingSystem (Manager ed) = None → OwesCrashTracking ed = false.
Proof. unfold OwesCrashTracking. by intros ->. Qed.

Lemma OwesCrashTracking_live ed this This :
  StaticLightingSystem (Manager ed) = Some this →
  SystemObjects ed !! this = Some This →
  OwesCrashTracking ed = FStaticLightingSystem.bCrashTrackerOriginallyEnabled This.
Proof. unfold OwesCrashTracking. intros -> Ho. cbn. by rewrite Ho. Qed.

Lemma OwesCrashTracking_flag ed this b :
  StaticLightingSystem (Manager ed) = Some this →
  (FStaticLightingSystem.bCrashTrackerOriginallyEnabled <$> SystemObjects ed !! this) = Some b →
  OwesCrashTracking ed = b.
Proof.
  unfold OwesCrashTracking. intros -> Ho. cbn.
  destruct (SystemObjects ed !! this); cbn in *; congruence.
Qed.

Lemma CrashTrackingKept_same ed ed' :
  StaticLightingSystem (Manager ed') = StaticLightingSystem (Manager ed) →
  SystemObjects ed' = SystemObjects ed →
  Log (Glob ed') = Log (Glob ed) →
  CrashTrackingKept ed ed'.
Proof.
  intros Hs Ho Hg. exists []. rewrite app_nil_r. split; [done|].
  unfold OwesCrashTracking. rewrite Hs, Ho. count_calls.
Qed.

(** An end of the build that runs the destructor after calls that do not
    touch crash tracking. *)
Lemma CrashTrackingKept_end env ed ed' this This es :
  StaticLightingSystem (Manager ed) = Some this →
  SystemObjects ed !! this = Some This →
  StaticLightingSystem (Manager ed') = None →
  Log (Glob ed') = Log (Glob ed) ++ es ++ DtorCalls env This →
  CrashTrackingCalls true es = 0%nat →
  CrashTrackingKept ed ed'.
Proof.
  intros Hs Ho Hs' Hg Hes. eexists. split; [exact Hg|].
  rewrite (OwesCrashTracking_null ed' Hs'), (OwesCrashTracking_live ed this This Hs Ho).
  destruct (CrashTrackingCalls_dtor env This) as [_ Hd].
  rewrite !CrashTrackingCalls_app, Hes. cbn. lia.
Qed.

Lemma UpdateLightingBuild_CrashTrackingKept env ed this ed' :
  ManagerInv ed →
  StaticLightingSystem (Manager ed) = Some this →
  UpdateLightingBuild env this ed = Some ed' →
  CrashTrackingKept ed ed'.
Proof.
  intros Hinv Hs E.
  destruct (ManagerInv_live ed this Hinv Hs) as (Hl & Hg & This & Ho & HB).
  pose proof HB as [Hp HS].
  rewrite !elem_of_cons, elem_of_nil in HS.
  destruct HS as [HS|[HS|[HS|[HS|[HS|[]]]]]].
  - destruct (UpdateLightingBuild_AmortizedExport env ed this This Ho HS Hp)
      as (ed2 & E2 & Hm & _ & _ & H).
    assert (ed2 = ed') as -> by congruence.
    assert (Hs' : StaticLightingSystem (Manager ed') = Some this) by (by rewrite Hm).
    destruct (ExecuteAmortizedMaterialExport_Result env).
    + cbn zeta in H. destruct H as [Ho' HL]. eexists. split; [exact HL|].
      rewrite (OwesCrashTracking_live ed this This Hs Ho),
        (OwesCrashTracking_live ed' this _ Hs' Ho').
      destruct (FStaticLightingSystem.bCrashTrackerOriginallyEnabled This) eqn:Ef;
        [case_bool_decide|]; cbn [andb]; cbn; rewrite ?Ef; count_calls.
    + destruct H as [Ho' HL]. eexists. split; [exact HL|].
      rewrite (OwesCrashTracking_live ed this This Hs Ho),
        (OwesCrashTracking_live ed' this _ Hs' Ho'). count_calls.
  - destruct (UpdateLightingBuild_SwarmKickoff env ed this This Hs Ho HS Hp) as (ed2 & E2 & H).
    assert (ed2 = ed') as -> by congruence.
    destruct (BeginRun_Result env).
    + destruct H as (Hm & _ & Ho' & HL).
      assert (Hs' : StaticLightingSystem (Manager ed') = Some this) by (by rewrite Hm).
      eexists. split; [exact HL|].
      rewrite (OwesCrashTracking_live ed this This Hs Ho),
        (OwesCrashTracking_live ed' this _ Hs' Ho'). cbn. count_calls.
    + destruct H as (Hs' & _ & HL & _).
      apply (CrashTrackingKept_end env ed ed' this This [BeginRun; MessageLog_Open] Hs Ho Hs');
        [|count_calls].
      rewrite HL. unfold DtorCalls.
      destruct (FStaticLightingSystem.LightmassProcessor This) as [proc|]; [|done].
      by rewrite (bool_decide_eq_true_2 (is_Some (Some proc))) by eauto.
  - destruct (UpdateLightingBuild_AsynchronousBuilding_calls env ed this This Hs Ho HS Hp)
      as (ed2 & E2 & H).
    assert (ed2 = ed') as -> by congruence.
    destruct (Update_Result env && negb (IsProcessingCompletedSuccessfully env)).
    + destruct H as [Hs' HL].
      apply (CrashTrackingKept_end env ed ed' this This [Update; MessageLog_Open] Hs Ho Hs');
        [done|count_calls].
    + destruct H as (Hs' & Hf & HL). eexists. split; [exact HL|].
      rewrite (OwesCrashTracking_live ed this This Hs Ho),
        (OwesCrashTracking_flag ed' this _ Hs' Hf). count_calls.
  - revert E. unfold UpdateLightingBuild. rewrite Ho. simpl. rewrite HS.
    destruct (CanAutoApplyLighting env).
    + destruct (SendBuildDoneNotification_only false ed) as (Hs1 & Ho1 & Hl1 & Hg1 & Hc1).
      set (ed1 := SendBuildDoneNotification false ed) in *.
      destruct (ProcessLightingData_calls env false ed1 this This)
        as (ed2 & -> & Hs2 & _ & _ & _ & HL & _); [congruence | congruence | exact Hp |].
      simpl. intros [= <-].
      destruct (WriteThis_spec this (FStaticLightingSystem.set_CurrentBuildStage NotRunning) ed2)
        as (Hm & _ & Hg3 & _).
      eapply (CrashTrackingKept_end env ed _ this This
                (FinishCalls env This (Glob ed1) ++ [OnLightingBuildKept]
                 ++ (if ImportSucceeds env This (Glob ed1) then [] else [MessageLog_Open]))
                Hs Ho).
      * by rewrite Hm.
      * rewrite Hg3, HL, Hg1, <- !app_assoc. done.
      * rewrite !CrashTrackingCalls_app, CrashTrackingCalls_finish.
        destruct (ImportSucceeds _ _ _); count_calls.
    + intros [= <-].
      destruct (SendBuildDoneNotification_only true ed) as (Hs1 & Ho1 & Hl1 & Hg1 & Hc1).
      set (ed1 := SendBuildDoneNotification true ed) in *.
      destruct (WriteThis_spec this (FStaticLightingSystem.set_CurrentBuildStage WaitingForImport) ed1)
        as (Hm & Hl3 & Hg3 & Ho3).
      specialize (Ho3 This). rewrite Ho1 in Ho3. specialize (Ho3 Ho).
      exists []. rewrite app_nil_r. split; [congruence|].
      rewrite (OwesCrashTracking_live ed this This Hs Ho),
        (OwesCrashTracking_live _ this _ (eq_trans (f_equal _ Hm) (eq_trans Hs1 Hs)) Ho3).
      count_calls.
  - revert E. unfold UpdateLightingBuild. rewrite Ho. simpl. rewrite HS.
    intros [= <-]. by apply CrashTrackingKept_same.
Qed.

Lemma Run_CrashTrackingKept env c ed ed' :
  ManagerInv ed → Run env c ed = Some ed' → CrashTrackingKept ed ed'.
Proof.
  intros Hinv. destruct c; simpl.
  - (* BuildLighting *)
    unfold BuildLighting.
    destruct (StaticLightingSystem (Manager ed)) as [this0|] eqn:Hs.
    + match goal with |- CreateStaticLightingSystem env _ ?e = _ → _ =>
        destruct (CreateStaticLightingSystem_busy env Options e this0)
          as (ed2 & -> & Hm & Ho & _ & Hg); [done|]
      end.
      intros [= <-]. exists [CloseTextureEditors; OnLightingBuildStarted].
      split; [by rewrite Hg|].
      unfold OwesCrashTracking. rewrite Hm, Ho. cbn. count_calls.
    + unfold CreateStaticLightingSystem, CallOnThis. cbn. rewrite Hs.
      cbn. rewrite lookup_insert_eq. cbn.
      set (this := fresh (dom (SystemObjects ed))).
      destruct (BeginLightmassProcess env _) as [[b st]|] eqn:EB; cbn; [|done].
      destruct (BeginLightmassProcess_spec _ _ _ _ _ EB eq_refl)
        as (Hb & (esC & HesC & HL) & _ & _ & Hf & _).
      cbn in Hb, HL, Hf.
      destruct (CrashTrackingCalls_process env Options
                  (emits [CloseTextureEditors; OnLightingBuildStarted] (Glob ed))
                  (FStaticLightingSystem.Meshes st.1) (FStaticLightingSystem.Mappings st.1))
        as [Hp1 Hp2].
      assert (HC : ∀ b', CrashTrackingCalls b' esC = 0%nat).
      { intros b'. by apply (CrashTrackingCalls_class CollectEvent). }
      pose proof (OwesCrashTracking_null ed Hs) as Hnull.
      destruct b.
      * intros [= <-]. eexists. split.
        { unfold SendProgressNotification. cbn. rewrite HL, <- app_assoc. reflexivity. }
        rewrite Hnull, (OwesCrashTracking_live _ this st.1);
          [|done|unfold SendProgressNotification; cbn; by rewrite lookup_insert_eq].
        rewrite Hf, !CrashTrackingCalls_app, !HC, Hp1.
        destruct (CrashTracker env) as [c|] eqn:Ec; cbn [default].
        -- rewrite Hp2 by eauto. destruct c, (_ || _); count_calls.
        -- cbn. destruct (_ || _); count_calls.
      * match goal with |- DestroyStaticLightingSystem env ?e = _ → _ =>
          destruct (DestroyStaticLightingSystem_calls env e this st.1)
            as (ed3 & -> & Hs3 & _ & _ & Hg3 & _)
        end; [done | cbn; by rewrite lookup_insert_eq |].
        intros [= <-]. cbn in Hg3. eexists. split.
        { rewrite Hg3, HL, <- !app_assoc. reflexivity. }
        rewrite Hnull, (OwesCrashTracking_null _ Hs3).
        destruct (CrashTrackingCalls_dtor env st.1) as [_ Hd]. rewrite Hf in Hd.
        rewrite !CrashTrackingCalls_app, !HC, Hp1. cbn in *.
        destruct (_ || _); count_calls.
  - (* UpdateBuildLighting *)
    unfold UpdateBuildLighting.
    destruct (StaticLightingSystem (Manager ed)) as [this|] eqn:Hs.
    + by apply UpdateLightingBuild_CrashTrackingKept.
    + intros [= <-]. by apply CrashTrackingKept_same.
  - (* CancelLightingBuild *)
    intros E.
    destruct (StaticLightingSystem (Manager ed)) as [this|] eqn:Hs;
      [|unfold CancelLightingBuild in E; rewrite Hs in E; discriminate].
    destruct (ManagerInv_live ed this Hinv Hs) as (Hl & Hg & This & Ho & HB).
    rewrite (CancelLightingBuild_spec env ed this This Hs Ho) in E.
    destruct (IsAsyncBuilding This).
    + injection E as <-.
      match goal with |- context [ClearCurrentNotification ?e] =>
        destruct (ClearCurrentNotification_only e) as (Hs2 & Ho2 & _ & Hg2 & _)
      end.
      by apply CrashTrackingKept_same.
    + destruct (FailLightingBuild_calls env FText_Empty ed this This Hs Ho)
        as (ed3 & E3 & Hs3 & _ & _ & Hg3 & _).
      assert (ed3 = ed') as -> by congruence.
      apply (CrashTrackingKept_end env ed ed' this This [MessageLog_Open] Hs Ho Hs3);
        [done|count_calls].
  - (* ProcessLightingData *)
    intros E.
    destruct (StaticLightingSystem (Manager ed)) as [this|] eqn:Hs;
      [|unfold ProcessLightingData in E; rewrite Hs in E; discriminate].
    destruct (ManagerInv_live ed this Hinv Hs) as (Hl & Hg & This & Ho & [Hp HS]).
    destruct (ProcessLightingData_calls env bDiscardResults ed this This Hs Ho Hp)
      as (ed2 & E2 & Hs2 & _ & _ & _ & H).
    assert (ed2 = ed') as -> by congruence.
    destruct bDiscardResults.
    + destruct H as [HL _].
      apply (CrashTrackingKept_end env ed ed' this This [] Hs Ho Hs2); [done|count_calls].
    + destruct H as [HL _].
      eapply (CrashTrackingKept_end env ed ed' this This
                (FinishCalls env This (Glob ed) ++ [OnLightingBuildKept]
                 ++ (if ImportSucceeds env This (Glob ed) then [] else [MessageLog_Open]))
                Hs Ho Hs2).
      * rewrite HL, <- !app_assoc. done.
      * rewrite !CrashTrackingCalls_app, CrashTrackingCalls_finish.
        destruct (ImportSucceeds _ _ _); count_calls.
Qed.

(** Builds switch crash tracking on only to undo what they did: in every
    state that calls on the manager reach from an editor that never built,
    the calls [SetCrashTrackingEnabled(true)] made so far, plus one if the
    running build still remembers a crash tracker that it found capturing,
    are at most as many as the calls [SetCrashTrackingEnabled(false)]. *)
Theorem CrashTracking_balance ed0 ed :
  NoBuildYet ed0 → Reachable ed0 ed →
  (CrashTrackingCalls true (Log (Glob ed)) + Nat.b2n (OwesCrashTracking ed)
   ≤ CrashTrackingCalls false (Log (Glob ed)))%nat.
Proof.
  intros H0 HR. induction HR as [|ed ed' env c HR IH E].
  - destruct H0 as (Hs & _ & HL). rewrite HL, (OwesCrashTracking_null ed0 Hs). count_calls.
  - pose proof (Reachable_ManagerInv ed0 ed H0 HR) as Hinv.
    destruct (Run_CrashTrackingKept env c ed ed' Hinv E) as (es & HL & H).
    rewrite HL, !CrashTrackingCalls_app. lia.
Qed.

Lemma CrashTracking_balance_witness :
  let ed := ExampleAfter [ExampleBuild; ExampleTick] in
  (CrashTrackingCalls true (Log (Glob ed)) + Nat.b2n (OwesCrashTracking ed)
   ≤ CrashTrackingCalls false (Log (Glob ed)))%nat.
Proof.
  apply (CrashTracking_balance (ExampleEditor true) (ExampleAfter [ExampleBuild; ExampleTick])).
  - repeat split.
  - apply ExampleAfter_Reachable. vm_compute. eauto.
Defined.
